(* ===== verification/_CoqProject ===== *)
-Q . S2P
Prelude.v
GoStrings.v
Fmt.v
Crypto.v
Model.v
Policy.v
Modules.v
Sensitive.v
Scheduler.v
SchedulerFacts.v
Repository.v
MemoryRepo.v
MemoryRepoFacts.v
Hub.v
World.v
MetricsFacts.v
Spec.v
StreamService.v
Server.v
Auth.v
AuthFacts.v
ServerFacts.v
ServerWorkers.v
Config.v
ConfigFacts.v
AgentTools.v
AgentToolsFacts.v
AgentRuntime.v
AgentRuns.v
System.v
AgentFacts.v
Dashboard.v
Mux.v
Routes.v
RoutesFacts.v
HttpGate.v
Database.v
PostgresRepo.v
PostgresFacts.v
PostgresWf.v
PostgresCreate.v
PostgresRestart.v
LlmClient.v
LlmClientFacts.v
Catalog.v
CatalogFacts.v
Runner.v
RunnerFacts.v
AgentLocks.v
AgentLocksFacts.v
Builtin.v
AgentHost.v
WorkerLoop.v
RemoteDeploy.v
Startup.v
StartupFacts.v
Flags.v
Shutdown.v
Interleave.v
InterleaveFacts.v
InterleaveGate.v
PostgresJobs.v
