(* ===== verification/Prelude.v ===== *)
(** * ADP: a verification development of the AI-assisted Dispatch Platform

    ADP is a control plane in Go. An operator, or an agent driven by a language
    model, creates jobs; a policy decides which of them need an approval; jobs
    are assigned to workers and delivered over one stream per worker; results
    come back over the stream or over HTTP. This library models that control
    plane as Rocq definitions translated from [src/internal], and proves what
    makes it correct.

    ** Parts and how they interact

    - Policies and modules: [Policy] (internal/domain/policy/engine.go), and in
      [Modules] the modules, the registry and the template engine
      (internal/module/registry.go, internal/module/builtin/template_module.go,
      internal/domain/template/engine.go). [Builtin] has the two modules of
      internal/module/builtin/host.go, which no code registers, and the shell
      command of a template module.
    - Sensitive data: [Sensitive] (internal/domain/model/sensitive.go), with
      the regular expression of the redaction and its matcher.
    - Storage: [Scheduler] is the store behind one lock
      (internal/infrastructure/scheduler/store.go). [Repository] is the
      persistence interface (internal/infrastructure/db/repository.go): a class
      of operations, and the class [JobLaws] of what the handlers rely on.
      [MemoryRepo] implements it on the store
      (internal/infrastructure/db/memory.go), and [MemoryRepoFacts] proves the
      laws.
    - Delivery: [Hub] holds one Go channel per connected worker
      (internal/infrastructure/workerstream/hub.go), [StreamService] is the
      loop that serves a stream (internal/infrastructure/workerstream/service.go).
    - HTTP: [Server] (internal/interfaces/http: job.go, approval.go, audit.go,
      conversation.go, case.go, parts of server.go), [ServerWorkers]
      (worker.go), [Config] (config.go and the synchronization of server.go),
      [Auth] (internal/infrastructure/auth/service.go and user.go, on HMAC-SHA256
      and base64 as defined in [Crypto]) and [Dashboard] (dashboard.go,
      metrics.go, ui.go). A handler takes the parts of the request it reads, a
      body being the result of decoding it, and returns a status and a body.
      [Routes] is the route table of server.go: [serve] takes a request as it
      arrives, finds its route with the multiplexer of net/http, which [Mux]
      defines, authenticates it and runs its handler.
    - The agent: [AgentTools] holds its six tools
      (internal/interfaces/http/agent.go), [AgentRuntime] the bounded loop
      (internal/application/agent/runtime.go), [AgentRuns] the stored runs that
      pause for an approval and resume (internal/interfaces/http/agent_runs.go),
      [LlmClient] the two ways to ask the model
      (internal/infrastructure/llm/client.go).
    - The database: [Database] has the tables of schema.sql as maps with their
      constraints and a statement as an atomic change that may be refused;
      [PostgresRepo] has the operations of internal/infrastructure/db/postgres.go
      as their statements. It is a second instance of [Repository] and
      [JobLaws].
    - The worker: [Catalog] reads the service profiles
      (internal/config/services.go), [Runner] executes jobs and serves one
      stream (internal/infrastructure/worker/runner.go, client.go), [AgentLocks]
      has the goroutines of that stream operation by operation, with the mutex
      around the stream, the reader-writer lock around the runner, the window of
      the stream and the timer of a process (client.go, runner.go), [WorkerLoop]
      reconnects (client.go). [AgentHost] has the facts that a heartbeat reports
      and the calls over HTTP that the stream has replaced (client.go).
      [RemoteDeploy] is what the server does on a remote
      host to start one (internal/infrastructure/deploy/deploy.go).
    - The start: [Startup] reads and checks the configuration, builds the server
      and starts a worker (cmd/server/root.go, cmd/worker/root.go, NewServer of
      server.go). [Flags] has the flags with their defaults and keys, [Shutdown]
      what happens after the signal (cmd/server/root.go).
    - [World] is the state the handlers share (repository, hub, policy, module
      registry, template engine, metrics) with the monad they are written in: a
      program is a tree of atomic operations, which [run] runs alone.
    - [Spec] is the abstract control plane; [System] collects every way the
      state of the server changes into one step relation, and [HttpGate] puts
      the requests of [Routes] on top of it. [Interleave] runs programs as
      threads of a pool, one atomic operation at a time, with the rely-guarantee
      logic that proves them; [InterleaveFacts] applies it to the handlers and
      [InterleaveGate] to the server.

    A file named after a part with the suffix Facts holds its theorems;
    [PostgresWf], [PostgresCreate], [PostgresRestart] and [PostgresJobs] are
    those of the database, the last one with the operations on jobs statement
    by statement.

    [Prelude], [GoStrings], [Fmt] and [Model] underlie all of them: results and
    errors, record updates, the order of map iteration, machine integers and
    binary64; the string functions of Go over bytes and UTF-8; [fmt]; and the
    structs of internal/domain/model. Definitions keep the names of the code.

    ** How the code is represented

    - A Go string is a Rocq string of bytes; an int64 or uint64 is a [Z] with
      its wrap-around ([i64_add], [u64_add]); a float64 is a [spec_float]; an
      [error] keeps its format and arguments; a nil map, which panics on
      assignment, is [None].
    - A handler is a program of atomic operations on the state. Run alone it is
      a function from the state to an optional result and a state; [None] is a
      panic and keeps the state reached so far.
    - The clock and the iteration order of maps are readings of an [Oracle], so
      every theorem holds for every clock and every order. No theorem assumes
      that clock readings increase unless it says so.
    - Code outside the repository is a parameter. [JSON], [RequestJSON],
      [ClaimsJSON], [ChatJSON], [YAML] and [ConfigYAML] are the decoders and
      encoders at the types they are used at, [TextTemplate] is text/template
      beyond the field actions, [Printable] is the Unicode table behind %q,
      [Bcrypt] the password hash, [Postgres] what the database rounds, orders,
      normalizes and refuses, [Files], [Shell], [Exec] and [HostOS] the host of
      a worker, [HttpClient] its connection over HTTP, [Viper]
      the settings a process starts with, [Transport] the HTTP connection to the
      model; the model as the agent sees it ([LLM]) and the shell of a module
      are arbitrary functions. Hypotheses about parameters are named where they
      occur; the witnesses instantiate the parameters with concrete functions.
    - The tables of users and the rest of a database are the same database in
      the code; a server in the model holds them as two values that start from
      the same one, and no statement touches both.
    - The store draws an identifier from an atomic counter before it takes the
      lock. [SchedulerFacts] therefore splits creation into two steps that
      interleave with every other operation. In [System] a handler is one step.
      In [Interleave] a handler is a thread, and between any two of its calls
      of the repository, the hub, the registry, the policy engine or the
      metrics every other thread may run; a call is one step. What happens
      inside a call is the subject of [SchedulerFacts], [PostgresCreate] and [PostgresJobs]; an
      example in [MemoryRepoFacts] shows the race inside the CreateJob of the
      in-memory repository, whose three sections under the lock are one step
      here. Applying the modules and the policy of one configuration is also
      one step.

    ** What the theorems show

    - Concurrency ([Interleave], [InterleaveFacts], [InterleaveGate]): from an
      empty repository, however the operations of requests, stream events, agent runs and tool calls
      interleave, a job that requires approval is ready or running only if it
      was approved, and whatever is pushed to the stream of a worker was stored
      as running on that worker when it was assigned. The steps of the
      pool are those in which the counter of the job identifiers does not wrap
      around and no tool call uses a call identifier that another one used in
      the same run; the witnesses run such pools.
    - The control plane ([System], [ServerFacts], [ServerWorkers],
      [StreamService]): every handler, stream event, tool call under a fresh
      call identifier and reload is a sequence of steps of [Spec], on any
      repository with the laws, from a state with the invariant of [Spec]. So a job that requires approval is ready to run
      or running only if it was approved; and a job is queued for the stream of
      a worker only while it is stored as running on that worker. A worker
      changes only its own jobs, streams need the token and a registration, and
      remote deployment is confined to key files below /etc/adp/ssh.
    - HTTP ([RoutesFacts], [HttpGate], [AuthFacts]): the gate holds for requests
      as they arrive, from whomever; a request without a valid token changes
      nothing; users change only by a request with a valid token, and the
      policy, the modules and the templates only by one of an administrator. A
      token is accepted exactly when it is signed with the secret and has not
      expired. [MuxFacts] shows that the multiplexer takes the most specific
      pattern that matches.
    - The start ([StartupFacts]): a server that starts has its secrets set and is
      on a database in production; if the jobs of the database pass the gate, it
      keeps it from then on, handler by handler, under fresh call identifiers; when it
      starts, and that bad managed configurations do not stop it; that both
      commands start the same worker. [Flags] shows that without settings the
      programs are refused, and what they do when only the secrets are given;
      [Shutdown] that the server stops in bounded time.
    - Managed configurations ([ConfigFacts]): when a reload succeeds and what it
      leaves, what a synchronization may change on the in-memory repository.
    - The database: the operations satisfy the laws of the interface, keep the
      tables consistent ([PostgresWf]), create one job under a key however
      their statements interleave with everything but DeleteJob
      ([PostgresCreate]), draw fresh identifiers after a restart that could read
      every table, and keep the gate across restarts ([PostgresRestart]).
      However the statements of the operations on jobs interleave, the gate
      holds, as long as AssignJobToWorkers is called as the handlers call it, for
      jobs that may be started, and a job is decided on once ([PostgresJobs]).
    - The client of the model ([LlmClientFacts]): a streamed answer is assembled
      to what the call without streaming returns, and never yields a tool call
      without an identifier, a name and JSON arguments.
    - The worker ([CatalogFacts], [RunnerFacts], [WorkerLoop]): profiles are
      loaded only from a protected file at the path that is read, and reading a
      printed list gives it back; secrets of profiles stay out of commands;
      results are of delivered jobs, at most one for each delivery, across all
      connections. [AgentLocksFacts] shows that the goroutines of a worker never
      block each other: its operations, the timers and the reads of the server
      alone end after boundedly many steps, with every delivered job answered
      once while the stream is open, even if no process ends. [Agent.step] leaves
      the locks out: its steps are whole sections of that model. A remote
      deployment ([RemoteDeploy]) opens each session only after the one before
      ran without an error, and no command depends on the token.
    - The metrics of the agent ([MetricsFacts]): every counter is the int64 sum
      of what was recorded, and the counts are in order as long as nothing
      overflows.
    - The hub: no interleaving of its operations panics, and messages arrive in
      order up to the capacity of the channel.
    - The agent ([AgentFacts], [AgentToolsFacts]): whatever the model answers,
      a run ends within its step bound, executes declared tools only, acts only
      on workers it listed before, and its answer keeps the two evidence
      sections unless the run is paused; an operation comes from a registered and allowed module with
      complete parameters that hold no secret; a stored run ends in the status
      its outcome calls for, waiting for an approval exactly when the last tool
      result needs one, and a finished run is not executed again.
    - The store ([SchedulerFacts]): identifiers are distinct under every
      interleaving, jobs are never lost and change only by guarded updates, the
      oldest job is assigned first, listings are complete and sorted, similar
      incident cases are the best scored ones, and metrics count what is stored.
    - The in-memory repository: idempotent creation, event logs that resume
      without loss, configurations that are read back.
    - Sensitive data: the strings of sanitized maps hold no credential at any
      depth of maps and slices, values of other types are kept as they are,
      redaction is idempotent, and job parameters are accepted exactly when no
      entry is an inline secret.
    - Policies and templates: the gates of a configured engine, MergeRisk as a
      maximum, and exactly when rendering succeeds and with what.

    Where the code does less than it means to, an [Example] shows it at a
    concrete state: a second push of an approved job, a reused call identifier
    that skips an approval, a panic on nil parameters, the step of a failed
    resume, a completion without approval, lost host facts, a deletion that
    keeps the job, colliding configuration identifiers, hyphenated keys and
    slices that are not redacted, a worker token that stops workers, two
    dispatches at once that start a job twice, a race between two assignments
    on the database, a job that is deleted while it runs, requests that a shutdown
    cuts off, a goroutine left behind by every connection of a worker, a server
    that starts and dies because its HTTP address is in use, a truncated stream that is taken
    for complete, a synchronization mode that is accepted but has no effect.

    ** Bounds and fuel

    The loop of the agent is structural on the number of remaining steps,
    maxSteps + 1 - startStep, which is how often the loop of the code runs. The
    matcher of the regular expression and the functions that split, replace
    and quote strings take the length of the text as fuel; every iteration
    consumes at least one byte. The tool calls of a stream are collected with
    one more step than there are calls. The steps of a worker by itself are
    bounded by [AgentLocksFacts.work]. Identifiers come from a uint64 counter: their
    theorems are stated for fewer than 2^64 creations.

    ** What is not modelled

    A statement of the database is refused or has its effect: one that commits
    while its answer is lost on the way is not represented. Between the look at
    a file and its opening the host does not change. The window of a stream is
    counted in messages, and that the server reads its end of a stream is taken
    for granted, as its receiving goroutine waits for nothing but the repository;
    the start of a process returns at once. The shell that runs a command, the
    files and the counters of a host are input and output, as are the connection operations Ping, Migrate and Close,
    the loops of the HTTP and gRPC servers, and the embedded files of the user
    interface. The lines written to the log are left out. The check of the
    multiplexer for conflicting patterns is left out, since the routes are
    fixed. The generated protocol code is left out. A partial list that a
    failing query returns next to its error is an argument of the pages that
    ignore the error. How viper combines flags, environment and files is its
    own; [Flags] assumes only that an unset key has the default of its flag. *)
From stdpp Require Export base gmap strings list fin_maps pretty sorting.
From Stdlib Require Export ZArith Lia Sorted.

(** ** Errors and results

    A Go [error] is kept as its format string together with the values that
    are formatted into it, so that two errors are equal exactly when they are
    built by the same call on the same values; [%w] nests another error. *)
Inductive error : Type :=
  | Errorf (format : string) (args : list error_arg)
with error_arg : Type :=
  | AStr (s : string)
  | AInt (z : Z)
  | AErr (e : error).

(** [errors.New]. *)
Definition new_error (msg : string) : error := Errorf msg [].

(** A Go pair [(T, error)] whose first component is only read when the error
    is nil. *)
Inductive result (A : Type) : Type :=
  | Ok (a : A)
  | Err (e : error).
Arguments Ok {A} a.
Arguments Err {A} e.

#[export] Instance result_ret : MRet result := λ A a, Ok a.
#[export] Instance result_bind : MBind result := λ A B k m,
  match m with Ok a => k a | Err e => Err e end.
#[export] Instance result_fmap : FMap result := λ A B f m,
  match m with Ok a => Ok (f a) | Err e => Err e end.

Definition is_ok {A} (r : result A) : bool :=
  match r with Ok _ => true | Err _ => false end.

(** [if cond { return ..., err }]. *)
Definition guard_err (cond : bool) (e : error) : result unit :=
  if cond then Err e else Ok tt.

Lemma result_bind_Ok {A B} (m : result A) (k : A → result B) b :
  m ≫= k = Ok b ↔ ∃ a, m = Ok a ∧ k a = Ok b.
Proof.
  destruct m as [a|e]; simpl; split; [eauto|intros (?&[= <-]&?); done|done|].
  intros (?&?&?); done.
Qed.

Lemma result_bind_Err {A B} (m : result A) (k : A → result B) e :
  m ≫= k = Err e ↔ m = Err e ∨ ∃ a, m = Ok a ∧ k a = Err e.
Proof.
  destruct m as [a|e']; simpl.
  - split; [by eauto|intros [?|(?&[= <-]&?)]; done].
  - split; [by intros [= ->]; left|intros [[= ->]|(?&?&?)]; done].
Qed.

Lemma guard_err_Ok b e u : guard_err b e = Ok u ↔ b = false.
Proof. by destruct b, u. Qed.

Lemma is_ok_spec {A} (r : result A) : is_ok r = true ↔ ∃ a, r = Ok a.
Proof. destruct r as [a|e]; simpl; split; [by eauto|done|done|by intros [??]]. Qed.

(** ** Strings *)
Lemma string_app_cons c s t : String c s +:+ t = String c (s +:+ t).
Proof. done. Qed.

Lemma string_length_app s t : String.length (s +:+ t) = String.length s + String.length t.
Proof. induction s as [|c s IH]; [done|]. rewrite string_app_cons. simpl. by rewrite IH. Qed.

Lemma string_app_assoc (s t u : string) : (s +:+ t) +:+ u = s +:+ (t +:+ u).
Proof. induction s as [|c s IH]; [done|]. by rewrite !string_app_cons, IH. Qed.

Lemma string_app_nil_r (s : string) : s +:+ "" = s.
Proof. induction s as [|c s IH]; [done|]. by rewrite string_app_cons, IH. Qed.

(** ** Record update

    [r <| f := v |>] is the Go assignment [r.f = v] on a copy of the struct
    [r]. A record gets it by declaring its eta expansion as an [Eta]
    instance; the setter of a field is then computed from it. *)
Class Eta (R : Type) := eta : R → R.
Class Setter {R T : Type} (p : R → T) := set_field : T → R → R.
Arguments set_field {R T} p {_} v r.

Ltac derive_setter :=
  lazymatch goal with
  | |- @Setter ?R ?T ?p =>
      let v := fresh "v" in let r := fresh "r" in
      intros v r;
      let e := constr:(eta r) in
      let e := eval hnf in e in
      lazymatch eval pattern (p r) in e with
      | ?f _ => let t := eval cbv beta in (f v) in exact t
      end
  end.
#[export] Hint Extern 1 (Setter _) => derive_setter : typeclass_instances.

Declare Scope adp_scope.
Delimit Scope adp_scope with adp.
Notation "r <| p := v |>" := (set_field p v r)
  (at level 1, left associativity, p at level 99, v at level 99,
   format "r  <| p  :=  v |>") : adp_scope.
Open Scope adp_scope.

(** ** Time

    A [time.Time] is its number of nanoseconds since the Unix epoch; the zero
    [time.Time] is 1 January of year 1. A reading of the clock is always an
    input of the operation that takes it. *)
Abbreviation time := Z.
Definition time_zero : time := (-62135596800 * 1000000000)%Z.
Definition nanosecond : Z := 1.
Definition second : Z := 1000000000.
Definition minute : Z := 60 * second.
Definition hour : Z := 60 * minute.

Definition int64_min : Z := - 2 ^ 63.
Definition int64_max : Z := 2 ^ 63 - 1.

(** [Time.Sub] saturates at the bounds of [time.Duration], an int64. *)
Definition time_sub (t u : time) : Z :=
  Z.max int64_min (Z.min int64_max (t - u)).

(** ** Machine integers *)
Definition u64_modulus : Z := 2 ^ 64.
(** [atomic.Uint64.Add]. *)
Definition u64_add (a b : Z) : Z := (a + b) mod u64_modulus.
(** [int64] addition wraps around in two's complement. *)
Definition i64_add (a b : Z) : Z := (a + b + 2 ^ 63) mod 2 ^ 64 - 2 ^ 63.

Lemma u64_add_small a b : (0 ≤ a + b < u64_modulus)%Z → u64_add a b = (a + b)%Z.
Proof. apply Z.mod_small. Qed.

Lemma u64_add_range a b : (0 ≤ u64_add a b < u64_modulus)%Z.
Proof. by apply Z.mod_pos_bound. Qed.

Lemma i64_add_small a b :
  (int64_min ≤ a + b ≤ int64_max)%Z → i64_add a b = (a + b)%Z.
Proof. unfold int64_min, int64_max, i64_add. intros. rewrite Z.mod_small; lia. Qed.

(** ** Iteration over Go maps

    The order in which [range] visits the entries of a map is unspecified and
    differs between executions. Every operation that ranges over a map takes
    the order as an input: a function that lists the entries of any map, of
    which nothing is known but that it lists each entry exactly once. *)
Record MapIter := {
  range_map : ∀ A : Type, gmap string A → list (string * A);
  range_map_perm : ∀ A (m : gmap string A), range_map A m ≡ₚ map_to_list m;
}.
Arguments range_map _ {A} m.
Arguments range_map_perm _ {A} m.

Definition iter_default : MapIter :=
  {| range_map := λ A m, map_to_list m; range_map_perm := λ A m, Permutation_refl _ |}.

(** The reverse order, to exercise an order other than the default one. *)
Definition iter_reverse : MapIter :=
  {| range_map := λ A m, reverse (map_to_list m);
     range_map_perm := λ A m, reverse_Permutation _ |}.

Section range.
Context {A : Type} (it : MapIter) (m : gmap string A).

Lemma elem_of_range k x : (k, x) ∈ range_map it m ↔ m !! k = Some x.
Proof. rewrite (range_map_perm it m). apply elem_of_map_to_list. Qed.

Lemma NoDup_range_fst : NoDup (range_map it m).*1.
Proof. rewrite (range_map_perm it m). apply NoDup_fst_map_to_list. Qed.

Lemma NoDup_range : NoDup (range_map it m).
Proof. rewrite (range_map_perm it m). apply NoDup_map_to_list. Qed.

Lemma length_range : length (range_map it m) = size m.
Proof. by rewrite (range_map_perm it m), length_map_to_list. Qed.

(** [for _, x := range m { values = append(values, x) }] *)
Definition range_values : list A := (range_map it m).*2.

Lemma elem_of_range_values x : x ∈ range_values ↔ ∃ k, m !! k = Some x.
Proof.
  unfold range_values. rewrite list_elem_of_fmap. split.
  - intros ([k y] & -> & H). exists k. by apply elem_of_range.
  - intros [k H]. exists (k, x). by rewrite elem_of_range.
Qed.

Lemma length_range_values : length range_values = size m.
Proof. unfold range_values. by rewrite length_fmap, length_range. Qed.
End range.

Lemma range_values_perm {A} (it it' : MapIter) (m : gmap string A) :
  range_values it m ≡ₚ range_values it' m.
Proof. unfold range_values. by rewrite !range_map_perm. Qed.

(** ** [sort.Slice]

    The insertion sort that [sort.Slice] runs on short slices: each element
    moves left while it is less than its left neighbour. [sort.Slice] is not
    stable on long slices, so the order of equal elements is unspecified;
    the slices the program sorts are filled from a map, whose iteration
    order is an input, and a different order of equal elements is the result
    for a different iteration order. *)
Section sort_slice.
Context {A : Type} (less : A → A → bool).

(** [insert_left x l]: [l] is the sorted prefix read from right to left. *)
Fixpoint insert_left (x : A) (l : list A) : list A :=
  match l with
  | [] => [x]
  | y :: l' => if less x y then y :: insert_left x l' else x :: y :: l'
  end.

Definition sort_slice (l : list A) : list A :=
  reverse (foldl (λ acc x, insert_left x acc) [] l).

Lemma insert_left_perm x l : insert_left x l ≡ₚ x :: l.
Proof.
  induction l as [|y l IH]; simpl; [done|]. destruct (less x y); [|done].
  by rewrite IH, Permutation_swap.
Qed.

Lemma foldl_insert_left_perm acc l :
  foldl (λ acc x, insert_left x acc) acc l ≡ₚ acc ++ l.
Proof.
  revert acc. induction l as [|x l IH]; intros acc; simpl.
  - by rewrite app_nil_r.
  - by rewrite IH, insert_left_perm, <-Permutation_middle.
Qed.

Lemma sort_slice_perm l : sort_slice l ≡ₚ l.
Proof. unfold sort_slice. by rewrite reverse_Permutation, foldl_insert_left_perm. Qed.

Lemma elem_of_sort_slice x l : x ∈ sort_slice l ↔ x ∈ l.
Proof. by rewrite sort_slice_perm. Qed.

Lemma length_sort_slice l : length (sort_slice l) = length l.
Proof. by rewrite sort_slice_perm. Qed.

(** [less] is a strict weak order, as [sort.Slice] requires. *)
Class StrictWeak := {
  less_asym x y : less x y = true → less y x = false;
  less_neg_trans x y z : less x y = false → less y z = false → less x z = false;
}.

Definition not_less (x y : A) : Prop := less x y = false.

Lemma insert_left_sorted `{!StrictWeak} x l :
  StronglySorted not_less l → StronglySorted not_less (insert_left x l).
Proof.
  induction 1 as [|y l Hl IH Hy]; simpl; [repeat constructor|].
  destruct (less x y) eqn:Hxy.
  - constructor; [done|]. rewrite insert_left_perm. constructor; [|done].
    by apply less_asym.
  - constructor; [by constructor|]. constructor; [done|].
    apply (Forall_impl _ _ _ Hy). intros z. by apply less_neg_trans.
Qed.

Lemma foldl_insert_left_sorted `{!StrictWeak} acc l :
  StronglySorted not_less acc →
  StronglySorted not_less (foldl (λ acc x, insert_left x acc) acc l).
Proof.
  revert acc. induction l as [|x l IH]; intros acc Hacc; simpl; [done|].
  by apply IH, insert_left_sorted.
Qed.
End sort_slice.

Lemma StronglySorted_snoc {A} (R : A → A → Prop) l x :
  StronglySorted R l → Forall (λ y, R y x) l → StronglySorted R (l ++ [x]).
Proof.
  induction 1 as [|y l Hl IH Hy]; intros Hx; simpl; [repeat constructor|].
  apply Forall_cons in Hx as [Hyx Hx]. constructor; [by apply IH|].
  apply Forall_app. by split; [|repeat constructor].
Qed.

Lemma StronglySorted_reverse {A} (R : A → A → Prop) l :
  StronglySorted R l → StronglySorted (flip R) (reverse l).
Proof.
  induction 1 as [|x l Hl IH Hx]; [constructor|].
  rewrite reverse_cons. apply StronglySorted_snoc; [done|].
  by apply Forall_reverse.
Qed.

(** No element of the sorted slice is less than an element before it. *)
Lemma sort_slice_sorted {A} (less : A → A → bool) `{!StrictWeak less} l :
  StronglySorted (λ x y, less y x = false) (sort_slice less l).
Proof. apply StronglySorted_reverse, foldl_insert_left_sorted; [done|constructor]. Qed.

(** Slicing [l[:n]] when [len(l) > n], else [l]. *)
Definition limit_slice {A} (n : Z) (l : list A) : list A :=
  if (n <? Z.of_nat (length l))%Z then take (Z.to_nat n) l else l.

Lemma length_limit_slice {A} n (l : list A) :
  (0 ≤ n)%Z → (Z.of_nat (length (limit_slice n l)) ≤ n)%Z.
Proof.
  intros Hn. unfold limit_slice. destruct (Z.ltb_spec n (Z.of_nat (length l)));
    [rewrite length_take|]; lia.
Qed.

Lemma limit_slice_prefix {A} n (l : list A) : limit_slice n l `prefix_of` l.
Proof.
  unfold limit_slice. destruct (_ <? _)%Z; [|done].
  eexists. symmetry. apply take_drop.
Qed.

Lemma StronglySorted_app {A} (R : A → A → Prop) (l k : list A) :
  StronglySorted R (l ++ k) →
  StronglySorted R l ∧ StronglySorted R k ∧ ∀ x y, x ∈ l → y ∈ k → R x y.
Proof.
  induction l as [|a l IH]; simpl; intros H.
  - split_and!; [constructor|done|intros x y Hx; by apply elem_of_nil in Hx].
  - apply StronglySorted_inv in H as [H Ha]. destruct (IH H) as (H1&H2&H3).
    apply Forall_app in Ha as [Ha Hk]. split_and!; [by constructor|done|].
    intros x y [->|Hx]%elem_of_cons Hy; [|by apply H3].
    by eapply (proj1 (Forall_forall _ _) Hk).
Qed.

Lemma StronglySorted_fmap_impl {A B} (R : A → A → Prop) (R' : B → B → Prop) (P : A → Prop)
    (f : A → B) l :
  (∀ x y, P x → P y → R x y → R' (f x) (f y)) →
  Forall P l → StronglySorted R l → StronglySorted R' (f <$> l).
Proof.
  intros HR HP. induction 1 as [|x l Hl IH Hx]; [constructor|].
  apply Forall_cons in HP as [HPx HP]. constructor; [by apply IH|].
  apply Forall_fmap. rewrite Forall_forall in HP, Hx |- *. intros y Hy. simpl. by apply HR; auto.
Qed.

(** An element that the limit leaves out means that the limit is reached. *)
Lemma limit_slice_full {A} n (l : list A) x :
  (0 ≤ n)%Z → x ∈ l → x ∉ limit_slice n l → Z.of_nat (length (limit_slice n l)) = n.
Proof.
  unfold limit_slice. intros Hn. destruct (Z.ltb_spec n (Z.of_nat (length l))); [|done].
  intros _ _. rewrite length_take. lia.
Qed.

Section filter.
Context {A : Type} (P : A → Prop) `{!∀ x, Decision (P x)}.

Lemma filter_all l : Forall P l → filter P l = l.
Proof. induction 1 as [|x l Hx _ IH]; [done|]. by rewrite filter_cons, decide_True, IH. Qed.

Lemma filter_none l : Forall (λ x, ¬ P x) l → filter P l = [].
Proof. induction 1 as [|x l Hx _ IH]; [done|]. by rewrite filter_cons, decide_False. Qed.

Lemma StronglySorted_filter (R : A → A → Prop) l :
  StronglySorted R l → StronglySorted R (filter P l).
Proof.
  induction 1 as [|x l Hl IH Hx]; [constructor|]. rewrite filter_cons. case_decide; [|done].
  constructor; [done|]. rewrite Forall_forall in Hx |- *. intros y [_ Hy]%list_elem_of_filter.
  by apply Hx.
Qed.
End filter.
