(* ===== verification/GoStrings.v ===== *)
(** * The Go string functions the program calls

    Go strings are sequences of bytes, here Rocq strings. UTF-8 decoding,
    [strings.ToLower], [EqualFold], [TrimSpace], [Fields], [Contains],
    [HasPrefix], [HasSuffix], [Split], [Cut], [ReplaceAll], [Join] and [%06d],
    each with the cases of its implementation: a fast path for ASCII text and
    a general path over runes, with the Unicode case tables as data. *)
From S2P Require Import Prelude.
From Stdlib Require Import Ascii.

(** ** Bytes and runes *)
Definition byte_of (c : ascii) : Z := Z.of_N (N_of_ascii c).
Definition of_byte (z : Z) : ascii := ascii_of_N (Z.to_N z).

Fixpoint map_bytes (f : Z → Z) (s : string) : string :=
  match s with
  | EmptyString => ""
  | String c s' => String (of_byte (f (byte_of c))) (map_bytes f s')
  end.

Fixpoint all_bytes (p : Z → bool) (s : string) : bool :=
  match s with
  | EmptyString => true
  | String c s' => p (byte_of c) && all_bytes p s'
  end.

Fixpoint all_chars (p : ascii → bool) (s : string) : bool :=
  match s with EmptyString => true | String c s' => p c && all_chars p s' end.

Definition is_ascii_byte (b : Z) : bool := (b <? 128)%Z.
Definition is_ascii : string → bool := all_bytes is_ascii_byte.

Definition rune_error : Z := 65533.
Definition in_range (lo hi b : Z) : bool := (lo <=? b)%Z && (b <=? hi)%Z.
Definition is_cont (b : Z) : bool := in_range 128 191 b.

(** [utf8.DecodeRuneInString]: the first rune of a non-empty string with the
    rest of the string; an invalid encoding gives [RuneError] and consumes
    one byte. *)
Definition decode_rune (c : ascii) (s : string) : Z * string :=
  let b0 := byte_of c in
  if is_ascii_byte b0 then (b0, s)
  else match s with
  | EmptyString => (rune_error, s)
  | String c1 s1 =>
    let b1 := byte_of c1 in
    if in_range 194 223 b0 && is_cont b1 then
      ((b0 - 192) * 64 + (b1 - 128), s1)%Z
    else match s1 with
    | EmptyString => (rune_error, s)
    | String c2 s2 =>
      let b2 := byte_of c2 in
      let lo1 := (if b0 =? 224 then 160 else 128)%Z in
      let hi1 := (if b0 =? 237 then 159 else 191)%Z in
      if in_range 224 239 b0 && in_range lo1 hi1 b1 && is_cont b2 then
        ((b0 - 224) * 4096 + (b1 - 128) * 64 + (b2 - 128), s2)%Z
      else match s2 with
      | EmptyString => (rune_error, s)
      | String c3 s3 =>
        let b3 := byte_of c3 in
        let lo1 := (if b0 =? 240 then 144 else 128)%Z in
        let hi1 := (if b0 =? 244 then 143 else 191)%Z in
        if in_range 240 244 b0 && in_range lo1 hi1 b1 && is_cont b2 && is_cont b3 then
          ((b0 - 240) * 262144 + (b1 - 128) * 4096 + (b2 - 128) * 64 + (b3 - 128), s3)%Z
        else (rune_error, s)
      end
    end
  end.

(** [for _, r := range s]; a string of [n] bytes has at most [n] runes. *)
Fixpoint runes_fuel (fuel : nat) (s : string) : list Z :=
  match fuel, s with
  | S fuel, String c s' => let '(r, rest) := decode_rune c s' in r :: runes_fuel fuel rest
  | _, _ => []
  end.
Definition runes (s : string) : list Z := runes_fuel (String.length s) s.

(** [strings.Builder.WriteRune]. *)
Definition encode_rune (r : Z) : string :=
  if (r <? 128)%Z then String (of_byte r) ""
  else if (r <? 2048)%Z then
    String (of_byte (192 + r / 64)) (String (of_byte (128 + r mod 64)) "")
  else if (r <? 65536)%Z then
    String (of_byte (224 + r / 4096)) (String (of_byte (128 + (r / 64) mod 64))
      (String (of_byte (128 + r mod 64)) ""))
  else
    String (of_byte (240 + r / 262144)) (String (of_byte (128 + (r / 4096) mod 64))
      (String (of_byte (128 + (r / 64) mod 64)) (String (of_byte (128 + r mod 64)) ""))).

Fixpoint concat_strings (l : list string) : string :=
  match l with [] => "" | s :: l' => s +:+ concat_strings l' end.

(** ** Unicode simple case mappings

    [R lo hi stride delta]: the runes [lo], [lo+stride], ..., [hi] map to
    themselves plus [delta]; a rune in no entry maps to itself. *)
Record case_range := R { cr_lo : Z; cr_hi : Z; cr_stride : Z; cr_delta : Z }.

Definition lower_ranges : list case_range := [
  R 192 214 1 (32); R 216 222 1 (32); R 256 302 2 (1); R 304 304 1 (-199); R 306 310 2 (1);
  R 313 327 2 (1); R 330 374 2 (1); R 376 376 1 (-121); R 377 381 2 (1); R 385 385 1 (210);
  R 386 388 2 (1); R 390 390 1 (206); R 391 391 1 (1); R 393 394 1 (205); R 395 395 1 (1);
  R 398 398 1 (79); R 399 399 1 (202); R 400 400 1 (203); R 401 401 1 (1); R 403 403 1 (205);
  R 404 404 1 (207); R 406 406 1 (211); R 407 407 1 (209); R 408 408 1 (1); R 412 412 1 (211);
  R 413 413 1 (213); R 415 415 1 (214); R 416 420 2 (1); R 422 422 1 (218); R 423 423 1 (1);
  R 425 425 1 (218); R 428 428 1 (1); R 430 430 1 (218); R 431 431 1 (1); R 433 434 1 (217);
  R 435 437 2 (1); R 439 439 1 (219); R 440 440 1 (1); R 444 444 1 (1); R 452 452 1 (2);
  R 453 453 1 (1); R 455 455 1 (2); R 456 456 1 (1); R 458 458 1 (2); R 459 475 2 (1);
  R 478 494 2 (1); R 497 497 1 (2); R 498 500 2 (1); R 502 502 1 (-97); R 503 503 1 (-56);
  R 504 542 2 (1); R 544 544 1 (-130); R 546 562 2 (1); R 570 570 1 (10795); R 571 571 1 (1);
  R 573 573 1 (-163); R 574 574 1 (10792); R 577 577 1 (1); R 579 579 1 (-195);
  R 580 580 1 (69); R 581 581 1 (71); R 582 590 2 (1); R 880 882 2 (1); R 886 886 1 (1);
  R 895 895 1 (116); R 902 902 1 (38); R 904 906 1 (37); R 908 908 1 (64); R 910 911 1 (63);
  R 913 929 1 (32); R 931 939 1 (32); R 975 975 1 (8); R 984 1006 2 (1); R 1012 1012 1 (-60);
  R 1015 1015 1 (1); R 1017 1017 1 (-7); R 1018 1018 1 (1); R 1021 1023 1 (-130);
  R 1024 1039 1 (80); R 1040 1071 1 (32); R 1120 1152 2 (1); R 1162 1214 2 (1);
  R 1216 1216 1 (15); R 1217 1229 2 (1); R 1232 1326 2 (1); R 1329 1366 1 (48);
  R 4256 4293 1 (7264); R 4295 4295 1 (7264); R 4301 4301 1 (7264); R 5024 5103 1 (38864);
  R 5104 5109 1 (8); R 7312 7354 1 (-3008); R 7357 7359 1 (-3008); R 7680 7828 2 (1);
  R 7838 7838 1 (-7615); R 7840 7934 2 (1); R 7944 7951 1 (-8); R 7960 7965 1 (-8);
  R 7976 7983 1 (-8); R 7992 7999 1 (-8); R 8008 8013 1 (-8); R 8025 8031 2 (-8);
  R 8040 8047 1 (-8); R 8072 8079 1 (-8); R 8088 8095 1 (-8); R 8104 8111 1 (-8);
  R 8120 8121 1 (-8); R 8122 8123 1 (-74); R 8124 8124 1 (-9); R 8136 8139 1 (-86);
  R 8140 8140 1 (-9); R 8152 8153 1 (-8); R 8154 8155 1 (-100); R 8168 8169 1 (-8);
  R 8170 8171 1 (-112); R 8172 8172 1 (-7); R 8184 8185 1 (-128); R 8186 8187 1 (-126);
  R 8188 8188 1 (-9); R 8486 8486 1 (-7517); R 8490 8490 1 (-8383); R 8491 8491 1 (-8262);
  R 8498 8498 1 (28); R 8544 8559 1 (16); R 8579 8579 1 (1); R 9398 9423 1 (26);
  R 11264 11311 1 (48); R 11360 11360 1 (1); R 11362 11362 1 (-10743); R 11363 11363 1 (-3814);
  R 11364 11364 1 (-10727); R 11367 11371 2 (1); R 11373 11373 1 (-10780);
  R 11374 11374 1 (-10749); R 11375 11375 1 (-10783); R 11376 11376 1 (-10782);
  R 11378 11378 1 (1); R 11381 11381 1 (1); R 11390 11391 1 (-10815); R 11392 11490 2 (1);
  R 11499 11501 2 (1); R 11506 11506 1 (1); R 42560 42604 2 (1); R 42624 42650 2 (1);
  R 42786 42798 2 (1); R 42802 42862 2 (1); R 42873 42875 2 (1); R 42877 42877 1 (-35332);
  R 42878 42886 2 (1); R 42891 42891 1 (1); R 42893 42893 1 (-42280); R 42896 42898 2 (1);
  R 42902 42920 2 (1); R 42922 42922 1 (-42308); R 42923 42923 1 (-42319);
  R 42924 42924 1 (-42315); R 42925 42925 1 (-42305); R 42926 42926 1 (-42308);
  R 42928 42928 1 (-42258); R 42929 42929 1 (-42282); R 42930 42930 1 (-42261);
  R 42931 42931 1 (928); R 42932 42946 2 (1); R 42948 42948 1 (-48); R 42949 42949 1 (-42307);
  R 42950 42950 1 (-35384); R 42951 42953 2 (1); R 42960 42960 1 (1); R 42966 42968 2 (1);
  R 42997 42997 1 (1); R 65313 65338 1 (32); R 66560 66599 1 (40); R 66736 66771 1 (40);
  R 66928 66938 1 (39); R 66940 66954 1 (39); R 66956 66962 1 (39); R 66964 66965 1 (39);
  R 68736 68786 1 (64); R 71840 71871 1 (32); R 93760 93791 1 (32); R 125184 125217 1 (34)
].

(** Simple case folding: two runes are equal under [EqualFold] exactly when
    they fold to the same rune. *)
Definition fold_ranges : list case_range := [
  R 181 181 1 (775); R 192 214 1 (32); R 216 222 1 (32); R 256 302 2 (1); R 306 310 2 (1);
  R 313 327 2 (1); R 330 374 2 (1); R 376 376 1 (-121); R 377 381 2 (1); R 383 383 1 (-268);
  R 385 385 1 (210); R 386 388 2 (1); R 390 390 1 (206); R 391 391 1 (1); R 393 394 1 (205);
  R 395 395 1 (1); R 398 398 1 (79); R 399 399 1 (202); R 400 400 1 (203); R 401 401 1 (1);
  R 403 403 1 (205); R 404 404 1 (207); R 406 406 1 (211); R 407 407 1 (209); R 408 408 1 (1);
  R 412 412 1 (211); R 413 413 1 (213); R 415 415 1 (214); R 416 420 2 (1); R 422 422 1 (218);
  R 423 423 1 (1); R 425 425 1 (218); R 428 428 1 (1); R 430 430 1 (218); R 431 431 1 (1);
  R 433 434 1 (217); R 435 437 2 (1); R 439 439 1 (219); R 440 440 1 (1); R 444 444 1 (1);
  R 452 452 1 (2); R 453 453 1 (1); R 455 455 1 (2); R 456 456 1 (1); R 458 458 1 (2);
  R 459 475 2 (1); R 478 494 2 (1); R 497 497 1 (2); R 498 500 2 (1); R 502 502 1 (-97);
  R 503 503 1 (-56); R 504 542 2 (1); R 544 544 1 (-130); R 546 562 2 (1); R 570 570 1 (10795);
  R 571 571 1 (1); R 573 573 1 (-163); R 574 574 1 (10792); R 577 577 1 (1);
  R 579 579 1 (-195); R 580 580 1 (69); R 581 581 1 (71); R 582 590 2 (1); R 837 837 1 (116);
  R 880 882 2 (1); R 886 886 1 (1); R 895 895 1 (116); R 902 902 1 (38); R 904 906 1 (37);
  R 908 908 1 (64); R 910 911 1 (63); R 913 929 1 (32); R 931 939 1 (32); R 962 962 1 (1);
  R 975 975 1 (8); R 976 976 1 (-30); R 977 977 1 (-25); R 981 981 1 (-15); R 982 982 1 (-22);
  R 984 1006 2 (1); R 1008 1008 1 (-54); R 1009 1009 1 (-48); R 1012 1012 1 (-60);
  R 1013 1013 1 (-64); R 1015 1015 1 (1); R 1017 1017 1 (-7); R 1018 1018 1 (1);
  R 1021 1023 1 (-130); R 1024 1039 1 (80); R 1040 1071 1 (32); R 1120 1152 2 (1);
  R 1162 1214 2 (1); R 1216 1216 1 (15); R 1217 1229 2 (1); R 1232 1326 2 (1);
  R 1329 1366 1 (48); R 4256 4293 1 (7264); R 4295 4295 1 (7264); R 4301 4301 1 (7264);
  R 5112 5117 1 (-8); R 7296 7296 1 (-6222); R 7297 7297 1 (-6221); R 7298 7298 1 (-6212);
  R 7299 7300 1 (-6210); R 7301 7301 1 (-6211); R 7302 7302 1 (-6204); R 7303 7303 1 (-6180);
  R 7304 7304 1 (35267); R 7312 7354 1 (-3008); R 7357 7359 1 (-3008); R 7680 7828 2 (1);
  R 7835 7835 1 (-58); R 7838 7838 1 (-7615); R 7840 7934 2 (1); R 7944 7951 1 (-8);
  R 7960 7965 1 (-8); R 7976 7983 1 (-8); R 7992 7999 1 (-8); R 8008 8013 1 (-8);
  R 8025 8031 2 (-8); R 8040 8047 1 (-8); R 8072 8079 1 (-8); R 8088 8095 1 (-8);
  R 8104 8111 1 (-8); R 8120 8121 1 (-8); R 8122 8123 1 (-74); R 8124 8124 1 (-9);
  R 8126 8126 1 (-7173); R 8136 8139 1 (-86); R 8140 8140 1 (-9); R 8152 8153 1 (-8);
  R 8154 8155 1 (-100); R 8168 8169 1 (-8); R 8170 8171 1 (-112); R 8172 8172 1 (-7);
  R 8184 8185 1 (-128); R 8186 8187 1 (-126); R 8188 8188 1 (-9); R 8486 8486 1 (-7517);
  R 8490 8490 1 (-8383); R 8491 8491 1 (-8262); R 8498 8498 1 (28); R 8544 8559 1 (16);
  R 8579 8579 1 (1); R 9398 9423 1 (26); R 11264 11311 1 (48); R 11360 11360 1 (1);
  R 11362 11362 1 (-10743); R 11363 11363 1 (-3814); R 11364 11364 1 (-10727);
  R 11367 11371 2 (1); R 11373 11373 1 (-10780); R 11374 11374 1 (-10749);
  R 11375 11375 1 (-10783); R 11376 11376 1 (-10782); R 11378 11378 1 (1); R 11381 11381 1 (1);
  R 11390 11391 1 (-10815); R 11392 11490 2 (1); R 11499 11501 2 (1); R 11506 11506 1 (1);
  R 42560 42604 2 (1); R 42624 42650 2 (1); R 42786 42798 2 (1); R 42802 42862 2 (1);
  R 42873 42875 2 (1); R 42877 42877 1 (-35332); R 42878 42886 2 (1); R 42891 42891 1 (1);
  R 42893 42893 1 (-42280); R 42896 42898 2 (1); R 42902 42920 2 (1); R 42922 42922 1 (-42308);
  R 42923 42923 1 (-42319); R 42924 42924 1 (-42315); R 42925 42925 1 (-42305);
  R 42926 42926 1 (-42308); R 42928 42928 1 (-42258); R 42929 42929 1 (-42282);
  R 42930 42930 1 (-42261); R 42931 42931 1 (928); R 42932 42946 2 (1); R 42948 42948 1 (-48);
  R 42949 42949 1 (-42307); R 42950 42950 1 (-35384); R 42951 42953 2 (1); R 42960 42960 1 (1);
  R 42966 42968 2 (1); R 42997 42997 1 (1); R 43888 43967 1 (-38864); R 65313 65338 1 (32);
  R 66560 66599 1 (40); R 66736 66771 1 (40); R 66928 66938 1 (39); R 66940 66954 1 (39);
  R 66956 66962 1 (39); R 66964 66965 1 (39); R 68736 68786 1 (64); R 71840 71871 1 (32);
  R 93760 93791 1 (32); R 125184 125217 1 (34)
].

Definition in_case_range (r : Z) (e : case_range) : bool :=
  (cr_lo e <=? r)%Z && (r <=? cr_hi e)%Z && ((r - cr_lo e) mod cr_stride e =? 0)%Z.

Fixpoint case_map (t : list case_range) (r : Z) : Z :=
  match t with
  | [] => r
  | e :: t' => if in_case_range r e then (r + cr_delta e)%Z else case_map t' r
  end.

Definition lower_ascii (b : Z) : Z := if in_range 65 90 b then (b + 32)%Z else b.
Definition lower_rune (r : Z) : Z :=
  if (r <? 128)%Z then lower_ascii r else case_map lower_ranges r.
Definition fold_rune (r : Z) : Z :=
  if (r <? 128)%Z then lower_ascii r else case_map fold_ranges r.

(** [strings.ToLower]. *)
Definition to_lower (s : string) : string :=
  if is_ascii s then map_bytes lower_ascii s
  else concat_strings (encode_rune ∘ lower_rune <$> runes s).

(** [strings.EqualFold]. *)
Definition equal_fold (s t : string) : bool :=
  bool_decide (fold_rune <$> runes s = fold_rune <$> runes t).

(** ** White space

    [unicode.IsSpace] holds of these runes, written as their encodings. *)
Definition is_ascii_space (c : ascii) : bool :=
  let b := byte_of c in in_range 9 13 b || (b =? 32)%Z.

(** The two and three byte encodings of white space, as byte values. *)
Definition space2 (b0 b1 : Z) : bool := (b0 =? 194)%Z && ((b1 =? 133)%Z || (b1 =? 160)%Z).
Definition space3 (b0 b1 b2 : Z) : bool :=
  ((b0 =? 225)%Z && (b1 =? 154)%Z && (b2 =? 128)%Z)
  || ((b0 =? 226)%Z && (b1 =? 128)%Z
      && (in_range 128 138 b2 || (b2 =? 168)%Z || (b2 =? 169)%Z || (b2 =? 175)%Z))
  || ((b0 =? 226)%Z && (b1 =? 129)%Z && (b2 =? 159)%Z)
  || ((b0 =? 227)%Z && (b1 =? 128)%Z && (b2 =? 128)%Z).

(** The number of bytes of the white space rune [s] starts with, 0 if none.
    A lead byte is never a continuation byte, so the encoding of a space
    found at any byte of a string is a rune of it. *)
Definition space_width (s : string) : nat :=
  match s with
  | EmptyString => 0
  | String c s1 =>
    if is_ascii_space c then 1 else
    match s1 with
    | EmptyString => 0
    | String c1 s2 =>
      if space2 (byte_of c) (byte_of c1) then 2 else
      match s2 with
      | EmptyString => 0
      | String c2 _ => if space3 (byte_of c) (byte_of c1) (byte_of c2) then 3 else 0
      end
    end
  end.

(** The number of bytes of the white space rune that ends the reversed
    string [s]. *)
Definition space_width_rev (s : string) : nat :=
  match s with
  | EmptyString => 0
  | String c s1 =>
    if is_ascii_space c then 1 else
    match s1 with
    | EmptyString => 0
    | String c1 s2 =>
      if space2 (byte_of c1) (byte_of c) then 2 else
      match s2 with
      | EmptyString => 0
      | String c2 _ => if space3 (byte_of c2) (byte_of c1) (byte_of c) then 3 else 0
      end
    end
  end.

Fixpoint drop_bytes (n : nat) (s : string) : string :=
  match n, s with
  | S n, String _ s' => drop_bytes n s'
  | _, _ => s
  end.

(** Drop white space from the front while [width] finds some; each round
    drops a byte at least, so the length is enough fuel. *)
Fixpoint trim_with (width : string → nat) (fuel : nat) (s : string) : string :=
  match fuel with
  | O => s
  | S fuel => match width s with
              | O => s
              | n => trim_with width fuel (drop_bytes n s)
              end
  end.

Fixpoint string_rev_app (s acc : string) : string :=
  match s with
  | EmptyString => acc
  | String c s' => string_rev_app s' (String c acc)
  end.
Definition string_rev (s : string) : string := string_rev_app s "".

Definition trim_left_space (s : string) : string :=
  trim_with space_width (String.length s) s.
Definition trim_right_space (s : string) : string :=
  string_rev (trim_with space_width_rev (String.length s) (string_rev s)).

(** [strings.TrimSpace]. *)
Definition trim_space (s : string) : string := trim_right_space (trim_left_space s).

(** [strings.Fields]: the maximal runs of bytes outside white space; [cur] is
    the current run, reversed. *)
Fixpoint fields_go (fuel : nat) (cur : string) (s : string) : list string :=
  let flush := match cur with EmptyString => [] | _ => [string_rev cur] end in
  match fuel, s with
  | S fuel, String c s' =>
      match space_width s with
      | O => fields_go fuel (String c cur) s'
      | n => flush ++ fields_go fuel "" (drop_bytes n s)
      end
  | _, _ => flush
  end.
Definition fields (s : string) : list string := fields_go (String.length s) "" s.

(** ** Substrings *)
Definition has_prefix (s p : string) : bool := String.prefix p s.
Definition has_suffix (s p : string) : bool := String.prefix (string_rev p) (string_rev s).

(** [strings.TrimPrefix], [strings.TrimSuffix]. *)
Definition trim_prefix (s p : string) : string :=
  if has_prefix s p then drop_bytes (String.length p) s else s.
Definition trim_suffix (s p : string) : string :=
  if has_suffix s p then string_rev (drop_bytes (String.length p) (string_rev s)) else s.

(** [strings.Contains]. *)
Fixpoint contains (s sub : string) : bool :=
  has_prefix s sub || match s with EmptyString => false | String _ s' => contains s' sub end.

(** [strings.Cut(s, sep)] for a non-empty separator: the text before and after the
    first occurrence. *)
Fixpoint cut (s sep : string) : option (string * string) :=
  if has_prefix s sep then Some ("", drop_bytes (String.length sep) s)
  else match s with
  | EmptyString => None
  | String c s' => match cut s' sep with
                   | Some (before, after) => Some (String c before, after)
                   | None => None
                   end
  end.

(** [strings.Split] for a non-empty separator. *)
Fixpoint split_fuel (fuel : nat) (s sep : string) : list string :=
  match fuel with
  | O => [s]
  | S fuel => match cut s sep with
              | Some (before, after) => before :: split_fuel fuel after sep
              | None => [s]
              end
  end.
Definition split (s sep : string) : list string := split_fuel (String.length s) s sep.

(** [strings.Split(s, sep)[0]]. *)
Definition split_first (s sep : string) : string :=
  match cut s sep with Some (before, _) => before | None => s end.

(** [strings.Join]. *)
Fixpoint join (l : list string) (sep : string) : string :=
  match l with
  | [] => ""
  | [s] => s
  | s :: l' => s +:+ sep +:+ join l' sep
  end.

(** [strings.ReplaceAll] for a non-empty [old]. *)
Definition replace_all (s old new : string) : string := join (split s old) new.

(** [s[:n]] for [n] at most the length. *)
Fixpoint take_bytes (n : nat) (s : string) : string :=
  match n, s with
  | S n, String c s' => String c (take_bytes n s')
  | _, _ => ""
  end.

(** Byte-wise [s < t]. *)
Definition str_lt (s t : string) : bool :=
  match String.compare s t with Lt => true | _ => false end.

(** ** Decimal numbers *)
Fixpoint zeros (n : nat) : string :=
  match n with O => "" | S n => String "0" (zeros n) end.

(** [%06d] of a natural number. *)
Definition pad6 (n : Z) : string :=
  let digits := pretty (Z.to_N n) in zeros (6 - String.length digits) +:+ digits.

(** [strconv.Atoi]: an optional sign and decimal digits, within int64. *)
Definition is_digit (c : ascii) : bool := in_range 48 57 (byte_of c).
(** The value of a string of decimal digits, read after the value [acc]. *)
Fixpoint decimal (acc : Z) (s : string) : Z :=
  match s with
  | EmptyString => acc
  | String c s' => decimal (10 * acc + (byte_of c - 48)) s'
  end.
Definition atoi (s : string) : option Z :=
  let '(neg, digits) :=
    match s with
    | String c s' =>
        if (byte_of c =? 45)%Z then (true, s')
        else if (byte_of c =? 43)%Z then (false, s') else (false, s)
    | EmptyString => (false, s)
    end in
  if decide (digits = "") then None
  else if negb (all_chars is_digit digits) then None
  else
    let v := (if neg : bool then - decimal 0 digits else decimal 0 digits)%Z in
    if (int64_min <=? v)%Z && (v <=? int64_max)%Z then Some v else None.

(** ** Lemmas *)

(** Byte order of strings. *)
Lemma str_lt_irrefl s : str_lt s s = false.
Proof.
  unfold str_lt. pose proof (String.compare_antisym s s).
  by destruct (String.compare s s).
Qed.

Lemma str_lt_cons c s d t :
  str_lt (String c s) (String d t) = true ↔
  (byte_of c < byte_of d)%Z ∨ c = d ∧ str_lt s t = true.
Proof.
  unfold str_lt, byte_of. simpl. pose proof (Ascii.compare_eq_iff c d) as Heq.
  unfold Ascii.compare in *. destruct (N.compare_spec (N_of_ascii c) (N_of_ascii d)) as [H|H|H].
  - rewrite Heq by done. split; [by right|intros [?|[??]]; [lia|done]].
  - split; [left; lia|done].
  - split; [done|]. intros [?|[-> ?]]; lia.
Qed.

Lemma str_lt_trans s t u : str_lt s t = true → str_lt t u = true → str_lt s u = true.
Proof.
  revert t u. induction s as [|c s IH]; intros [|d t] [|e u]; try done.
  rewrite !str_lt_cons. intros [?|[-> ?]] [?|[-> ?]]; [left; lia|by left|by left|].
  right. split; [done|]. by eapply IH.
Qed.

Lemma str_lt_total s t : s ≠ t → str_lt s t = false → str_lt t s = true.
Proof.
  unfold str_lt. rewrite (String.compare_antisym t s).
  pose proof (String.compare_eq_iff s t). destruct (String.compare s t); naive_solver.
Qed.

Lemma str_lt_asym s t : str_lt s t = true → str_lt t s = false.
Proof. unfold str_lt. rewrite (String.compare_antisym t s). by destruct (String.compare s t). Qed.

Lemma decimal_pretty_go x s : decimal 0 (pretty_N_go x s) = decimal (Z.of_N x) s.
Proof.
  revert s. induction (N.lt_wf_0 x) as [x _ IH]. intros s.
  destruct (decide (x = 0)%N) as [->|Hx]; [by rewrite pretty_N_go_0|].
  rewrite pretty_N_go_step by lia. rewrite IH by (apply N.div_lt; lia). simpl. f_equal.
  assert (byte_of (pretty_N_char (x `mod` 10)%N) - 48 = Z.of_N (x `mod` 10))%Z as ->.
  { assert (x `mod` 10 < 10)%N as Hlt by (apply N.mod_lt; lia). revert Hlt.
    generalize (x `mod` 10)%N. intros y Hy.
    assert (y ∈ [0; 1; 2; 3; 4; 5; 6; 7; 8; 9])%N as Hin by (set_unfold; lia).
    repeat (apply elem_of_cons in Hin as [->|Hin]; [by vm_compute|]).
    by apply elem_of_nil in Hin. }
  rewrite N2Z.inj_mod, N2Z.inj_div. pose proof (Z.div_mod (Z.of_N x) 10). lia.
Qed.

Lemma decimal_pretty x : decimal 0 (pretty x) = Z.of_N x.
Proof.
  unfold pretty, pretty_N. case_decide; [by subst|]. by rewrite decimal_pretty_go.
Qed.

Lemma decimal_zeros n s : decimal 0 (zeros n +:+ s) = decimal 0 s.
Proof.
  induction n as [|n IH]; [done|].
  change (decimal 0 (String "0" (zeros n +:+ s)) = decimal 0 s). simpl. apply IH.
Qed.

Lemma decimal_pad6 n : (0 ≤ n)%Z → decimal 0 (pad6 n) = n.
Proof. intros. unfold pad6. rewrite decimal_zeros, decimal_pretty. lia. Qed.

Lemma pad6_inj n m : (0 ≤ n)%Z → (0 ≤ m)%Z → pad6 n = pad6 m → n = m.
Proof. intros Hn Hm Heq. by rewrite <-(decimal_pad6 n), <-(decimal_pad6 m), Heq by done. Qed.

Lemma string_app_inj_l (p s t : string) : p +:+ s = p +:+ t → s = t.
Proof.
  induction p as [|c p IH]; [done|]. rewrite !string_app_cons. intros [= ?]. by apply IH.
Qed.

(** Text before a byte that occurs in neither prefix. *)
Lemma string_app_cut_inj c p q s t :
  all_chars (λ d, negb (bool_decide (d = c))) p = true →
  all_chars (λ d, negb (bool_decide (d = c))) q = true →
  p +:+ String c s = q +:+ String c t → p = q ∧ s = t.
Proof.
  revert q. induction p as [|d p IH]; intros [|e q]; simpl; rewrite ?string_app_cons.
  - by intros _ _ [= ->].
  - intros _ [He _]%andb_prop [= <- _]. by rewrite bool_decide_eq_true_2 in He.
  - intros [Hd _]%andb_prop _ [= -> _]. by rewrite bool_decide_eq_true_2 in Hd.
  - intros [_ Hp]%andb_prop [_ Hq]%andb_prop [= -> Heq]. by destruct (IH q Hp Hq Heq) as [-> ->].
Qed.

(** *** Texts without a separator byte *)
Definition free (sep : ascii) (s : string) : Prop := all_chars (λ c, negb (Ascii.eqb c sep)) s = true.

Lemma free_cons sep c s : free sep (String c s) ↔ c ≠ sep ∧ free sep s.
Proof.
  unfold free. simpl. rewrite andb_true_iff, negb_true_iff. by rewrite Ascii.eqb_neq.
Qed.

Lemma free_app sep s t : free sep (s +:+ t) ↔ free sep s ∧ free sep t.
Proof.
  induction s as [|c s IH]; [by split; [|intros [_ ?]]|]. rewrite string_app_cons, !free_cons. tauto.
Qed.

Lemma cut_cons sep c s :
  cut (String c s) (String sep "") =
    if decide (c = sep) then Some ("", s)
    else match cut s (String sep "") with Some (b, a) => Some (String c b, a) | None => None end.
Proof.
  cbn [cut]. unfold has_prefix. cbn [String.prefix].
  destruct (Ascii.ascii_dec sep c) as [<-|Hne].
  - rewrite decide_True by done. by destruct s.
  - by rewrite decide_False by (by intros ->).
Qed.

Lemma cut_spec sep s :
  match cut s (String sep "") with
  | Some (b, a) => free sep b ∧ s = b +:+ String sep a ∧ String.length a < String.length s
  | None => free sep s
  end.
Proof.
  induction s as [|c s IH]; [done|]. rewrite cut_cons.
  case_decide as Hc; [subst; simpl; split_and!; [done|done|lia]|].
  destruct (cut s (String sep "")) as [[b a]|].
  - destruct IH as (Hb & -> & Ha). rewrite free_cons, string_app_cons. simpl. split_and!; [done..|].
    simpl in Ha. lia.
  - by rewrite free_cons.
Qed.

Lemma cut_app sep s t : free sep s → cut (s +:+ String sep t) (String sep "") = Some (s, t).
Proof.
  induction s as [|c s IH]; intros Hs.
  - change ("" +:+ String sep t) with (String sep t). by rewrite cut_cons, decide_True.
  - apply free_cons in Hs as [Hc Hs]. by rewrite string_app_cons, cut_cons, decide_False, IH.
Qed.

Lemma cut_free sep s : free sep s → cut s (String sep "") = None.
Proof.
  induction s as [|c s IH]; intros Hs; [done|]. apply free_cons in Hs as [Hc Hs].
  by rewrite cut_cons, decide_False, IH.
Qed.

Lemma split_free sep s : Forall (free sep) (split s (String sep "")).
Proof.
  unfold split. generalize (le_n (String.length s)). generalize (String.length s) at 2 3.
  intros fuel. revert s. induction fuel as [|fuel IH]; intros s Hs; simpl.
  - destruct s; [|simpl in Hs; lia]. by repeat constructor.
  - pose proof (cut_spec sep s) as Hcut. destruct (cut s (String sep "")) as [[b a]|];
      [|by repeat constructor].
    destruct Hcut as (Hb & _ & Ha). constructor; [done|]. apply IH. lia.
Qed.

Lemma join_cons sep s t l :
  join (s :: t :: l) (String sep "") = s +:+ String sep (join (t :: l) (String sep "")).
Proof. done. Qed.

(** Splitting undoes joining. *)
Lemma split_join sep l :
  l ≠ [] → Forall (free sep) l → split (join l (String sep "")) (String sep "") = l.
Proof.
  intros Hne Hl. unfold split. generalize (le_n (String.length (join l (String sep "")))).
  generalize (String.length (join l (String sep ""))) at 2 3. intros fuel. revert l Hne Hl.
  induction fuel as [|fuel IH]; intros [|s [|s' l]] Hne Hl Hf; try done.
  - rewrite join_cons, string_length_app in Hf. simpl in Hf. lia.
  - cbn [join split_fuel]. apply Forall_cons in Hl as [Hs _]. by rewrite cut_free.
  - apply Forall_cons in Hl as [Hs Hl]. rewrite join_cons in *.
    cbn [split_fuel]. rewrite cut_app by done. f_equal. apply IH; [done..|].
    rewrite string_length_app in Hf. cbn [String.length] in Hf. lia.
Qed.

(** Joining undoes splitting. *)
Lemma join_split sep s : join (split s (String sep "")) (String sep "") = s.
Proof.
  unfold split. generalize (String.length s). intros fuel. revert s.
  induction fuel as [|fuel IH]; intros s; [done|]. cbn [split_fuel].
  pose proof (cut_spec sep s) as Hcut. destruct (cut s (String sep "")) as [[b a]|]; [|done].
  destruct Hcut as (_ & Hs & _). specialize (IH a).
  destruct (split_fuel fuel a (String sep "")) as [|x l] eqn:Hf; [destruct fuel; simpl in Hf; [done|by destruct (cut a _) as [[? ?]|]]|].
  by rewrite join_cons, IH.
Qed.

(** Reversed strings. *)
Lemma string_rev_app_spec s acc : string_rev_app s acc = string_rev s +:+ acc.
Proof.
  unfold string_rev. revert acc. induction s as [|c s IH]; intros acc; [done|].
  simpl. rewrite (IH (String c acc)), (IH (String c "")), string_app_assoc. done.
Qed.
Lemma string_rev_cons c s : string_rev (String c s) = string_rev s +:+ String c "".
Proof. unfold string_rev at 1. simpl. apply string_rev_app_spec. Qed.
Lemma string_rev_app_distr s t : string_rev (s +:+ t) = string_rev t +:+ string_rev s.
Proof.
  induction s as [|c s IH]; [by rewrite string_app_nil_r|].
  by rewrite string_app_cons, !string_rev_cons, IH, string_app_assoc.
Qed.
Lemma string_rev_involutive s : string_rev (string_rev s) = s.
Proof.
  induction s as [|c s IH]; [done|]. rewrite string_rev_cons, string_rev_app_distr, IH. done.
Qed.

Lemma all_chars_app P s t : all_chars P (s +:+ t) = all_chars P s && all_chars P t.
Proof.
  induction s as [|c s IH]; [done|]. rewrite string_app_cons. simpl. by rewrite IH, andb_assoc.
Qed.

Lemma all_chars_impl (P Q : ascii → bool) s :
  (∀ c, P c = true → Q c = true) → all_chars P s = true → all_chars Q s = true.
Proof. intros HPQ. induction s as [|c s IH]; simpl; [done|]. intros [? ?]%andb_prop. by rewrite HPQ, IH. Qed.

(** Digits. *)
Lemma all_chars_pretty_go x s : all_chars is_digit s = true → all_chars is_digit (pretty_N_go x s) = true.
Proof.
  revert s. induction (N.lt_wf_0 x) as [x _ IH]. intros s Hs.
  destruct (decide (x = 0)%N) as [->|Hx]; [by rewrite pretty_N_go_0|].
  rewrite pretty_N_go_step by lia. apply IH; [apply N.div_lt; lia|]. simpl. rewrite Hs, andb_true_r.
  assert (x `mod` 10 < 10)%N as Hlt by (apply N.mod_lt; lia). revert Hlt.
  generalize (x `mod` 10)%N. intros y Hy.
  assert (y ∈ [0; 1; 2; 3; 4; 5; 6; 7; 8; 9])%N as Hin by (set_unfold; lia).
  repeat (apply elem_of_cons in Hin as [->|Hin]; [by vm_compute|]). by apply elem_of_nil in Hin.
Qed.

Lemma all_chars_pad6 n : all_chars is_digit (pad6 n) = true.
Proof.
  unfold pad6. rewrite all_chars_app. apply andb_true_intro. split.
  - induction (6 - _) as [|k IH]; [done|]. simpl. by rewrite IH.
  - unfold pretty, pretty_N. case_decide; [done|]. by apply all_chars_pretty_go.
Qed.
