(* ===== verification/Fmt.v ===== *)
(** * Formatted text

    [fmt.Sprintf] and [Error()] on the verbs the program uses: %s, %d, %v, %w
    and %q, the last with the escapes of [strconv.Quote]. *)
From Stdlib Require Import Ascii.
From S2P Require Import Prelude.
From S2P Require Import GoStrings.

Module Fmt.

(** Whether a rune beyond ASCII is printable: [strconv.IsPrint]'s Unicode
    table. *)
Class Printable := is_print_wide : Z → bool.

Definition hex_digit (z : Z) : string :=
  String.substring (Z.to_nat (z mod 16)) 1 "0123456789abcdef".
Fixpoint hex (digits : nat) (z : Z) : string :=
  match digits with O => "" | S n => hex n (z / 16)%Z +:+ hex_digit z end.

(** A double quote, alone and escaped. *)
Definition dquote : string := String (ascii_of_nat 34) "".
Definition backslash : string := String (ascii_of_nat 92) "".

Section quote.
Context `{Printable}.

(** One rune; [valid] is false for a byte that begins no encoding. *)
Definition quote_rune (byte r : Z) (valid : bool) : string :=
  if negb valid then backslash +:+ "x" +:+ hex 2 byte
  else if (r =? 34)%Z then backslash +:+ dquote
  else if (r =? 92)%Z then backslash +:+ backslash
  else if (r <? 128)%Z then
    if in_range 32 126 r then encode_rune r
    else if (r =? 7)%Z then backslash +:+ "a"
    else if (r =? 8)%Z then backslash +:+ "b"
    else if (r =? 12)%Z then backslash +:+ "f"
    else if (r =? 10)%Z then backslash +:+ "n"
    else if (r =? 13)%Z then backslash +:+ "r"
    else if (r =? 9)%Z then backslash +:+ "t"
    else if (r =? 11)%Z then backslash +:+ "v"
    else backslash +:+ "x" +:+ hex 2 r
  else if is_print_wide r then encode_rune r
  else if (r <? 65536)%Z then backslash +:+ "u" +:+ hex 4 r
  else backslash +:+ "U" +:+ hex 8 r.

(** A byte is invalid when decoding consumes it alone as the error rune. *)
Fixpoint quote_fuel (fuel : nat) (s : string) : string :=
  match fuel, s with
  | S fuel, String c s' =>
      let '(r, rest) := decode_rune c s' in
      let valid := negb ((r =? rune_error)%Z && bool_decide (rest = s')) in
      quote_rune (byte_of c) r valid +:+ quote_fuel fuel rest
  | _, _ => ""
  end.
Definition Quote (s : string) : string := dquote +:+ quote_fuel (String.length s) s +:+ dquote.

(** ** Errors *)
Inductive piece := PText (s : string) | PInt (z : Z).

Definition print_piece (verb : ascii) (p : piece) : string :=
  match p with
  | PText s => if Ascii.eqb verb "q"%char then Quote s else s
  | PInt z => pretty z
  end.

(** The verbs of [f] take the pieces in turn. *)
Fixpoint sprintf (f : string) (args : list piece) : string :=
  match f with
  | EmptyString => ""
  | String c f =>
      if Ascii.eqb c "%"%char then
        match f with
        | EmptyString => "%!(NOVERB)"
        | String verb f =>
            if Ascii.eqb verb "%"%char then "%" +:+ sprintf f args
            else match args with
                 | p :: args => print_piece verb p +:+ sprintf f args
                 | [] => "%!" +:+ String verb "(MISSING)" +:+ sprintf f []
                 end
        end
      else String c (sprintf f args)
  end.

(** [err.Error()]; [errors.New] takes its text as it is. *)
Fixpoint error_text (e : error) : string :=
  match e with
  | Errorf f [] => f
  | Errorf f args =>
      sprintf f ((fix pieces (l : list error_arg) : list piece :=
        match l with
        | [] => []
        | AStr s :: l => PText s :: pieces l
        | AInt z :: l => PInt z :: pieces l
        | AErr e :: l => PText (error_text e) :: pieces l
        end) args)
  end.
End quote.

Example error_text_1 (P : Printable) :
  error_text (Errorf "task %d: module %q: %w" [AInt 2; AStr "a"; AErr (new_error "not found")]) =
  "task 2: module " +:+ dquote +:+ "a" +:+ dquote +:+ ": not found".
Proof. reflexivity. Qed.

End Fmt.
