(* ===== verification/Crypto.v ===== *)
(** * Digests and encodings

    The parts of the standard library the program signs tokens and compares
    configurations with: SHA-256 ([crypto/sha256]), HMAC ([crypto/hmac]), the
    verb %x on bytes and base64 in the URL alphabet without padding
    ([base64.RawURLEncoding]). *)
From Stdlib Require Import Ascii.
From S2P Require Import Prelude.
From S2P Require Import GoStrings.
From S2P Require Import Fmt.

(** ** SHA-256 *)
Module Sha256.

Definition mask32 : Z := 2 ^ 32 - 1.
Definition add32 (x y : Z) : Z := Z.land (x + y) mask32.
Definition rotr (n x : Z) : Z :=
  Z.lor (Z.shiftr x n) (Z.land (Z.shiftl x (32 - n)) mask32).

(** The constants: the first 32 bits of the fractional parts of the square roots
    of the first eight primes, and of the cube roots of the first sixty-four. *)
Definition primes (bound : nat) : list Z :=
  filter (λ p, forallb (λ q, negb (p mod q =? 0)%Z) (seqZ 2 (p - 2)) = true) (seqZ 2 (Z.of_nat bound)).
(** The integer cube root, bit by bit from [n]. *)
Fixpoint cube_root (n : nat) (acc x : Z) : Z :=
  match n with
  | O => acc
  | S n =>
      let y := (acc + 2 ^ Z.of_nat n)%Z in
      cube_root n (if (y * y * y <=? x)%Z then y else acc) x
  end.
Definition K : list Z :=
  Eval vm_compute in (λ p, Z.land (cube_root 36 0 (p * 2 ^ 96)) mask32) <$> primes 310.

Record state := mk { a : Z; b : Z; c : Z; d : Z; e : Z; f : Z; g : Z; h : Z }.
Definition initial : state :=
  Eval vm_compute in
    match (λ p, Z.land (Z.sqrt (p * 2 ^ 64)) mask32) <$> primes 18 with
    | [a; b; c; d; e; f; g; h] => mk a b c d e f g h
    | _ => mk 0 0 0 0 0 0 0 0
    end.

Definition schedule_next (w : list Z) : Z :=
  let x := nth 1 w 0%Z in
  let y := nth 14 w 0%Z in
  let s0 := Z.lxor (Z.lxor (rotr 7 x) (rotr 18 x)) (Z.shiftr x 3) in
  let s1 := Z.lxor (Z.lxor (rotr 17 y) (rotr 19 y)) (Z.shiftr y 10) in
  add32 (add32 s1 (nth 9 w 0%Z)) (add32 s0 (nth 0 w 0%Z)).

Definition round (k w : Z) (s : state) : state :=
  let S1 := Z.lxor (Z.lxor (rotr 6 (e s)) (rotr 11 (e s))) (rotr 25 (e s)) in
  let ch := Z.lxor (Z.land (e s) (f s)) (Z.land (Z.lxor (e s) mask32) (g s)) in
  let t1 := add32 (add32 (add32 (h s) S1) (add32 ch k)) w in
  let S0 := Z.lxor (Z.lxor (rotr 2 (a s)) (rotr 13 (a s))) (rotr 22 (a s)) in
  let maj := Z.lxor (Z.lxor (Z.land (a s) (b s)) (Z.land (a s) (c s))) (Z.land (b s) (c s)) in
  mk (add32 t1 (add32 S0 maj)) (a s) (b s) (c s) (add32 (d s) t1) (e s) (f s) (g s).

(** The rounds, one per constant; [w] is the window of the next sixteen words
    of the schedule. *)
Fixpoint rounds (ks w : list Z) (s : state) : state :=
  match ks with
  | [] => s
  | k :: ks => rounds ks (tl w ++ [schedule_next w]) (round k (nth 0 w 0%Z) s)
  end.

Definition block (w : list Z) (s : state) : state :=
  let r := rounds K w s in
  mk (add32 (a s) (a r)) (add32 (b s) (b r)) (add32 (c s) (c r)) (add32 (d s) (d r))
    (add32 (e s) (e r)) (add32 (f s) (f r)) (add32 (g s) (g r)) (add32 (h s) (h r)).

Fixpoint string_bytes (s : string) : list Z :=
  match s with EmptyString => [] | String ch s => byte_of ch :: string_bytes s end.
Fixpoint bytes_string (l : list Z) : string :=
  match l with [] => "" | x :: l => String (of_byte x) (bytes_string l) end.

(** The big-endian words of a list of bytes. *)
Fixpoint words (l : list Z) : list Z :=
  match l with
  | w :: x :: y :: z :: l => (w * 2 ^ 24 + x * 2 ^ 16 + y * 2 ^ 8 + z)%Z :: words l
  | _ => []
  end.
Definition be_bytes (n : nat) (x : Z) : list Z :=
  (λ i, Z.land (Z.shiftr x (8 * Z.of_nat i)) 255) <$> rev (seq 0 n).

Definition pad (l : list Z) : list Z :=
  let n := Z.of_nat (length l) in
  l ++ [128%Z] ++ repeat 0%Z (Z.to_nat ((55 - n) mod 64)) ++ be_bytes 8 (8 * n).

(** Sixteen words at a time; every round consumes some, so their number is
    enough fuel. *)
Fixpoint blocks (fuel : nat) (ws : list Z) (s : state) : state :=
  match fuel, ws with
  | S fuel, _ :: _ => blocks fuel (drop 16 ws) (block (take 16 ws) s)
  | _, _ => s
  end.

Definition sum_bytes (l : list Z) : list Z :=
  let ws := words (pad l) in
  let s := blocks (length ws) ws initial in
  concat (be_bytes 4 <$> [a s; b s; c s; d s; e s; f s; g s; h s]).

(** [sha256.Sum256]. *)
Definition Sum256 (s : string) : string := bytes_string (sum_bytes (string_bytes s)).

(** [hmac.New(sha256.New, key)] on one write of [s]. *)
Definition hmac (key s : string) : string :=
  let k := string_bytes key in
  let k := if decide (64 < length k) then sum_bytes k else k in
  let k := k ++ repeat 0%Z (64 - length k) in
  bytes_string (sum_bytes ((Z.lxor 0x5c <$> k) ++
    sum_bytes ((Z.lxor 0x36 <$> k) ++ string_bytes s))).

(** The verb %x on bytes. *)
Definition hex_digit (x : Z) : ascii := of_byte (if (x <? 10)%Z then 48 + x else 87 + x)%Z.
Fixpoint hex (s : string) : string :=
  match s with
  | EmptyString => ""
  | String ch s =>
      String (hex_digit (Z.shiftr (byte_of ch) 4)) (String (hex_digit (Z.land (byte_of ch) 15)) (hex s))
  end.

(** Published test vectors. *)
Example Sum256_abc :
  hex (Sum256 "abc") = "ba7816bf8f01cfea414140de5dae2223b00361a396177a9cb410ff61f20015ad".
Proof. vm_compute. reflexivity. Qed.
Example Sum256_two_blocks :
  hex (Sum256 "abcdbcdecdefdefgefghfghighijhijkijkljklmklmnlmnomnopnopq") =
  "248d6a61d20638b8e5c026930c3e6039a33ce45964ff2167f6ecedd419db06c1".
Proof. vm_compute. reflexivity. Qed.
Example hmac_jefe :
  hex (hmac "Jefe" "what do ya want for nothing?") =
  "5bdcc146bf60754e6a042426089575c75a003f089d2739839dec58b964ec3843".
Proof. vm_compute. reflexivity. Qed.

End Sha256.

(** ** Base64 *)
Module Base64.

(** The alphabet of [base64.URLEncoding]. *)
Definition char_of (x : Z) : ascii :=
  of_byte (if (x <? 26)%Z then 65 + x else if (x <? 52)%Z then 71 + x
           else if (x <? 62)%Z then x - 4 else if (x =? 62)%Z then 45 else 95)%Z.
Definition digit_of (ch : ascii) : option Z :=
  let x := byte_of ch in
  if in_range 65 90 x then Some (x - 65)%Z
  else if in_range 97 122 x then Some (x - 71)%Z
  else if in_range 48 57 x then Some (x + 4)%Z
  else if (x =? 45)%Z then Some 62%Z else if (x =? 95)%Z then Some 63%Z else None.

(** The sextet and the byte at a bit position. *)
Definition sextet (i v : Z) : ascii := char_of (v / 2 ^ i mod 64).
Definition octet (i v : Z) : ascii := of_byte (v / 2 ^ i mod 256).

(** [RawURLEncoding.EncodeToString]. *)
Fixpoint encode (s : string) : string :=
  match s with
  | String x (String y (String z s)) =>
      let v := (byte_of x * 2 ^ 16 + byte_of y * 2 ^ 8 + byte_of z)%Z in
      String (sextet 18 v) (String (sextet 12 v) (String (sextet 6 v) (String (sextet 0 v) (encode s))))
  | String x (String y EmptyString) =>
      let v := (byte_of x * 2 ^ 16 + byte_of y * 2 ^ 8)%Z in
      String (sextet 18 v) (String (sextet 12 v) (String (sextet 6 v) ""))
  | String x EmptyString =>
      let v := (byte_of x * 2 ^ 16)%Z in String (sextet 18 v) (String (sextet 12 v) "")
  | EmptyString => ""
  end.

(** [base64.CorruptInputError]. *)
Definition corrupt (i : Z) : error := Errorf "illegal base64 data at input byte %d" [AInt i].

(** The digits of the current quantum are in [buf], and [si] bytes are read.
    Line breaks are skipped; the unused bits of the last digit are not
    looked at. *)
Fixpoint decode_from (s : string) (si : Z) (buf : list Z) : result string :=
  match s with
  | EmptyString =>
      match buf with
      | [] => Ok ""
      | [p; q] => let v := (p * 2 ^ 18 + q * 2 ^ 12)%Z in Ok (String (octet 16 v) "")
      | [p; q; r] =>
          let v := (p * 2 ^ 18 + q * 2 ^ 12 + r * 2 ^ 6)%Z in
          Ok (String (octet 16 v) (String (octet 8 v) ""))
      | _ => Err (corrupt (si - 1))
      end
  | String ch s =>
      match digit_of ch with
      | Some x =>
          match buf with
          | [p; q; r] =>
              let v := (p * 2 ^ 18 + q * 2 ^ 12 + r * 2 ^ 6 + x)%Z in
              rest ← decode_from s (si + 1) [];
              Ok (String (octet 16 v) (String (octet 8 v) (String (octet 0 v) rest)))
          | _ => decode_from s (si + 1) (buf ++ [x])
          end
      | None =>
          if ((byte_of ch =? 10) || (byte_of ch =? 13))%Z then decode_from s (si + 1) buf
          else Err (corrupt si)
      end
  end.
(** [RawURLEncoding.DecodeString]. *)
Definition decode (s : string) : result string := decode_from s 0 [].

(** *** Round trip *)
Lemma byte_of_range ch : (0 ≤ byte_of ch < 256)%Z.
Proof. unfold byte_of. pose proof (N_ascii_bounded ch). lia. Qed.

Lemma of_byte_of ch : of_byte (byte_of ch) = ch.
Proof. unfold of_byte, byte_of. by rewrite N2Z.id, ascii_N_embedding. Qed.

Lemma byte_of_of_byte x : (0 ≤ x < 256)%Z → byte_of (of_byte x) = x.
Proof. intros Hx. unfold of_byte, byte_of. rewrite N_ascii_embedding; lia. Qed.

Lemma digit_char x : (0 ≤ x < 64)%Z → digit_of (char_of x) = Some x.
Proof.
  intros Hx. unfold digit_of, char_of, in_range. rewrite byte_of_of_byte.
  - repeat (case_match; try (f_equal; lia); try lia).
  - repeat case_match; lia.
Qed.

Lemma digit_sextet i v : digit_of (sextet i v) = Some (v / 2 ^ i mod 64)%Z.
Proof. apply digit_char. by apply Z.mod_pos_bound. Qed.

Lemma sextets_join v :
  (0 ≤ v < 2 ^ 24 →
   v / 2 ^ 18 mod 64 * 2 ^ 18 + v / 2 ^ 12 mod 64 * 2 ^ 12 + v / 2 ^ 6 mod 64 * 2 ^ 6
     + v / 2 ^ 0 mod 64 = v)%Z.
Proof. intros Hv. Z.to_euclidean_division_equations. lia. Qed.

Lemma octet_eq i v x : (v / 2 ^ i mod 256 = byte_of x)%Z → octet i v = x.
Proof. unfold octet. intros ->. apply of_byte_of. Qed.

Lemma octets_split x y z :
  let v := (byte_of x * 2 ^ 16 + byte_of y * 2 ^ 8 + byte_of z)%Z in
  (0 ≤ v < 2 ^ 24)%Z ∧ octet 16 v = x ∧ octet 8 v = y ∧ octet 0 v = z.
Proof.
  pose proof (byte_of_range x). pose proof (byte_of_range y). pose proof (byte_of_range z).
  intros v. split_and!; [unfold v; lia|unfold v; lia|apply octet_eq..];
    unfold v; Z.to_euclidean_division_equations; lia.
Qed.

(** The text that [encode] writes for three bytes is read back. *)
Lemma decode_quantum v s si :
  (0 ≤ v < 2 ^ 24)%Z →
  decode_from (String (sextet 18 v) (String (sextet 12 v) (String (sextet 6 v) (String (sextet 0 v) s)))) si [] =
    (rest ← decode_from s (si + 1 + 1 + 1 + 1) [];
     Ok (String (octet 16 v) (String (octet 8 v) (String (octet 0 v) rest)))).
Proof.
  intros Hv. cbn [decode_from app]. rewrite !digit_sextet. cbn [decode_from app].
  by rewrite sextets_join.
Qed.

Lemma decode_encode_from s si : decode_from (encode s) si [] = Ok s.
Proof.
  revert si. remember (String.length s) as n eqn:Hn. revert s Hn.
  induction n as [n IH] using lt_wf_ind. intros s -> si.
  destruct s as [|x [|y [|z s]]]; [done| | |].
  - cbn [encode decode_from app]. rewrite !digit_sextet. cbn [decode_from app].
    rewrite (octet_eq 16 _ x); [done|]. pose proof (byte_of_range x).
    Z.to_euclidean_division_equations. lia.
  - cbn [encode decode_from app]. rewrite !digit_sextet. cbn [decode_from app].
    pose proof (byte_of_range x). pose proof (byte_of_range y).
    rewrite (octet_eq 16 _ x), (octet_eq 8 _ y);
      [done|Z.to_euclidean_division_equations; lia..].
  - destruct (octets_split x y z) as (Hv & Hx & Hy & Hz). cbn [encode].
    rewrite decode_quantum by done. rewrite (IH (String.length s)) by (simpl; lia || done).
    cbn. by rewrite Hx, Hy, Hz.
Qed.

(** The encoding has no separator of tokens. *)
Lemma char_no_dot x : (0 ≤ x < 64)%Z → byte_of (char_of x) ≠ 46%Z.
Proof.
  intros Hx. unfold char_of. rewrite byte_of_of_byte; repeat case_match; lia.
Qed.

End Base64.
