(* ===== verification/Model.v ===== *)
(** * The data model ([internal/domain/model])

    One module per Go struct, with the struct's field names and its zero
    value [zero]. Go's string types with named constants stay strings,
    because the program stores values outside the constants (a risk level
    read from YAML, the status ["stopping"]).

    - [map[string]string] is [StringMap]: [None] is the nil map, which reads as
      empty and cannot be written.
    - [map[string]any] is [any_map], a list of entries with distinct keys: the
      program only builds such maps from literals and copies them.
    - A nil slice and an empty one are both [[]]; [*time.Time] is an option.
    - [float64] is the IEEE 754 binary64 format of [SpecFloat]. *)
From S2P Require Import Prelude GoStrings.
From Stdlib Require Export SpecFloat.

(** ** [float64] *)
Abbreviation float64 := spec_float.
Definition float_zero : float64 := S754_zero false.
Definition float_prec : Z := 53.
Definition float_emax : Z := 1024.
(** Conversion of an integer, rounded to nearest even. *)
Definition float_of_Z (z : Z) : float64 :=
  binary_normalize float_prec float_emax z 0 false.
Definition float_add : float64 → float64 → float64 := SFadd float_prec float_emax.
Definition float_div : float64 → float64 → float64 := SFdiv float_prec float_emax.
Definition float_mul : float64 → float64 → float64 := SFmul float_prec float_emax.

(** [Duration.Seconds]. *)
Definition duration_seconds (d : Z) : float64 :=
  float_add (float_of_Z (Z.quot d second))
            (float_div (float_of_Z (Z.rem d second)) (float_of_Z 1000000000)).

(** ** String maps *)
Abbreviation StringMap := (option (gmap string string)).

(** [m[k]], the empty string when absent. *)
Definition smap_get (m : StringMap) (k : string) : string := default "" (m ≫= lookup k).
(** [v, ok := m[k]]. *)
Definition smap_lookup (m : StringMap) (k : string) : option string := m ≫= lookup k.
(** The entries of a possibly nil map. *)
Definition smap_entries (m : StringMap) : gmap string string := default ∅ m.

(** A byte slice. *)
Abbreviation bytes := string.

(** ** Dynamic values

    The values that occur in a [map[string]any] of the program. [VTyped]
    is a value of a named string type ([model.JobStatus]), which a type
    switch on [string] does not match; [VOther] is a value of any other type,
    which the program stores and never inspects (a struct, a time, a slice of
    structs, a map of another type), with its parts. *)
#[local] Set Warnings "-register-all".
Inductive any : Type :=
  | VNil
  | VBool (b : bool)
  | VInt (z : Z)
  | VFloat (f : float64)
  | VString (s : string)
  | VTyped (typ s : string)
  | VStrings (l : list string)
  | VMap (m : list (string * any))
  | VMaps (l : list (list (string * any)))
  | VSlice (l : list any)
  | VOther (typ : string) (parts : list (string * any)).
Abbreviation any_map := (list (string * any)).

(** Induction over a value and the values inside it. *)
Section any_induction.
Context (P : any → Prop).
Context (Hmap : ∀ m, Forall (λ e : string * any, P e.2) m → P (VMap m)).
Context (Hmaps : ∀ l, Forall (Forall (λ e : string * any, P e.2)) l → P (VMaps l)).
Context (Hslice : ∀ l, Forall P l → P (VSlice l)).

Definition is_leaf (v : any) : bool :=
  match v with VMap _ | VMaps _ | VSlice _ => false | _ => true end.
Context (Hleaf : ∀ v, is_leaf v = true → P v).

Fixpoint any_nested_ind (v : any) : P v :=
  let entries := fix entries (m : list (string * any)) : Forall (λ e, P e.2) m :=
    match m with
    | [] => Forall_nil_2 _
    | e :: m => Forall_cons_2 (λ e : string * any, P e.2) e m (any_nested_ind e.2) (entries m)
    end in
  match v with
  | VMap m => Hmap m (entries m)
  | VMaps l => Hmaps l ((fix maps l : Forall (Forall (λ e : string * any, P e.2)) l :=
      match l with
      | [] => Forall_nil_2 _
      | m :: l => Forall_cons_2 (Forall (λ e : string * any, P e.2)) m l (entries m) (maps l)
      end) l)
  | VSlice l => Hslice l ((fix values l : Forall P l :=
      match l with
      | [] => Forall_nil_2 _
      | x :: l => Forall_cons_2 P x l (any_nested_ind x) (values l)
      end) l)
  | v => Hleaf v eq_refl
  end.
End any_induction.

(** [m[k]] of a [map[string]any], nil when absent. *)
Fixpoint any_get (m : any_map) (k : string) : any :=
  match m with
  | [] => VNil
  | (k', v) :: m' => if decide (k = k') then v else any_get m' k
  end.

(** Type assertions [x, _ := v.(T)], which give the zero value on failure. *)
Definition as_string (v : any) : string := match v with VString s => s | _ => "" end.
Definition as_bool (v : any) : bool := match v with VBool b => b | _ => false end.
Definition as_map (v : any) : any_map := match v with VMap m => m | _ => [] end.
Definition as_maps (v : any) : list any_map := match v with VMaps l => l | _ => [] end.

(** ** Constants *)
Abbreviation WorkerStatus := string.
Definition WorkerStatusOnline : WorkerStatus := "online".
Definition WorkerStatusOffline : WorkerStatus := "offline".

Abbreviation JobStatus := string.
Definition JobStatusPending : JobStatus := "pending".
Definition JobStatusWaitingApproval : JobStatus := "waiting_approval".
Definition JobStatusQueued : JobStatus := "queued".
Definition JobStatusRunning : JobStatus := "running".
Definition JobStatusSuccess : JobStatus := "success".
Definition JobStatusFailed : JobStatus := "failed".
Definition JobStatusCancelled : JobStatus := "cancelled".

Abbreviation ApprovalStatus := string.
Definition ApprovalStatusNotRequired : ApprovalStatus := "not_required".
Definition ApprovalStatusPending : ApprovalStatus := "pending".
Definition ApprovalStatusApproved : ApprovalStatus := "approved".
Definition ApprovalStatusRejected : ApprovalStatus := "rejected".

Abbreviation AgentRunStatus := string.
Definition AgentRunStatusQueued : AgentRunStatus := "queued".
Definition AgentRunStatusRunning : AgentRunStatus := "running".
Definition AgentRunStatusWaitingApproval : AgentRunStatus := "waiting_approval".
Definition AgentRunStatusCompleted : AgentRunStatus := "completed".
Definition AgentRunStatusFailed : AgentRunStatus := "failed".
Definition AgentRunStatusCancelled : AgentRunStatus := "cancelled".
Definition AgentRunStatusTimedOut : AgentRunStatus := "timed_out".

Abbreviation PlanStatus := string.
Definition PlanStatusPending : PlanStatus := "pending".
Definition PlanStatusWaitingApproval : PlanStatus := "waiting_approval".
Definition PlanStatusRunning : PlanStatus := "running".
Definition PlanStatusCompleted : PlanStatus := "completed".
Definition PlanStatusFailed : PlanStatus := "failed".

Abbreviation RiskLevel := string.
Definition RiskLevelLow : RiskLevel := "low".
Definition RiskLevelMedium : RiskLevel := "medium".
Definition RiskLevelHigh : RiskLevel := "high".

(** ** Structs *)
(** A user of the control plane. *)
Module User.
Record t := mk {
  Username : string;
  Role : string;
}.
#[global] Instance t_eta : Eta t := λ x, mk (Username x) (Role x).
Definition zero : t := mk "" "".
End User.

(** Host facts a Worker reports. *)
Module HostInfo.
Record t := mk {
  Hostname : string;
  IPAddress : string;
  CPUUsage : float64;
  StorageUsage : float64;
}.
#[global] Instance t_eta : Eta t := λ x, mk (Hostname x) (IPAddress x) (CPUUsage x) (StorageUsage x).
Definition zero : t := mk "" "" float_zero float_zero.
End HostInfo.

Module Worker.
Record t := mk {
  ID : string;
  Name : string;
  WorkerType : string;
  Status : WorkerStatus;
  HostInfo : HostInfo.t;
  LastHeartbeatAt : time;
  CreatedAt : time;
  UpdatedAt : time;
}.
#[global] Instance t_eta : Eta t := λ x, mk (ID x) (Name x) (WorkerType x) (Status x) (HostInfo x) (LastHeartbeatAt x) (CreatedAt x) (UpdatedAt x).
Definition zero : t := mk "" "" "" "" HostInfo.zero time_zero time_zero time_zero.
End Worker.

Module Job.
Record t := mk {
  ID : string;
  Name : string;
  WorkerType : string;
  Command : string;
  Status : JobStatus;
  RiskLevel : RiskLevel;
  ApprovalRequired : bool;
  ApprovalStatus : ApprovalStatus;
  ApprovalComment : string;
  ApprovedBy : string;
  ApprovedAt : option time;
  RejectedBy : string;
  RejectedAt : option time;
  TemplateCode : string;
  Parameters : StringMap;
  SourceType : string;
  SourceID : string;
  IdempotencyKey : string;
  AssignedWorkerID : string;
  Output : string;
  CreatedAt : time;
  UpdatedAt : time;
  StartedAt : option time;
  FinishedAt : option time;
}.
#[global] Instance t_eta : Eta t := λ x, mk (ID x) (Name x) (WorkerType x) (Command x) (Status x) (RiskLevel x) (ApprovalRequired x) (ApprovalStatus x) (ApprovalComment x) (ApprovedBy x) (ApprovedAt x) (RejectedBy x) (RejectedAt x) (TemplateCode x) (Parameters x) (SourceType x) (SourceID x) (IdempotencyKey x) (AssignedWorkerID x) (Output x) (CreatedAt x) (UpdatedAt x) (StartedAt x) (FinishedAt x).
Definition zero : t := mk "" "" "" "" "" "" false "" "" "" None "" None "" None "" "" "" "" "" time_zero time_zero None None.
End Job.

Module AgentRun.
Record t := mk {
  ID : string;
  Input : string;
  ConversationID : string;
  Status : AgentRunStatus;
  TraceID : string;
  PolicyVersion : string;
  PromptVersion : string;
  Transcript : bytes;
  NextStep : Z;
  Answer : string;
  Error : string;
  CreatedAt : time;
  UpdatedAt : time;
}.
#[global] Instance t_eta : Eta t := λ x, mk (ID x) (Input x) (ConversationID x) (Status x) (TraceID x) (PolicyVersion x) (PromptVersion x) (Transcript x) (NextStep x) (Answer x) (Error x) (CreatedAt x) (UpdatedAt x).
Definition zero : t := mk "" "" "" "" "" "" "" "" 0%Z "" "" time_zero time_zero.
End AgentRun.

Module AgentEvent.
Record t := mk {
  ID : Z;
  RunID : string;
  Step : Z;
  Type_ : string;
  Name : string;
  Data : any_map;
  CreatedAt : time;
}.
#[global] Instance t_eta : Eta t := λ x, mk (ID x) (RunID x) (Step x) (Type_ x) (Name x) (Data x) (CreatedAt x).
Definition zero : t := mk 0%Z "" 0%Z "" "" [] time_zero.
End AgentEvent.

Module AgentToolCall.
Record t := mk {
  ID : string;
  RunID : string;
  Step : Z;
  ToolName : string;
  Arguments : bytes;
  Result : bytes;
  Error : string;
  Status : string;
  CreatedAt : time;
  CompletedAt : option time;
}.
#[global] Instance t_eta : Eta t := λ x, mk (ID x) (RunID x) (Step x) (ToolName x) (Arguments x) (Result x) (Error x) (Status x) (CreatedAt x) (CompletedAt x).
Definition zero : t := mk "" "" 0%Z "" "" "" "" "" time_zero None.
End AgentToolCall.

Module TaskIntent.
Record t := mk {
  Intent : string;
  TargetType : string;
  Schedule : string;
  RiskLevel : RiskLevel;
  Parameters : StringMap;
  MatchedTemplate : string;
  ParseSource : string;
  ParseWarning : string;
}.
#[global] Instance t_eta : Eta t := λ x, mk (Intent x) (TargetType x) (Schedule x) (RiskLevel x) (Parameters x) (MatchedTemplate x) (ParseSource x) (ParseWarning x).
Definition zero : t := mk "" "" "" "" None "" "" "".
End TaskIntent.

Module TemplateParam.
Record t := mk {
  Name : string;
  Description : string;
  Required : bool;
  Default : string;
}.
#[global] Instance t_eta : Eta t := λ x, mk (Name x) (Description x) (Required x) (Default x).
Definition zero : t := mk "" "" false "".
End TemplateParam.

Module CommandTemplate.
Record t := mk {
  Code : string;
  Name : string;
  Description : string;
  ToolType : string;
  Command : string;
  Parameters : list TemplateParam.t;
  RiskLevel : RiskLevel;
}.
#[global] Instance t_eta : Eta t := λ x, mk (Code x) (Name x) (Description x) (ToolType x) (Command x) (Parameters x) (RiskLevel x).
Definition zero : t := mk "" "" "" "" "" [] "".
End CommandTemplate.

Module StepResult.
Record t := mk {
  Stdout : string;
  Stderr : string;
  ExitCode : Z;
  Success : bool;
  Summary : string;
}.
#[global] Instance t_eta : Eta t := λ x, mk (Stdout x) (Stderr x) (ExitCode x) (Success x) (Summary x).
Definition zero : t := mk "" "" 0%Z false "".
End StepResult.

Module DiagnosisStep.
Record t := mk {
  StepNo : Z;
  Name : string;
  Description : string;
  TemplateCode : string;
  Parameters : StringMap;
  TimeoutSec : Z;
  Status : JobStatus;
  JobID : string;
  Result : option StepResult.t;
}.
#[global] Instance t_eta : Eta t := λ x, mk (StepNo x) (Name x) (Description x) (TemplateCode x) (Parameters x) (TimeoutSec x) (Status x) (JobID x) (Result x).
Definition zero : t := mk 0%Z "" "" "" None 0%Z "" "" None.
End DiagnosisStep.

Module DiagnosisPlan.
Record t := mk {
  ID : string;
  Title : string;
  Description : string;
  TriggerType : string;
  Steps : list DiagnosisStep.t;
  Status : PlanStatus;
  CreatedAt : time;
  UpdatedAt : time;
}.
#[global] Instance t_eta : Eta t := λ x, mk (ID x) (Title x) (Description x) (TriggerType x) (Steps x) (Status x) (CreatedAt x) (UpdatedAt x).
Definition zero : t := mk "" "" "" "" [] "" time_zero time_zero.
End DiagnosisPlan.

Module IncidentCase.
Record t := mk {
  ID : string;
  Title : string;
  TriggerType : string;
  FaultType : string;
  Summary : string;
  PossibleCauses : list string;
  Suggestions : list string;
  Confidence : float64;
  SourcePlanID : string;
  CreatedAt : time;
  UpdatedAt : time;
  AlertSymptoms : string;
  EnvironmentTags : list string;
  EvidenceSummary : string;
  RootCause : string;
  ResolutionSteps : list string;
  ResolutionResult : string;
}.
#[global] Instance t_eta : Eta t := λ x, mk (ID x) (Title x) (TriggerType x) (FaultType x) (Summary x) (PossibleCauses x) (Suggestions x) (Confidence x) (SourcePlanID x) (CreatedAt x) (UpdatedAt x) (AlertSymptoms x) (EnvironmentTags x) (EvidenceSummary x) (RootCause x) (ResolutionSteps x) (ResolutionResult x).
Definition zero : t := mk "" "" "" "" "" [] [] float_zero "" time_zero time_zero "" [] "" "" [] "".
End IncidentCase.

Module AnalysisReport.
Record t := mk {
  PlanID : string;
  FaultType : string;
  PossibleCauses : list string;
  Suggestions : list string;
  Confidence : float64;
  RawAnalysis : string;
  CreatedAt : time;
  AlertSymptoms : string;
  EnvironmentTags : list string;
  EvidenceSummary : string;
  RootCause : string;
  ResolutionSteps : list string;
  ResolutionResult : string;
}.
#[global] Instance t_eta : Eta t := λ x, mk (PlanID x) (FaultType x) (PossibleCauses x) (Suggestions x) (Confidence x) (RawAnalysis x) (CreatedAt x) (AlertSymptoms x) (EnvironmentTags x) (EvidenceSummary x) (RootCause x) (ResolutionSteps x) (ResolutionResult x).
Definition zero : t := mk "" "" [] [] float_zero "" time_zero "" [] "" "" [] "".
End AnalysisReport.

Module AuditLog.
Record t := mk {
  ID : string;
  ActorType : string;
  ActorID : string;
  Action : string;
  ResourceType : string;
  ResourceID : string;
  Details : any_map;
  CreatedAt : time;
}.
#[global] Instance t_eta : Eta t := λ x, mk (ID x) (ActorType x) (ActorID x) (Action x) (ResourceType x) (ResourceID x) (Details x) (CreatedAt x).
Definition zero : t := mk "" "" "" "" "" "" [] time_zero.
End AuditLog.

Module IncidentCaseFilter.
Record t := mk {
  Query : string;
  TriggerType : string;
  FaultType : string;
  EnvironmentTags : list string;
  Limit : Z;
}.
#[global] Instance t_eta : Eta t := λ x, mk (Query x) (TriggerType x) (FaultType x) (EnvironmentTags x) (Limit x).
Definition zero : t := mk "" "" "" [] 0%Z.
End IncidentCaseFilter.

Module MetricsSnapshot.
Record t := mk {
  JobsTotal : Z;
  JobsSuccess : Z;
  JobsFailed : Z;
  JobsWaitingApproval : Z;
  WorkersOnline : Z;
  IncidentCasesTotal : Z;
  JobSuccessRate : float64;
  JobFailureRate : float64;
  AvgScheduleLatencySeconds : float64;
}.
#[global] Instance t_eta : Eta t := λ x, mk (JobsTotal x) (JobsSuccess x) (JobsFailed x) (JobsWaitingApproval x) (WorkersOnline x) (IncidentCasesTotal x) (JobSuccessRate x) (JobFailureRate x) (AvgScheduleLatencySeconds x).
Definition zero : t := mk 0%Z 0%Z 0%Z 0%Z 0%Z 0%Z float_zero float_zero float_zero.
End MetricsSnapshot.

Module WorkerLog.
Record t := mk {
  ID : Z;
  WorkerID : string;
  JobID : string;
  Command : string;
  Progress : string;
  Result : string;
  Success : bool;
  CreatedAt : time;
}.
#[global] Instance t_eta : Eta t := λ x, mk (ID x) (WorkerID x) (JobID x) (Command x) (Progress x) (Result x) (Success x) (CreatedAt x).
Definition zero : t := mk 0%Z "" "" "" "" "" false time_zero.
End WorkerLog.

Module JobYAML.
Record t := mk {
  ID : string;
  Name : string;
  Description : string;
  YAMLContent : string;
  Source : string;
  CreatedAt : time;
  UpdatedAt : time;
}.
#[global] Instance t_eta : Eta t := λ x, mk (ID x) (Name x) (Description x) (YAMLContent x) (Source x) (CreatedAt x) (UpdatedAt x).
Definition zero : t := mk "" "" "" "" "" time_zero time_zero.
End JobYAML.

Module ManagedConfig.
Record t := mk {
  ID : string;
  Kind : string;
  Name : string;
  YAMLContent : string;
  Active : bool;
  CreatedAt : time;
  UpdatedAt : time;
}.
#[global] Instance t_eta : Eta t := λ x, mk (ID x) (Kind x) (Name x) (YAMLContent x) (Active x) (CreatedAt x) (UpdatedAt x).
Definition zero : t := mk "" "" "" "" false time_zero time_zero.
End ManagedConfig.

Module Conversation.
Record t := mk {
  ID : string;
  Title : string;
  CreatedAt : time;
  UpdatedAt : time;
}.
#[global] Instance t_eta : Eta t := λ x, mk (ID x) (Title x) (CreatedAt x) (UpdatedAt x).
Definition zero : t := mk "" "" time_zero time_zero.
End Conversation.

Module ConversationMessage.
Record t := mk {
  ID : Z;
  ConversationID : string;
  Role : string;
  Content : string;
  ToolName : string;
  ToolData : any_map;
  Step : Z;
  CreatedAt : time;
}.
#[global] Instance t_eta : Eta t := λ x, mk (ID x) (ConversationID x) (Role x) (Content x) (ToolName x) (ToolData x) (Step x) (CreatedAt x).
Definition zero : t := mk 0%Z "" "" "" "" [] 0%Z time_zero.
End ConversationMessage.

(** ** Worker types ([worker_type.go]) *)

(** The canonical, case-insensitive worker type. *)
Definition NormalizeWorkerType (value : string) : string := to_lower (trim_space value).

(** The routing rule: a shell worker runs everything, any other worker only
    work declared for its own type. *)
Definition WorkerCanRunType (workerType jobType : string) : bool :=
  let workerType := NormalizeWorkerType workerType in
  let jobType := NormalizeWorkerType jobType in
  bool_decide (workerType = "shell")
  || (bool_decide (workerType ≠ "") && bool_decide (workerType = jobType)).
