(* ===== verification/Policy.v ===== *)
(** * The policy engine ([internal/domain/policy/engine.go])

    Tool blocklist, template whitelist, risk assessment and the approval gate. *)
From S2P Require Import Prelude.
From S2P Require Import GoStrings.
From S2P Require Import Model.

Module Policy.

(** A Go [map[string]bool]; a missing key reads as [false]. *)
Abbreviation bool_map := (gmap string bool).
Definition flag (m : bool_map) (k : string) : bool := default false (m !! k).

Record Engine := mkEngine {
  blockedTools : bool_map;
  allowedTemplates : bool_map;
  highRiskKeywords : list string;
  approvalRiskLevels : bool_map;
}.
#[global] Instance Engine_eta : Eta Engine := λ e,
  mkEngine (blockedTools e) (allowedTemplates e) (highRiskKeywords e) (approvalRiskLevels e).

(** Deny by default: nothing is allowed before a policy is configured. *)
Definition NewEngine : Engine := mkEngine ∅ ∅ [] ∅.

Definition stringSet (values : list string) : bool_map :=
  foldl (λ m value,
    let value := trim_space value in
    if decide (value = "") then m else <[value := true]> m) ∅ values.

Definition Configure (blocked allowed keywords : list string) (levels : list RiskLevel)
    (e : Engine) : Engine :=
  e <| blockedTools := stringSet blocked |>
    <| allowedTemplates := stringSet allowed |>
    <| highRiskKeywords := keywords |>
    <| approvalRiskLevels := foldl (λ m level, <[level := true]> m) ∅ levels |>.

Definition ValidateTemplate (e : Engine) (code : string) : result unit :=
  guard_err (negb (flag (allowedTemplates e) code))
    (Errorf "template not in whitelist: %s" [AStr code]).

Definition ValidateCommand (e : Engine) (cmd : string) : result unit :=
  let cmd := trim_space cmd in
  if decide (cmd = "") then Err (new_error "command is empty")
  else
    let tool := split_first cmd " " in
    guard_err (flag (blockedTools e) tool) (Errorf "tool is blocked: %s" [AStr tool]).

Definition AssessCommandRisk (e : Engine) (command : string) : RiskLevel :=
  let combined := to_lower command in
  if existsb (contains combined) (highRiskKeywords e) then RiskLevelHigh else RiskLevelLow.

Definition AssessRisk (e : Engine) (intent : TaskIntent.t) : RiskLevel :=
  if decide (TaskIntent.RiskLevel intent = RiskLevelHigh) then RiskLevelHigh
  else
    let combined := TaskIntent.Intent intent +:+ " " +:+ TaskIntent.TargetType intent in
    if existsb (contains (to_lower combined)) (highRiskKeywords e) then RiskLevelHigh
    else TaskIntent.RiskLevel intent.

Definition IsHighRisk (e : Engine) (level : RiskLevel) : bool :=
  bool_decide (level = RiskLevelHigh).

(** The loop of [MergeRisk], which returns at the first high level. *)
Fixpoint merge_loop (result : RiskLevel) (levels : list RiskLevel) : RiskLevel :=
  match levels with
  | [] => result
  | level :: levels =>
      if decide (level = RiskLevelHigh) then RiskLevelHigh
      else if decide (level = RiskLevelMedium) then
        merge_loop (if decide (result ≠ RiskLevelHigh) then RiskLevelMedium else result) levels
      else merge_loop result levels
  end.
Definition MergeRisk (e : Engine) (levels : list RiskLevel) : RiskLevel :=
  merge_loop RiskLevelLow levels.

Definition RequiresManualApproval (e : Engine) (level : RiskLevel) : bool :=
  flag (approvalRiskLevels e) level.

(** A copy of the blocked tools: maps are values here, so a copy is the map. *)
Definition BlockedTools (e : Engine) : bool_map := blockedTools e.

(** ** Lemmas *)

Lemma flag_insert m k k' b :
  flag (<[k := b]> m) k' = if decide (k = k') then b else flag m k'.
Proof. unfold flag. destruct (decide (k = k')); simplify_map_eq; done. Qed.

Lemma flag_foldl_insert (f : string → option string) l m k :
  flag (foldl (λ m v, match f v with Some k' => <[k' := true]> m | None => m end) m l) k = true
  ↔ flag m k = true ∨ ∃ v, v ∈ l ∧ f v = Some k.
Proof.
  revert m. induction l as [|v l IH]; intros m; simpl.
  - split; [by left|intros [?|(v&Hv&_)]; [done|by apply elem_of_nil in Hv]].
  - rewrite IH. clear IH. setoid_rewrite elem_of_cons. destruct (f v) as [k'|] eqn:Hf.
    + rewrite flag_insert. destruct (decide (k' = k)) as [->|?]; naive_solver.
    + naive_solver.
Qed.

(** [stringSet] holds the trimmed, non-empty values. *)
Lemma flag_stringSet values k :
  flag (stringSet values) k = true ↔ k ≠ "" ∧ ∃ v, v ∈ values ∧ trim_space v = k.
Proof.
  set (f v := if decide (trim_space v = "") then None else Some (trim_space v)).
  assert (stringSet values =
    foldl (λ m v, match f v with Some k' => <[k' := true]> m | None => m end) ∅ values) as ->.
  { unfold stringSet. generalize (∅ : bool_map). induction values as [|v l IH]; intros m;
      simpl; [done|]. rewrite IH. f_equal. unfold f. by case_decide. }
  rewrite flag_foldl_insert. unfold f. split.
  - intros [?|(v&?&?)]; [done|]. case_decide; simplify_eq. eauto.
  - intros (?&v&?&<-). right. exists v. by rewrite decide_False.
Qed.

Lemma flag_levels levels k :
  flag (foldl (λ m level, <[level := true]> m) (∅ : bool_map) levels) k = true ↔ k ∈ levels.
Proof.
  rewrite (flag_foldl_insert Some). split; [intros [?|(v&?&[= ->])]; done|eauto].
Qed.

Lemma ValidateTemplate_Ok e code u :
  ValidateTemplate e code = Ok u ↔ flag (allowedTemplates e) code = true.
Proof. unfold ValidateTemplate. rewrite guard_err_Ok. by destruct (flag _ _). Qed.

Lemma is_ok_ValidateTemplate e code :
  is_ok (ValidateTemplate e code) = flag (allowedTemplates e) code.
Proof. unfold ValidateTemplate. by destruct (flag _ _). Qed.

Lemma merge_loop_spec r levels :
  r = RiskLevelLow ∨ r = RiskLevelMedium →
  merge_loop r levels =
    if decide (RiskLevelHigh ∈ levels) then RiskLevelHigh
    else if decide (r = RiskLevelMedium ∨ RiskLevelMedium ∈ levels) then RiskLevelMedium
    else RiskLevelLow.
Proof.
  revert r. induction levels as [|l levels IH]; intros r Hr; simpl.
  - by destruct Hr as [-> | ->].
  - destruct (decide (l = RiskLevelHigh)) as [->|Hl].
    { by rewrite decide_True by set_solver. }
    destruct (decide (l = RiskLevelMedium)) as [->|Hm].
    + rewrite IH by (destruct Hr as [-> | ->]; simpl; auto).
      rewrite (decide_ext (RiskLevelHigh ∈ RiskLevelMedium :: levels)
        (RiskLevelHigh ∈ levels)) by set_solver.
      destruct (decide (RiskLevelHigh ∈ levels)); [done|].
      rewrite !decide_True; [done|set_solver|destruct Hr as [-> | ->]; by left].
    + rewrite IH by done.
      rewrite (decide_ext (RiskLevelHigh ∈ l :: levels) (RiskLevelHigh ∈ levels)) by set_solver.
      rewrite (decide_ext (r = RiskLevelMedium ∨ RiskLevelMedium ∈ l :: levels)
        (r = RiskLevelMedium ∨ RiskLevelMedium ∈ levels)) by set_solver.
      done.
Qed.

(** ** Properties *)

(** A configured engine allows exactly the trimmed, non-blank templates of
    the whitelist, and asks for approval exactly at the configured levels. *)
Theorem configure_gates (b a kw : list string) (ls : list RiskLevel) (e : Engine)
    (code level : string) :
  (is_ok (ValidateTemplate (Configure b a kw ls e) code) = true
     ↔ code ≠ "" ∧ ∃ v, v ∈ a ∧ trim_space v = code)
  ∧ (RequiresManualApproval (Configure b a kw ls e) level = true ↔ level ∈ ls)
  ∧ is_ok (ValidateTemplate NewEngine code) = false.
Proof.
  split_and!.
  - rewrite is_ok_ValidateTemplate. apply flag_stringSet.
  - apply flag_levels.
  - done.
Qed.

(** Merging risk levels gives the highest level present, in any order, and
    every value other than [medium] and [high] counts as low. *)
Theorem merge_risk_max (e : Engine) (levels : list RiskLevel) :
  MergeRisk e levels =
    if decide (RiskLevelHigh ∈ levels) then RiskLevelHigh
    else if decide (RiskLevelMedium ∈ levels) then RiskLevelMedium
    else RiskLevelLow.
Proof.
  unfold MergeRisk. rewrite merge_loop_spec by auto.
  rewrite (decide_ext (RiskLevelLow = RiskLevelMedium ∨ RiskLevelMedium ∈ levels)
    (RiskLevelMedium ∈ levels)); [done|]. split; [by intros [?|?]|by right].
Qed.

End Policy.
