(* ===== verification/Modules.v ===== *)
(** * Modules and command templates

    [text/template] on the actions the managed templates use, the
    [TemplateModule] ([internal/module/builtin/template_module.go]), the module
    registry ([internal/module/registry.go]) and the template engine
    ([internal/domain/template/engine.go]). *)
From Stdlib Require Import Ascii.
From S2P Require Import Prelude.
From S2P Require Import GoStrings.
From S2P Require Import Model.

(** ** [text/template]

    A template text is a sequence of literal text and actions. The action of
    every managed template is the field action [{{.Name}}]; a text with any
    other action is parsed and executed by the class members, which stand for
    the rest of the template language. *)
Class TextTemplate := {
  other_parse : string → result unit;
  other_execute : string → StringMap → result string;
}.

Module TextTemplate.

Inductive node :=
  | Text (s : string)
  | Field (name : string).

Definition is_ident_start (c : Ascii.ascii) : bool :=
  let b := byte_of c in in_range 65 90 b || in_range 97 122 b || (b =? 95)%Z.
Definition is_ident_char (c : Ascii.ascii) : bool :=
  is_ident_start c || in_range 48 57 (byte_of c).

(** The blanks of an action. *)
Definition is_blank (c : Ascii.ascii) : bool :=
  let b := byte_of c in (b =? 32)%Z || (b =? 9)%Z || (b =? 13)%Z || (b =? 10)%Z.
Fixpoint skip_blanks (s : string) : string :=
  match s with
  | EmptyString => ""
  | String c s' => if is_blank c then skip_blanks s' else s
  end.
Definition trim_blanks (s : string) : string :=
  string_rev (skip_blanks (string_rev (skip_blanks s))).

(** The body of an action, between the delimiters: blanks around [.Name]. *)
Definition parse_action (body : string) : option string :=
  match trim_blanks body with
  | String "."%char (String c name) =>
      if is_ident_start c && all_chars is_ident_char name then Some (String c name) else None
  | _ => None
  end.

(** Parsing into nodes; [None] when an action is not a field action. *)
Fixpoint parse_fuel (fuel : nat) (text : string) : option (list node) :=
  match fuel with
  | O => Some [Text text]
  | S fuel =>
      match cut text "{{" with
      | None => Some [Text text]
      | Some (before, rest) =>
          '(body, after) ← cut rest "}}";
          name ← parse_action body;
          nodes ← parse_fuel fuel after;
          Some (Text before :: Field name :: nodes)
      end
  end.
Definition parse (text : string) : option (list node) := parse_fuel (String.length text) text.

(** A field of a [map[string]string]: its value, or [<no value>] when the key
    is missing. *)
Definition exec_node (params : StringMap) (n : node) : string :=
  match n with
  | Text s => s
  | Field name => default "<no value>" (smap_lookup params name)
  end.

Definition execute (params : StringMap) (nodes : list node) : string :=
  concat_strings (exec_node params <$> nodes).

(** [template.New(..).Parse(text)], with the caller's wrapping of the error,
    followed by [Execute(&buf, params)] with its wrapping. *)
Definition render `{TextTemplate} (parse_err exec_err : error → error) (text : string)
    (params : StringMap) : result string :=
  match parse text with
  | Some nodes => Ok (execute params nodes)
  | None =>
      match other_parse text with
      | Err e => Err (parse_err e)
      | Ok _ =>
          match other_execute text params with
          | Err e => Err (exec_err e)
          | Ok s => Ok s
          end
      end
  end.

End TextTemplate.

(** ** The module interface

    A [Module] as the record of what its methods return. [DryRun] and
    [Execute] take the parameters and the timeout of the [ExecContext], and
    [Execute] the shell it runs the command with. *)
Module Module_.

Record ParamDef := mkParam {
  Name : string;
  Description : string;
  Required : bool;
  Default : string;
}.

Record RiskProfile := mkRisk {
  Level : RiskLevel;
  Reversible : bool;
  ImpactScope : string;
  RequiresApproval : bool;
  MaxAutoRetry : Z;
}.

Record Result := mkResult {
  Success : bool;
  Output : string;
  Changed : bool;
  Facts : StringMap;
}.

Record CheckResult := mkCheck {
  NeedsChange : bool;
  CurrentState : string;
}.

(** [runShellCommand] of the host: the command and its timeout. *)
Abbreviation Shell := (string → Z → Result * option error).

Record t := mk {
  Code : string;
  ModName : string;
  ModDescription : string;
  ToolType : string;
  Parameters : list ParamDef;
  RiskLevel_ : RiskLevel;
  Profile : RiskProfile;
  Check_ : CheckResult;
  Execute : Shell → StringMap → Z → Result * option error;
  DryRun : StringMap → Result * option error;
}.

End Module_.

(** ** [TemplateModule] *)
Module TemplateModule.
Import Module_.

Definition risk_profile (level : RiskLevel) : RiskProfile :=
  if decide (level = RiskLevelHigh) then mkRisk RiskLevelHigh false "cluster_wide" true 0
  else if decide (level = RiskLevelMedium) then mkRisk RiskLevelMedium true "single_host" false 0
  else mkRisk RiskLevelLow true "single_host" false 0.

Definition param_def (p : TemplateParam.t) : ParamDef :=
  mkParam (TemplateParam.Name p) (TemplateParam.Description p) (TemplateParam.Required p)
    (TemplateParam.Default p).

Definition renderCommand `{TextTemplate} (tmpl : CommandTemplate.t) (params : StringMap)
    : result string :=
  let code := AStr (CommandTemplate.Code tmpl) in
  TextTemplate.render (λ e, Errorf "template parse error for %s: %w" [code; AErr e])
    (λ e, Errorf "template render error for %s: %w" [code; AErr e])
    (CommandTemplate.Command tmpl) params.

Definition failed : Result := mkResult false "" false None.

Definition dryRun `{TextTemplate} (tmpl : CommandTemplate.t) (params : StringMap)
    : Result * option error :=
  match renderCommand tmpl params with
  | Err e => (failed, Some e)
  | Ok cmd => (mkResult true cmd false None, None)
  end.

Definition execute `{TextTemplate} (tmpl : CommandTemplate.t) (sh : Shell) (params : StringMap)
    (timeout : Z) : Result * option error :=
  match renderCommand tmpl params with
  | Err e => (failed, Some e)
  | Ok cmd => sh cmd timeout
  end.

Definition NewTemplateModule `{TextTemplate} (tmpl : CommandTemplate.t) : Module_.t :=
  Module_.mk (CommandTemplate.Code tmpl) (CommandTemplate.Name tmpl)
    (CommandTemplate.Description tmpl) (CommandTemplate.ToolType tmpl)
    (param_def <$> CommandTemplate.Parameters tmpl) (CommandTemplate.RiskLevel tmpl)
    (risk_profile (CommandTemplate.RiskLevel tmpl)) (mkCheck true "")
    (execute tmpl) (dryRun tmpl).

End TemplateModule.

(** ** The registry *)
Module Registry.

Abbreviation t := (gmap string Module_.t).

Definition NewRegistry : t := ∅.
Definition Register (m : Module_.t) (r : t) : t := <[Module_.Code m := m]> r.
Definition Clear (r : t) : t := ∅.
Definition Get (r : t) (code : string) : result Module_.t :=
  match r !! code with
  | Some m => Ok m
  | None => Err (Errorf "module not found: %s" [AStr code])
  end.
Definition List (it : MapIter) (r : t) : list Module_.t := range_values it r.

(** The template of a module: modules do not expose a raw command. *)
Definition template_param (p : Module_.ParamDef) : TemplateParam.t :=
  TemplateParam.mk (Module_.Name p) (Module_.Description p) (Module_.Required p)
    (Module_.Default p).
Definition as_template (m : Module_.t) : CommandTemplate.t :=
  CommandTemplate.mk (Module_.Code m) (Module_.ModName m) (Module_.ModDescription m)
    (Module_.ToolType m) "" (template_param <$> Module_.Parameters m) (Module_.RiskLevel_ m).
Definition ListAsTemplates (it : MapIter) (r : t) : list CommandTemplate.t :=
  as_template <$> range_values it r.

End Registry.

(** ** The template engine *)
Module TemplateEngine.

Abbreviation t := (gmap string CommandTemplate.t).

Definition NewEngine : t := ∅.

(** A registered template is not overwritten. *)
Definition RegisterModule (m : Module_.t) (e : t) : t :=
  match e !! Module_.Code m with
  | Some _ => e
  | None => <[Module_.Code m := Registry.as_template m]> e
  end.

Definition GetTemplate (e : t) (code : string) : option CommandTemplate.t := e !! code.
Definition RegisterTemplate (tmpl : CommandTemplate.t) (e : t) : t :=
  <[CommandTemplate.Code tmpl := tmpl]> e.
Definition ListTemplates (it : MapIter) (e : t) : list CommandTemplate.t := range_values it e.

(** The value a parameter is rendered with: the provided one unless empty,
    else the default unless empty. *)
Definition param_value (params : StringMap) (p : TemplateParam.t) : option string :=
  let given := smap_get params (TemplateParam.Name p) in
  if decide (given = "") then
    if decide (TemplateParam.Default p = "") then None else Some (TemplateParam.Default p)
  else Some given.

(** The loop over the parameters that applies defaults and checks required
    ones. *)
Fixpoint merge_params (params : StringMap) (ps : list TemplateParam.t)
    (merged : gmap string string) : result (gmap string string) :=
  match ps with
  | [] => Ok merged
  | p :: ps =>
      match param_value params p with
      | Some v => merge_params params ps (<[TemplateParam.Name p := v]> merged)
      | None =>
          if TemplateParam.Required p then
            Err (Errorf "required parameter missing: %s" [AStr (TemplateParam.Name p)])
          else merge_params params ps merged
      end
  end.

Definition Render `{TextTemplate} (e : t) (code : string) (params : StringMap)
    : result (CommandTemplate.t * string) :=
  match e !! code with
  | None => Err (Errorf "template not found: %s" [AStr code])
  | Some tmpl =>
      merged ← merge_params params (CommandTemplate.Parameters tmpl) ∅;
      cmd ← TextTemplate.render (λ e, Errorf "template parse error: %w" [AErr e])
              (λ e, Errorf "template render error: %w" [AErr e])
              (CommandTemplate.Command tmpl) (Some merged);
      Ok (tmpl, cmd)
  end.

End TemplateEngine.

(** ** Lemmas and properties *)
Section params.
Context (params : StringMap).

Definition required_missing (p : TemplateParam.t) : Prop :=
  TemplateParam.Required p = true ∧ TemplateEngine.param_value params p = None.

#[global] Instance required_missing_dec p : Decision (required_missing p).
Proof. unfold required_missing. apply _. Defined.

(** The values a command is rendered with: of each name, the one of its last
    parameter that has any. *)
Definition merged (ps : list TemplateParam.t) (m : gmap string string) : gmap string string :=
  foldl (λ m p, match TemplateEngine.param_value params p with
                | Some v => <[TemplateParam.Name p := v]> m
                | None => m
                end) m ps.
Definition values_of (k : string) (ps : list TemplateParam.t) : list string :=
  omap (λ p, if decide (TemplateParam.Name p = k) then TemplateEngine.param_value params p else None) ps.

Lemma merged_lookup ps k : merged ps ∅ !! k = last (values_of k ps).
Proof.
  induction ps as [|p ps IH] using rev_ind; [done|]. unfold merged, values_of in *.
  rewrite foldl_app, omap_app, last_app. simpl.
  destruct (TemplateEngine.param_value params p) as [v|]; case_decide as Hk; simpl; try done.
  - subst k. by rewrite lookup_insert_eq.
  - by rewrite lookup_insert_ne.
Qed.

(** Merging fails exactly on a missing required parameter. *)
Lemma merge_params_ok ps m :
  Forall (λ p, ¬ required_missing p) ps → TemplateEngine.merge_params params ps m = Ok (merged ps m).
Proof.
  intros H. revert m. induction H as [|p ps Hp _ IH]; intros m; simpl; [done|].
  destruct (TemplateEngine.param_value params p) eqn:Hv; [apply IH|].
  destruct (TemplateParam.Required p) eqn:Hr; [|apply IH]. by destruct Hp.
Qed.

Lemma merge_params_err ps m p :
  p ∈ ps → required_missing p →
  ∃ e, TemplateEngine.merge_params params ps m = Err e.
Proof.
  intros Hp [Hr Hv]. revert m. induction Hp as [p|p q ps Hp IH]; intros m; simpl.
  - rewrite Hv, Hr. eauto.
  - destruct (TemplateEngine.param_value params q); [by apply IH|].
    destruct (TemplateParam.Required q); [eauto|by apply IH].
Qed.

Lemma merge_params_iff ps m :
  TemplateEngine.merge_params params ps ∅ = Ok m ↔
  Forall (λ p, ¬ required_missing p) ps ∧ m = merged ps ∅.
Proof.
  destruct (decide (Forall (λ p, ¬ required_missing p) ps)) as [Hall|Hn].
  - rewrite (merge_params_ok _ _ Hall). split; [by intros [= <-]|]. by intros [_ ->].
  - split; [|by intros [? _]].
    apply not_Forall_Exists, Exists_exists in Hn as (p & Hp & Hm); [|apply _].
    apply dec_stable in Hm. destruct (merge_params_err ps ∅ p Hp Hm) as [e He]. by rewrite He.
Qed.

End params.

(** The text of a command renders with these values: its actions are fields
    only, or the library parses and executes it. *)
Definition renders `{TextTemplate} (text : string) (data : gmap string string) (cmd : string) : Prop :=
  match TextTemplate.parse text with
  | Some nodes => cmd = TextTemplate.execute (Some data) nodes
  | None => is_ok (other_parse text) = true ∧ other_execute text (Some data) = Ok cmd
  end.

Lemma render_iff `{TextTemplate} f g text data cmd :
  TextTemplate.render f g text (Some data) = Ok cmd ↔ renders text data cmd.
Proof.
  unfold TextTemplate.render, renders. destruct (TextTemplate.parse text) as [nodes|].
  - split; [by intros [= <-]|by intros ->].
  - destruct (other_parse text); simpl; [|by split; [|intros [? _]]].
    destruct (other_execute text (Some data)); split; [by intros [= <-]|by intros [_ [= ->]]|done|by intros [_ ?]].
Qed.

(** C11: rendering succeeds exactly when the code is registered, every required
    parameter of its template has a non-empty value or default, and the
    template's command parses and executes with the values of its parameters
    (given ones before defaults, the last parameter of a name before the
    others); the result is that template and the rendered command. *)
Theorem render_succeeds_iff `{TextTemplate} (e : TemplateEngine.t) (code : string)
    (params : StringMap) (tmpl : CommandTemplate.t) (cmd : string) :
  TemplateEngine.Render e code params = Ok (tmpl, cmd) ↔
  e !! code = Some tmpl ∧
  Forall (λ p, ¬ required_missing params p) (CommandTemplate.Parameters tmpl) ∧
  ∃ data : gmap string string,
    (∀ k, data !! k = last (values_of params k (CommandTemplate.Parameters tmpl))) ∧
    renders (CommandTemplate.Command tmpl) data cmd.
Proof.
  unfold TemplateEngine.Render. destruct (e !! code) as [t|]; [|by split; [|intros [? _]]]. split.
  - intros (m & [Hall ->]%merge_params_iff & (c & Hr%render_iff & Hc)%result_bind_Ok)%result_bind_Ok.
    injection Hc as <- <-. split; [done|]. split; [done|]. eexists. split; [|exact Hr]. intros k. apply merged_lookup.
  - intros ([= ->] & Hall & data & Hd & Hr). rewrite (merge_params_ok _ _ _ Hall). cbn.
    assert (merged params (CommandTemplate.Parameters tmpl) ∅ = data) as ->.
    { apply map_eq. intros k. by rewrite merged_lookup, Hd. }
    apply (render_iff (λ e, Errorf "template parse error: %w" [AErr e])
      (λ e, Errorf "template render error: %w" [AErr e])) in Hr. by rewrite Hr.
Qed.

(** A registered command with field actions only renders when no required
    parameter is missing. *)
Lemma field_command_renders `{TextTemplate} (e : TemplateEngine.t) (code : string)
    (params : StringMap) (tmpl : CommandTemplate.t) (nodes : list TextTemplate.node) :
  e !! code = Some tmpl →
  TextTemplate.parse (CommandTemplate.Command tmpl) = Some nodes →
  (is_ok (TemplateEngine.Render e code params) = true ↔
     Forall (λ p, ¬ required_missing params p) (CommandTemplate.Parameters tmpl)).
Proof.
  intros He Hn. unfold TemplateEngine.Render, TextTemplate.render. rewrite He, Hn. split.
  - intros Hok. apply Forall_forall. intros p Hp Hm.
    destruct (merge_params_err params _ ∅ p Hp Hm) as [err Herr].
    by rewrite Herr in Hok.
  - intros Hall. by rewrite (merge_params_ok params _ ∅ Hall).
Qed.

Definition ping_template : CommandTemplate.t :=
  CommandTemplate.mk "check_ping" "Ping" "" "shell" "ping -c {{.Count}} {{ .Host }}"
    [TemplateParam.mk "Host" "" true ""; TemplateParam.mk "Count" "" false "3"] "low".

Lemma field_command_renders_witness :
  let tt := {| other_parse := λ _, Err (new_error "unsupported");
               other_execute := λ _ _, Err (new_error "unsupported") |} in
  let e := TemplateEngine.RegisterTemplate ping_template TemplateEngine.NewEngine in
  let params := Some {[ "Host" := "db1" ]} in
  (is_ok (TemplateEngine.Render e "check_ping" params) = true ↔
     Forall (λ p, ¬ required_missing params p) (CommandTemplate.Parameters ping_template))
  ∧ TemplateEngine.Render e "check_ping" params = Ok (ping_template, "ping -c 3 db1").
Proof.
  intros tt e params. split; [|by vm_compute].
  apply (field_command_renders e "check_ping" params ping_template
    [TextTemplate.Text "ping -c "; TextTemplate.Field "Count"; TextTemplate.Text " ";
     TextTemplate.Field "Host"; TextTemplate.Text ""]); by vm_compute.
Defined.
