(* ===== verification/Sensitive.v ===== *)
(** * Sensitive data ([internal/domain/model/sensitive.go])

    Redaction of credentials in texts and in nested maps, and the checks that
    keep credentials out of job parameters. *)
From Stdlib Require Import Ascii.
From S2P Require Import Prelude.
From S2P Require Import GoStrings.
From S2P Require Import Model.

(** ** Regular expressions

    The constructs [secretValuePattern] uses, matched with the leftmost-first
    semantics of the [regexp] package: [match_re r s k] tries the ways [r] can
    match a prefix of [s] in order of priority and returns what the
    continuation [k] returns on the rest for the first one it accepts. A
    class is a predicate on bytes: the negated class of the pattern excludes
    ASCII bytes only, so it accepts a rune exactly when it accepts each of its
    bytes. *)
Module Regex.

Inductive re :=
  | Letter (c : ascii)              (* a letter under (?i) *)
  | Set_ (p : ascii → bool)         (* one byte of a class *)
  | Star (p : ascii → bool)         (* a class, repeated greedily *)
  | Eps
  | Cat (r1 r2 : re)
  | Alt (r1 r2 : re).               (* prefers r1 *)

Definition Opt (r : re) : re := Alt r Eps.
Definition Plus (p : ascii → bool) : re := Cat (Set_ p) (Star p).

(** The text after a letter matched without regard to case. Under simple
    folding the letter s also matches U+017F and k matches U+212A. *)
Definition match_letter (c : ascii) (s : string) : option string :=
  match s with
  | EmptyString => None
  | String d s1 =>
      if (lower_ascii (byte_of d) =? byte_of c)%Z then Some s1
      else if (byte_of c =? 115)%Z && (byte_of d =? 197)%Z then
        match s1 with
        | String e s2 => if (byte_of e =? 191)%Z then Some s2 else None
        | EmptyString => None
        end
      else if (byte_of c =? 107)%Z && (byte_of d =? 226)%Z then
        match s1 with
        | String e (String f s3) =>
            if (byte_of e =? 132)%Z && (byte_of f =? 170)%Z then Some s3 else None
        | _ => None
        end
      else None
  end.

Fixpoint match_star (p : ascii → bool) (s : string) (k : string → option string)
    : option string :=
  match s with
  | EmptyString => k s
  | String c s' =>
      if p c then
        match match_star p s' k with
        | Some r => Some r
        | None => k s
        end
      else k s
  end.

Fixpoint match_re (r : re) (s : string) (k : string → option string) : option string :=
  match r with
  | Letter c => match_letter c s ≫= k
  | Set_ p => match s with String c s' => if p c then k s' else None | _ => None end
  | Star p => match_star p s k
  | Eps => k s
  | Cat r1 r2 => match_re r1 s (λ s', match_re r2 s' k)
  | Alt r1 r2 => match match_re r1 s k with Some x => Some x | None => match_re r2 s k end
  end.

(** The rest of [s] after the match at its start, if there is one. *)
Definition match_prefix (r : re) (s : string) : option string := match_re r s Some.

(** A word of letters. *)
Fixpoint word (w : string) : re :=
  match w with EmptyString => Eps | String c w' => Cat (Letter c) (word w') end.

(** [ReplaceAllString] for a pattern that matches no empty text: scan from
    left to right, replace each match and go on after it. Every step drops a
    byte, so the length is enough fuel. *)
Fixpoint replace_fuel (fuel : nat) (r : re) (repl s : string) : string :=
  match fuel, s with
  | S fuel, String c s' =>
      match match_prefix r s with
      | Some rest => repl +:+ replace_fuel fuel r repl rest
      | None => String c (replace_fuel fuel r repl s')
      end
  | _, _ => s
  end.
Definition replace_all (r : re) (repl s : string) : string :=
  replace_fuel (String.length s) r repl s.

End Regex.

Module Sensitive.
Import Regex.

Definition MaxSafeTextLength : nat := 4096.

(** The class [\s] of RE2. *)
Definition is_re_space (c : ascii) : bool :=
  let b := byte_of c in
  (b =? 9)%Z || (b =? 10)%Z || (b =? 12)%Z || (b =? 13)%Z || (b =? 32)%Z.
Definition is_char (n : Z) (c : ascii) : bool := (byte_of c =? n)%Z.
(** [[_-]], [=|:], and [[^\s,;]]. *)
Definition is_dash (c : ascii) : bool := is_char 95 c || is_char 45 c.
Definition is_assign (c : ascii) : bool := is_char 61 c || is_char 58 c.
Definition is_value_char (c : ascii) : bool :=
  negb (is_re_space c || is_char 44 c || is_char 59 c).

Definition keywords : re :=
  Alt (word "password") (Alt (word "passwd") (Alt (word "secret") (Alt (word "token")
  (Alt (Cat (word "api") (Cat (Opt (Set_ is_dash)) (word "key")))
  (Alt (Cat (word "private") (Cat (Opt (Set_ is_dash)) (word "key")))
  (word "authorization")))))).
Definition separator : re := Alt (Set_ is_assign) (Set_ is_re_space).
Definition bearer : re := Opt (Cat (word "bearer") (Plus is_re_space)).
Definition secretValuePattern : re :=
  Cat keywords (Cat (Star is_re_space) (Cat separator (Cat (Star is_re_space)
    (Cat bearer (Plus is_value_char))))).

Definition redacted : string := "[REDACTED]".
Definition truncated : string :=
  String "226"%char (String "128"%char (String "166"%char "[truncated]")).

Definition redact (value : string) : string := replace_all secretValuePattern redacted value.

Definition SanitizeText (value : string) : string :=
  let value := redact value in
  if bool_decide (MaxSafeTextLength < String.length value) then
    take_bytes MaxSafeTextLength value +:+ truncated
  else value.

Definition sensitive_words : list string :=
  ["password"; "passwd"; "secret"; "token"; "apikey"; "privatekey"; "authorization"; "dsn";
   "connectionstring"; "connectionurl"].

Definition normalize_key (key : string) : string :=
  to_lower (GoStrings.replace_all (GoStrings.replace_all key "_" "") "-" "").
Definition sensitive_key (key : string) : bool :=
  existsb (contains (normalize_key key)) sensitive_words.

(** The type switch; any other value is kept as it is. *)
Fixpoint sanitizeValue (key : string) (value : any) : any :=
  if sensitive_key key then VString redacted
  else match value with
  | VString v => VString (SanitizeText v)
  | VMap m => VMap (List.map (λ '(k, v), (k, sanitizeValue k v)) m)
  | VMaps l => VMaps (List.map (List.map (λ '(k, v), (k, sanitizeValue k v))) l)
  | VSlice l => VSlice (List.map (sanitizeValue "") l)
  | value => value
  end.

Definition SanitizeMap (value : any_map) : any_map :=
  (λ '(key, item), (key, sanitizeValue key item)) <$> value.

(** [^[a-z0-9][a-z0-9_-]{0,63}$] *)
Definition is_profile_start (c : ascii) : bool :=
  in_range 97 122 (byte_of c) || in_range 48 57 (byte_of c).
Definition is_profile_char (c : ascii) : bool := is_profile_start c || is_dash c.
Definition serviceProfilePattern (s : string) : bool :=
  match s with
  | EmptyString => false
  | String c s' =>
      is_profile_start c && all_chars is_profile_char s' && bool_decide (String.length s' ≤ 63)
  end.

Definition ValidateServiceProfile (templateCode : string) (params : StringMap) : result unit :=
  let name := trim_space (smap_get params "ServiceProfile") in
  if decide (name = "") then Ok tt
  else if negb (serviceProfilePattern name) then
    Err (Errorf "template %q has invalid ServiceProfile" [AStr templateCode])
  else guard_err (bool_decide (trim_space (smap_get params "ServiceType") = ""))
    (Errorf "template %q requires ServiceType when ServiceProfile is set" [AStr templateCode]).

Definition inline_secret_words : list string :=
  ["password"; "passwd"; "secret"; "token"; "apikey"; "privatekey"; "dsn";
   "connectionstring"; "connectionurl"].

(** The body of the loop of [ValidateNoInlineSecrets]. *)
Definition check_param (key value : string) : result unit :=
  if decide (trim_space value = "") then Ok tt else
  let normalized := to_lower (GoStrings.replace_all key "_" "") in
  if decide (normalized = "credentialsfile" ∨ normalized = "credentialsprofile") then
    Err (Errorf "parameter %q is not allowed; use the Worker-local ServiceProfile" [AStr key])
  else if has_suffix normalized "ref" || has_suffix normalized "file" then Ok tt
  else guard_err (existsb (contains normalized) inline_secret_words)
    (Errorf "inline sensitive parameter %q is not allowed; configure credentials on the worker and pass a *_ref or *_file reference" [AStr key]).

Fixpoint check_params (l : list (string * string)) : result unit :=
  match l with
  | [] => Ok tt
  | (key, value) :: l => _ ← check_param key value; check_params l
  end.
Definition ValidateNoInlineSecrets (it : MapIter) (params : StringMap) : result unit :=
  check_params (range_map it (smap_entries params)).

End Sensitive.

(** ** What a pattern matches

    [parses r s rest]: [r] matches a prefix of [s] and leaves [rest]. The
    matcher finds a match exactly when there is one. *)
Module RegexFacts.
Import Regex.

Fixpoint parses (r : re) (s rest : string) : Prop :=
  match r with
  | Letter c => match_letter c s = Some rest
  | Set_ p => ∃ c, s = String c rest ∧ p c = true
  | Star p => ∃ w, s = w +:+ rest ∧ all_chars p w = true
  | Eps => s = rest
  | Cat r1 r2 => ∃ m, parses r1 s m ∧ parses r2 m rest
  | Alt r1 r2 => parses r1 s rest ∨ parses r2 s rest
  end.

Lemma match_star_sound p s k x :
  match_star p s k = Some x → ∃ w rest, s = w +:+ rest ∧ all_chars p w = true ∧ k rest = Some x.
Proof.
  induction s as [|c s IH]; simpl; [by exists "", ""|].
  destruct (p c) eqn:Hc; [|by exists "", (String c s)].
  destruct (match_star p s k) as [y|].
  - intros [= ->]. destruct (IH eq_refl) as (w & rest & -> & Hw & Hk).
    exists (String c w), rest. simpl. by rewrite Hc.
  - intros Hk. by exists "", (String c s).
Qed.

Lemma match_star_complete p w rest k :
  all_chars p w = true → is_Some (k rest) → is_Some (match_star p (w +:+ rest) k).
Proof.
  intros Hw Hk. induction w as [|c w IH]; simpl in *.
  - destruct rest as [|c rest]; simpl; [done|].
    destruct (p c); [|done]. by destruct (match_star p rest k).
  - apply andb_prop in Hw as [-> Hw]. destruct (IH Hw) as [x ->]. done.
Qed.

Lemma match_re_sound r s k x :
  match_re r s k = Some x → ∃ rest, parses r s rest ∧ k rest = Some x.
Proof.
  revert s k x. induction r as [c|p|p| |r1 IH1 r2 IH2|r1 IH1 r2 IH2]; intros s k x; simpl.
  - intros (rest & Hl & Hk)%bind_Some. eauto.
  - destruct s as [|c s]; [done|]. destruct (p c) eqn:Hc; [|done]. eauto.
  - intros (w & rest & -> & Hw & Hk)%match_star_sound. eauto.
  - eauto.
  - intros (m & Hm & (rest & Hr & Hk)%IH2)%IH1. eauto.
  - destruct (match_re r1 s k) as [y|] eqn:H1.
    + intros [= ->]. destruct (IH1 _ _ _ H1) as (rest & ? & ?). eauto.
    + intros (rest & ? & ?)%IH2. eauto.
Qed.

Lemma match_re_complete r s k rest :
  parses r s rest → is_Some (k rest) → is_Some (match_re r s k).
Proof.
  revert s k rest. induction r as [c|p|p| |r1 IH1 r2 IH2|r1 IH1 r2 IH2]; intros s k rest; simpl.
  - by intros ->.
  - by intros (c & -> & ->).
  - intros (w & -> & Hw). by apply match_star_complete.
  - by intros ->.
  - intros (m & H1 & H2) Hk. by eapply IH1, IH2.
  - intros [H|H] Hk.
    + by destruct (IH1 s k rest H Hk) as [x ->].
    + destruct (match_re r1 s k); [done|]. by eapply IH2.
Qed.

Lemma match_prefix_None r s : match_prefix r s = None ↔ ∀ rest, ¬ parses r s rest.
Proof.
  unfold match_prefix. split.
  - intros Hn rest Hp. destruct (match_re_complete r s Some rest Hp) as [x Hx]; [done|].
    by rewrite Hx in Hn.
  - intros Hn. destruct (match_re r s Some) as [x|] eqn:Hm; [|done].
    apply match_re_sound in Hm as (rest & Hp & _). by destruct (Hn rest).
Qed.

Lemma match_letter_length c s rest :
  match_letter c s = Some rest → String.length rest < String.length s.
Proof. intros Hm. unfold match_letter in Hm. repeat case_match; simplify_eq/=; lia. Qed.

Lemma parses_length r s rest : parses r s rest → String.length rest ≤ String.length s.
Proof.
  revert s rest. induction r as [c|p|p| |r1 IH1 r2 IH2|r1 IH1 r2 IH2]; intros s rest; simpl.
  - intros ?%match_letter_length. lia.
  - intros (c & -> & _). simpl. lia.
  - intros (w & -> & _). rewrite string_length_app. lia.
  - by intros ->.
  - intros (m & ?%IH1 & ?%IH2). lia.
  - intros [?%IH1|?%IH2]; lia.
Qed.



(** ** Replacement *)
Section replace.
Context (r : re) (c0 : ascii) (repl' : string).
Let repl := String c0 repl'.
(** The pattern matches no empty text. *)
Context (r_consumes : ∀ s rest, parses r s rest → String.length rest < String.length s).

Lemma match_prefix_length s rest :
  match_prefix r s = Some rest → String.length rest < String.length s.
Proof. intros (rest' & Hp & [= ->])%match_re_sound. by apply r_consumes. Qed.

Lemma replace_fuel_enough n m s :
  String.length s ≤ n → String.length s ≤ m →
  replace_fuel n r repl s = replace_fuel m r repl s.
Proof.
  revert m s. induction n as [|n IH]; intros m s Hn Hm.
  - destruct s; simpl in *; [|lia]. by destruct m.
  - destruct s as [|c s]; [by destruct m|]. destruct m as [|m]; simpl in *; [lia|].
    destruct (match_prefix r (String c s)) as [rest|] eqn:Hp.
    + apply match_prefix_length in Hp. simpl in Hp. f_equal. apply IH; lia.
    + f_equal. apply IH; lia.
Qed.

Lemma replace_all_cons c s :
  replace_all r repl (String c s) =
    match match_prefix r (String c s) with
    | Some rest => repl +:+ replace_all r repl rest
    | None => String c (replace_all r repl s)
    end.
Proof.
  unfold replace_all at 1. simpl.
  destruct (match_prefix r (String c s)) as [rest|] eqn:Hp; [|done].
  f_equal. apply match_prefix_length in Hp. simpl in Hp.
  apply replace_fuel_enough; [lia|done].
Qed.

(** A byte of the output other than the first of the replacement was read
    from the input. *)
Lemma replace_all_head s d o :
  replace_all r repl s = String d o → d ≠ c0 →
  ∃ s', s = String d s' ∧ o = replace_all r repl s'.
Proof.
  destruct s as [|c s]; [done|]. rewrite replace_all_cons.
  destruct (match_prefix r (String c s)) as [rest|]; [by intros [= <- _] []|].
  intros [= -> <-] _. eauto.
Qed.

(** A pattern that cannot read the first byte of the replacement. *)
Fixpoint avoids (q : re) : bool :=
  match q with
  | Letter c => negb (lower_ascii (byte_of c0) =? byte_of c)%Z
                && negb (bool_decide (byte_of c0 ∈ [197; 191; 226; 132; 170]%Z))
  | Set_ p | Star p => negb (p c0)
  | Eps => true
  | Cat q1 q2 | Alt q1 q2 => avoids q1 && avoids q2
  end.

Lemma match_letter_replace c s rest :
  avoids (Letter c) = true → match_letter c (replace_all r repl s) = Some rest →
  ∃ s', match_letter c s = Some s' ∧ rest = replace_all r repl s'.
Proof.
  simpl. intros [Hl Hb]%andb_prop Hm. apply negb_true_iff in Hl, Hb.
  apply bool_decide_eq_false in Hb.
  assert (∀ b n, b = n → n ∈ [197; 191; 226; 132; 170]%Z → b ≠ byte_of c0) as Hne.
  { intros b n -> Hn Heq. apply Hb. by rewrite <-Heq. }
  unfold match_letter in Hm.
  destruct (replace_all r repl s) as [|d o] eqn:Ho; [done|].
  destruct (lower_ascii (byte_of d) =? byte_of c)%Z eqn:H1.
  { injection Hm as <-. apply replace_all_head in Ho as (s' & -> & ->).
    - exists s'. simpl. by rewrite H1.
    - intros ->. by rewrite H1 in Hl. }
  destruct ((byte_of c =? 115)%Z && (byte_of d =? 197)%Z) eqn:H2.
  { destruct o as [|e o]; [done|]. destruct (byte_of e =? 191)%Z eqn:H3; [|done].
    injection Hm as <-.
    pose proof H2 as [Hc Hd%Z.eqb_eq]%andb_prop.
    apply replace_all_head in Ho as (s' & -> & Ho);
      [|intros ->; eapply Hne; [exact Hd|set_solver|done]].
    symmetry in Ho. apply replace_all_head in Ho as (s'' & -> & ->);
      [|intros ->; apply Z.eqb_eq in H3; eapply Hne; [exact H3|set_solver|done]].
    exists s''. simpl. by rewrite H1, H2, H3. }
  destruct ((byte_of c =? 107)%Z && (byte_of d =? 226)%Z) eqn:H3; [|done].
  destruct o as [|e [|f o]]; [done|done|].
  destruct ((byte_of e =? 132)%Z && (byte_of f =? 170)%Z) eqn:H4; [|done].
  injection Hm as <-.
  pose proof H3 as [Hc Hd%Z.eqb_eq]%andb_prop. pose proof H4 as [He%Z.eqb_eq Hf%Z.eqb_eq]%andb_prop.
  apply replace_all_head in Ho as (s' & -> & Ho);
    [|intros ->; eapply Hne; [exact Hd|set_solver|done]].
  symmetry in Ho. apply replace_all_head in Ho as (s'' & -> & Ho);
    [|intros ->; eapply Hne; [exact He|set_solver|done]].
  symmetry in Ho. apply replace_all_head in Ho as (s3 & -> & ->);
    [|intros ->; eapply Hne; [exact Hf|set_solver|done]].
  exists s3. simpl. by rewrite H1, H2, H3, H4.
Qed.

Lemma star_replace p w rest s :
  p c0 = false → all_chars p w = true → replace_all r repl s = w +:+ rest →
  ∃ s', s = w +:+ s' ∧ rest = replace_all r repl s'.
Proof.
  intros Hp. revert s. induction w as [|c w IH]; simpl; intros s Hw Ho; [eauto|].
  apply andb_prop in Hw as [Hc Hw].
  apply replace_all_head in Ho as (s1 & -> & Ho); [|by intros ->; congruence].
  destruct (IH s1 Hw (eq_sym Ho)) as (s' & -> & ->). eauto.
Qed.

(** Such a pattern matches the output only where it matches the input. *)
Lemma parses_replace q s rest :
  avoids q = true → parses q (replace_all r repl s) rest →
  ∃ s', parses q s s' ∧ rest = replace_all r repl s'.
Proof.
  revert s rest. induction q as [c|p|p| |q1 IH1 q2 IH2|q1 IH1 q2 IH2]; intros s rest Ha.
  - by apply match_letter_replace.
  - simpl in *. apply negb_true_iff in Ha. intros (c & Ho & Hc).
    apply replace_all_head in Ho as (s' & -> & ->); [eauto|by intros ->; congruence].
  - simpl in *. apply negb_true_iff in Ha. intros (w & Ho & Hw).
    destruct (star_replace p w rest s Ha Hw Ho) as (s' & -> & ->). eauto.
  - simpl. intros <-. eauto.
  - simpl in *. apply andb_prop in Ha as [Ha1 Ha2]. intros (m & H1 & H2).
    destruct (IH1 _ _ Ha1 H1) as (m' & ? & ->). destruct (IH2 _ _ Ha2 H2) as (s' & ? & ->).
    eauto.
  - simpl in *. apply andb_prop in Ha as [Ha1 Ha2]. intros [H|H].
    + destruct (IH1 _ _ Ha1 H) as (s' & ? & ->). eauto.
    + destruct (IH2 _ _ Ha2 H) as (s' & ? & ->). eauto.
Qed.
End replace.

End RegexFacts.

(** ** Properties of the redaction *)
Module SensitiveFacts.
Import Regex RegexFacts Sensitive.

(** No position of the text starts a match of [secretValuePattern]. *)
Definition clean (s : string) : Prop :=
  ∀ pre suf rest, s = pre +:+ suf → ¬ parses secretValuePattern suf rest.

(** The pattern up to the value, and from the optional scheme of the value. *)
Definition credential_head : re :=
  Cat keywords (Cat (Star is_re_space) (Cat separator (Star is_re_space))).
Definition credential_value : re := Cat bearer (Plus is_value_char).

Lemma secret_split s rest :
  parses secretValuePattern s rest ↔
  ∃ m, parses credential_head s m ∧ parses credential_value m rest.
Proof.
  unfold secretValuePattern, credential_head, credential_value.
  generalize keywords, (Star is_re_space), separator, bearer, (Plus is_value_char).
  intros r1 r2 r3 r4 r5. cbn [parses]. naive_solver.
Qed.

Definition starts_value (s : string) : bool :=
  match s with String c _ => is_value_char c | EmptyString => false end.

(** The first byte of a keyword is a value byte. *)
Lemma word_starts_value w c s rest :
  parses (word (String c w)) s rest → in_range 97 122 (byte_of c) = true →
  starts_value s = true.
Proof.
  intros (m & Hl & _) [Hc1%Z.leb_le Hc2%Z.leb_le]%andb_prop. simpl in Hl. unfold match_letter in Hl.
  destruct s as [|d s]; [done|]. simpl.
  unfold is_value_char, is_re_space, is_char.
  assert (∀ n, n ∈ [9; 10; 12; 13; 32; 44; 59]%Z → byte_of d ≠ n) as Hd.
  { intros n Hn Heq. rewrite Heq in Hl.
    assert (lower_ascii n = n ∧ n ≠ 197 ∧ n ≠ 226 ∧ n < 97)%Z as (Hlow & H1 & H2 & H3).
    { unfold lower_ascii, in_range. repeat (apply elem_of_cons in Hn as [->|Hn]; [done|]).
      by apply elem_of_nil in Hn. }
    rewrite Hlow, (proj2 (Z.eqb_neq n _)), (proj2 (Z.eqb_neq n 197)), (proj2 (Z.eqb_neq n 226)) in Hl
      by lia. by rewrite !andb_false_r in Hl. }
  repeat (rewrite (proj2 (Z.eqb_neq (byte_of d) _)) by (apply Hd; set_solver)). done.
Qed.

Lemma keywords_start s rest : parses keywords s rest → starts_value s = true.
Proof.
  intros [H|[H|[H|[H|[H|[H|H]]]]]];
    try (eapply word_starts_value; [exact H|reflexivity]);
    destruct H as (m & H & _); (eapply word_starts_value; [exact H|reflexivity]).
Qed.

Lemma head_start s m : parses credential_head s m → starts_value s = true.
Proof. intros (x & H & _). by eapply keywords_start. Qed.

(** The rest of the pattern matches exactly where a value starts. *)
Lemma value_start s : (∃ rest, parses credential_value s rest) ↔ starts_value s = true.
Proof.
  split.
  - intros (rest & m & Hb & c' & (c & -> & Hc) & _).
    destruct Hb as [(x & Hw & _)|Heps]; [|simpl in Heps; by subst].
    eapply word_starts_value; [exact Hw|reflexivity].
  - destruct s as [|c s]; simpl; [done|]. intros Hc. exists s, (String c s).
    split; [by right|]. exists s. split; [by exists c|]. by exists "".
Qed.

Lemma secret_matches s :
  (∃ rest, parses secretValuePattern s rest) ↔
  ∃ m, parses credential_head s m ∧ starts_value m = true.
Proof.
  split.
  - intros (rest & (m & Hh & Hv)%secret_split). exists m. split; [done|].
    apply value_start. by exists rest.
  - intros (m & Hh & [rest Hv]%value_start). exists rest. apply secret_split. by exists m.
Qed.

Lemma secret_consumes s rest :
  parses secretValuePattern s rest → String.length rest < String.length s.
Proof.
  intros (m & Hh & m' & Hb & m2 & (c & -> & _) & Hs)%secret_split.
  apply parses_length in Hh, Hb, Hs. simpl in *. lia.
Qed.

Lemma redact_cons c s :
  redact (String c s) =
    match match_prefix secretValuePattern (String c s) with
    | Some rest => redacted +:+ redact rest
    | None => String c (redact s)
    end.
Proof. apply replace_all_cons, secret_consumes. Qed.

Lemma starts_value_redact s : starts_value (redact s) = true → starts_value s = true.
Proof.
  destruct s as [|c s]; [done|]. rewrite redact_cons.
  destruct (match_prefix secretValuePattern (String c s)) as [rest|] eqn:Hm; [|done].
  intros _. apply match_re_sound in Hm as (x & (m & Hh & _)%secret_split & _).
  by eapply head_start.
Qed.

(** The redacted text has a match at its start only if the text has one. *)
Lemma redact_reflects s rest :
  parses secretValuePattern (redact s) rest → ∃ rest', parses secretValuePattern s rest'.
Proof.
  intros Hp. apply secret_matches.
  destruct (proj1 (secret_matches _) (ex_intro _ _ Hp)) as (m & Hh & Hv).
  apply (parses_replace secretValuePattern "[" "REDACTED]" secret_consumes) in Hh
    as (m' & Hh & ->); [|by vm_compute].
  exists m'. split; [done|]. by apply starts_value_redact.
Qed.

Lemma clean_cons c s :
  (∀ rest, ¬ parses secretValuePattern (String c s) rest) → clean s → clean (String c s).
Proof.
  intros Hc Hs pre suf rest Heq Hp. destruct pre as [|d pre].
  - by apply (Hc rest); rewrite Heq.
  - rewrite string_app_cons in Heq. injection Heq as -> ->. by eapply Hs.
Qed.

Lemma clean_redacted s : clean s → clean (redacted +:+ s).
Proof.
  intros Hs. unfold redacted. rewrite !string_app_cons.
  repeat (apply clean_cons; [by apply match_prefix_None|]). done.
Qed.

(** Redaction leaves no match, at any position. *)
Lemma redact_clean s : clean (redact s).
Proof.
  remember (String.length s) as n eqn:Hn. revert s Hn.
  induction (lt_wf n) as [n _ IH]. intros s ->.
  destruct s as [|c s].
  - intros pre suf rest Heq Hp. apply secret_consumes in Hp.
    destruct pre; [|done]. change (redact "") with "" in Heq.
    change ("" +:+ suf) with suf in Heq. subst. simpl in Hp. lia.
  - pose proof (redact_cons c s) as Hr.
    destruct (match_prefix secretValuePattern (String c s)) as [rest|] eqn:Hm.
    + rewrite Hr. apply clean_redacted. eapply IH; [|done].
      apply match_re_sound in Hm as (rest' & Hp & [= ->]). by apply secret_consumes.
    + rewrite Hr. apply clean_cons; [|eapply IH; [|done]; simpl; lia].
      intros rest Hp. rewrite <-Hr in Hp. apply redact_reflects in Hp as [rest' Hp].
      by apply (proj1 (match_prefix_None _ _) Hm rest').
Qed.

Lemma redact_of_clean s : clean s → redact s = s.
Proof.
  induction s as [|c s IH]; [done|]. intros Hc. rewrite redact_cons.
  assert (match_prefix secretValuePattern (String c s) = None) as ->.
  { apply match_prefix_None. intros rest. by apply (Hc "" _ rest). }
  f_equal. apply IH. intros pre suf rest -> Hp. by apply (Hc (String c pre) suf rest).
Qed.












(** Redaction is idempotent, and a text in which the pattern matches
    nowhere is kept as it is. *)
Theorem redact_idempotent (s : string) :
  redact (redact s) = redact s ∧ clean (redact s) ∧ (clean s → redact s = s).
Proof.
  split_and!; [|apply redact_clean|apply redact_of_clean].
  apply redact_of_clean, redact_clean.
Qed.

(** ** The parameter checks *)

Definition offending (key value : string) : Prop := is_ok (check_param key value) = false.

Lemma check_params_ok l :
  is_ok (check_params l) = true ↔ Forall (λ e, ¬ offending e.1 e.2) l.
Proof.
  unfold offending. induction l as [|[k v] l IH]; simpl; [done|].
  rewrite Forall_cons, <-IH. simpl. destruct (check_param k v); simpl; naive_solver.
Qed.

Lemma no_inline_secrets_ok (it : MapIter) (params : StringMap) :
  is_ok (ValidateNoInlineSecrets it params) = true ↔
    map_Forall (λ k v, ¬ offending k v) (smap_entries params).
Proof.
  unfold ValidateNoInlineSecrets. rewrite check_params_ok, Forall_forall. split.
  - intros H k v Hk. by apply (H (k, v)), elem_of_range.
  - intros H [k v] Hk%elem_of_range. by apply H.
Qed.

(** Whether a job's parameters are accepted does not depend on the order
    the map is visited in: they are exactly when no entry is an inline secret,
    and a rejection names an entry that is one. *)
Theorem no_inline_secrets_iff (it : MapIter) (params : StringMap) :
  (is_ok (ValidateNoInlineSecrets it params) = true ↔
     map_Forall (λ k v, ¬ offending k v) (smap_entries params))
  ∧ (∀ e, ValidateNoInlineSecrets it params = Err e →
       ∃ k v, smap_entries params !! k = Some v ∧ check_param k v = Err e).
Proof.
  split; [apply no_inline_secrets_ok|]. unfold ValidateNoInlineSecrets.
  - intros e. setoid_rewrite <-(elem_of_range it (smap_entries params)).
    generalize (range_map it (smap_entries params)). intros l. induction l as [|[k v] l IH]; [done|].
    simpl. destruct (check_param k v) as [[]|e'] eqn:Hc; simpl.
    + intros (k' & v' & ? & ?)%IH. exists k', v'. by rewrite elem_of_cons; auto.
    + intros [= ->]. exists k, v. by rewrite elem_of_cons; auto.
Qed.

(** The hyphen is not ignored by the check, while the redaction ignores it:
    ["api-key"] is accepted as a job parameter and redacted in a record. *)
Example hyphenated_key_accepted :
  check_param "api-key" "0123456789abcdef" = Ok tt ∧ sensitive_key "api-key" = true.
Proof. by vm_compute. Qed.

(** Texts in a [[]string] are kept as they are. *)
Example string_slice_not_redacted :
  SanitizeMap [("commands", VStrings ["mysql password=hunter2"])]
  = [("commands", VStrings ["mysql password=hunter2"])].
Proof. by vm_compute. Qed.

End SensitiveFacts.
