(* ===== verification/Scheduler.v ===== *)
(** * The in-memory store ([internal/infrastructure/scheduler/store.go])

    Workers, jobs, audit logs and incident cases behind one lock, with
    identifiers drawn from an atomic counter. Every operation takes the
    reading of the clock it makes and, where it ranges over a map, the order
    it visits the entries in. *)
From Stdlib Require Import Ascii.
From S2P Require Import Prelude.
From S2P Require Import GoStrings.
From S2P Require Import Model.

Module Scheduler.

Record Store := mkStore {
  workers : gmap string Worker.t;
  jobs : gmap string Job.t;
  auditLogs : list AuditLog.t;
  incidentCases : gmap string IncidentCase.t;
  incidentByPlan : gmap string string;
  nextID : Z;
}.
#[global] Instance Store_eta : Eta Store := λ s,
  mkStore (workers s) (jobs s) (auditLogs s) (incidentCases s) (incidentByPlan s) (nextID s).

Definition workerOnlineThreshold : Z := 30 * second.

Record CreateJobOptions := mkOptions {
  Status : JobStatus;
  RiskLevel : RiskLevel;
  ApprovalRequired : bool;
  ApprovalStatus : ApprovalStatus;
  ApprovalComment : string;
  TemplateCode : string;
  Parameters : StringMap;
  SourceType : string;
  SourceID : string;
  AssignedWorkerID : string;
}.
Definition no_options : CreateJobOptions := mkOptions "" "" false "" "" "" None "" "" "".

Definition NewStore : Store := mkStore ∅ ∅ [] ∅ ∅ 0.

(** The identifier of the [n]-th object. *)
Definition make_id (prefix : string) (n : Z) : string := prefix +:+ "-" +:+ pad6 n.

Definition newID (prefix : string) (s : Store) : string * Store :=
  let value := u64_add (nextID s) 1 in
  (make_id prefix value, s <| nextID := value |>).

(** An operation in two parts draws its identifier before it takes the lock:
    the object is built, then inserted. *)
Definition new_worker (now : time) (name workerType : string) (s : Store) : Worker.t * Store :=
  let '(id, s) := newID "worker" s in
  (Worker.mk id name workerType WorkerStatusOnline HostInfo.zero now now now, s).
Definition insert_worker (worker : Worker.t) (s : Store) : Store :=
  s <| workers := <[Worker.ID worker := worker]> (workers s) |>.
Definition RegisterWorker (now : time) (name workerType : string) (s : Store)
    : Worker.t * Store :=
  let '(worker, s) := new_worker now name workerType s in
  (worker, insert_worker worker s).

Definition HeartbeatWorker (now : time) (id : string) (s : Store) : option Worker.t * Store :=
  match workers s !! id with
  | None => (None, s)
  | Some worker =>
      let worker := worker <| Worker.LastHeartbeatAt := now |>
                           <| Worker.Status := WorkerStatusOnline |>
                           <| Worker.UpdatedAt := now |> in
      (Some worker, s <| workers := <[id := worker]> (workers s) |>)
  end.

Definition ListWorkers (it : MapIter) (s : Store) : list Worker.t := range_values it (workers s).

Definition cloneStringMap (m : StringMap) : StringMap :=
  match m with
  | None => None
  | Some m => if decide (m = ∅) then None else Some m
  end.

Definition new_job (now : time) (name workerType command : string) (opts : CreateJobOptions)
    (s : Store) : Job.t * Store :=
  let status := if decide (Status opts = "") then JobStatusPending else Status opts in
  let approvalStatus :=
    if ApprovalRequired opts && bool_decide (ApprovalStatus opts = "") then ApprovalStatusPending
    else ApprovalStatus opts in
  let approvalStatus :=
    if negb (ApprovalRequired opts) && bool_decide (approvalStatus = "")
    then ApprovalStatusNotRequired else approvalStatus in
  let '(id, s) := newID "job" s in
  (Job.zero <| Job.ID := id |>
            <| Job.Name := name |>
            <| Job.WorkerType := workerType |>
            <| Job.Command := command |>
            <| Job.Status := status |>
            <| Job.RiskLevel := RiskLevel opts |>
            <| Job.ApprovalRequired := ApprovalRequired opts |>
            <| Job.ApprovalStatus := approvalStatus |>
            <| Job.ApprovalComment := ApprovalComment opts |>
            <| Job.TemplateCode := TemplateCode opts |>
            <| Job.Parameters := cloneStringMap (Parameters opts) |>
            <| Job.SourceType := SourceType opts |>
            <| Job.SourceID := SourceID opts |>
            <| Job.AssignedWorkerID := AssignedWorkerID opts |>
            <| Job.CreatedAt := now |>
            <| Job.UpdatedAt := now |>, s).
Definition insert_job (job : Job.t) (s : Store) : Store :=
  s <| jobs := <[Job.ID job := job]> (jobs s) |>.
Definition CreateJobWithOptions (now : time) (name workerType command : string)
    (opts : CreateJobOptions) (s : Store) : Job.t * Store :=
  let '(job, s) := new_job now name workerType command opts s in
  (job, insert_job job s).
Definition CreateJob (now : time) (name workerType command : string) (s : Store)
    : Job.t * Store :=
  CreateJobWithOptions now name workerType command no_options s.

Definition job_newer (x y : Job.t) : bool := bool_decide (Job.CreatedAt y < Job.CreatedAt x)%Z.
Definition ListJobs (it : MapIter) (s : Store) : list Job.t :=
  sort_slice job_newer (range_values it (jobs s)).

Definition GetJob (id : string) (s : Store) : option Job.t := jobs s !! id.

(** ** Assignment *)
Definition assignable (worker : Worker.t) (job : Job.t) : bool :=
  (bool_decide (Job.Status job = JobStatusQueued) || bool_decide (Job.Status job = JobStatusPending))
  && WorkerCanRunType (Worker.WorkerType worker) (Job.WorkerType job).

Definition job_before (x y : Job.t) : bool :=
  bool_decide (Job.CreatedAt x < Job.CreatedAt y)%Z
  || (bool_decide (Job.CreatedAt x = Job.CreatedAt y) && str_lt (Job.ID x) (Job.ID y)).

(** The body of the loop: the selected entry, if any was found. *)
Definition select_job (worker : Worker.t) (selected : option (string * Job.t))
    (entry : string * Job.t) : option (string * Job.t) :=
  if negb (assignable worker entry.2) then selected
  else match selected with
  | None => Some entry
  | Some (_, job) => if job_before entry.2 job then Some entry else selected
  end.

Definition start_job (now : time) (workerID : string) (job : Job.t) : Job.t :=
  job <| Job.Status := JobStatusRunning |>
      <| Job.AssignedWorkerID := workerID |>
      <| Job.StartedAt := Some now |>
      <| Job.UpdatedAt := now |>.

Definition AssignNextJob (it : MapIter) (now : time) (workerID : string) (s : Store)
    : option Job.t * Store :=
  match workers s !! workerID with
  | None => (None, s)
  | Some worker =>
      match foldl (select_job worker) None (range_map it (jobs s)) with
      | None => (None, s)
      | Some (selectedID, job) =>
          let job := start_job now workerID job in
          (Some job, s <| jobs := <[selectedID := job]> (jobs s) |>)
      end
  end.

Definition job_not_found : error := new_error "job not found".

Definition CompleteJob (now : time) (workerID jobID output : string) (success : bool) (s : Store)
    : result Job.t * Store :=
  match jobs s !! jobID with
  | None => (Err job_not_found, s)
  | Some job =>
      if decide (Job.AssignedWorkerID job ≠ workerID) then
        (Err (new_error "job is not assigned to worker"), s)
      else
        let job := job <| Job.Output := output |>
                       <| Job.FinishedAt := Some now |>
                       <| Job.UpdatedAt := now |>
                       <| Job.Status := if success then JobStatusSuccess else JobStatusFailed |> in
        (Ok job, s <| jobs := <[jobID := job]> (jobs s) |>)
  end.

Definition AssignJobToWorker (now : time) (jobID workerID : string) (s : Store)
    : result Job.t * Store :=
  match workers s !! workerID with
  | None => (Err (new_error "worker not found"), s)
  | Some worker =>
      match jobs s !! jobID with
      | None => (Err job_not_found, s)
      | Some job =>
          if negb (WorkerCanRunType (Worker.WorkerType worker) (Job.WorkerType job)) then
            (Err (new_error "worker type does not match job type"), s)
          else
            let job := start_job now workerID job in
            (Ok job, s <| jobs := <[jobID := job]> (jobs s) |>)
      end
  end.

Definition ListPendingApprovalJobs (it : MapIter) (s : Store) : list Job.t :=
  filter (λ job, Job.Status job = JobStatusWaitingApproval) (range_values it (jobs s)).

Definition ApproveJob (now : time) (jobID approvedBy comment : string) (s : Store)
    : result Job.t * Store :=
  match jobs s !! jobID with
  | None => (Err job_not_found, s)
  | Some job =>
      if decide (Job.Status job ≠ JobStatusWaitingApproval) then
        (Err (new_error "job is not waiting for approval"), s)
      else
        let job := job <| Job.Status := JobStatusPending |>
                       <| Job.ApprovalStatus := ApprovalStatusApproved |>
                       <| Job.ApprovedBy := approvedBy |>
                       <| Job.ApprovedAt := Some now |>
                       <| Job.ApprovalComment := comment |>
                       <| Job.UpdatedAt := now |> in
        (Ok job, s <| jobs := <[jobID := job]> (jobs s) |>)
  end.

Definition RejectJob (now : time) (jobID rejectedBy reason : string) (s : Store)
    : result Job.t * Store :=
  match jobs s !! jobID with
  | None => (Err job_not_found, s)
  | Some job =>
      if decide (Job.Status job ≠ JobStatusWaitingApproval) then
        (Err (new_error "job is not waiting for approval"), s)
      else
        let job := job <| Job.Status := JobStatusCancelled |>
                       <| Job.ApprovalStatus := ApprovalStatusRejected |>
                       <| Job.RejectedBy := rejectedBy |>
                       <| Job.RejectedAt := Some now |>
                       <| Job.ApprovalComment := reason |>
                       <| Job.UpdatedAt := now |> in
        (Ok job, s <| jobs := <[jobID := job]> (jobs s) |>)
  end.

(** ** Audit logs *)
Definition new_audit (now : time) (actorType actorID action resourceType resourceID : string)
    (details : any_map) (s : Store) : AuditLog.t * Store :=
  let '(id, s) := newID "audit" s in
  (AuditLog.mk id actorType actorID action resourceType resourceID details now, s).
Definition append_audit (entry : AuditLog.t) (s : Store) : Store :=
  s <| auditLogs := auditLogs s ++ [entry] |>.
Definition AddAuditLog (now : time) (actorType actorID action resourceType resourceID : string)
    (details : any_map) (s : Store) : AuditLog.t * Store :=
  let '(entry, s) := new_audit now actorType actorID action resourceType resourceID details s in
  (entry, append_audit entry s).

Definition audit_matches (resourceType resourceID : string) (entry : AuditLog.t) : Prop :=
  (resourceType = "" ∨ AuditLog.ResourceType entry = resourceType) ∧
  (resourceID = "" ∨ AuditLog.ResourceID entry = resourceID).
#[global] Instance audit_matches_dec rt rid e : Decision (audit_matches rt rid e).
Proof. unfold audit_matches. apply _. Defined.
Definition ListAuditLogs (resourceType resourceID : string) (s : Store) : list AuditLog.t :=
  filter (audit_matches resourceType resourceID) (auditLogs s).

(** ** Incident cases *)
Definition summarizeCase (report : AnalysisReport.t) : string :=
  match AnalysisReport.PossibleCauses report with
  | [] => AnalysisReport.RawAnalysis report
  | causes => join causes "; "
  end.

(** A copy of a slice: slices are values here, so a copy is the slice. *)
Definition cloneStrings (values : list string) : list string := values.

Definition if_empty (s t : string) : string := if decide (s = "") then t else s.

Definition fill_case (now : time) (plan : DiagnosisPlan.t) (report : AnalysisReport.t)
    (c : IncidentCase.t) : IncidentCase.t :=
  c <| IncidentCase.Title := DiagnosisPlan.Title plan |>
    <| IncidentCase.TriggerType := DiagnosisPlan.TriggerType plan |>
    <| IncidentCase.FaultType := AnalysisReport.FaultType report |>
    <| IncidentCase.Summary := summarizeCase report |>
    <| IncidentCase.PossibleCauses := cloneStrings (AnalysisReport.PossibleCauses report) |>
    <| IncidentCase.Suggestions := cloneStrings (AnalysisReport.Suggestions report) |>
    <| IncidentCase.Confidence := AnalysisReport.Confidence report |>
    <| IncidentCase.AlertSymptoms :=
         if_empty (AnalysisReport.AlertSymptoms report) (DiagnosisPlan.Description plan) |>
    <| IncidentCase.EnvironmentTags := cloneStrings (AnalysisReport.EnvironmentTags report) |>
    <| IncidentCase.EvidenceSummary :=
         if_empty (AnalysisReport.EvidenceSummary report) (AnalysisReport.RawAnalysis report) |>
    <| IncidentCase.RootCause :=
         if_empty (AnalysisReport.RootCause report) (summarizeCase report) |>
    <| IncidentCase.ResolutionSteps :=
         match AnalysisReport.ResolutionSteps report with
         | [] => cloneStrings (AnalysisReport.Suggestions report)
         | steps => cloneStrings steps
         end |>
    <| IncidentCase.ResolutionResult := AnalysisReport.ResolutionResult report |>
    <| IncidentCase.SourcePlanID := DiagnosisPlan.ID plan |>
    <| IncidentCase.UpdatedAt := now |>.

Definition UpsertIncidentCase (now : time) (plan : DiagnosisPlan.t) (report : AnalysisReport.t)
    (s : Store) : IncidentCase.t * Store :=
  let caseID := default "" (incidentByPlan s !! DiagnosisPlan.ID plan) in
  let '(incidentCase, s) :=
    match incidentCases s !! caseID with
    | Some incidentCase => (incidentCase, s)
    | None =>
        let '(id, s) := newID "case" s in
        (IncidentCase.zero <| IncidentCase.ID := id |> <| IncidentCase.CreatedAt := now |>, s)
    end in
  let incidentCase := fill_case now plan report incidentCase in
  (incidentCase,
   s <| incidentCases := <[IncidentCase.ID incidentCase := incidentCase]> (incidentCases s) |>
     <| incidentByPlan :=
          <[DiagnosisPlan.ID plan := IncidentCase.ID incidentCase]> (incidentByPlan s) |>).

Definition incidentCaseSearchText (c : IncidentCase.t) : string :=
  to_lower (join [
    IncidentCase.Title c;
    IncidentCase.TriggerType c;
    IncidentCase.FaultType c;
    IncidentCase.Summary c;
    IncidentCase.AlertSymptoms c;
    join (IncidentCase.EnvironmentTags c) " ";
    IncidentCase.EvidenceSummary c;
    IncidentCase.RootCause c;
    join (IncidentCase.ResolutionSteps c) " ";
    IncidentCase.ResolutionResult c;
    join (IncidentCase.PossibleCauses c) " ";
    join (IncidentCase.Suggestions c) " "] " ").

Definition matchIncidentCase (c : IncidentCase.t) (filter : IncidentCaseFilter.t) : bool :=
  if bool_decide (IncidentCaseFilter.TriggerType filter ≠ "")
     && bool_decide (IncidentCase.TriggerType c ≠ IncidentCaseFilter.TriggerType filter)
  then false
  else if bool_decide (IncidentCaseFilter.FaultType filter ≠ "")
     && bool_decide (IncidentCase.FaultType c ≠ IncidentCaseFilter.FaultType filter)
  then false
  else if negb (forallb (λ tag, existsb (equal_fold tag) (IncidentCase.EnvironmentTags c))
                        (IncidentCaseFilter.EnvironmentTags filter))
  then false
  else if decide (IncidentCaseFilter.Query filter = "") then true
  else contains (incidentCaseSearchText c) (to_lower (IncidentCaseFilter.Query filter)).

(** [strings.NewReplacer] of single bytes by a space. *)
Definition is_punctuation (b : Z) : bool := bool_decide (b ∈ [44; 46; 59; 58; 40; 41; 10; 9]%Z).
Definition replace_punctuation : string → string :=
  map_bytes (λ b, if is_punctuation b then 32%Z else b).

Fixpoint dedup_tokens (seen : list string) (parts : list string) : list string :=
  match parts with
  | [] => []
  | part :: parts =>
      if bool_decide (String.length part < 2) || bool_decide (part ∈ seen)
      then dedup_tokens seen parts
      else part :: dedup_tokens (part :: seen) parts
  end.
Definition tokenizeSearch (input : string) : list string :=
  let input := to_lower (trim_space input) in
  if decide (input = "") then []
  else dedup_tokens [] (fields (replace_punctuation input)).

Definition incidentCaseScore (c : IncidentCase.t) (description triggerType faultType : string)
    : Z :=
  let score := 0%Z in
  let score := (if bool_decide (triggerType ≠ "")
                   && bool_decide (IncidentCase.TriggerType c = triggerType)
                then score + 3 else score)%Z in
  let score := (if bool_decide (faultType ≠ "") && equal_fold (IncidentCase.FaultType c) faultType
                then score + 4 else score)%Z in
  let haystack := incidentCaseSearchText c in
  foldl (λ score token, if contains haystack token then score + 1 else score)%Z score
    (tokenizeSearch description).

Definition case_newer (x y : IncidentCase.t) : bool :=
  bool_decide (IncidentCase.UpdatedAt y < IncidentCase.UpdatedAt x)%Z.

Definition ListIncidentCases (it : MapIter) (filter : IncidentCaseFilter.t) (s : Store)
    : list IncidentCase.t :=
  let cases := sort_slice case_newer
    (base.filter (λ c, matchIncidentCase c filter = true) (range_values it (incidentCases s))) in
  if (0 <? IncidentCaseFilter.Limit filter)%Z
  then limit_slice (IncidentCaseFilter.Limit filter) cases else cases.

Definition scored_before (x y : IncidentCase.t * Z) : bool :=
  if (x.2 =? y.2)%Z then case_newer x.1 y.1 else (y.2 <? x.2)%Z.

Definition FindSimilarIncidentCases (it : MapIter) (description triggerType faultType : string)
    (limit : Z) (s : Store) : list IncidentCase.t :=
  let score c := incidentCaseScore c description triggerType faultType in
  let scored := filter (λ x, 0 < x.2)%Z
    ((λ c, (c, score c)) <$> range_values it (incidentCases s)) in
  let scored := sort_slice scored_before scored in
  let limit := if (limit <=? 0)%Z then 3%Z else limit in
  (limit_slice limit scored).*1.

(** ** Metrics *)
Definition worker_online (now : time) (worker : Worker.t) : bool :=
  bool_decide (Worker.Status worker = WorkerStatusOnline)
  && (time_sub now (Worker.LastHeartbeatAt worker) <=? workerOnlineThreshold)%Z.

Record JobCounts := mkCounts {
  success : Z; failed : Z; waiting : Z; completed : Z;
  latency_sum : float64; latency_count : Z;
}.
#[global] Instance JobCounts_eta : Eta JobCounts := λ c,
  mkCounts (success c) (failed c) (waiting c) (completed c) (latency_sum c) (latency_count c).

(** The body of the loop over the jobs. *)
Definition count_job (c : JobCounts) (job : Job.t) : JobCounts :=
  let c :=
    if decide (Job.Status job = JobStatusSuccess) then
      c <| success := (success c + 1)%Z |> <| completed := (completed c + 1)%Z |>
    else if decide (Job.Status job = JobStatusFailed) then
      c <| failed := (failed c + 1)%Z |> <| completed := (completed c + 1)%Z |>
    else if decide (Job.Status job = JobStatusCancelled) then
      c <| completed := (completed c + 1)%Z |>
    else if decide (Job.Status job = JobStatusWaitingApproval) then
      c <| waiting := (waiting c + 1)%Z |>
    else c in
  match Job.StartedAt job with
  | Some startedAt =>
      c <| latency_sum :=
             float_add (latency_sum c) (duration_seconds (time_sub startedAt (Job.CreatedAt job))) |>
        <| latency_count := (latency_count c + 1)%Z |>
  | None => c
  end.

Definition MetricsSnapshot (it : MapIter) (now : time) (s : Store) : MetricsSnapshot.t :=
  let online := foldl (λ n worker, if worker_online now worker then n + 1 else n)%Z 0%Z
                  (range_values it (workers s)) in
  let c := foldl count_job (mkCounts 0 0 0 0 float_zero 0) (range_values it (jobs s)) in
  let rate n := if (0 <? completed c)%Z
                then float_div (float_of_Z n) (float_of_Z (completed c)) else float_zero in
  MetricsSnapshot.mk (Z.of_nat (size (jobs s))) (success c) (failed c) (waiting c) online
    (Z.of_nat (size (incidentCases s))) (rate (success c)) (rate (failed c))
    (if (0 <? latency_count c)%Z
     then float_div (latency_sum c) (float_of_Z (latency_count c)) else float_zero).

End Scheduler.
