(* ===== verification/SchedulerFacts.v ===== *)
(** * Properties of the in-memory store

    Identifiers and the store's invariant under interleaved operations, the
    selection of the next job, approval, incident cases and metrics. *)
From Stdlib Require Import Ascii.
From S2P Require Import Prelude.
From S2P Require Import GoStrings.
From S2P Require Import Model.
From S2P Require Import Scheduler.
From stdpp Require Import relations.

Module SchedulerFacts.
Import Scheduler.

(** ** Keys of a map *)
Section keys.
Context {A : Type}.
Implicit Types m : gmap string A.

Definition keys m : list string := (map_to_list m).*1.

Lemma elem_of_keys m k : k ∈ keys m ↔ is_Some (m !! k).
Proof.
  unfold keys. rewrite list_elem_of_fmap. split.
  - intros ([k' x] & -> & H%elem_of_map_to_list). by eexists.
  - intros [x Hx]. exists (k, x). by rewrite elem_of_map_to_list.
Qed.

Lemma NoDup_keys m : NoDup (keys m).
Proof. apply NoDup_fst_map_to_list. Qed.

Lemma keys_insert_fresh m k x : m !! k = None → keys (<[k := x]> m) ≡ₚ k :: keys m.
Proof. intros H. unfold keys. by rewrite (map_to_list_insert m k x H). Qed.

Lemma keys_insert_existing m k x : is_Some (m !! k) → keys (<[k := x]> m) ≡ₚ keys m.
Proof.
  intros H. apply NoDup_Permutation; [apply NoDup_keys..|]. intros k'. rewrite !elem_of_keys.
  destruct (decide (k = k')) as [->|?]; [by rewrite lookup_insert_eq|by rewrite lookup_insert_ne].
Qed.
End keys.

(** ** Interleaved operations

    The operations on one record run under the lock. Creating a worker, a job
    or an audit log draws the identifier first and inserts the record later,
    so other operations run in between: a configuration is the store with the
    records that are created and not yet inserted. *)
Inductive insertion :=
  | InsWorker (w : Worker.t)
  | InsJob (j : Job.t)
  | InsAudit (a : AuditLog.t).

Definition insertion_id (i : insertion) : string :=
  match i with InsWorker w => Worker.ID w | InsJob j => Job.ID j | InsAudit a => AuditLog.ID a end.
Definition commit (i : insertion) (s : Store) : Store :=
  match i with
  | InsWorker w => insert_worker w s
  | InsJob j => insert_job j s
  | InsAudit a => append_audit a s
  end.

(** The operations that hold the lock throughout. *)
Inductive op :=
  | OpHeartbeat (now : time) (id : string)
  | OpAssignNext (it : MapIter) (now : time) (workerID : string)
  | OpComplete (now : time) (workerID jobID output : string) (success : bool)
  | OpAssign (now : time) (jobID workerID : string)
  | OpApprove (now : time) (jobID approvedBy comment : string)
  | OpReject (now : time) (jobID rejectedBy reason : string)
  | OpUpsert (now : time) (plan : DiagnosisPlan.t) (report : AnalysisReport.t).

Definition run_op (o : op) (s : Store) : Store :=
  match o with
  | OpHeartbeat now id => (HeartbeatWorker now id s).2
  | OpAssignNext it now w => (AssignNextJob it now w s).2
  | OpComplete now w j output success => (CompleteJob now w j output success s).2
  | OpAssign now j w => (AssignJobToWorker now j w s).2
  | OpApprove now j by_ comment => (ApproveJob now j by_ comment s).2
  | OpReject now j by_ reason => (RejectJob now j by_ reason s).2
  | OpUpsert now plan report => (UpsertIncidentCase now plan report s).2
  end.

Record config := mkConfig { store : Store; pending : list insertion }.

Inductive step : config → config → Prop :=
  | step_op o s p : step (mkConfig s p) (mkConfig (run_op o s) p)
  | step_new_worker now name wt s p w s' :
      new_worker now name wt s = (w, s') → step (mkConfig s p) (mkConfig s' (InsWorker w :: p))
  | step_new_job now name wt cmd opts s p j s' :
      new_job now name wt cmd opts s = (j, s') → step (mkConfig s p) (mkConfig s' (InsJob j :: p))
  | step_new_audit now at_ ai ac rt rid d s p a s' :
      new_audit now at_ ai ac rt rid d s = (a, s') →
      step (mkConfig s p) (mkConfig s' (InsAudit a :: p))
  | step_commit s p1 i p2 :
      step (mkConfig s (p1 ++ i :: p2)) (mkConfig (commit i s) (p1 ++ p2)).

Definition initial : config := mkConfig NewStore [].

(** ** The invariant *)
Definition used (c : config) : list string :=
  (insertion_id <$> pending c) ++ keys (workers (store c)) ++ keys (jobs (store c))
  ++ keys (incidentCases (store c)) ++ (AuditLog.ID <$> auditLogs (store c)).

(** The identifier of one of the first [n] objects. *)
Definition issued (n : Z) (id : string) : Prop :=
  ∃ prefix k, prefix ∈ ["worker"; "job"; "audit"; "case"] ∧ id = make_id prefix k ∧ (1 ≤ k ≤ n)%Z.

Record wf (c : config) : Prop := {
  wf_worker k w : workers (store c) !! k = Some w → Worker.ID w = k;
  wf_job k j : jobs (store c) !! k = Some j → Job.ID j = k;
  wf_case k x : incidentCases (store c) !! k = Some x → IncidentCase.ID x = k;
  wf_index p k : incidentByPlan (store c) !! p = Some k ↔
    ∃ x, incidentCases (store c) !! k = Some x ∧ IncidentCase.SourcePlanID x = p;
  wf_counter : (0 ≤ nextID (store c) < u64_modulus)%Z;
  wf_used : NoDup (used c);
  wf_issued : Forall (issued (nextID (store c))) (used c);
}.

Lemma make_id_inj p q n m :
  p ∈ ["worker"; "job"; "audit"; "case"] → q ∈ ["worker"; "job"; "audit"; "case"] →
  (0 ≤ n)%Z → (0 ≤ m)%Z → make_id p n = make_id q m → n = m.
Proof.
  intros Hp Hq Hn Hm Heq. unfold make_id in Heq.
  assert (∀ p, p ∈ ["worker"; "job"; "audit"; "case"] →
    all_chars (λ d, negb (bool_decide (d = "-"%char))) p = true) as Hdash.
  { intros r Hr. repeat (apply elem_of_cons in Hr as [->|Hr]; [by vm_compute|]).
    by apply elem_of_nil in Hr. }
  apply (string_app_cut_inj "-"%char p q (pad6 n) (pad6 m)) in Heq as [_ Heq]; [|by apply Hdash..].
  by apply pad6_inj.
Qed.

Lemma issued_mono n m id : (n ≤ m)%Z → issued n id → issued m id.
Proof. intros ? (p & k & ? & ? & ?). exists p, k. split_and!; try done; lia. Qed.

(** The next identifier has not been issued. *)
Lemma newID_fresh c prefix id s' :
  wf c → (nextID (store c) + 1 < u64_modulus)%Z → prefix ∈ ["worker"; "job"; "audit"; "case"] →
  newID prefix (store c) = (id, s') →
  nextID s' = (nextID (store c) + 1)%Z ∧ s' = (store c) <| nextID := nextID s' |> ∧
  issued (nextID s') id ∧ id ∉ used c.
Proof.
  intros Hwf Hlt Hp. unfold newID. pose proof (wf_counter c Hwf).
  rewrite u64_add_small by lia. intros [= <- <-]. simpl. split_and!; try done.
  - exists prefix, (nextID (store c) + 1)%Z. split_and!; try done; lia.
  - intros Hin. eapply Forall_forall in Hin; [|apply (wf_issued c Hwf)].
    destruct Hin as (q & k & Hq & Heq & Hk). apply make_id_inj in Heq; [lia|done..|lia|lia].
Qed.

Lemma newID_other prefix s id s' :
  newID prefix s = (id, s') →
  workers s' = workers s ∧ jobs s' = jobs s ∧ auditLogs s' = auditLogs s ∧
  incidentCases s' = incidentCases s ∧ incidentByPlan s' = incidentByPlan s.
Proof. by intros [= <- <-]. Qed.

Lemma issued_not_empty n id : issued n id → id ≠ "".
Proof.
  intros (p & k & Hp & -> & _). repeat (apply elem_of_cons in Hp as [->|Hp]; [done|]).
  by apply elem_of_nil in Hp.
Qed.

(** *** Creating a record *)
Lemma wf_create c i s' prefix :
  wf c → (nextID (store c) + 1 < u64_modulus)%Z →
  prefix ∈ ["worker"; "job"; "audit"; "case"] →
  newID prefix (store c) = (insertion_id i, s') →
  wf (mkConfig s' (i :: pending c)).
Proof.
  intros Hwf Hlt Hp Hn. pose proof (newID_fresh c prefix _ _ Hwf Hlt Hp Hn) as (Hc & _ & Hid & Hfr).
  pose proof (newID_other _ _ _ _ Hn) as (Hw & Hj & Ha & Hi & Hb).
  assert (used (mkConfig s' (i :: pending c)) = insertion_id i :: used c) as Hu.
  { unfold used. simpl. by rewrite Hw, Hj, Ha, Hi. }
  destruct Hwf as [H1 H2 H3 H4 H5 H6 H7]. split; simpl; rewrite ?Hw, ?Hj, ?Ha, ?Hi, ?Hb; auto.
  - lia.
  - rewrite Hu. by constructor.
  - rewrite Hu. constructor; [done|]. apply (Forall_impl _ _ _ H7).
    intros id. apply issued_mono. lia.
Qed.

(** *** Inserting it *)
Lemma wf_commit s p1 i p2 :
  wf (mkConfig s (p1 ++ i :: p2)) → wf (mkConfig (commit i s) (p1 ++ p2)).
Proof.
  intros Hwf. set (c := mkConfig s (p1 ++ i :: p2)) in *.
  assert (used c ≡ₚ insertion_id i :: used (mkConfig s (p1 ++ p2))) as Hu.
  { unfold used, c. simpl. rewrite !fmap_app, fmap_cons, <-!app_assoc. simpl.
    by rewrite <-Permutation_middle. }
  assert (insertion_id i ∉ used (mkConfig s (p1 ++ p2))) as Hfresh.
  { pose proof (wf_used c Hwf) as H. rewrite Hu in H. by apply NoDup_cons in H as [? _]. }
  assert (used (mkConfig (commit i s) (p1 ++ p2)) ≡ₚ used c) as Huc.
  { rewrite Hu. unfold used in Hfresh |- *. simpl in *.
    rewrite !not_elem_of_app, !elem_of_keys, <-!eq_None_not_Some in Hfresh.
    destruct Hfresh as (_ & Fw & Fj & _).
    destruct i; simpl in *.
    - rewrite keys_insert_fresh by done. simpl. by rewrite <-!Permutation_middle.
    - rewrite keys_insert_fresh by done. simpl. by rewrite <-!Permutation_middle.
    - rewrite <-Permutation_cons_append, fmap_cons. by rewrite <-!Permutation_middle. }
  destruct Hwf as [H1 H2 H3 H4 H5 H6 H7]. split; simpl.
  - intros k w. destruct i; simpl; try apply H1. rewrite lookup_insert_Some.
    intros [[<- <-]|[_ ?]]; [done|by apply H1].
  - intros k j. destruct i; simpl; try apply H2. rewrite lookup_insert_Some.
    intros [[<- <-]|[_ ?]]; [done|by apply H2].
  - destruct i; apply H3.
  - destruct i; apply H4.
  - destruct i; apply H5.
  - by rewrite Huc.
  - rewrite Huc. destruct i; apply H7.
Qed.

(** *** Updating a job or a worker *)
Lemma wf_update_job s p k j j' :
  wf (mkConfig s p) → jobs s !! k = Some j → Job.ID j' = Job.ID j →
  wf (mkConfig (s <| jobs := <[k := j']> (jobs s) |>) p).
Proof.
  intros [H1 H2 H3 H4 H5 H6 H7] Hj Hid.
  assert (used (mkConfig (s <| jobs := <[k := j']> (jobs s) |>) p) ≡ₚ used (mkConfig s p)) as Hu.
  { unfold used. simpl. by rewrite keys_insert_existing by eauto. }
  split; simpl in *; auto.
  - intros k' x. rewrite lookup_insert_Some. intros [[<- <-]|[_ ?]]; [|by apply H2].
    rewrite Hid. by apply H2.
  - by rewrite Hu.
  - by rewrite Hu.
Qed.

Lemma wf_update_worker s p k w w' :
  wf (mkConfig s p) → workers s !! k = Some w → Worker.ID w' = Worker.ID w →
  wf (mkConfig (s <| workers := <[k := w']> (workers s) |>) p).
Proof.
  intros [H1 H2 H3 H4 H5 H6 H7] Hw Hid.
  assert (used (mkConfig (s <| workers := <[k := w']> (workers s) |>) p) ≡ₚ used (mkConfig s p))
    as Hu.
  { unfold used. simpl. by rewrite keys_insert_existing by eauto. }
  split; simpl in *; auto.
  - intros k' x. rewrite lookup_insert_Some. intros [[<- <-]|[_ ?]]; [|by apply H1].
    rewrite Hid. by apply H1.
  - by rewrite Hu.
  - by rewrite Hu.
Qed.

(** *** Incident cases *)
Lemma incidentCases_empty_key s p : wf (mkConfig s p) → incidentCases s !! "" = None.
Proof.
  intros Hwf. apply eq_None_not_Some. intros Hs%elem_of_keys.
  assert ("" ∈ used (mkConfig s p)) as Hin by (unfold used; simpl; set_solver).
  eapply Forall_forall in Hin; [|apply (wf_issued _ Hwf)]. by apply issued_not_empty in Hin.
Qed.

(** The case of a plan: the one in the index, or a new one. *)
Lemma UpsertIncidentCase_found now plan report s p k x :
  wf (mkConfig s p) → incidentCases s !! k = Some x →
  IncidentCase.SourcePlanID x = DiagnosisPlan.ID plan →
  let x' := fill_case now plan report x in
  UpsertIncidentCase now plan report s =
    (x', s <| incidentCases := <[k := x']> (incidentCases s) |>).
Proof.
  intros Hwf Hx Hplan. assert (incidentByPlan s !! DiagnosisPlan.ID plan = Some k) as Hk.
  { apply (wf_index _ Hwf). by eauto. }
  unfold UpsertIncidentCase. rewrite Hk. simpl. rewrite Hx.
  assert (IncidentCase.ID x = k) as Hid by by eapply (wf_case _ Hwf).
  unfold fill_case. simpl. rewrite Hid, (insert_id (incidentByPlan s)) by done. by destruct s.
Qed.

Lemma UpsertIncidentCase_new now plan report s p id s' :
  wf (mkConfig s p) → incidentByPlan s !! DiagnosisPlan.ID plan = None →
  newID "case" s = (id, s') →
  let x := fill_case now plan report
             (IncidentCase.zero <| IncidentCase.ID := id |> <| IncidentCase.CreatedAt := now |>) in
  UpsertIncidentCase now plan report s =
    (x, s' <| incidentCases := <[id := x]> (incidentCases s) |>
           <| incidentByPlan := <[DiagnosisPlan.ID plan := id]> (incidentByPlan s) |>).
Proof.
  intros Hwf Hnone Hn. unfold UpsertIncidentCase. rewrite Hnone.
  change (default "" None) with "". rewrite (incidentCases_empty_key _ _ Hwf), Hn. injection Hn as <- <-. done.
Qed.

Lemma wf_upsert_found s p k x x' :
  wf (mkConfig s p) → incidentCases s !! k = Some x → IncidentCase.ID x' = IncidentCase.ID x →
  IncidentCase.SourcePlanID x' = IncidentCase.SourcePlanID x →
  wf (mkConfig (s <| incidentCases := <[k := x']> (incidentCases s) |>) p).
Proof.
  intros [H1 H2 H3 H4 H5 H6 H7] Hx Hid Hplan.
  assert (used (mkConfig (s <| incidentCases := <[k := x']> (incidentCases s) |>) p)
    ≡ₚ used (mkConfig s p)) as Hu.
  { unfold used. simpl. by rewrite keys_insert_existing by eauto. }
  split; simpl in *; auto.
  - intros k' y. rewrite lookup_insert_Some. intros [[<- <-]|[_ ?]]; [|by apply H3].
    rewrite Hid. by apply H3.
  - intros q k'. rewrite H4. destruct (decide (k = k')) as [<-|?].
    + rewrite lookup_insert_eq, Hx. split; intros (y & [= <-] & <-); eauto.
    + by rewrite lookup_insert_ne.
  - by rewrite Hu.
  - by rewrite Hu.
Qed.

Lemma wf_upsert_new s p id s' x plan :
  wf (mkConfig s p) → (nextID s + 1 < u64_modulus)%Z →
  incidentByPlan s !! plan = None → newID "case" s = (id, s') →
  IncidentCase.ID x = id → IncidentCase.SourcePlanID x = plan →
  wf (mkConfig (s' <| incidentCases := <[id := x]> (incidentCases s) |>
                   <| incidentByPlan := <[plan := id]> (incidentByPlan s) |>) p).
Proof.
  intros Hwf Hlt Hnone Hn Hid Hplan.
  pose proof (newID_fresh (mkConfig s p) "case" id s' Hwf Hlt ltac:(set_solver) Hn)
    as (Hc & _ & Hiss & Hfr).
  pose proof (newID_other _ _ _ _ Hn) as (Hw & Hj & Ha & _ & _).
  assert (incidentCases s !! id = None) as Hnew.
  { apply eq_None_not_Some. intros Hs%elem_of_keys. apply Hfr. unfold used. simpl. set_solver. }
  set (c' := mkConfig (s' <| incidentCases := _ |> <| incidentByPlan := _ |>) p).
  assert (used c' ≡ₚ id :: used (mkConfig s p)) as Hu.
  { unfold used, c'. simpl. rewrite Hw, Hj, Ha, keys_insert_fresh by done. simpl.
    by rewrite <-!Permutation_middle. }
  destruct Hwf as [H1 H2 H3 H4 H5 H6 H7]. split; simpl in *; rewrite ?Hw, ?Hj; auto.
  - intros k' y. rewrite lookup_insert_Some. intros [[<- <-]|[_ ?]]; [done|by apply H3].
  - intros q k'. destruct (decide (plan = q)) as [<-|Hq].
    + rewrite lookup_insert_eq. split; [intros [= <-]; exists x; by rewrite lookup_insert_eq|].
      intros (y & [[-> _]|[_ Hy]]%lookup_insert_Some & Hp); [done|].
      by rewrite (proj2 (H4 plan k')) in Hnone by eauto.
    + rewrite lookup_insert_ne by done. rewrite H4. setoid_rewrite lookup_insert_Some.
      split; [|naive_solver]. intros (y & Hy & ?). exists y. split; [right|done].
      split; [intros ->; by rewrite Hnew in Hy|done].
  - lia.
  - rewrite Hu. by constructor.
  - rewrite Hu. constructor; [done|]. apply (Forall_impl _ _ _ H7).
    intros y. apply issued_mono. lia.
Qed.

Lemma wf_upsert now plan report s p :
  wf (mkConfig s p) → (nextID s + 1 < u64_modulus)%Z →
  wf (mkConfig (UpsertIncidentCase now plan report s).2 p).
Proof.
  intros Hwf Hlt. destruct (incidentByPlan s !! DiagnosisPlan.ID plan) as [k|] eqn:Hk.
  - destruct (proj1 (wf_index _ Hwf _ _) Hk) as (x & Hx & Hp). simpl in Hx.
    rewrite (UpsertIncidentCase_found now plan report s p k x) by done.
    by eapply wf_upsert_found.
  - destruct (newID "case" s) as [id s'] eqn:Hn.
    rewrite (UpsertIncidentCase_new now plan report s p id s') by done.
    by apply (wf_upsert_new s p id s').
Qed.

(** What creation stores. *)
Lemma CreateJobWithOptions_spec now name wt cmd opts s j s' :
  CreateJobWithOptions now name wt cmd opts s = (j, s') →
  jobs s' = <[Job.ID j := j]> (jobs s) ∧
  Job.ID j = make_id "job" (nextID s') ∧
  Job.Status j = (if decide (Status opts = "") then JobStatusPending else Status opts) ∧
  Job.ApprovalRequired j = ApprovalRequired opts ∧
  (ApprovalStatus opts ≠ "" → Job.ApprovalStatus j = ApprovalStatus opts) ∧
  Job.IdempotencyKey j = "".
Proof.
  unfold CreateJobWithOptions, new_job. destruct (newID "job" s) as [id s1] eqn:Hn.
  unfold newID in Hn. injection Hn as Hid Hs.
  intros Heq. apply pair_eq in Heq as [<- <-]. rewrite <-Hs. simpl. split_and!; try done.
  intros Ha. rewrite (bool_decide_eq_false_2 _ Ha), !andb_false_r.
  by rewrite (bool_decide_eq_false_2 _ Ha), !andb_false_r.
Qed.

(** ** Selecting the next job *)

Lemma job_before_irrefl x : job_before x x = false.
Proof.
  unfold job_before. rewrite str_lt_irrefl, andb_false_r, orb_false_r.
  apply bool_decide_eq_false. lia.
Qed.

Lemma job_before_spec x y :
  job_before x y = true ↔
  (Job.CreatedAt x < Job.CreatedAt y)%Z ∨
  Job.CreatedAt x = Job.CreatedAt y ∧ str_lt (Job.ID x) (Job.ID y) = true.
Proof. unfold job_before. by rewrite orb_true_iff, andb_true_iff, !bool_decide_eq_true. Qed.

Lemma job_before_trans x y z : job_before x y = true → job_before y z = true → job_before x z = true.
Proof.
  rewrite !job_before_spec. intros [?|[? ?]] [?|[? ?]]; [left; lia..|].
  right. split; [lia|]. by eapply str_lt_trans.
Qed.

Lemma job_before_total x y : Job.ID x ≠ Job.ID y → job_before x y = false → job_before y x = true.
Proof.
  intros Hid Hxy. apply job_before_spec. apply not_true_iff_false in Hxy.
  rewrite job_before_spec in Hxy.
  destruct (Z.lt_trichotomy (Job.CreatedAt x) (Job.CreatedAt y)) as [?|[Heq|?]]; [naive_solver| |by left].
  right. split; [done|]. apply str_lt_total; [done|].
  apply not_true_iff_false. naive_solver.
Qed.

Section select.
Context (worker : Worker.t).

(** Entries with distinct keys, whose jobs have the keys as identifiers. *)
Definition keyed (l : list (string * Job.t)) : Prop :=
  NoDup l.*1 ∧ Forall (λ e, Job.ID e.2 = e.1) l.

Lemma keyed_snoc l e :
  keyed (l ++ [e]) → keyed l ∧ ∀ e', e' ∈ l → Job.ID e'.2 ≠ Job.ID e.2.
Proof.
  intros [Hnd Hid]. rewrite fmap_app in Hnd. apply NoDup_app in Hnd as (Hnd & Hdis & _).
  apply Forall_app in Hid as [Hid He]. apply Forall_cons in He as [He _].
  split; [done|]. intros e' Hin Heq. pose proof (proj1 (Forall_forall _ _) Hid e' Hin) as He'.
  apply (Hdis e'.1); [by apply list_elem_of_fmap_2|]. simpl in *.
  rewrite list_elem_of_singleton. congruence.
Qed.

(** [e] is an assignable entry of [l], before every other one. *)
Definition first_in (l : list (string * Job.t)) (e : string * Job.t) : Prop :=
  e ∈ l ∧ assignable worker e.2 = true ∧
  ∀ e', e' ∈ l → assignable worker e'.2 = true → e' = e ∨ job_before e.2 e'.2 = true.

Lemma select_snoc l e :
  foldl (select_job worker) None (l ++ [e]) =
  select_job worker (foldl (select_job worker) None l) e.
Proof. by rewrite foldl_app. Qed.

Lemma select_spec l :
  keyed l →
  match foldl (select_job worker) None l with
  | Some e => first_in l e
  | None => ∀ e, e ∈ l → assignable worker e.2 = false
  end.
Proof.
  induction l as [|e l IH] using rev_ind; intros Hk; [by intros e He%elem_of_nil|].
  apply keyed_snoc in Hk as [Hk Hdis]. specialize (IH Hk). rewrite select_snoc.
  assert (∀ e', e' ∈ l ++ [e] ↔ e' ∈ l ∨ e' = e) as Hin.
  { intros e'. by rewrite elem_of_app, list_elem_of_singleton. }
  unfold select_job, first_in in *.
  destruct (foldl _ None l) as [[k j]|], (assignable worker e.2) eqn:Ha; simpl in *.
  - destruct IH as (Hj & Haj & Hmin).
    destruct (job_before e.2 j) eqn:Hb; setoid_rewrite Hin.
    + split_and!; [by right|done|]. intros e' [He'| ->] Ha'; [|by left]. right.
      destruct (Hmin e' He' Ha') as [->|?]; [done|]. by eapply job_before_trans.
    + split_and!; [by left|done|]. intros e' [He'| ->] Ha'; [by apply Hmin|].
      right. apply job_before_total; [|done]. intros Heq. by apply (Hdis (k, j)).
  - destruct IH as (Hj & Haj & Hmin). setoid_rewrite Hin. split_and!; [by left|done|].
    intros e' [He'| ->] Ha'; [by apply Hmin|]. by rewrite Ha in Ha'.
  - setoid_rewrite Hin. split_and!; [by right|done|].
    intros e' [He'| ->] Ha'; [|by left]. by rewrite IH in Ha'.
  - setoid_rewrite Hin. intros e' [He'| ->]; [by apply IH|done].
Qed.

Lemma first_in_unique l e e' : first_in l e → first_in l e' → e = e'.
Proof.
  intros (He & Ha & Hmin) (He' & Ha' & Hmin').
  destruct (Hmin e' He' Ha') as [->|H1]; [done|]. destruct (Hmin' e He Ha) as [->|H2]; [done|].
  pose proof (job_before_trans _ _ _ H1 H2) as H. by rewrite job_before_irrefl in H.
Qed.

Lemma first_in_perm l l' e : l ≡ₚ l' → first_in l e → first_in l' e.
Proof. intros Hp (?&?&H). split_and!; [by rewrite <-Hp|done|]. intros e'. rewrite <-Hp. apply H. Qed.
End select.

Lemma keyed_range it s p : wf (mkConfig s p) → keyed (range_map it (jobs s)).
Proof.
  intros Hwf. split; [apply NoDup_range_fst|]. apply Forall_forall.
  intros [k j] Hin%elem_of_range. by apply (wf_job _ Hwf).
Qed.

(** ** The shape of an operation *)

(** What an operation does to the job it changes. *)
Inductive job_change : op → Job.t → Job.t → Prop :=
  | change_next it now w j :
      Job.Status j = JobStatusQueued ∨ Job.Status j = JobStatusPending →
      job_change (OpAssignNext it now w) j (start_job now w j)
  | change_assign now w j :
      job_change (OpAssign now (Job.ID j) w) j (start_job now w j)
  | change_complete now out success j :
      job_change (OpComplete now (Job.AssignedWorkerID j) (Job.ID j) out success) j
        (j <| Job.Output := out |> <| Job.FinishedAt := Some now |> <| Job.UpdatedAt := now |>
           <| Job.Status := if success then JobStatusSuccess else JobStatusFailed |>)
  | change_approve now by_ comment j :
      Job.Status j = JobStatusWaitingApproval →
      job_change (OpApprove now (Job.ID j) by_ comment) j
        (j <| Job.Status := JobStatusPending |> <| Job.ApprovalStatus := ApprovalStatusApproved |>
           <| Job.ApprovedBy := by_ |> <| Job.ApprovedAt := Some now |>
           <| Job.ApprovalComment := comment |> <| Job.UpdatedAt := now |>)
  | change_reject now by_ reason j :
      Job.Status j = JobStatusWaitingApproval →
      job_change (OpReject now (Job.ID j) by_ reason) j
        (j <| Job.Status := JobStatusCancelled |> <| Job.ApprovalStatus := ApprovalStatusRejected |>
           <| Job.RejectedBy := by_ |> <| Job.RejectedAt := Some now |>
           <| Job.ApprovalComment := reason |> <| Job.UpdatedAt := now |>).

Lemma job_change_ID o j j' : job_change o j j' → Job.ID j' = Job.ID j.
Proof. by destruct 1. Qed.

Inductive op_effect (o : op) (s : Store) : Store → Prop :=
  | effect_none : op_effect o s s
  | effect_worker k w w' :
      workers s !! k = Some w → Worker.ID w' = Worker.ID w →
      op_effect o s (s <| workers := <[k := w']> (workers s) |>)
  | effect_job k j j' :
      jobs s !! k = Some j → job_change o j j' →
      op_effect o s (s <| jobs := <[k := j']> (jobs s) |>)
  | effect_case now plan report :
      o = OpUpsert now plan report → op_effect o s (UpsertIncidentCase now plan report s).2.

Lemma assign_next_effect it now w s :
  op_effect (OpAssignNext it now w) s (AssignNextJob it now w s).2.
Proof.
  unfold AssignNextJob. destruct (workers s !! w) as [worker|]; [|constructor].
  destruct (foldl _ _ _) as [[k j]|] eqn:Hf; [|constructor]. simpl.
  assert ((k, j) ∈ range_map it (jobs s) ∧ assignable worker j = true) as [Hin Ha].
  { revert Hf. generalize (range_map it (jobs s)). intros l.
    induction l as [|e l IH] using rev_ind; [done|]. rewrite select_snoc. unfold select_job.
    rewrite elem_of_app, list_elem_of_singleton. destruct (assignable worker e.2) eqn:Ha; simpl.
    - destruct (foldl _ None l) as [[k' j']|]; [|intros [= ->]; by auto].
      case_match; [intros [= ->]; by auto|]. naive_solver.
    - naive_solver. }
  apply elem_of_range in Hin. apply (effect_job _ _ k j); [done|]. constructor.
  unfold assignable in Ha. apply andb_prop in Ha as [Ha _].
  apply orb_prop in Ha as [?%bool_decide_eq_true|?%bool_decide_eq_true]; by auto.
Qed.

Lemma run_op_effect o s p : wf (mkConfig s p) → op_effect o s (run_op o s).
Proof.
  intros Hwf. pose proof (wf_job _ Hwf) as Hid. simpl in Hid.
  destruct o; simpl.
  - unfold HeartbeatWorker. destruct (workers s !! id) as [w|] eqn:Hw; [|constructor].
    by eapply effect_worker.
  - apply assign_next_effect.
  - unfold CompleteJob. destruct (jobs s !! jobID) as [j|] eqn:Hj; [|constructor].
    case_decide as Ha; [constructor|]. apply (effect_job _ _ jobID j); [done|].
    rewrite <-(Hid _ _ Hj), <-Ha. constructor.
  - unfold AssignJobToWorker. destruct (workers s !! workerID); [|constructor].
    destruct (jobs s !! jobID) as [j|] eqn:Hj; [|constructor].
    case_match; [constructor|]. apply (effect_job _ _ jobID j); [done|].
    rewrite <-(Hid _ _ Hj). constructor.
  - unfold ApproveJob. destruct (jobs s !! jobID) as [j|] eqn:Hj; [|constructor].
    case_decide as Ha; [constructor|]. apply (effect_job _ _ jobID j); [done|].
    rewrite <-(Hid _ _ Hj). by constructor.
  - unfold RejectJob. destruct (jobs s !! jobID) as [j|] eqn:Hj; [|constructor].
    case_decide as Ha; [constructor|]. apply (effect_job _ _ jobID j); [done|].
    rewrite <-(Hid _ _ Hj). by constructor.
  - by eapply effect_case.
Qed.

Lemma wf_run_op o s p :
  wf (mkConfig s p) → (nextID s + 1 < u64_modulus)%Z → wf (mkConfig (run_op o s) p).
Proof.
  intros Hwf Hlt. destruct (run_op_effect o s p Hwf) as [|k w w' Hw Hid|k j j' Hj Hc|now plan report _].
  - done.
  - by eapply wf_update_worker.
  - eapply wf_update_job; [done..|]. by eapply job_change_ID.
  - by apply wf_upsert.
Qed.

Lemma wf_initial : wf initial.
Proof.
  split; simpl; try done.
  - intros p k. split; [done|]. by intros (x & ? & _).
  - constructor.
Qed.

Lemma nextID_newID prefix s id s' :
  (nextID s + 1 < u64_modulus)%Z → (0 ≤ nextID s)%Z → newID prefix s = (id, s') →
  nextID s' = (nextID s + 1)%Z.
Proof. intros ?? [= _ <-]. simpl. apply u64_add_small. lia. Qed.

Lemma wf_step c c' :
  wf c → (nextID (store c) + 1 < u64_modulus)%Z → step c c' →
  wf c' ∧ (nextID (store c') ≤ nextID (store c) + 1)%Z.
Proof.
  intros Hwf Hlt Hstep. pose proof (wf_counter c Hwf) as Hn.
  destruct Hstep as [o s p|now name wt s p w s' Heq|now name wt cmd opts s p j s' Heq
    |now at_ ai ac rt rid d s p a s' Heq|s p1 i p2]; simpl in *.
  - split; [by apply wf_run_op|].
    destruct (run_op_effect o s p Hwf) as [| | |now plan report _]; simpl; try lia.
    unfold UpsertIncidentCase. destruct (incidentCases s !! _); simpl; [lia|].
    rewrite u64_add_small; lia.
  - unfold new_worker in Heq. destruct (newID "worker" s) as [id s1] eqn:Hid.
    injection Heq as <- <-. split; [|by rewrite (nextID_newID _ _ _ _ Hlt (proj1 Hn) Hid)].
    by apply (wf_create (mkConfig s p) (InsWorker _) s1 "worker"); [..|set_solver|].
  - unfold new_job in Heq. destruct (newID "job" s) as [id s1] eqn:Hid.
    injection Heq as <- <-. split; [|by rewrite (nextID_newID _ _ _ _ Hlt (proj1 Hn) Hid)].
    by apply (wf_create (mkConfig s p) (InsJob _) s1 "job"); [..|set_solver|].
  - unfold new_audit in Heq. destruct (newID "audit" s) as [id s1] eqn:Hid.
    injection Heq as <- <-. split; [|by rewrite (nextID_newID _ _ _ _ Hlt (proj1 Hn) Hid)].
    by apply (wf_create (mkConfig s p) (InsAudit _) s1 "audit"); [..|set_solver|].
  - split; [by apply wf_commit|]. destruct i; simpl; lia.
Qed.

Lemma reachable_wf_counter n c :
  nsteps step n initial c → (Z.of_nat n < u64_modulus)%Z →
  wf c ∧ (nextID (store c) ≤ Z.of_nat n)%Z.
Proof.
  revert c. induction n as [|n IH]; intros c Hs Hlt.
  - inversion_clear Hs. split; [apply wf_initial|done].
  - apply nsteps_inv_r in Hs as (c1 & Hs & Hstep). destruct (IH c1 Hs) as [Hwf Hn]; [lia|].
    destruct (wf_step c1 c) as [? ?]; [done|lia|done|]. split; [done|lia].
Qed.

(** ** Properties *)

Lemma jobs_UpsertIncidentCase now plan report s :
  jobs (UpsertIncidentCase now plan report s).2 = jobs s.
Proof. unfold UpsertIncidentCase. by destruct (incidentCases s !! _). Qed.

(** C8: in every configuration reached by fewer than 2^64 interleaved steps the
    store is well formed: records are kept under their own identifiers, the
    index relates each plan to its one incident case, and all identifiers ever
    drawn, of records inserted or about to be, are distinct, so that no
    insertion overwrites a record. *)
Theorem reachable_wf (n : nat) (c : config) :
  nsteps step n initial c → (Z.of_nat n < u64_modulus)%Z → wf c.
Proof. intros Hs Hlt. by apply (reachable_wf_counter n c). Qed.

(** Two creations whose insertions happen in the other order. *)
Lemma reachable_wf_witness : ∃ c,
  nsteps step 4 initial c ∧ (Z.of_nat 4 < u64_modulus)%Z ∧ wf c
  ∧ is_Some (jobs (store c) !! "job-000001") ∧ is_Some (jobs (store c) !! "job-000002").
Proof.
  set (j1 := (new_job 5 "a" "shell" "ls" no_options NewStore).1).
  set (s1 := (new_job 5 "a" "shell" "ls" no_options NewStore).2).
  set (j2 := (new_job 6 "b" "shell" "ls" no_options s1).1).
  set (s2 := (new_job 6 "b" "shell" "ls" no_options s1).2).
  set (c := mkConfig (commit (InsJob j1) (commit (InsJob j2) s2)) []).
  assert (nsteps step 4 initial c) as Hs.
  { apply (nsteps_l _ _ _ (mkConfig s1 [InsJob j1])); [by eapply step_new_job|].
    apply (nsteps_l _ _ _ (mkConfig s2 [InsJob j2; InsJob j1])); [by eapply step_new_job|].
    apply (nsteps_l _ _ _ (mkConfig (commit (InsJob j2) s2) [InsJob j1]));
      [apply (step_commit s2 [] (InsJob j2) [InsJob j1])|].
    apply nsteps_once, (step_commit _ [] (InsJob j1) []). }
  exists c. split; [exact Hs|]. split; [done|]. split; [by apply (reachable_wf 4)|].
  split; vm_compute; by eexists.
Defined.

(** C9: [AssignNextJob] starts the oldest pending or queued job that the worker
    may run, the one with the smaller identifier among equally old ones, and
    changes nothing when there is none; the order the jobs are visited in does
    not matter. *)
Theorem assign_next_first (it : MapIter) (now : time) (w : string) (worker : Worker.t) (s : Store)
    (p : list insertion) :
  wf (mkConfig s p) → workers s !! w = Some worker →
  match AssignNextJob it now w s with
  | (Some j', s') => ∃ k j,
      jobs s !! k = Some j ∧ assignable worker j = true ∧
      (∀ k' j2, jobs s !! k' = Some j2 → assignable worker j2 = true →
         k' = k ∨ job_before j j2 = true) ∧
      j' = start_job now w j ∧ s' = s <| jobs := <[k := j']> (jobs s) |>
  | (None, s') => s' = s ∧ ∀ k j, jobs s !! k = Some j → assignable worker j = false
  end ∧
  ∀ it', AssignNextJob it' now w s = AssignNextJob it now w s.
Proof.
  intros Hwf Hw. unfold AssignNextJob. rewrite Hw.
  pose proof (select_spec worker _ (keyed_range it s p Hwf)) as Hsel.
  split.
  - destruct (foldl _ _ (range_map it (jobs s))) as [[k j]|].
    + destruct Hsel as (Hin%elem_of_range & Ha & Hmin). exists k, j. split_and!; try done.
      intros k' j2 Hj2 Ha2. rewrite <-elem_of_range in Hj2.
      destruct (Hmin (k', j2) Hj2 Ha2) as [[= -> ->]|?]; [by left|by right].
    + split; [done|]. intros k j Hj. apply (Hsel (k, j)). by apply elem_of_range.
  - intros it'. pose proof (select_spec worker _ (keyed_range it' s p Hwf)) as Hsel'.
    assert (range_map it' (jobs s) ≡ₚ range_map it (jobs s)) as Hp by by rewrite !range_map_perm.
    destruct (foldl _ _ (range_map it (jobs s))) as [e|], (foldl _ _ (range_map it' (jobs s))) as [e'|].
    + apply (first_in_perm _ _ _ _ Hp) in Hsel'. by rewrite (first_in_unique _ _ _ _ Hsel Hsel').
    + destruct Hsel as (Hin & Ha & _). rewrite <-Hp in Hin. by rewrite (Hsel' e Hin) in Ha.
    + destruct Hsel' as (Hin & Ha & _). rewrite Hp in Hin. by rewrite (Hsel e' Hin) in Ha.
    + done.
Qed.

(** Both parts of a creation in a row. *)
Lemma nsteps_RegisterWorker n now name wt s :
  nsteps step n initial (mkConfig s []) →
  nsteps step (S (S n)) initial (mkConfig (RegisterWorker now name wt s).2 []).
Proof.
  intros Hs. unfold RegisterWorker. destruct (new_worker now name wt s) as [w s'] eqn:Hn.
  eapply nsteps_r; [eapply nsteps_r; [exact Hs|by eapply step_new_worker]|].
  apply (step_commit s' [] (InsWorker w) []).
Qed.

Lemma nsteps_CreateJob n now name wt cmd opts s :
  nsteps step n initial (mkConfig s []) →
  nsteps step (S (S n)) initial (mkConfig (CreateJobWithOptions now name wt cmd opts s).2 []).
Proof.
  intros Hs. unfold CreateJobWithOptions. destruct (new_job now name wt cmd opts s) as [j s'] eqn:Hn.
  eapply nsteps_r; [eapply nsteps_r; [exact Hs|by eapply step_new_job]|].
  apply (step_commit s' [] (InsJob j) []).
Qed.

Definition example_store : Store :=
  (CreateJob 5 "early" "MySQL" "ls"
    (CreateJob 3 "other type" "redis" "ls"
      (CreateJob 7 "late" "mysql" "ls" (RegisterWorker 1 "w" "mysql" NewStore).2).2).2).2.

Lemma example_store_wf : wf (mkConfig example_store []).
Proof.
  apply (reachable_wf_counter 8); [|done].
  do 3 apply nsteps_CreateJob. apply nsteps_RegisterWorker, nsteps_O.
Qed.

Lemma example_worker : workers example_store !! "worker-000001" =
  Some (default Worker.zero (workers example_store !! "worker-000001")).
Proof. vm_compute. reflexivity. Qed.

Lemma assign_next_first_witness :
  Job.Name <$> (AssignNextJob iter_reverse 9 "worker-000001" example_store).1 = Some "early" ∧
  AssignNextJob iter_default 9 "worker-000001" example_store
    = AssignNextJob iter_reverse 9 "worker-000001" example_store.
Proof.
  split; [vm_compute; reflexivity|].
  pose proof (assign_next_first iter_reverse 9 "worker-000001" _ example_store []
    example_store_wf example_worker) as [_ H]. apply H.
Defined.

(** C10: a stored job is never lost, and a step changes it only in the way of
    the operation that runs: a waiting job is not started by
    [AssignNextJob], and approval and rejection only touch a waiting job. *)
Theorem job_changes_only (c c' : config) (k : string) (j : Job.t) :
  wf c → step c c' → jobs (store c) !! k = Some j →
  jobs (store c') !! k = Some j ∨
  ∃ o j', store c' = run_op o (store c) ∧ job_change o j j' ∧ jobs (store c') !! k = Some j'.
Proof.
  intros Hwf Hstep Hj.
  destruct Hstep as [o s p|now name wt s p w s' Heq|now name wt cmd opts s p j' s' Heq
    |now at_ ai ac rt rid d s p a s' Heq|s p1 i p2]; simpl in *.
  - pose proof (run_op_effect o s p Hwf) as He. remember (run_op o s) as s' eqn:Hs'.
    destruct He as [|k' w w' _ _|k' j1 j2 Hj1 Hc|now plan report _]; [by left|by left| |].
    + destruct (decide (k' = k)) as [->|Hne]; [|left; simpl; by rewrite lookup_insert_ne].
      right. exists o, j2. simplify_eq. split_and!; [done..|]. simpl. by rewrite lookup_insert_eq.
    + left. by rewrite jobs_UpsertIncidentCase.
  - injection Heq as <- <-. by left.
  - injection Heq as <- <-. by left.
  - injection Heq as <- <-. by left.
  - left. destruct i as [w|j'|a]; simpl; try done.
    rewrite lookup_insert_ne; [done|]. intros Heq.
    pose proof (wf_used _ Hwf) as Hnd. unfold used in Hnd. simpl in Hnd.
    apply NoDup_app in Hnd as (_ & Hdis & _). apply (Hdis (Job.ID j')).
    + apply list_elem_of_fmap. exists (InsJob j'). split; [done|]. set_solver.
    + rewrite !elem_of_app, (elem_of_keys (jobs s)), Heq. right. left. by exists j.
Qed.

Lemma example_job : jobs example_store !! "job-000004" =
  Some (default Job.zero (jobs example_store !! "job-000004")).
Proof. vm_compute. reflexivity. Qed.

Lemma job_changes_only_witness :
  let c' := mkConfig (run_op (OpAssignNext iter_default 9 "worker-000001") example_store) [] in
  jobs (store c') !! "job-000004" = Some (default Job.zero (jobs example_store !! "job-000004")) ∨
  ∃ o j', store c' = run_op o example_store ∧
    job_change o (default Job.zero (jobs example_store !! "job-000004")) j' ∧
    jobs (store c') !! "job-000004" = Some j'.
Proof.
  intros c'.
  exact (job_changes_only (mkConfig example_store []) c' "job-000004" _ example_store_wf
    (step_op _ _ _) example_job).
Defined.

(** [CompleteJob] does not look at the status: a worker that a job was
    created for completes it while it waits for approval. *)
Example complete_without_approval :
  let opts := mkOptions JobStatusWaitingApproval "high" true "" "" "" None "" "" "worker-000001" in
  let s := (CreateJobWithOptions 2 "drop" "mysql" "drop" opts NewStore).2 in
  match (CompleteJob 3 "worker-000001" "job-000001" "done" true s).1 with
  | Ok j => Job.Status j = JobStatusSuccess ∧ Job.ApprovalRequired j = true ∧
            Job.ApprovalStatus j = ApprovalStatusPending
  | Err _ => False
  end.
Proof. vm_compute. done. Qed.

(** *** Incident cases *)

(** A second report for the same plan updates the case of the first one: it
    keeps the identifier and the creation time, replaces everything else by
    the new report, and draws no identifier. *)
Theorem upsert_same_plan (now1 now2 : time) (plan : DiagnosisPlan.t)
    (report1 report2 : AnalysisReport.t) (s : Store) (p : list insertion) :
  wf (mkConfig s p) → (nextID s + 1 < u64_modulus)%Z →
  let '(x1, s1) := UpsertIncidentCase now1 plan report1 s in
  let '(x2, s2) := UpsertIncidentCase now2 plan report2 s1 in
  x2 = fill_case now2 plan report2
         (IncidentCase.zero <| IncidentCase.ID := IncidentCase.ID x1 |>
                            <| IncidentCase.CreatedAt := IncidentCase.CreatedAt x1 |>) ∧
  incidentCases s2 = <[IncidentCase.ID x1 := x2]> (incidentCases s1) ∧
  is_Some (incidentCases s1 !! IncidentCase.ID x1) ∧
  incidentByPlan s2 = incidentByPlan s1 ∧ nextID s2 = nextID s1.
Proof.
  intros Hwf Hlt. pose proof (wf_upsert now1 plan report1 s p Hwf Hlt) as Hwf1.
  destruct (UpsertIncidentCase now1 plan report1 s) as [x1 s1] eqn:H1. simpl in Hwf1.
  assert (incidentCases s1 !! IncidentCase.ID x1 = Some x1 ∧
          IncidentCase.SourcePlanID x1 = DiagnosisPlan.ID plan) as [Hx Hplan].
  { unfold UpsertIncidentCase in H1.
    destruct (incidentCases s !! _) as [y|]; injection H1 as <- <-; simpl;
      by rewrite lookup_insert_eq. }
  rewrite (UpsertIncidentCase_found now2 plan report2 s1 p (IncidentCase.ID x1) x1) by done.
  split_and!; [done..|by eexists|done|done].
Qed.

Lemma upsert_same_plan_witness :
  let plan := DiagnosisPlan.mk "p1" "slow" "slow queries" "alert" [] "" 0 0 in
  let report := AnalysisReport.mk "p1" "lock" ["lock wait"] ["kill"] float_zero "raw" 0 "" [] "" "" [] "" in
  let '(x1, s1) := UpsertIncidentCase 1 plan report NewStore in
  let '(x2, s2) := UpsertIncidentCase 2 plan report s1 in
  nextID s2 = nextID s1 ∧ IncidentCase.ID x2 = "case-000001".
Proof.
  intros plan report.
  pose proof (upsert_same_plan 1 2 plan report report NewStore [] wf_initial eq_refl) as H.
  destruct (UpsertIncidentCase 1 plan report NewStore) as [x1 s1] eqn:H1.
  destruct (UpsertIncidentCase 2 plan report s1) as [x2 s2] eqn:H2.
  destruct H as (-> & _ & _ & _ & H). split; [exact H|].
  vm_compute in H1. injection H1 as <- _. vm_compute. reflexivity.
Defined.

#[global] Instance scored_before_weak : StrictWeak scored_before.
Proof.
  split.
  - intros [x n] [y m]. unfold scored_before, case_newer. simpl. rewrite (Z.eqb_sym m n).
    destruct (Z.eqb_spec n m); rewrite ?bool_decide_eq_true, ?bool_decide_eq_false, ?Z.ltb_lt,
      ?Z.ltb_ge; lia.
  - intros [x n] [y m] [z k]. unfold scored_before, case_newer. simpl.
    destruct (Z.eqb_spec n m), (Z.eqb_spec m k), (Z.eqb_spec n k);
      rewrite ?bool_decide_eq_false, ?Z.ltb_ge; lia.
Qed.

#[global] Instance job_newer_weak : StrictWeak job_newer.
Proof. split; intros; unfold job_newer in *; rewrite ?bool_decide_eq_true, ?bool_decide_eq_false in *; lia. Qed.

#[global] Instance case_newer_weak : StrictWeak case_newer.
Proof. split; intros; unfold case_newer in *; rewrite ?bool_decide_eq_true, ?bool_decide_eq_false in *; lia. Qed.

(** [FindSimilarIncidentCases] returns stored cases with a positive score,
    by decreasing score and, at equal scores, from the newest; at most [limit]
    of them (three when the limit is not positive); and a scored case that is
    left out means that the limit is reached and that no returned case has a
    smaller score. *)
Theorem find_similar_top (it : MapIter) (d tt ft : string) (limit : Z) (s : Store) :
  let score c := incidentCaseScore c d tt ft in
  let bound := if (limit <=? 0)%Z then 3%Z else limit in
  let r := FindSimilarIncidentCases it d tt ft limit s in
  (Z.of_nat (length r) ≤ bound)%Z ∧
  Forall (λ c, (0 < score c)%Z ∧ ∃ k, incidentCases s !! k = Some c) r ∧
  StronglySorted (λ c c', score c' < score c ∨ score c' = score c ∧
                    IncidentCase.UpdatedAt c' ≤ IncidentCase.UpdatedAt c)%Z r ∧
  (∀ k c, incidentCases s !! k = Some c → (0 < score c)%Z → c ∉ r →
     Z.of_nat (length r) = bound ∧ Forall (λ c', (score c ≤ score c')%Z) r).
Proof.
  intros score bound r.
  set (scored := filter (λ x : IncidentCase.t * Z, 0 < x.2)%Z
    ((λ c, (c, score c)) <$> range_values it (incidentCases s))).
  set (sorted := sort_slice scored_before scored).
  assert (r = (limit_slice bound sorted).*1) as Hr by done. clearbody r.
  assert (0 ≤ bound)%Z as Hb by (unfold bound; destruct (Z.leb_spec limit 0); lia).
  assert (∀ c n, (c, n) ∈ sorted ↔ n = score c ∧ (0 < n)%Z ∧ ∃ k, incidentCases s !! k = Some c)
    as Hin.
  { intros c n. unfold sorted. rewrite elem_of_sort_slice. unfold scored.
    rewrite list_elem_of_filter, list_elem_of_fmap. simpl. setoid_rewrite elem_of_range_values.
    naive_solver. }
  assert (StronglySorted (λ x y, scored_before y x = false) sorted) as Hsort
    by apply sort_slice_sorted, _.
  destruct (limit_slice_prefix bound sorted) as [rest Hrest].
  rewrite Hrest in Hsort. apply StronglySorted_app in Hsort as (Hs1 & _ & Hs2).
  assert (∀ x, x ∈ limit_slice bound sorted → x ∈ sorted) as Hsub.
  { intros x Hx. rewrite Hrest. by apply elem_of_app; left. }
  split_and!.
  - rewrite Hr, length_fmap. by apply length_limit_slice.
  - rewrite Hr. apply Forall_fmap, Forall_forall. intros [c n] Hc%Hsub%Hin. simpl.
    destruct Hc as (-> & ? & ?). done.
  - rewrite Hr. eapply (StronglySorted_fmap_impl _ _ (λ x, x.2 = score x.1)); [|..|exact Hs1].
    + intros [x n] [y m]. unfold scored_before, case_newer. simpl. intros -> ->.
      destruct (Z.eqb_spec (score y) (score x)); [|rewrite Z.ltb_ge; lia].
      rewrite bool_decide_eq_false. lia.
    + apply Forall_forall. intros [c n] Hc%Hsub%Hin. by destruct Hc as (-> & _).
  - intros k c Hk Hpos Hnr. assert ((c, score c) ∈ sorted) as Hc by (apply Hin; eauto).
    assert ((c, score c) ∉ limit_slice bound sorted) as Hnc.
    { intros H. apply Hnr. rewrite Hr. by apply (list_elem_of_fmap_2 fst) in H. }
    split; [rewrite Hr, length_fmap; by eapply limit_slice_full|].
    rewrite Hrest in Hc. apply elem_of_app in Hc as [Hc|Hc]; [done|].
    rewrite Hr. apply Forall_fmap, Forall_forall. intros [c' n] Hc'. simpl.
    pose proof (Hs2 _ _ Hc' Hc) as Hb'. apply Hsub, Hin in Hc' as (-> & _).
    unfold scored_before in Hb'. simpl in Hb'.
    destruct (Z.eqb_spec (score c) (score c')); [lia|]. apply Z.ltb_ge in Hb'. lia.
Qed.

(** [ListJobs] returns every stored job once, from the newest;
    [ListIncidentCases] returns the matching cases from the most recently
    updated, cut at a positive limit: a matching case it leaves out means that
    the limit is reached. *)
Theorem listings (it : MapIter) (filter : IncidentCaseFilter.t) (s : Store) :
  let cases := ListIncidentCases it filter s in
  ListJobs it s ≡ₚ (map_to_list (jobs s)).*2 ∧
  StronglySorted (λ x y, Job.CreatedAt y ≤ Job.CreatedAt x)%Z (ListJobs it s) ∧
  StronglySorted (λ x y, IncidentCase.UpdatedAt y ≤ IncidentCase.UpdatedAt x)%Z cases ∧
  (∀ c, c ∈ cases → matchIncidentCase c filter = true ∧ ∃ k, incidentCases s !! k = Some c) ∧
  (∀ k c, incidentCases s !! k = Some c → matchIncidentCase c filter = true → c ∉ cases →
     (0 < IncidentCaseFilter.Limit filter)%Z ∧
     Z.of_nat (length cases) = IncidentCaseFilter.Limit filter).
Proof.
  intros cases.
  set (sorted := sort_slice case_newer
    (base.filter (λ c, matchIncidentCase c filter = true) (range_values it (incidentCases s)))).
  assert (cases = if (0 <? IncidentCaseFilter.Limit filter)%Z
                  then limit_slice (IncidentCaseFilter.Limit filter) sorted else sorted) as Hc by done.
  clearbody cases.
  assert (∀ c, c ∈ sorted ↔
    matchIncidentCase c filter = true ∧ ∃ k, incidentCases s !! k = Some c) as Hin.
  { intros c. unfold sorted. by rewrite elem_of_sort_slice, list_elem_of_filter,
      elem_of_range_values. }
  assert (∃ rest, sorted = cases ++ rest) as [rest Hrest].
  { rewrite Hc. destruct (0 <? _)%Z; [|exists []; by rewrite app_nil_r].
    destruct (limit_slice_prefix (IncidentCaseFilter.Limit filter) sorted) as [rest Hl].
    by exists rest. }
  assert (StronglySorted (λ x y, case_newer y x = false) sorted) as Hsort
    by apply sort_slice_sorted, _.
  split_and!.
  - unfold ListJobs. rewrite sort_slice_perm. unfold range_values. by rewrite range_map_perm.
  - rewrite <-(list_fmap_id (ListJobs it s)).
    eapply (StronglySorted_fmap_impl _ _ (λ _, True)); [|..|apply (sort_slice_sorted job_newer)].
    + intros x y _ _. unfold job_newer. rewrite bool_decide_eq_false. simpl. lia.
    + by apply Forall_true.
  - rewrite Hrest in Hsort. apply StronglySorted_app in Hsort as (Hs & _ & _).
    rewrite <-(list_fmap_id cases).
    eapply (StronglySorted_fmap_impl _ _ (λ _, True)); [| |exact Hs].
    + intros x y _ _. unfold case_newer. rewrite bool_decide_eq_false. simpl. lia.
    + by apply Forall_true.
  - intros c Hcin. apply Hin. rewrite Hrest. apply elem_of_app. by left.
  - intros k c Hk Hm Hnc. assert (c ∈ sorted) as Hs by (apply Hin; eauto).
    rewrite Hc in Hnc |- *. destruct (Z.ltb_spec 0 (IncidentCaseFilter.Limit filter)); [|done].
    split; [done|]. eapply limit_slice_full; [lia|done..].
Qed.

(** *** Metrics *)
Lemma foldl_count {A} (f : A → bool) l (n : Z) :
  foldl (λ n x, if f x then n + 1 else n)%Z n l =
  (n + Z.of_nat (length (filter (λ x, f x = true) l)))%Z.
Proof.
  revert n. induction l as [|x l IH]; intros n; simpl; [lia|]. rewrite IH, filter_cons.
  destruct (f x); case_decide; simpl; try done; lia.
Qed.

Definition count_status (st : JobStatus) (l : list Job.t) : Z :=
  Z.of_nat (length (filter (λ j, Job.Status j = st) l)).

Lemma count_status_perm st l l' : l ≡ₚ l' → count_status st l = count_status st l'.
Proof. intros H. unfold count_status. by rewrite H. Qed.

Lemma count_job_counts l c :
  let c' := foldl count_job c l in
  success c' = (success c + count_status JobStatusSuccess l)%Z ∧
  failed c' = (failed c + count_status JobStatusFailed l)%Z ∧
  waiting c' = (waiting c + count_status JobStatusWaitingApproval l)%Z ∧
  completed c' = (completed c + count_status JobStatusSuccess l + count_status JobStatusFailed l
                  + count_status JobStatusCancelled l)%Z.
Proof.
  revert c. induction l as [|j l IH]; intros c; [unfold count_status; simpl; lia|].
  destruct (IH (count_job c j)) as (H1 & H2 & H3 & H4). cbn [foldl].
  assert (∀ st, count_status st (j :: l) =
    (if decide (Job.Status j = st) then 1 else 0) + count_status st l)%Z as Hcons.
  { intros st. unfold count_status. rewrite filter_cons. case_decide; simpl; lia. }
  rewrite H1, H2, H3, H4, !Hcons. unfold count_job.
  unfold JobStatusSuccess, JobStatusFailed, JobStatusCancelled, JobStatusWaitingApproval.
  destruct (Job.StartedAt j); repeat case_decide; simpl; try congruence; repeat split; lia.
Qed.

(** The counters of the metrics are the numbers of records with each
    property, whatever the order of the maps; the success and failure rates
    are taken over the successful, failed and cancelled jobs. *)
Theorem metrics_counts (it : MapIter) (now : time) (s : Store) :
  let m := MetricsSnapshot it now s in
  let count st := count_status st (map_to_list (jobs s)).*2 in
  let completed := (count JobStatusSuccess + count JobStatusFailed + count JobStatusCancelled)%Z in
  let rate n := if (0 <? completed)%Z then float_div (float_of_Z n) (float_of_Z completed)
                else float_zero in
  MetricsSnapshot.JobsTotal m = Z.of_nat (size (jobs s)) ∧
  MetricsSnapshot.JobsSuccess m = count JobStatusSuccess ∧
  MetricsSnapshot.JobsFailed m = count JobStatusFailed ∧
  MetricsSnapshot.JobsWaitingApproval m = count JobStatusWaitingApproval ∧
  MetricsSnapshot.WorkersOnline m =
    Z.of_nat (length (filter (λ w, worker_online now w = true) (map_to_list (workers s)).*2)) ∧
  MetricsSnapshot.JobSuccessRate m = rate (count JobStatusSuccess) ∧
  MetricsSnapshot.JobFailureRate m = rate (count JobStatusFailed).
Proof.
  intros m count completed rate.
  destruct (count_job_counts (range_values it (jobs s)) (mkCounts 0 0 0 0 float_zero 0))
    as (H1 & H2 & H3 & H4).
  assert (∀ st, count_status st (range_values it (jobs s)) = count st) as Hp.
  { intros st. apply count_status_perm. unfold range_values. by rewrite range_map_perm. }
  rewrite Hp in H1, H2, H3. rewrite (Hp JobStatusSuccess), (Hp JobStatusFailed),
    (Hp JobStatusCancelled) in H4. simpl in H1, H2, H3, H4. rewrite Z.add_0_l in H1, H2, H3, H4. unfold m, MetricsSnapshot. simpl.
  rewrite H1, H2, H3, H4. split_and!; try done.
  rewrite foldl_count. simpl. do 2 f_equal. unfold range_values. by rewrite range_map_perm.
Qed.
End SchedulerFacts.
