(* ===== verification/Repository.v ===== *)
(** * The repository interface ([internal/infrastructure/db/repository.go])

    The persistence operations as a type class on the type of repositories,
    and what the handlers rely on about the jobs of a repository. *)
From S2P Require Import Prelude.
From S2P Require Import GoStrings.
From S2P Require Import Model.

Module Repository.

(** What an operation reads from its surroundings: the clock, twice at most,
    and the order a map is visited in. *)
Record Reading := mkReading { now : time; later : time; order : MapIter }.

Record JobFilter := mkFilter {
  SourceType : string;
  WorkerType : string;
  Status : string;
  Limit : Z;
}.

(** An operation on a repository of type [R]. *)
Abbreviation Op R A := (R → result A * R).

(** The operations of the interface; those on users are a class of their own,
    next to the service that calls them. An operation that only reads leaves the
    repository as it is, so it returns no new one. *)
Class Repository (R : Type) := {
  RegisterWorker : Reading → string → string → Op R Worker.t;
  HeartbeatWorker : Reading → string → option HostInfo.t → Op R Worker.t;
  GetWorker : Reading → string → R → result Worker.t;
  ListWorkers : Reading → R → result (list Worker.t);
  UpdateWorkerStatus : Reading → string → WorkerStatus → Op R unit;
  DeleteWorker : Reading → string → Op R unit;
  CreateJob : Reading → Job.t → Op R Job.t;
  GetJob : string → R → result Job.t;
  ListJobs : Reading → JobFilter → R → result (list Job.t);
  AssignNextJob : Reading → string → Op R Job.t;
  AssignJobToWorkers : Reading → string → list string → Op R unit;
  CompleteJob : Reading → string → string → string → bool → Op R Job.t;
  DeleteJob : Reading → string → Op R unit;
  ListPendingApprovalJobs : Reading → R → result (list Job.t);
  ApproveJob : Reading → string → string → string → Op R Job.t;
  RejectJob : Reading → string → string → string → Op R Job.t;
  AddAuditLog : Reading → AuditLog.t → Op R unit;
  ListAuditLogs : Reading → string → string → R → result (list AuditLog.t);
  UpsertIncidentCase : Reading → string → IncidentCase.t → Op R IncidentCase.t;
  ListIncidentCases : Reading → IncidentCaseFilter.t → R → result (list IncidentCase.t);
  FindSimilarIncidentCases :
    Reading → string → string → string → Z → R → result (list IncidentCase.t);
  AddWorkerLog : Reading → WorkerLog.t → Op R unit;
  SaveManagedConfig : Reading → ManagedConfig.t → Op R ManagedConfig.t;
  ListManagedConfigs : Reading → string → R → result (list ManagedConfig.t);
  GetManagedConfig : string → string → R → result ManagedConfig.t;
  DeleteManagedConfig : Reading → string → string → Op R unit;
  CreateConversation : Reading → string → Op R Conversation.t;
  GetConversation : string → R → result Conversation.t;
  ListConversations : Reading → R → result (list Conversation.t);
  DeleteConversation : Reading → string → Op R unit;
  AddConversationMessage : Reading → ConversationMessage.t → Op R unit;
  ListConversationMessages : string → R → result (list ConversationMessage.t);
  CreateAgentRun : Reading → AgentRun.t → Op R AgentRun.t;
  GetAgentRun : string → R → result AgentRun.t;
  ListAgentRunsByStatus : Reading → list AgentRunStatus → R → result (list AgentRun.t);
  UpdateAgentRun : Reading → AgentRun.t → Op R unit;
  AddAgentEvent : Reading → AgentEvent.t → Op R AgentEvent.t;
  ListAgentEvents : string → Z → R → result (list AgentEvent.t);
  CreateAgentToolCall : Reading → AgentToolCall.t → Op R unit;
  CompleteAgentToolCall : Reading → AgentToolCall.t → Op R unit;
  GetMetrics : Reading → R → result MetricsSnapshot.t;
  CreatePlan : Reading → DiagnosisPlan.t → Op R unit;
  GetPlan : string → R → result DiagnosisPlan.t;
  UpdatePlan : Reading → string → DiagnosisPlan.t → Op R unit;
  SaveJobYAML : Reading → JobYAML.t → Op R JobYAML.t;
  ListJobYAMLs : Reading → R → result (list JobYAML.t);
  GetJobYAML : string → R → result JobYAML.t;
  DeleteJobYAML : Reading → string → Op R unit;
  ListWorkerLogs : Reading → string → string → Z → R → result (list WorkerLog.t);
}.

(** ** Jobs

    The laws of the interface about the stored jobs, as the handlers rely on
    them. The abstract state is the map of jobs and the map from idempotency
    keys to jobs; each operation is related to the change it may make. *)

(** Every job of [js'] is a job of [js] or was changed from one by [f]. *)
Definition evolves (f : string → Job.t → Job.t → Prop) (js js' : gmap string Job.t) : Prop :=
  ∀ k, js' !! k = js !! k ∨
    ∃ j j', js !! k = Some j ∧ js' !! k = Some j' ∧ Job.ID j' = Job.ID j ∧
      Job.IdempotencyKey j' = Job.IdempotencyKey j ∧ f k j j'.

(** What the fields of a job say about its approval. *)
Definition same_approval (j j' : Job.t) : Prop :=
  Job.ApprovalRequired j' = Job.ApprovalRequired j ∧
  Job.ApprovalStatus j' = Job.ApprovalStatus j.

Definition started (id : string) (k : string) (j j' : Job.t) : Prop :=
  k = id ∧ Job.Status j' = JobStatusRunning ∧ same_approval j j'.
Definition next_started (k : string) (j j' : Job.t) : Prop :=
  (Job.Status j = JobStatusPending ∨ Job.Status j = JobStatusQueued) ∧ started k k j j'.
Definition finished (id : string) (k : string) (j j' : Job.t) : Prop :=
  k = id ∧ Job.Status j' ∈ [JobStatusSuccess; JobStatusFailed] ∧ same_approval j j'.
Definition approved (id : string) (k : string) (j j' : Job.t) : Prop :=
  k = id ∧ Job.Status j = JobStatusWaitingApproval ∧ Job.Status j' = JobStatusPending ∧
  Job.ApprovalRequired j' = Job.ApprovalRequired j ∧
  Job.ApprovalStatus j' = ApprovalStatusApproved.
Definition rejected (id : string) (k : string) (j j' : Job.t) : Prop :=
  k = id ∧ Job.Status j = JobStatusWaitingApproval ∧ Job.Status j' = JobStatusCancelled ∧
  Job.ApprovalRequired j' = Job.ApprovalRequired j ∧
  Job.ApprovalStatus j' = ApprovalStatusRejected.

(** A job as it is stored: the defaults that creation fills in. What creation
    returns may differ from what is stored and read back, in the precision of
    its times for example, but not in its identifier. *)
Definition created_as (j j' : Job.t) : Prop :=
  Job.Status j' = (if decide (Job.Status j = "") then JobStatusPending else Job.Status j) ∧
  Job.ApprovalRequired j' = Job.ApprovalRequired j ∧
  (Job.ApprovalStatus j ≠ "" → Job.ApprovalStatus j' = Job.ApprovalStatus j) ∧
  (Job.IdempotencyKey j' = "" ∨ Job.IdempotencyKey j' = Job.IdempotencyKey j).

Class JobLaws (R : Type) `{Repository R} := {
  jobs_of : R → gmap string Job.t;
  keys_of : R → gmap string string;

  (** An operation that leaves the jobs alone. *)
  frame {A} (op : Op R A) : Prop :=
    ∀ r, jobs_of (op r).2 = jobs_of r ∧ keys_of (op r).2 = keys_of r;
  (** One that changes stored jobs by [f]. *)
  changes {A} (f : string → Job.t → Job.t → Prop) (op : Op R A) : Prop :=
    ∀ r, evolves f (jobs_of r) (jobs_of (op r).2) ∧ keys_of (op r).2 = keys_of r;

  GetJob_law id r j : GetJob id r = Ok j → jobs_of r !! id = Some j;
  CreateJob_law e j r res r' :
    (Job.IdempotencyKey j = "" ∨ keys_of r !! Job.IdempotencyKey j = None) →
    CreateJob e j r = (res, r') →
    (is_ok res = false ∧ jobs_of r' = jobs_of r ∧ keys_of r' = keys_of r) ∨
    ∃ j0 j', res = Ok j0 ∧ Job.ID j' = Job.ID j0 ∧ created_as j j' ∧
      jobs_of r' = <[Job.ID j' := j']> (jobs_of r) ∧
      keys_of r' = if decide (Job.IdempotencyKey j = "") then keys_of r
                   else <[Job.IdempotencyKey j := Job.ID j']> (keys_of r);
  CreateJob_replay e j r id :
    Job.IdempotencyKey j ≠ "" → keys_of r !! Job.IdempotencyKey j = Some id →
    ∃ res, CreateJob e j r = (res, r) ∧ (res = GetJob id r ∨ is_ok res = false);
  AssignNextJob_law e w :
    changes next_started (AssignNextJob e w);
  AssignJobToWorkers_law e id ws : changes (started id) (AssignJobToWorkers e id ws);
  AssignJobToWorkers_result e id w r u r' :
    AssignJobToWorkers e id [w] r = (Ok u, r') →
    ∃ j, jobs_of r' !! id = Some j ∧ Job.Status j = JobStatusRunning ∧ Job.AssignedWorkerID j = w;
  CompleteJob_law e w id out success : changes (finished id) (CompleteJob e w id out success);
  DeleteJob_law e id r :
    let r' := (DeleteJob e id r).2 in
    (jobs_of r' = jobs_of r ∧ keys_of r' = keys_of r) ∨
    (jobs_of r' = delete id (jobs_of r) ∧
     (∀ k v, keys_of r !! k = Some v → v ≠ id → keys_of r' !! k = Some v) ∧
     ∀ k v, keys_of r' !! k = Some v → keys_of r !! k = Some v);
  ApproveJob_law e id by_ comment : changes (approved id) (ApproveJob e id by_ comment);
  ApproveJob_result e id by_ comment r j r' :
    ApproveJob e id by_ comment r = (Ok j, r') →
    jobs_of r' !! id = Some j ∧ Job.Status j = JobStatusPending ∧
    Job.ApprovalStatus j = ApprovalStatusApproved;
  RejectJob_law e id by_ reason : changes (rejected id) (RejectJob e id by_ reason);

  RegisterWorker_frame e name wt : frame (RegisterWorker e name wt);
  HeartbeatWorker_frame e id info : frame (HeartbeatWorker e id info);
  UpdateWorkerStatus_frame e id st : frame (UpdateWorkerStatus e id st);
  DeleteWorker_frame e id : frame (DeleteWorker e id);
  AddAuditLog_frame e entry : frame (AddAuditLog e entry);
  UpsertIncidentCase_frame e p c : frame (UpsertIncidentCase e p c);
  AddWorkerLog_frame e entry : frame (AddWorkerLog e entry);
  SaveManagedConfig_frame e c : frame (SaveManagedConfig e c);
  DeleteManagedConfig_frame e k id : frame (DeleteManagedConfig e k id);
  CreateConversation_frame e t : frame (CreateConversation e t);
  DeleteConversation_frame e id : frame (DeleteConversation e id);
  AddConversationMessage_frame e m : frame (AddConversationMessage e m);
  CreateAgentRun_frame e run : frame (CreateAgentRun e run);
  UpdateAgentRun_frame e run : frame (UpdateAgentRun e run);
  AddAgentEvent_frame e ev : frame (AddAgentEvent e ev);
  CreateAgentToolCall_frame e c : frame (CreateAgentToolCall e c);
  CompleteAgentToolCall_frame e c : frame (CompleteAgentToolCall e c);
}.

(** ** The approval gate

    A job that needs approval and is ready to run, or runs, was approved. *)
Definition gate (j : Job.t) : Prop :=
  Job.ApprovalRequired j = true →
  Job.Status j ∈ [JobStatusPending; JobStatusQueued; JobStatusRunning] →
  Job.ApprovalStatus j = ApprovalStatusApproved.

(** Jobs stored under their identifiers and keys, all behind the gate. *)
Definition gated_job (ks : gmap string string) (k : string) (j : Job.t) : Prop :=
  Job.ID j = k ∧ gate j ∧
  (Job.IdempotencyKey j ≠ "" → ks !! Job.IdempotencyKey j = Some k).
Definition gated (js : gmap string Job.t) (ks : gmap string string) : Prop :=
  map_Forall (gated_job ks) js.

(** A job that may be started: approved if it needs to be. *)
Definition cleared (js : gmap string Job.t) (id : string) : Prop :=
  ∀ j, js !! id = Some j → Job.ApprovalRequired j = true →
    Job.ApprovalStatus j = ApprovalStatusApproved.

(** The jobs that may be created: they need no approval, have it, or wait. *)
Definition ready (j : Job.t) : Prop :=
  Job.ApprovalRequired j = true → Job.ApprovalStatus j = ApprovalStatusApproved.
Definition creatable (j : Job.t) : Prop := ready j ∨ Job.Status j = JobStatusWaitingApproval.

Lemma evolves_refl f js : evolves f js js.
Proof. intros k. by left. Qed.

Lemma evolves_trans f js1 js2 js3 :
  (∀ k j1 j2 j3, f k j1 j2 → f k j2 j3 → f k j1 j3) →
  evolves f js1 js2 → evolves f js2 js3 → evolves f js1 js3.
Proof.
  intros Hf H12 H23 k. destruct (H12 k) as [H1|(j1 & j2 & H1 & H2 & Hid & Hkey & Hf1)],
    (H23 k) as [H3|(j3 & j4 & H3 & H4 & Hid' & Hkey' & Hf2)].
  - left. congruence.
  - right. exists j3, j4. split_and!; congruence.
  - right. exists j1, j2. split_and!; congruence.
  - right. exists j1, j4. simplify_eq. split_and!; try congruence. by eapply Hf.
Qed.

Lemma gated_empty : gated ∅ ∅.
Proof. apply map_Forall_empty. Qed.

Lemma gated_evolves f js ks js' :
  (∀ k j j', js !! k = Some j → f k j j' → gate j → gate j') →
  evolves f js js' → gated js ks → gated js' ks.
Proof.
  intros Hf He Hg k j' Hj'. destruct (He k) as [Heq|(j & j2 & Hj & Hj2 & Hid & Hkey & Hfk)].
  - rewrite Heq in Hj'. by apply Hg.
  - simplify_eq. destruct (Hg k j Hj) as (Hk & Hgate & Hkeys). split; [congruence|].
    split; [by eapply Hf|]. by rewrite Hkey.
Qed.

Lemma gated_finished id js ks js' : evolves (finished id) js js' → gated js ks → gated js' ks.
Proof.
  apply gated_evolves. intros k j j' _ (_ & Hst & _) _ _ Hin.
  exfalso. revert Hst Hin. rewrite !elem_of_cons, !elem_of_nil.
  unfold JobStatusSuccess, JobStatusFailed, JobStatusPending, JobStatusQueued, JobStatusRunning.
  intuition congruence.
Qed.

Lemma gated_approved id js ks js' : evolves (approved id) js js' → gated js ks → gated js' ks.
Proof. apply gated_evolves. intros k j j' _ (_ & _ & _ & _ & Ha) _ _ _. done. Qed.

Lemma gated_rejected id js ks js' : evolves (rejected id) js js' → gated js ks → gated js' ks.
Proof.
  apply gated_evolves. intros k j j' _ (_ & _ & Hst & _) _ _ Hin. exfalso.
  revert Hin. rewrite Hst, !elem_of_cons, elem_of_nil. intuition done.
Qed.

(** Starting a cleared job keeps the gate, and keeps every job cleared. *)
Lemma gated_started id js ks js' :
  cleared js id → evolves (started id) js js' → gated js ks → gated js' ks.
Proof.
  intros Hready. apply gated_evolves. intros k j j' Hj (-> & _ & Hr & Hs) _ Hreq _.
  rewrite Hs. apply Hready; [done|]. by rewrite <-Hr.
Qed.

Lemma cleared_started id js js' id' : evolves (started id) js js' → cleared js id' → cleared js' id'.
Proof.
  intros He Hc j' Hj' Hreq. destruct (He id') as [Heq|(j & j2 & Hj & Hj2 & _ & _ & _ & _ & Hr & Hs)].
  - apply Hc; [by rewrite <-Heq|done].
  - simplify_eq. rewrite Hs. apply Hc; [done|]. by rewrite <-Hr.
Qed.

(** A started job was assigned when it was ready. *)
Lemma gated_next js ks js' : evolves next_started js js' → gated js ks → gated js' ks.
Proof.
  apply gated_evolves. intros k j j' _ (Hst & _ & _ & Hr & Hs) Hg Hreq _. rewrite Hs.
  apply Hg; [by rewrite <-Hr|]. rewrite !elem_of_cons. tauto.
Qed.

Lemma cleared_ready js ks k j :
  gated js ks → js !! k = Some j → Job.Status j = JobStatusPending ∨ Job.Status j = JobStatusQueued →
  cleared js k.
Proof.
  intros Hg Hj Hst j' Hj' Hreq. simplify_eq. destruct (Hg k j Hj) as (_ & Hgate & _).
  apply Hgate; [done|]. rewrite !elem_of_cons. tauto.
Qed.

(** A new job that needs no approval, waits for it, or has it. *)
Lemma gate_created j j' : created_as j j' → creatable j → gate j'.
Proof.
  intros (Hst & Hr & Ha & _) [Hap|Hw] Hreq Hin; rewrite Hr in Hreq.
  - specialize (Hap Hreq). rewrite Ha; [done|]. by rewrite Hap.
  - exfalso. rewrite Hst, Hw in Hin. revert Hin. rewrite !elem_of_cons, elem_of_nil.
    rewrite decide_False by done. intuition done.
Qed.

Lemma gated_create js ks j j' :
  gated js ks → gate j' → created_as j j' →
  (Job.IdempotencyKey j = "" ∨ ks !! Job.IdempotencyKey j = None) →
  gated (<[Job.ID j' := j']> js)
    (if decide (Job.IdempotencyKey j = "") then ks else <[Job.IdempotencyKey j := Job.ID j']> ks).
Proof.
  intros Hg Hgate (_ & _ & _ & Hkey) Hfresh k x [[<- <-]|[Hne Hx]]%lookup_insert_Some.
  - split; [done|]. split; [done|]. intros Hne. destruct Hkey as [?|Heq]; [done|].
    rewrite Heq in Hne |- *. rewrite decide_False by done. apply lookup_insert_eq.
  - destruct (Hg k x Hx) as (? & ? & Hk). split; [done|]. split; [done|]. intros Hnx.
    specialize (Hk Hnx). case_decide as Hd; [done|]. rewrite lookup_insert_ne; [done|].
    intros Heq. destruct Hfresh as [?|Hf]; [done|]. congruence.
Qed.

Lemma gated_delete js ks ks' id :
  gated js ks → (∀ k v, ks !! k = Some v → v ≠ id → ks' !! k = Some v) →
  gated (delete id js) ks'.
Proof.
  intros Hg Hks k j [Hne Hj]%lookup_delete_Some. destruct (Hg k j Hj) as (? & ? & Hk).
  split; [done|]. split; [done|]. intros Hn. by apply Hks; [apply Hk|].
Qed.

End Repository.
