(* ===== verification/MemoryRepo.v ===== *)
(** * The in-memory repository ([internal/infrastructure/db/memory.go])

    [MemoryRepository] on top of the in-memory store: workers, jobs, audit logs
    and cases go to the store; conversations, agent runs, their events and
    tool calls, and managed configurations are kept here. *)
From Stdlib Require Import Ascii.
From S2P Require Import Prelude.
From S2P Require Import GoStrings.
From S2P Require Import Model.
From S2P Require Import Scheduler.
From S2P Require Import SchedulerFacts.
From S2P Require Import Repository.

Module MemoryRepo.
Import Repository.

Record MemoryRepository := mkRepo {
  store : Scheduler.Store;
  managedConfigs : gmap string ManagedConfig.t;
  conversations : gmap string Conversation.t;
  messages : gmap string (list ConversationMessage.t);
  convIDSeq : Z;
  convMsgIDSeq : Z;
  agentRuns : gmap string AgentRun.t;
  agentEvents : gmap string (list AgentEvent.t);
  agentCalls : gmap string AgentToolCall.t;
  agentEventSeq : Z;
  jobIdempotency : gmap string string;
}.
#[global] Instance MemoryRepository_eta : Eta MemoryRepository := λ r,
  mkRepo (store r) (managedConfigs r) (conversations r) (messages r) (convIDSeq r)
    (convMsgIDSeq r) (agentRuns r) (agentEvents r) (agentCalls r) (agentEventSeq r)
    (jobIdempotency r).

Definition NewMemoryRepository : MemoryRepository :=
  mkRepo Scheduler.NewStore ∅ ∅ ∅ 0 0 ∅ ∅ ∅ 0 ∅.

(** ** Errors *)
Definition errNotFound (entity id : string) : error :=
  Errorf "%s not found: %s" [AStr entity; AStr id].
Definition errInvalidStatus (entity status : string) : error :=
  Errorf "cannot delete %s with status %s" [AStr entity; AStr status].

(** An operation of the store, run on the repository's store. *)
Definition on_store {A} (f : Scheduler.Store → A * Scheduler.Store) (r : MemoryRepository)
    : A * MemoryRepository :=
  let '(x, s) := f (store r) in (x, r <| store := s |>).

(** ** Users: kept by the authentication service *)
Definition mem_CreateUser (username passwordHash role : string) : result User.t :=
  Ok (User.mk username role).
Definition mem_GetUser (username : string) : result (option (string * User.t)) := Ok None.
Definition mem_ListUsers : result (list User.t) := Ok [].
Definition mem_DeleteUser (username : string) : result unit := Ok tt.
Definition mem_UpdatePassword (username newHash : string) : result unit := Ok tt.

(** ** Workers *)
Definition same_worker (name workerType : string) (w : Worker.t) : Prop :=
  Worker.Name w = name ∧ Worker.WorkerType w = workerType.
#[global] Instance same_worker_dec n t w : Decision (same_worker n t w).
Proof. unfold same_worker. apply _. Defined.

Definition mem_RegisterWorker (e : Reading) (name workerType : string)
    : Op MemoryRepository Worker.t := λ r,
  match list_find (same_worker name workerType) (Scheduler.ListWorkers (order e) (store r)) with
  | Some (_, w) =>
      let '(updated, r) := on_store (Scheduler.HeartbeatWorker (now e) (Worker.ID w)) r in
      match updated with
      | Some updated => (Ok updated, r)
      | None => (Ok w, r)
      end
  | None =>
      let '(w, r) := on_store (Scheduler.RegisterWorker (now e) name workerType) r in
      (Ok w, r)
  end.

Definition mem_HeartbeatWorker (e : Reading) (id : string) (info : option HostInfo.t)
    : Op MemoryRepository Worker.t := λ r,
  let '(w, r) := on_store (Scheduler.HeartbeatWorker (now e) id) r in
  match w with
  | None => (Err (errNotFound "worker" id), r)
  | Some w =>
      match info with
      | Some info => (Ok (w <| Worker.HostInfo := info |>), r)
      | None => (Ok w, r)
      end
  end.

Definition find_worker (e : Reading) (id : string) (r : MemoryRepository) : option Worker.t :=
  snd <$> list_find (λ w, Worker.ID w = id) (Scheduler.ListWorkers (order e) (store r)).

Definition mem_GetWorker (e : Reading) (id : string) (r : MemoryRepository) : result Worker.t :=
  match find_worker e id r with
  | Some w => Ok w
  | None => Err (errNotFound "worker" id)
  end.

Definition mem_ListWorkers (e : Reading) (r : MemoryRepository) : result (list Worker.t) :=
  Ok (Scheduler.ListWorkers (order e) (store r)).

(** The status is not recorded, found or not. *)
Definition mem_UpdateWorkerStatus (e : Reading) (id : string) (status : WorkerStatus)
    : Op MemoryRepository unit := λ r,
  match find_worker e id r with
  | Some _ => (Ok tt, r)
  | None => (Ok tt, r)
  end.

Definition mem_DeleteWorker (e : Reading) (id : string) : Op MemoryRepository unit :=
  λ r, (Ok tt, r).

(** ** Jobs *)
Definition mem_GetJob (id : string) (r : MemoryRepository) : result Job.t :=
  match Scheduler.GetJob id (store r) with
  | Some job => Ok job
  | None => Err (errNotFound "job" id)
  end.

(** [CreateJob] takes the lock twice: it looks the key up, then creates the
    job, then records the key. *)
Definition idempotent_job (key : string) (r : MemoryRepository) : option string :=
  if decide (key = "") then None
  else
    let id := default "" (jobIdempotency r !! key) in
    if decide (id = "") then None else Some id.

Definition job_options (job : Job.t) : Scheduler.CreateJobOptions :=
  Scheduler.mkOptions (Job.Status job) (Job.RiskLevel job) (Job.ApprovalRequired job)
    (Job.ApprovalStatus job) (Job.ApprovalComment job) (Job.TemplateCode job)
    (Scheduler.cloneStringMap (Job.Parameters job)) (Job.SourceType job) (Job.SourceID job)
    (Job.AssignedWorkerID job).

Definition create_job (e : Reading) (job : Job.t) (r : MemoryRepository)
    : Job.t * MemoryRepository :=
  on_store (Scheduler.CreateJobWithOptions (now e) (Job.Name job) (Job.WorkerType job)
    (Job.Command job) (job_options job)) r.

Definition record_key (key id : string) (r : MemoryRepository) : MemoryRepository :=
  if decide (key = "") then r
  else r <| jobIdempotency := <[key := id]> (jobIdempotency r) |>.

Definition mem_CreateJob (e : Reading) (job : Job.t) : Op MemoryRepository Job.t := λ r,
  match idempotent_job (Job.IdempotencyKey job) r with
  | Some id => (mem_GetJob id r, r)
  | None =>
      let '(created, r) := create_job e job r in
      (Ok created, record_key (Job.IdempotencyKey job) (Job.ID created) r)
  end.

Definition job_matches (filter : JobFilter) (j : Job.t) : Prop :=
  (SourceType filter = "" ∨ Job.SourceType j = SourceType filter) ∧
  (WorkerType filter = "" ∨ Job.WorkerType j = WorkerType filter) ∧
  (Status filter = "" ∨ Job.Status j = Status filter).
#[global] Instance job_matches_dec f j : Decision (job_matches f j).
Proof. unfold job_matches. apply _. Defined.

Definition mem_ListJobs (e : Reading) (filter : JobFilter) (r : MemoryRepository)
    : result (list Job.t) :=
  let filtered := base.filter (job_matches filter) (Scheduler.ListJobs (order e) (store r)) in
  Ok (if (0 <? Limit filter)%Z then limit_slice (Limit filter) filtered else filtered).

Definition mem_AssignNextJob (e : Reading) (workerID : string) : Op MemoryRepository Job.t := λ r,
  let '(job, r) := on_store (Scheduler.AssignNextJob (order e) (now e) workerID) r in
  match job with
  | Some job => (Ok job, r)
  | None => (Err (errNotFound "job" "queued"), r)
  end.

Fixpoint mem_AssignJobToWorkers (e : Reading) (jobID : string) (workerIDs : list string)
    (r : MemoryRepository) : result unit * MemoryRepository :=
  match workerIDs with
  | [] => (Ok tt, r)
  | wid :: workerIDs =>
      let '(res, r) := on_store (Scheduler.AssignJobToWorker (now e) jobID wid) r in
      match res with
      | Err err => (Err err, r)
      | Ok _ => mem_AssignJobToWorkers e jobID workerIDs r
      end
  end.

Definition mem_CompleteJob (e : Reading) (workerID jobID output : string) (success : bool)
    : Op MemoryRepository Job.t :=
  on_store (Scheduler.CompleteJob (now e) workerID jobID output success).

(** The job stays, also when the deletion is reported. *)
Definition mem_DeleteJob (e : Reading) (id : string) : Op MemoryRepository unit := λ r,
  match Scheduler.GetJob id (store r) with
  | None => (Err (errNotFound "job" id), r)
  | Some job =>
      if decide (Job.Status job ∈ [JobStatusPending; JobStatusQueued; JobStatusWaitingApproval])
      then (Ok tt, r)
      else (Err (errInvalidStatus "job" (Job.Status job)), r)
  end.

Definition mem_ListPendingApprovalJobs (e : Reading) (r : MemoryRepository)
    : result (list Job.t) := Ok (Scheduler.ListPendingApprovalJobs (order e) (store r)).
Definition mem_ApproveJob (e : Reading) (jobID approvedBy comment : string)
    : Op MemoryRepository Job.t :=
  on_store (Scheduler.ApproveJob (now e) jobID approvedBy comment).
Definition mem_RejectJob (e : Reading) (jobID rejectedBy reason : string)
    : Op MemoryRepository Job.t :=
  on_store (Scheduler.RejectJob (now e) jobID rejectedBy reason).

(** ** Audit logs and incident cases *)
Definition mem_AddAuditLog (e : Reading) (entry : AuditLog.t) : Op MemoryRepository unit := λ r,
  let '(_, r) := on_store (Scheduler.AddAuditLog (now e) (AuditLog.ActorType entry)
    (AuditLog.ActorID entry) (AuditLog.Action entry) (AuditLog.ResourceType entry)
    (AuditLog.ResourceID entry) (AuditLog.Details entry)) r in
  (Ok tt, r).
Definition mem_ListAuditLogs (e : Reading) (resourceType resourceID : string) (r : MemoryRepository)
    : result (list AuditLog.t) := Ok (Scheduler.ListAuditLogs resourceType resourceID (store r)).

Definition case_plan (planID : string) (c : IncidentCase.t) : DiagnosisPlan.t :=
  DiagnosisPlan.zero <| DiagnosisPlan.ID := planID |>
    <| DiagnosisPlan.Title := IncidentCase.Title c |>
    <| DiagnosisPlan.TriggerType := IncidentCase.TriggerType c |>.
Definition case_report (c : IncidentCase.t) : AnalysisReport.t :=
  AnalysisReport.zero
    <| AnalysisReport.FaultType := IncidentCase.FaultType c |>
    <| AnalysisReport.PossibleCauses := IncidentCase.PossibleCauses c |>
    <| AnalysisReport.Suggestions := IncidentCase.Suggestions c |>
    <| AnalysisReport.Confidence := IncidentCase.Confidence c |>
    <| AnalysisReport.RawAnalysis := IncidentCase.EvidenceSummary c |>
    <| AnalysisReport.AlertSymptoms := IncidentCase.AlertSymptoms c |>
    <| AnalysisReport.EnvironmentTags := IncidentCase.EnvironmentTags c |>
    <| AnalysisReport.EvidenceSummary := IncidentCase.EvidenceSummary c |>
    <| AnalysisReport.RootCause := IncidentCase.RootCause c |>
    <| AnalysisReport.ResolutionSteps := IncidentCase.ResolutionSteps c |>
    <| AnalysisReport.ResolutionResult := IncidentCase.ResolutionResult c |>.
Definition mem_UpsertIncidentCase (e : Reading) (planID : string) (c : IncidentCase.t)
    : Op MemoryRepository IncidentCase.t := λ r,
  let '(x, r) := on_store (Scheduler.UpsertIncidentCase (now e) (case_plan planID c)
    (case_report c)) r in
  (Ok x, r).
Definition mem_ListIncidentCases (e : Reading) (filter : IncidentCaseFilter.t)
    (r : MemoryRepository) : result (list IncidentCase.t) :=
  Ok (Scheduler.ListIncidentCases (order e) filter (store r)).
Definition mem_FindSimilarIncidentCases (e : Reading) (d tt ft : string) (limit : Z)
    (r : MemoryRepository) : result (list IncidentCase.t) :=
  Ok (Scheduler.FindSimilarIncidentCases (order e) d tt ft limit (store r)).

Definition mem_AddWorkerLog (e : Reading) (entry : WorkerLog.t) : Op MemoryRepository unit :=
  λ r, (Ok tt, r).

Definition mem_ListWorkerLogs (e : Reading) (workerID jobID : string) (limit : Z)
    (r : MemoryRepository) : result (list WorkerLog.t) := Ok [].

(** ** Diagnosis plans and job YAMLs: not kept *)
Definition mem_CreatePlan (e : Reading) (plan : DiagnosisPlan.t) : Op MemoryRepository unit :=
  λ r, (Ok tt, r).
Definition mem_GetPlan (id : string) (r : MemoryRepository) : result DiagnosisPlan.t :=
  Err (errNotFound "plan" id).
Definition mem_UpdatePlan (e : Reading) (id : string) (plan : DiagnosisPlan.t)
    : Op MemoryRepository unit := λ r, (Ok tt, r).
Definition mem_SaveJobYAML (e : Reading) (jy : JobYAML.t) : Op MemoryRepository JobYAML.t :=
  λ r, (Ok jy, r).
Definition mem_ListJobYAMLs (e : Reading) (r : MemoryRepository) : result (list JobYAML.t) := Ok [].
Definition mem_GetJobYAML (id : string) (r : MemoryRepository) : result JobYAML.t := Ok JobYAML.zero.
Definition mem_DeleteJobYAML (e : Reading) (id : string) : Op MemoryRepository unit :=
  λ r, (Ok tt, r).

(** ** Managed configurations *)
Definition managedConfigKey (kind id : string) : string := kind +:+ "/" +:+ id.

Definition mem_SaveManagedConfig (e : Reading) (config : ManagedConfig.t)
    : Op MemoryRepository ManagedConfig.t := λ r,
  let config :=
    if decide (ManagedConfig.ID config = "") then
      config <| ManagedConfig.ID :=
                  "cfg-" +:+ pretty (N.of_nat (size (managedConfigs r) + 1)) |>
    else config in
  let config :=
    if decide (ManagedConfig.CreatedAt config = time_zero) then
      config <| ManagedConfig.CreatedAt := now e |>
    else config in
  let config := config <| ManagedConfig.UpdatedAt := now e |> in
  let key := managedConfigKey (ManagedConfig.Kind config) (ManagedConfig.ID config) in
  (Ok config, r <| managedConfigs := <[key := config]> (managedConfigs r) |>).

Definition mem_ListManagedConfigs (e : Reading) (kind : string) (r : MemoryRepository)
    : result (list ManagedConfig.t) :=
  Ok (filter (λ cfg, kind = "" ∨ ManagedConfig.Kind cfg = kind)
        (range_values (order e) (managedConfigs r))).

Definition mem_GetManagedConfig (kind id : string) (r : MemoryRepository)
    : result ManagedConfig.t :=
  match managedConfigs r !! managedConfigKey kind id with
  | Some cfg => Ok cfg
  | None => Err (errNotFound "managed config" (kind +:+ "/" +:+ id))
  end.

Definition mem_DeleteManagedConfig (e : Reading) (kind id : string) : Op MemoryRepository unit :=
  λ r,
  let key := managedConfigKey kind id in
  match managedConfigs r !! key with
  | None => (Err (errNotFound "managed config" (kind +:+ "/" +:+ id)), r)
  | Some _ => (Ok tt, r <| managedConfigs := delete key (managedConfigs r) |>)
  end.

Definition mem_MetricsSnapshot (e : Reading) (r : MemoryRepository) : result MetricsSnapshot.t :=
  Ok (Scheduler.MetricsSnapshot (order e) (now e) (store r)).

(** ** Conversations *)
Definition conversation_not_found (id : string) : error :=
  Errorf "conversation not found: %s" [AStr id].

Definition mem_CreateConversation (e : Reading) (title : string)
    : Op MemoryRepository Conversation.t := λ r,
  let seq := u64_add (convIDSeq r) 1 in
  let id := "conv-" +:+ pad6 seq in
  let c := Conversation.mk id title (now e) (now e) in
  (Ok c, r <| convIDSeq := seq |>
           <| conversations := <[id := c]> (conversations r) |>
           <| messages := <[id := []]> (messages r) |>).

Definition mem_GetConversation (id : string) (r : MemoryRepository) : result Conversation.t :=
  match conversations r !! id with
  | Some c => Ok c
  | None => Err (conversation_not_found id)
  end.

Definition conversation_newer (x y : Conversation.t) : bool :=
  bool_decide (Conversation.UpdatedAt y < Conversation.UpdatedAt x)%Z.
Definition mem_ListConversations (e : Reading) (r : MemoryRepository)
    : result (list Conversation.t) :=
  Ok (sort_slice conversation_newer (range_values (order e) (conversations r))).

Definition mem_DeleteConversation (e : Reading) (id : string) : Op MemoryRepository unit := λ r,
  match conversations r !! id with
  | None => (Err (conversation_not_found id), r)
  | Some _ =>
      (Ok tt, r <| conversations := delete id (conversations r) |>
                <| messages := delete id (messages r) |>)
  end.

Definition list_get {A} (m : gmap string (list A)) (k : string) : list A := default [] (m !! k).

Definition mem_AddConversationMessage (e : Reading) (msg : ConversationMessage.t)
    : Op MemoryRepository unit := λ r,
  let seq := i64_add (convMsgIDSeq r) 1 in
  let msg := msg <| ConversationMessage.ID := seq |>
                 <| ConversationMessage.CreatedAt := now e |> in
  let id := ConversationMessage.ConversationID msg in
  let r := r <| convMsgIDSeq := seq |>
             <| messages := <[id := list_get (messages r) id ++ [msg]]> (messages r) |> in
  match conversations r !! id with
  | Some c =>
      (Ok tt, r <| conversations :=
                     <[id := c <| Conversation.UpdatedAt := later e |>]> (conversations r) |>)
  | None => (Ok tt, r)
  end.

Definition mem_ListConversationMessages (conversationID : string) (r : MemoryRepository)
    : result (list ConversationMessage.t) := Ok (list_get (messages r) conversationID).

(** ** Agent runs *)
Definition mem_CreateAgentRun (e : Reading) (run : AgentRun.t) : Op MemoryRepository AgentRun.t :=
  λ r,
  let '(run, r) :=
    if decide (AgentRun.ID run = "") then
      let seq := u64_add (convIDSeq r) 1 in
      (run <| AgentRun.ID := "run-" +:+ pad6 seq |>, r <| convIDSeq := seq |>)
    else (run, r) in
  let run := run <| AgentRun.CreatedAt := now e |> <| AgentRun.UpdatedAt := now e |> in
  let run := if decide (AgentRun.Status run = "") then
               run <| AgentRun.Status := AgentRunStatusQueued |> else run in
  let run := if decide (AgentRun.Transcript run = "") then
               run <| AgentRun.Transcript := "[]" |> else run in
  (Ok run, r <| agentRuns := <[AgentRun.ID run := run]> (agentRuns r) |>).

Definition mem_GetAgentRun (id : string) (r : MemoryRepository) : result AgentRun.t :=
  match agentRuns r !! id with
  | Some run => Ok run
  | None => Err (errNotFound "agent run" id)
  end.

Definition mem_ListAgentRunsByStatus (e : Reading) (statuses : list AgentRunStatus)
    (r : MemoryRepository) : result (list AgentRun.t) :=
  Ok (filter (λ run, AgentRun.Status run ∈ statuses) (range_values (order e) (agentRuns r))).

Definition mem_UpdateAgentRun (e : Reading) (run : AgentRun.t) : Op MemoryRepository unit := λ r,
  match agentRuns r !! AgentRun.ID run with
  | None => (Err (errNotFound "agent run" (AgentRun.ID run)), r)
  | Some _ =>
      let run := run <| AgentRun.UpdatedAt := now e |> in
      (Ok tt, r <| agentRuns := <[AgentRun.ID run := run]> (agentRuns r) |>)
  end.

Definition mem_AddAgentEvent (e : Reading) (event : AgentEvent.t)
    : Op MemoryRepository AgentEvent.t := λ r,
  let seq := i64_add (agentEventSeq r) 1 in
  let event := event <| AgentEvent.ID := seq |> <| AgentEvent.CreatedAt := now e |> in
  let runID := AgentEvent.RunID event in
  (Ok event, r <| agentEventSeq := seq |>
               <| agentEvents := <[runID := list_get (agentEvents r) runID ++ [event]]>
                                   (agentEvents r) |>).

Definition mem_ListAgentEvents (runID : string) (afterID : Z) (r : MemoryRepository)
    : result (list AgentEvent.t) :=
  Ok (filter (λ ev, afterID < AgentEvent.ID ev)%Z (list_get (agentEvents r) runID)).

Definition mem_CreateAgentToolCall (e : Reading) (call : AgentToolCall.t)
    : Op MemoryRepository unit := λ r,
  match agentCalls r !! AgentToolCall.ID call with
  | Some _ => (Ok tt, r)
  | None =>
      let call := call <| AgentToolCall.CreatedAt := now e |> in
      (Ok tt, r <| agentCalls := <[AgentToolCall.ID call := call]> (agentCalls r) |>)
  end.

Definition mem_CompleteAgentToolCall (e : Reading) (call : AgentToolCall.t)
    : Op MemoryRepository unit := λ r,
  match agentCalls r !! AgentToolCall.ID call with
  | None => (Err (errNotFound "agent tool call" (AgentToolCall.ID call)), r)
  | Some old =>
      let old := old <| AgentToolCall.Result := AgentToolCall.Result call |>
                     <| AgentToolCall.Error := AgentToolCall.Error call |>
                     <| AgentToolCall.Status := AgentToolCall.Status call |>
                     <| AgentToolCall.CompletedAt := Some (now e) |> in
      (Ok tt, r <| agentCalls := <[AgentToolCall.ID call := old]> (agentCalls r) |>)
  end.

(** ** The implementation of the interface *)
#[global] Instance memory_repository : Repository MemoryRepository := {|
  RegisterWorker := mem_RegisterWorker;
  HeartbeatWorker := mem_HeartbeatWorker;
  GetWorker := mem_GetWorker;
  ListWorkers := mem_ListWorkers;
  UpdateWorkerStatus := mem_UpdateWorkerStatus;
  DeleteWorker := mem_DeleteWorker;
  CreateJob := mem_CreateJob;
  GetJob := mem_GetJob;
  ListJobs := mem_ListJobs;
  AssignNextJob := mem_AssignNextJob;
  AssignJobToWorkers := mem_AssignJobToWorkers;
  CompleteJob := mem_CompleteJob;
  DeleteJob := mem_DeleteJob;
  ListPendingApprovalJobs := mem_ListPendingApprovalJobs;
  ApproveJob := mem_ApproveJob;
  RejectJob := mem_RejectJob;
  AddAuditLog := mem_AddAuditLog;
  ListAuditLogs := mem_ListAuditLogs;
  UpsertIncidentCase := mem_UpsertIncidentCase;
  ListIncidentCases := mem_ListIncidentCases;
  FindSimilarIncidentCases := mem_FindSimilarIncidentCases;
  AddWorkerLog := mem_AddWorkerLog;
  SaveManagedConfig := mem_SaveManagedConfig;
  ListManagedConfigs := mem_ListManagedConfigs;
  GetManagedConfig := mem_GetManagedConfig;
  DeleteManagedConfig := mem_DeleteManagedConfig;
  CreateConversation := mem_CreateConversation;
  GetConversation := mem_GetConversation;
  ListConversations := mem_ListConversations;
  DeleteConversation := mem_DeleteConversation;
  AddConversationMessage := mem_AddConversationMessage;
  ListConversationMessages := mem_ListConversationMessages;
  CreateAgentRun := mem_CreateAgentRun;
  GetAgentRun := mem_GetAgentRun;
  ListAgentRunsByStatus := mem_ListAgentRunsByStatus;
  UpdateAgentRun := mem_UpdateAgentRun;
  AddAgentEvent := mem_AddAgentEvent;
  ListAgentEvents := mem_ListAgentEvents;
  CreateAgentToolCall := mem_CreateAgentToolCall;
  CompleteAgentToolCall := mem_CompleteAgentToolCall;
  GetMetrics := mem_MetricsSnapshot;
  CreatePlan := mem_CreatePlan;
  GetPlan := mem_GetPlan;
  UpdatePlan := mem_UpdatePlan;
  SaveJobYAML := mem_SaveJobYAML;
  ListJobYAMLs := mem_ListJobYAMLs;
  GetJobYAML := mem_GetJobYAML;
  DeleteJobYAML := mem_DeleteJobYAML;
  ListWorkerLogs := mem_ListWorkerLogs;
|}.

End MemoryRepo.
