(* ===== verification/MemoryRepoFacts.v ===== *)
(** * Properties of the in-memory repository

    It satisfies the laws of the interface; idempotent creation, the event
    log of an agent run, and managed configurations. *)
From Stdlib Require Import Ascii.
From S2P Require Import Prelude.
From S2P Require Import GoStrings.
From S2P Require Import Model.
From S2P Require Import Scheduler.
From S2P Require Import SchedulerFacts.
From S2P Require Import Repository.
From S2P Require Import MemoryRepo.

Module MemoryRepoFacts.
Import Repository MemoryRepo.

(** The map of jobs of the store. *)
Definition mem_jobs (r : MemoryRepository) : gmap string Job.t := Scheduler.jobs (store r).
(** The recorded keys. *)
Definition mem_keys (r : MemoryRepository) : gmap string string :=
  filter (λ e, e.2 ≠ "") (jobIdempotency r).

Lemma idempotent_job_keys key r : key ≠ "" → idempotent_job key r = mem_keys r !! key.
Proof.
  intros Hk. unfold idempotent_job, mem_keys. rewrite decide_False by done.
  destruct (jobIdempotency r !! key) as [id|] eqn:Hid; simpl.
  - case_decide as He; symmetry; [apply map_lookup_filter_None_2; right; naive_solver|].
    by apply map_lookup_filter_Some_2.
  - symmetry. apply map_lookup_filter_None_2. by left.
Qed.

Lemma evolves_insert f js k j j' :
  js !! k = Some j → Job.ID j' = Job.ID j → Job.IdempotencyKey j' = Job.IdempotencyKey j →
  f k j j' → evolves f js (<[k := j']> js).
Proof.
  intros Hj Hid Hkey Hf k'. destruct (decide (k = k')) as [<-|?].
  - right. exists j, j'. by rewrite lookup_insert_eq.
  - left. by rewrite lookup_insert_ne.
Qed.

Lemma assign_next_evolves it now w s :
  evolves next_started
    (Scheduler.jobs s) (Scheduler.jobs (Scheduler.AssignNextJob it now w s).2).
Proof.
  destruct (SchedulerFacts.assign_next_effect it now w s)
    as [| |k j j' Hj Hc|? ? ? [=]]; simpl; try apply evolves_refl.
  inversion Hc; subst. apply (evolves_insert _ _ k j); [done..|].
  split; [tauto|]. done.
Qed.

Lemma assign_evolves e id ws r :
  evolves (started id) (mem_jobs r) (mem_jobs (mem_AssignJobToWorkers e id ws r).2).
Proof.
  revert r. induction ws as [|w ws IH]; intros r; [apply evolves_refl|]. simpl.
  unfold on_store. destruct (Scheduler.AssignJobToWorker (now e) id w (store r)) as [res s] eqn:Hs.
  assert (evolves (started id) (mem_jobs r) (Scheduler.jobs s)) as H1.
  { unfold Scheduler.AssignJobToWorker in Hs.
    destruct (Scheduler.workers (store r) !! w); [|simplify_eq; apply evolves_refl].
    destruct (Scheduler.jobs (store r) !! id) as [j|] eqn:Hj; [|simplify_eq; apply evolves_refl].
    destruct (negb _); [simplify_eq; apply evolves_refl|]. injection Hs as <- <-.
    by apply (evolves_insert _ _ id j). }
  destruct res as [j|err]; [|done].
  pose proof (IH (r <| store := s |>)) as H2. change (mem_jobs (r <| store := s |>)) with (Scheduler.jobs s) in H2.
  eapply evolves_trans; [|exact H1|exact H2].
  intros k j1 j2 j3 (-> & _ & ? & ?) (_ & ? & ? & ?). repeat split; congruence.
Qed.

Lemma make_id_not_empty prefix n : Scheduler.make_id prefix n ≠ "".
Proof. unfold Scheduler.make_id. generalize (pad6 n). by destruct prefix. Qed.

Lemma keys_on_store {A} (f : Scheduler.Store → A * Scheduler.Store) r :
  mem_keys (on_store f r).2 = mem_keys r ∧ mem_jobs (on_store f r).2 = Scheduler.jobs (f (store r)).2.
Proof. unfold on_store. by destruct (f (store r)). Qed.

Lemma assign_keys e id ws r : mem_keys (mem_AssignJobToWorkers e id ws r).2 = mem_keys r.
Proof.
  revert r. induction ws as [|w ws IH]; intros r; [done|]. simpl. unfold on_store.
  destruct (Scheduler.AssignJobToWorker (now e) id w (store r)) as [[j|err] s]; [|done].
  by rewrite (IH (r <| store := s |>)).
Qed.

#[global] Program Instance memory_job_laws : JobLaws MemoryRepository :=
  {| jobs_of := mem_jobs; keys_of := mem_keys |}.
Next Obligation.
  intros id r j. simpl. unfold mem_GetJob, Scheduler.GetJob, mem_jobs. by case_match; intros; simplify_eq.
Qed.
Next Obligation.
  intros e j r res r' Hkey. simpl. unfold mem_CreateJob.
  assert (idempotent_job (Job.IdempotencyKey j) r = None) as ->.
  { destruct (decide (Job.IdempotencyKey j = "")) as [Hk|Hk].
    - unfold idempotent_job. by rewrite decide_True.
    - destruct Hkey as [?|Hkey]; [done|]. by rewrite idempotent_job_keys. }
  unfold create_job, on_store.
  destruct (Scheduler.CreateJobWithOptions _ _ _ _ _ (store r)) as [j' s] eqn:Hc.
  apply SchedulerFacts.CreateJobWithOptions_spec in Hc as (Hjobs & Hid & Hst & Hreq & Happ & Hik).
  intros [= <- <-]. right. exists j', j'. split; [done|]. split; [done|]. split; [split_and!; auto|].
  unfold record_key, mem_jobs, mem_keys.
  destruct (decide (Job.IdempotencyKey j = "")); (split; [exact Hjobs|]); [done|].
  simpl. rewrite map_filter_insert_True; [done|]. simpl. rewrite Hid. apply make_id_not_empty.
Qed.
Next Obligation.
  intros e j r id Hk Hid. simpl. unfold mem_CreateJob. rewrite idempotent_job_keys, Hid by done. eauto.
Qed.
Next Obligation.
  intros e w r. simpl. unfold mem_AssignNextJob.
  pose proof (assign_next_evolves (order e) (now e) w (store r)) as H. unfold on_store.
  destruct (Scheduler.AssignNextJob (order e) (now e) w (store r)) as [[j|] s]; by split.
Qed.
Next Obligation. intros. split; [apply assign_evolves|apply assign_keys]. Qed.
Next Obligation.
  intros e id w r u r'. simpl. unfold on_store, Scheduler.AssignJobToWorker.
  destruct (Scheduler.workers (store r) !! w); [|done].
  destruct (Scheduler.jobs (store r) !! id) as [j|]; [|done].
  destruct (negb _); [done|]. intros [= _ <-]. unfold mem_jobs. simpl.
  rewrite lookup_insert_eq. by eexists.
Qed.
Next Obligation.
  intros e w id out success r. simpl. unfold mem_CompleteJob.
  destruct (keys_on_store (Scheduler.CompleteJob (now e) w id out success) r) as [-> ->].
  split; [|done]. unfold Scheduler.CompleteJob, mem_jobs.
  destruct (Scheduler.jobs (store r) !! id) as [j|] eqn:Hj; [|apply evolves_refl].
  case_decide; [apply evolves_refl|]. apply (evolves_insert _ _ id j); [done..|].
  split_and!; [done| |done]. simpl. destruct success; set_solver.
Qed.
Next Obligation.
  intros e id r. left. simpl. unfold mem_DeleteJob. by repeat case_match.
Qed.
Next Obligation.
  intros e id by_ comment r. simpl. unfold mem_ApproveJob.
  destruct (keys_on_store (Scheduler.ApproveJob (now e) id by_ comment) r) as [-> ->].
  split; [|done]. unfold Scheduler.ApproveJob, mem_jobs.
  destruct (Scheduler.jobs (store r) !! id) as [j|] eqn:Hj; [|apply evolves_refl].
  case_decide; [apply evolves_refl|]. by apply (evolves_insert _ _ id j).
Qed.
Next Obligation.
  intros e id by_ comment r j r'. simpl. unfold mem_ApproveJob, on_store, Scheduler.ApproveJob.
  destruct (Scheduler.jobs (store r) !! id) as [j0|] eqn:Hj; [|done].
  case_decide; [done|]. intros [= <- <-]. unfold mem_jobs. simpl. by rewrite lookup_insert_eq.
Qed.
Next Obligation.
  intros e id by_ reason r. simpl. unfold mem_RejectJob.
  destruct (keys_on_store (Scheduler.RejectJob (now e) id by_ reason) r) as [-> ->].
  split; [|done]. unfold Scheduler.RejectJob, mem_jobs.
  destruct (Scheduler.jobs (store r) !! id) as [j|] eqn:Hj; [|apply evolves_refl].
  case_decide; [apply evolves_refl|]. by apply (evolves_insert _ _ id j).
Qed.
Next Obligation.
  intros e name wt r. simpl. unfold mem_RegisterWorker, on_store, mem_jobs.
  destruct (list_find _ _) as [[i w]|]; [|done].
  unfold Scheduler.HeartbeatWorker. by destruct (Scheduler.workers (store r) !! _).
Qed.
Next Obligation.
  intros e id info r. simpl. unfold mem_HeartbeatWorker, on_store, mem_jobs, Scheduler.HeartbeatWorker.
  by destruct (Scheduler.workers (store r) !! id), info.
Qed.
Next Obligation. intros e id st r. simpl. unfold mem_UpdateWorkerStatus. by case_match. Qed.
Next Obligation. done. Qed.
Next Obligation. done. Qed.
Next Obligation.
  intros e p c r. simpl. unfold mem_UpsertIncidentCase, on_store, mem_jobs.
  pose proof (SchedulerFacts.jobs_UpsertIncidentCase (now e) (case_plan p c) (case_report c) (store r)) as H.
  by destruct (Scheduler.UpsertIncidentCase _ _ _ _).
Qed.
Next Obligation. done. Qed.
Next Obligation. done. Qed.
Next Obligation. intros e k id r. simpl. unfold mem_DeleteManagedConfig. by case_match. Qed.
Next Obligation. done. Qed.
Next Obligation. intros e id r. simpl. unfold mem_DeleteConversation. by case_match. Qed.
Next Obligation. intros e m r. simpl. unfold mem_AddConversationMessage. by case_match. Qed.
Next Obligation. intros e run r. simpl. unfold mem_CreateAgentRun. by repeat case_decide. Qed.
Next Obligation. intros e run r. simpl. unfold mem_UpdateAgentRun. by case_match. Qed.
Next Obligation. done. Qed.
Next Obligation. intros e c r. simpl. unfold mem_CreateAgentToolCall. by case_match. Qed.
Next Obligation. intros e c r. simpl. unfold mem_CompleteAgentToolCall. by case_match. Qed.

(** A completion changes nothing, or the one job, assigned to the worker. *)
Lemma CompleteJob_shape e w id out success r :
  (mem_CompleteJob e w id out success r).2 = r ∨
  ∃ j j', mem_jobs r !! id = Some j ∧ Job.AssignedWorkerID j = w ∧
    Job.AssignedWorkerID j' = w ∧
    (mem_CompleteJob e w id out success r).2 =
      r <| store := (store r) <| Scheduler.jobs := <[id := j']> (mem_jobs r) |> |>.
Proof.
  unfold mem_CompleteJob, on_store, Scheduler.CompleteJob, mem_jobs.
  destruct (Scheduler.jobs (store r) !! id) as [j|] eqn:Hj; [|left; by destruct r].
  case_decide as Hw; [left; by destruct r|]. right. eexists j, _.
  split; [done|]. split; [done|]. split; [|done]. done.
Qed.

(** ** Idempotent creation *)

(** C17: creating a job again under the same non-empty key returns what the
    first call returned and changes nothing, whatever the rest of the second
    request. *)
Theorem create_job_idempotent (e e' : Reading) (job job' : Job.t) (r : MemoryRepository) :
  Job.IdempotencyKey job ≠ "" → Job.IdempotencyKey job' = Job.IdempotencyKey job →
  let '(res, r1) := mem_CreateJob e job r in
  mem_CreateJob e' job' r1 = (res, r1).
Proof.
  intros Hkey Hsame. unfold mem_CreateJob.
  destruct (idempotent_job (Job.IdempotencyKey job) r) as [id|] eqn:Hid.
  - by rewrite Hsame, Hid.
  - unfold create_job, on_store.
    destruct (Scheduler.CreateJobWithOptions _ _ _ _ _ (store r)) as [j s] eqn:Hc.
    apply SchedulerFacts.CreateJobWithOptions_spec in Hc as (Hjobs & Hjid & _).
    rewrite Hsame. unfold record_key. rewrite decide_False by done.
    unfold idempotent_job. rewrite decide_False by done.
    assert (Job.ID j ≠ "") as Hne by (rewrite Hjid; apply make_id_not_empty).
    assert (jobIdempotency (r <| store := s |> <| jobIdempotency :=
      <[Job.IdempotencyKey job := Job.ID j]> (jobIdempotency (r <| store := s |>)) |>)
      !! Job.IdempotencyKey job = Some (Job.ID j)) as -> by apply lookup_insert_eq.
    cbn [default]. rewrite decide_False by done.
    unfold mem_GetJob, Scheduler.GetJob.
    change (store (r <| store := s |> <| jobIdempotency := _ |>)) with s.
    by rewrite Hjobs, lookup_insert_eq.
Qed.

Definition reading (t : time) : Reading := mkReading t t iter_default.
Definition keyed_job : Job.t :=
  Job.zero <| Job.Name := "restart" |> <| Job.WorkerType := "shell" |>
           <| Job.IdempotencyKey := "run-000001:call-1:worker-000001" |>.

Lemma create_job_idempotent_witness :
  let r1 := (mem_CreateJob (reading 1) keyed_job NewMemoryRepository).2 in
  let res := (mem_CreateJob (reading 1) keyed_job NewMemoryRepository).1 in
  mem_CreateJob (reading 2) keyed_job r1 = (res, r1).
Proof.
  pose proof (create_job_idempotent (reading 1) (reading 2) keyed_job keyed_job
    NewMemoryRepository ltac:(done) eq_refl) as H.
  by destruct (mem_CreateJob (reading 1) keyed_job NewMemoryRepository) as [res r1].
Defined.

(** The lock is released between the lookup of the key and the creation: two
    calls that both look the key up first create two jobs. *)
Example concurrent_create_job :
  let r := NewMemoryRepository in
  let key := Job.IdempotencyKey keyed_job in
  idempotent_job key r = None ∧
  let '(j1, r1) := create_job (reading 1) keyed_job r in
  let '(j2, r2) := create_job (reading 1) keyed_job r1 in
  let r3 := record_key key (Job.ID j2) (record_key key (Job.ID j1) r2) in
  size (mem_jobs r3) = 2.
Proof. vm_compute. done. Qed.

(** ** The events of an agent run *)

(** Events are kept in the order of their identifiers, below the counter. *)
Definition events_ok (r : MemoryRepository) : Prop :=
  (0 ≤ agentEventSeq r)%Z ∧
  ∀ run, StronglySorted (λ x y, AgentEvent.ID x < AgentEvent.ID y)%Z (list_get (agentEvents r) run) ∧
    Forall (λ x, AgentEvent.ID x ≤ agentEventSeq r)%Z (list_get (agentEvents r) run).

Lemma events_ok_initial : events_ok NewMemoryRepository.
Proof. split; [done|]. intros run. split; constructor. Qed.

Lemma list_get_insert {A} (m : gmap string (list A)) k l k' :
  list_get (<[k := l]> m) k' = if decide (k = k') then l else list_get m k'.
Proof. unfold list_get. case_decide; simplify_map_eq; done. Qed.

Lemma events_ok_add e ev r :
  events_ok r → (agentEventSeq r < int64_max)%Z → events_ok (mem_AddAgentEvent e ev r).2.
Proof.
  intros [Hseq Hok] Hlt. unfold mem_AddAgentEvent. simpl.
  assert (i64_add (agentEventSeq r) 1 = agentEventSeq r + 1)%Z as Heq.
  { apply i64_add_small. unfold int64_min, int64_max in *. lia. }
  split; simpl; [rewrite Heq; lia|]. intros run. rewrite list_get_insert. simpl.
  destruct (Hok run) as [Hs Hb].
  assert (Forall (λ x, AgentEvent.ID x ≤ i64_add (agentEventSeq r) 1)%Z
    (list_get (agentEvents r) run)) as Hb'.
  { apply (Forall_impl _ _ _ Hb). simpl. lia. }
  case_decide as Hrun; [|by split]. rewrite Hrun. split.
  - apply StronglySorted_snoc; [done|]. apply (Forall_impl _ _ _ Hb). simpl. lia.
  - apply Forall_app. split; [done|]. constructor; [simpl; lia|done].
Qed.

Lemma filter_sorted_suffix l l1 x l2 a :
  StronglySorted (λ x y, AgentEvent.ID x < AgentEvent.ID y)%Z l →
  filter (λ ev, a < AgentEvent.ID ev)%Z l = l1 ++ x :: l2 →
  filter (λ ev, AgentEvent.ID x < AgentEvent.ID ev)%Z l = l2.
Proof.
  intros Hs Heq.
  assert (StronglySorted (λ x y, AgentEvent.ID x < AgentEvent.ID y)%Z (l1 ++ x :: l2)) as Hs'.
  { rewrite <-Heq. by apply StronglySorted_filter. }
  apply StronglySorted_app in Hs' as (_ & [_ Hx]%StronglySorted_inv & Hl1).
  assert (a < AgentEvent.ID x)%Z as Ha.
  { assert (x ∈ filter (λ ev, a < AgentEvent.ID ev)%Z l) as [? _]%list_elem_of_filter; [|done].
    rewrite Heq. set_solver. }
  transitivity (filter (λ ev, AgentEvent.ID x < AgentEvent.ID ev)%Z
    (filter (λ ev, a < AgentEvent.ID ev)%Z l)).
  { rewrite list_filter_filter. apply list_filter_iff. lia. }
  rewrite Heq, filter_app, filter_cons, decide_False by lia.
  rewrite filter_none, filter_all; [done|done|].
  apply Forall_forall. intros y Hy. specialize (Hl1 y x Hy ltac:(set_solver)). simpl in *. lia.
Qed.

(** Events are numbered in the order they are added, and a reader that asks
    for the events after the last one it has seen gets exactly the ones that
    follow it, none twice and none skipped. *)
Theorem agent_events_resume (e : Reading) (ev : AgentEvent.t) (r : MemoryRepository) :
  events_ok r → (agentEventSeq r < int64_max)%Z →
  let r' := (mem_AddAgentEvent e ev r).2 in
  events_ok r' ∧
  ∀ run after l1 x l2,
    mem_ListAgentEvents run after r' = Ok (l1 ++ x :: l2) →
    mem_ListAgentEvents run (AgentEvent.ID x) r' = Ok l2.
Proof.
  intros Hok Hlt r'. pose proof (events_ok_add e ev r Hok Hlt) as Hok'. split; [done|].
  fold r' in Hok'. clearbody r'. unfold mem_ListAgentEvents. intros run after l1 x l2 [= Heq].
  f_equal. eapply filter_sorted_suffix; [|exact Heq]. apply Hok'.
Qed.

Lemma agent_events_resume_witness :
  let ev n := AgentEvent.zero <| AgentEvent.RunID := "run-000001" |> <| AgentEvent.Step := n |> in
  let r := (mem_AddAgentEvent (reading 1) (ev 1%Z) NewMemoryRepository).2 in
  let r' := (mem_AddAgentEvent (reading 2) (ev 2%Z) r).2 in
  events_ok r' ∧
  AgentEvent.Step <$> match mem_ListAgentEvents "run-000001" 1 r' with Ok l => l | Err _ => [] end
    = [2%Z].
Proof.
  intros ev r r'. split; [|vm_compute; reflexivity].
  apply (agent_events_resume (reading 2) (ev 2%Z) r); [|vm_compute; reflexivity].
  by apply events_ok_add; [apply events_ok_initial|].
Defined.

(** ** Managed configurations *)
Definition no_slash (s : string) : Prop :=
  all_chars (λ d, negb (bool_decide (d = "/"%char))) s = true.

Lemma managedConfigKey_inj k1 i1 k2 i2 :
  no_slash k1 → no_slash k2 → managedConfigKey k1 i1 = managedConfigKey k2 i2 →
  k1 = k2 ∧ i1 = i2.
Proof. apply string_app_cut_inj. Qed.

(** A saved configuration is read back under its kind and identifier, with
    the time of its first creation kept; saving or deleting it leaves every
    other configuration alone. Kinds have no slash. *)
Theorem managed_config_roundtrip (e : Reading) (c : ManagedConfig.t) (r : MemoryRepository) :
  no_slash (ManagedConfig.Kind c) →
  let '(res, r1) := mem_SaveManagedConfig e c r in
  ∃ c', res = Ok c' ∧
    mem_GetManagedConfig (ManagedConfig.Kind c) (ManagedConfig.ID c') r1 = Ok c' ∧
    ManagedConfig.YAMLContent c' = ManagedConfig.YAMLContent c ∧
    (ManagedConfig.CreatedAt c ≠ time_zero →
       ManagedConfig.CreatedAt c' = ManagedConfig.CreatedAt c) ∧
    let r2 := (mem_DeleteManagedConfig e (ManagedConfig.Kind c) (ManagedConfig.ID c') r1).2 in
    is_ok (mem_GetManagedConfig (ManagedConfig.Kind c) (ManagedConfig.ID c') r2) = false ∧
    ∀ kind id, no_slash kind → (kind, id) ≠ (ManagedConfig.Kind c, ManagedConfig.ID c') →
      mem_GetManagedConfig kind id r1 = mem_GetManagedConfig kind id r ∧
      mem_GetManagedConfig kind id r2 = mem_GetManagedConfig kind id r.
Proof.
  intros Hkind. unfold mem_SaveManagedConfig.
  set (c1 := if decide (ManagedConfig.ID c = "") then _ else c).
  set (c2 := if decide (ManagedConfig.CreatedAt c1 = time_zero) then _ else c1).
  assert (ManagedConfig.Kind c2 = ManagedConfig.Kind c ∧
          ManagedConfig.YAMLContent c2 = ManagedConfig.YAMLContent c ∧
          (ManagedConfig.CreatedAt c ≠ time_zero →
             ManagedConfig.CreatedAt c2 = ManagedConfig.CreatedAt c)) as (Hk & Hy & Hc).
  { subst c2 c1. destruct (decide (ManagedConfig.ID c = "")); simpl; case_decide; done. }
  clearbody c2. clear c1. eexists. split; [done|]. simpl. rewrite Hk.
  set (key := managedConfigKey (ManagedConfig.Kind c) (ManagedConfig.ID c2)).
  unfold mem_GetManagedConfig, mem_DeleteManagedConfig. fold key. simpl.
  rewrite lookup_insert_eq. simpl. split_and!; [done..| |].
  - by rewrite lookup_delete_eq.
  - intros kind id Hns Hne.
    assert (key ≠ managedConfigKey kind id) as Hkey.
    { intros Heq%managedConfigKey_inj; [|done..]. destruct Heq. congruence. }
    by rewrite lookup_delete_ne, lookup_insert_ne by done.
Qed.

Lemma managed_config_roundtrip_witness :
  let c := ManagedConfig.mk "default" "policies" "Default" "version: 1" true time_zero time_zero in
  let r1 := (mem_SaveManagedConfig (reading 5) c NewMemoryRepository).2 in
  ∃ c', mem_GetManagedConfig "policies" "default" r1 = Ok c' ∧
        ManagedConfig.YAMLContent c' = "version: 1".
Proof.
  intros c r1.
  destruct (managed_config_roundtrip (reading 5) c NewMemoryRepository eq_refl)
    as (c' & Hres & Hget & Hy & _).
  exists c'. split; [|exact Hy]. vm_compute in Hres. injection Hres as <-. exact Hget.
Defined.

(** Identifiers made from the number of configurations collide after a
    deletion: the third configuration overwrites the second one. *)
Example managed_config_id_collision :
  let cfg name := ManagedConfig.mk "" "templates" name "" true time_zero time_zero in
  let e := reading 1 in
  let r := (mem_SaveManagedConfig e (cfg "a") NewMemoryRepository).2 in
  let r := (mem_SaveManagedConfig e (cfg "b") r).2 in
  let r := (mem_DeleteManagedConfig e "templates" "cfg-1" r).2 in
  let r := (mem_SaveManagedConfig e (cfg "c") r).2 in
  ManagedConfig.Name <$> (managedConfigs r !! "templates/cfg-2") = Some "c" ∧
  size (managedConfigs r) = 1.
Proof. vm_compute. done. Qed.

(** A deletion is reported, and the job stays. *)
Example deleted_job_stays :
  let r := (mem_CreateJob (reading 1) keyed_job NewMemoryRepository).2 in
  mem_DeleteJob (reading 2) "job-000001" r = (Ok tt, r) ∧
  is_ok (mem_GetJob "job-000001" r) = true.
Proof. vm_compute. done. Qed.

(** The host facts of a heartbeat are returned, and not recorded. *)
Example heartbeat_facts_lost :
  let r := (mem_RegisterWorker (reading 1) "w" "shell" NewMemoryRepository).2 in
  let info := HostInfo.mk "db1" "10.0.0.1" float_zero float_zero in
  let '(res, r) := mem_HeartbeatWorker (reading 2) "worker-000001" (Some info) r in
  (match res with Ok w => Worker.HostInfo w = info | Err _ => False end) ∧
  (match mem_GetWorker (reading 3) "worker-000001" r with
   | Ok w => Worker.HostInfo w = HostInfo.zero
   | Err _ => False
   end).
Proof. vm_compute. done. Qed.

End MemoryRepoFacts.
