(* ===== verification/Hub.v ===== *)
(** * The worker stream hub ([internal/infrastructure/workerstream/hub.go])

    One buffered channel per connected worker. A Go channel has an identity:
    it is an index into a heap of channels, each with its buffer and whether
    it is closed. Sending on a closed channel, or closing one twice, panics. *)
From S2P Require Import Prelude.
From S2P Require Import GoStrings.
From S2P Require Import Model.

Module Hub.

(** ** Messages ([api/proto/adp/v1/worker.proto]) *)
Module ProtoJob.
Record t := mk {
  Id : string;
  Name : string;
  WorkerType : string;
  Command : string;
  TemplateCode : string;
  Parameters : StringMap;
  SourceType : string;
}.
End ProtoJob.

Inductive ServerEnvelope :=
  | ServerEnvelope_Registered (workerID name workerType : string)
  | ServerEnvelope_Job (job : ProtoJob.t)
  | ServerEnvelope_Command (command : string).

Definition cloneStringMap (m : StringMap) : StringMap :=
  match m with
  | None => None
  | Some m => if decide (m = ∅) then None else Some m
  end.

Definition jobToProto (job : Job.t) : ProtoJob.t :=
  ProtoJob.mk (Job.ID job) (Job.Name job) (Job.WorkerType job) (Job.Command job)
    (Job.TemplateCode job) (cloneStringMap (Job.Parameters job)) (Job.SourceType job).

(** ** State *)
Record chan := mkChan { buffer : list ServerEnvelope; closed : bool }.
#[global] Instance chan_eta : Eta chan := λ c, mkChan (buffer c) (closed c).

Record t := mk {
  workers : gmap string nat;     (* worker to the identity of its channel *)
  chans : list chan;             (* the channels made so far *)
}.
#[global] Instance t_eta : Eta t := λ h, mk (workers h) (chans h).

Definition capacity : nat := 32.
Definition NewHub : t := mk ∅ [].

(** ** Operations; [None] is a panic. *)
Definition close (ch : nat) (h : t) : option t :=
  c ← chans h !! ch;
  if closed c then None
  else Some (h <| chans := <[ch := c <| closed := true |>]> (chans h) |>).

Definition register (workerID : string) (h : t) : option (nat * t) :=
  let ch := length (chans h) in
  let h := h <| chans := chans h ++ [mkChan [] false] |> in
  h ← match workers h !! workerID with
      | Some old => close old h
      | None => Some h
      end;
  Some (ch, h <| workers := <[workerID := ch]> (workers h) |>).

Definition unregister (workerID : string) (ch : nat) (h : t) : option t :=
  match workers h !! workerID with
  | Some current =>
      if decide (current = ch) then
        close ch (h <| workers := delete workerID (workers h) |>)
      else Some h
  | None => Some h
  end.

(** The [select] with a default case: a full buffer drops the message. *)
Definition push (workerID : string) (msg : ServerEnvelope) (h : t) : option (bool * t) :=
  match workers h !! workerID with
  | None => Some (false, h)
  | Some ch =>
      c ← chans h !! ch;
      if closed c then None
      else if decide (length (buffer c) < capacity) then
        Some (true, h <| chans := <[ch := c <| buffer := buffer c ++ [msg] |>]> (chans h) |>)
      else Some (false, h)
  end.

Definition PushJob (workerID : string) (job : Job.t) : t → option (bool * t) :=
  push workerID (ServerEnvelope_Job (jobToProto job)).
Definition PushCommand (workerID command : string) : t → option (bool * t) :=
  push workerID (ServerEnvelope_Command command).
Definition IsConnected (workerID : string) (h : t) : bool := bool_decide (is_Some (workers h !! workerID)).

(** What a stream receives from its channel: the oldest message, the end of a
    closed and drained channel, or nothing yet. *)
Inductive received := RecvMsg (m : ServerEnvelope) | RecvClosed | RecvBlock.
Definition receive (ch : nat) (h : t) : received * t :=
  match chans h !! ch with
  | None => (RecvBlock, h)
  | Some c =>
      match buffer c with
      | m :: rest => (RecvMsg m, h <| chans := <[ch := c <| buffer := rest |>]> (chans h) |>)
      | [] => (if closed c then RecvClosed else RecvBlock, h)
      end
  end.

Definition ConnectedWorkers (it : MapIter) (h : t) : list string := (range_map it (workers h)).*1.

(** ** The invariant: connected workers have distinct, open channels, and no
    buffer holds more than its capacity. *)
Record wf (h : t) : Prop := {
  wf_open w ch : workers h !! w = Some ch → ∃ c, chans h !! ch = Some c ∧ closed c = false;
  wf_inj w w' ch : workers h !! w = Some ch → workers h !! w' = Some ch → w = w';
  wf_capacity ch c : chans h !! ch = Some c → length (buffer c) ≤ capacity;
}.

Lemma wf_NewHub : wf NewHub.
Proof. by split. Qed.

Lemma close_Some ch h c :
  chans h !! ch = Some c → closed c = false →
  close ch h = Some (h <| chans := <[ch := c <| closed := true |>]> (chans h) |>).
Proof. intros Hc Ho. unfold close. by rewrite Hc; simpl; rewrite Ho. Qed.

(** Channels other than the closed one keep their state. *)
Lemma wf_set_chan h ch c c' :
  wf h → chans h !! ch = Some c → length (buffer c') ≤ capacity →
  (closed c' = closed c ∨ ∀ w, workers h !! w ≠ Some ch) →
  wf (h <| chans := <[ch := c']> (chans h) |>).
Proof.
  intros [H1 H2 H3] Hc Hlen Ho. pose proof (lookup_lt_Some _ _ _ Hc) as Hlt. split; simpl; auto.
  - intros w ch' Hw. destruct (decide (ch = ch')) as [<-|Hne].
    + destruct Ho as [Ho|Ho]; [|by destruct (Ho w)]. destruct (H1 w ch Hw) as (c0 & Hc0 & Hop).
      exists c'. rewrite list_lookup_insert_eq by done. split; [done|]. congruence.
    + rewrite list_lookup_insert_ne by done. by apply (H1 w).
  - intros ch' c0. destruct (decide (ch = ch')) as [<-|Hne].
    + rewrite list_lookup_insert_eq by done. by intros [= <-].
    + rewrite list_lookup_insert_ne by done. apply H3.
Qed.

Lemma wf_delete h w : wf h → wf (h <| workers := delete w (workers h) |>).
Proof.
  intros [H1 H2 H3]. split; simpl; auto.
  - intros w' ch [_ ?]%lookup_delete_Some. by eapply H1.
  - intros w1 w2 ch [_ ?]%lookup_delete_Some [_ ?]%lookup_delete_Some. by eapply H2.
Qed.

Lemma wf_alloc h : wf h → wf (h <| chans := chans h ++ [mkChan [] false] |>).
Proof.
  intros [H1 H2 H3]. split; simpl; auto.
  - intros w ch Hw. destruct (H1 w ch Hw) as (c & Hc & Ho). exists c.
    by rewrite (lookup_app_l_Some _ _ _ _ Hc).
  - intros ch c [Hc|[_ Hc]]%lookup_app_Some; [by eapply H3|].
    apply list_lookup_singleton_Some in Hc as [_ <-]. simpl. unfold capacity. lia.
Qed.

(** Registering closes the previous channel of the worker, if any, and gives
    it a new, empty and open one. *)
Lemma register_spec w h :
  wf h → ∃ h', register w h = Some (length (chans h), h') ∧ wf h' ∧
    workers h' = <[w := length (chans h)]> (workers h) ∧
    chans h' !! length (chans h) = Some (mkChan [] false).
Proof.
  intros Hwf. unfold register. simpl. pose proof (wf_alloc h Hwf) as Hwf1.
  set (h1 := h <| chans := chans h ++ [mkChan [] false] |>) in *.
  assert (∀ w' ch, workers h !! w' = Some ch → ch < length (chans h)) as Hlt.
  { intros w' ch Hw'. destruct (wf_open h Hwf _ _ Hw') as (c & Hc & _). by eapply lookup_lt_Some. }
  assert (chans h1 !! length (chans h) = Some (mkChan [] false)) as Hnew.
  { unfold h1. simpl. by rewrite lookup_app_r, Nat.sub_diag by lia. }
  assert (∀ h2, wf h2 → workers h2 = delete w (workers h) →
    chans h2 !! length (chans h) = Some (mkChan [] false) →
    wf (h2 <| workers := <[w := length (chans h)]> (workers h) |>)) as Hput.
  { intros h2 [K1 K2 K3] Hws Hc2. rewrite Hws in K1, K2. split; simpl; [| |exact K3].
    - intros w' ch [[<- <-]|[Hne Hw']]%lookup_insert_Some; [by eexists|].
      apply (K1 w'). by rewrite lookup_delete_ne.
    - intros w1 w2 ch [[<- <-]|[Hn1 Hw1]]%lookup_insert_Some
        [[<- Hc]|[Hn2 Hw2]]%lookup_insert_Some; [done| | |].
      + apply Hlt in Hw2. lia.
      + subst. apply Hlt in Hw1. lia.
      + apply (K2 w1 w2 ch); by rewrite lookup_delete_ne. }
  destruct (workers h !! w) as [old|] eqn:Hw.
  - destruct (wf_open _ Hwf1 w old Hw) as (c & Hc & Ho).
    rewrite (close_Some old h1 c) by done. simpl. eexists. split; [done|].
    set (h2 := h1 <| workers := delete w (workers h1) |>).
    assert (wf (h2 <| chans := <[old := c <| closed := true |>]> (chans h1) |>)) as Hwf2.
    { apply (wf_set_chan h2 old c); [by apply wf_delete|done|exact (wf_capacity _ Hwf1 old c Hc)|].
      right. intros w' Hw'. apply (lookup_delete_Some (workers h)) in Hw' as [Hne Hw'].
      apply Hne. by eapply (wf_inj h Hwf). }
    assert ((<[old := c <| closed := true |>]> (chans h1)) !! length (chans h)
      = Some (mkChan [] false)) as Hnew2.
    { rewrite list_lookup_insert_ne; [done|]. apply Hlt in Hw. lia. }
    split; [|by split]. apply (Hput _ Hwf2); done.
  - simpl. eexists. split; [done|]. split; [|by split].
    apply (Hput h1 Hwf1); [|done]. simpl. by rewrite delete_id.
Qed.

Lemma unregister_spec w ch h :
  wf h → ∃ h', unregister w ch h = Some h' ∧ wf h' ∧
    workers h' = (if decide (workers h !! w = Some ch) then delete w (workers h) else workers h).
Proof.
  intros Hwf. unfold unregister. destruct (workers h !! w) as [current|] eqn:Hw;
    [|by exists h; rewrite decide_False].
  destruct (decide (current = ch)) as [->|Hne].
  - destruct (wf_open h Hwf w ch Hw) as (c & Hc & Ho).
    rewrite (close_Some ch _ c) by done. eexists. split; [done|].
    rewrite decide_True by done. split; [|done].
    apply (wf_set_chan (h <| workers := delete w (workers h) |>) ch c); [by apply wf_delete|done| |].
    + exact (wf_capacity h Hwf ch c Hc).
    + right. intros w' Hw'. apply (lookup_delete_Some (workers h)) in Hw' as [Hne Hw'].
      apply Hne. by eapply (wf_inj h Hwf).
  - exists h. rewrite decide_False by congruence. done.
Qed.

Lemma push_connected w msg h ch c :
  wf h → workers h !! w = Some ch → chans h !! ch = Some c →
  push w msg h =
    if decide (length (buffer c) < capacity) then
      Some (true, h <| chans := <[ch := c <| buffer := buffer c ++ [msg] |>]> (chans h) |>)
    else Some (false, h).
Proof.
  intros Hwf Hw Hc. unfold push. rewrite Hw, Hc. simpl.
  destruct (wf_open h Hwf w ch Hw) as (c' & Hc' & Ho). simplify_eq. by rewrite Ho.
Qed.

Lemma push_spec w msg h :
  wf h → ∃ b h', push w msg h = Some (b, h') ∧ wf h' ∧ workers h' = workers h ∧
    (b = false → h' = h).
Proof.
  intros Hwf. destruct (workers h !! w) as [ch|] eqn:Hw.
  - destruct (wf_open h Hwf w ch Hw) as (c & Hc & Ho).
    rewrite (push_connected w msg h ch c) by done. case_decide; [|by exists false, h].
    eexists true, _. split; [done|]. split; [|done].
    apply (wf_set_chan h ch c); [done|done| |by left]. simpl. rewrite length_app. simpl. lia.
  - exists false, h. unfold push. by rewrite Hw.
Qed.

Lemma wf_receive ch h : wf h → wf (receive ch h).2.
Proof.
  intros Hwf. unfold receive. destruct (chans h !! ch) as [c|] eqn:Hc; [|done].
  destruct (buffer c) as [|m rest] eqn:Hb; [done|].
  apply (wf_set_chan h ch c); [done|done| |by left].
  simpl. pose proof (wf_capacity h Hwf ch c Hc) as H. rewrite Hb in H. simpl in H. lia.
Qed.

(** *** Where messages come from *)
Definition messages_of (h : t) (ch : nat) : list ServerEnvelope :=
  default [] (buffer <$> (chans h !! ch)).

Lemma messages_set_chan h ch c c' :
  chans h !! ch = Some c → buffer c' = buffer c → ∀ ch',
  messages_of (h <| chans := <[ch := c']> (chans h) |>) ch' = messages_of h ch'.
Proof.
  intros Hc Hb ch'. unfold messages_of. simpl. destruct (decide (ch = ch')) as [<-|Hne].
  - rewrite list_lookup_insert_eq by (by eapply lookup_lt_Some). rewrite Hc. simpl. congruence.
  - by rewrite list_lookup_insert_ne.
Qed.

Lemma messages_close ch h h' ch' : close ch h = Some h' → messages_of h' ch' = messages_of h ch'.
Proof.
  unfold close. destruct (chans h !! ch) as [c|] eqn:Hc; simpl; [|done].
  destruct (closed c); [done|]. intros [= <-]. by eapply messages_set_chan.
Qed.

Lemma messages_register w h n h' ch :
  register w h = Some (n, h') → messages_of h' ch = messages_of h ch.
Proof.
  unfold register. simpl. set (h1 := h <| chans := _ |>).
  assert (messages_of h1 ch = messages_of h ch) as Hh1.
  { unfold messages_of, h1. simpl. destruct (decide (ch < length (chans h))).
    - by rewrite lookup_app_l.
    - rewrite lookup_app_r, (lookup_ge_None_2 (chans h)) by lia.
      destruct (ch - length (chans h)) as [|m]; [done|]. by destruct m. }
  destruct (workers h !! w) as [old|].
  - destruct (close old h1) as [h2|] eqn:Hc; simpl; [|done]. intros [= _ <-].
    change (messages_of (h2 <| workers := _ |>) ch) with (messages_of h2 ch).
    by rewrite (messages_close old h1 h2).
  - simpl. intros [= _ <-]. done.
Qed.

Lemma messages_unregister w n h h' ch :
  unregister w n h = Some h' → messages_of h' ch = messages_of h ch.
Proof.
  unfold unregister. destruct (workers h !! w); [|by intros [= <-]].
  case_decide; [|by intros [= <-]]. intros Hc. by apply (messages_close _ _ _ ch) in Hc.
Qed.

Lemma messages_receive n h ch m : m ∈ messages_of (receive n h).2 ch → m ∈ messages_of h ch.
Proof.
  unfold receive. destruct (chans h !! n) as [c|] eqn:Hc; [|done].
  destruct (buffer c) as [|m' rest] eqn:Hb; [done|]. unfold messages_of. simpl.
  destruct (decide (n = ch)) as [<-|Hne]; [|by rewrite list_lookup_insert_ne].
  rewrite list_lookup_insert_eq by (by eapply lookup_lt_Some). rewrite Hc. simpl. rewrite Hb.
  by right.
Qed.

Lemma messages_push w msg h b h' ch m :
  push w msg h = Some (b, h') → m ∈ messages_of h' ch →
  m ∈ messages_of h ch ∨ m = msg ∧ workers h !! w = Some ch.
Proof.
  unfold push. destruct (workers h !! w) as [n|]; [|intros [= _ <-]; by left].
  destruct (chans h !! n) as [c|] eqn:Hc; simpl; [|done]. destruct (closed c); [done|].
  case_decide; intros [= _ <-]; [|by left]. unfold messages_of. simpl.
  destruct (decide (n = ch)) as [<-|Hne]; [|rewrite list_lookup_insert_ne by done; by left].
  rewrite list_lookup_insert_eq by (by eapply lookup_lt_Some). rewrite Hc. simpl.
  rewrite elem_of_app, list_elem_of_singleton. intros [?|?]; [by left|by right].
Qed.

(** ** Interleavings *)
Inductive op :=
  | OpRegister (w : string)
  | OpUnregister (w : string) (ch : nat)
  | OpPush (w : string) (msg : ServerEnvelope)
  | OpReceive (ch : nat).

Definition run_op (o : op) (h : t) : option t :=
  match o with
  | OpRegister w => snd <$> register w h
  | OpUnregister w ch => unregister w ch h
  | OpPush w msg => snd <$> push w msg h
  | OpReceive ch => Some (receive ch h).2
  end.

Fixpoint run (ops : list op) (h : t) : option t :=
  match ops with [] => Some h | o :: ops => h ← run_op o h; run ops h end.

Lemma run_op_wf o h : wf h → ∃ h', run_op o h = Some h' ∧ wf h'.
Proof.
  intros Hwf. destruct o as [w|w ch|w msg|ch]; simpl.
  - destruct (register_spec w h Hwf) as (h' & -> & ? & _). by exists h'.
  - destruct (unregister_spec w ch h Hwf) as (h' & -> & ? & _). by exists h'.
  - destruct (push_spec w msg h Hwf) as (b & h' & -> & ? & _). by exists h'.
  - eexists. split; [done|]. by apply wf_receive.
Qed.

(** ** Properties *)

(** C16: no interleaving of registrations, departures (also of streams that were
    replaced, or repeated ones), pushes and receptions makes the hub panic:
    it never sends on or closes a closed channel, connected workers have
    distinct open channels, and no buffer exceeds its capacity. *)
Theorem hub_never_panics (ops : list op) : ∃ h, run ops NewHub = Some h ∧ wf h.
Proof.
  pose proof wf_NewHub as Hwf. revert Hwf. generalize NewHub.
  induction ops as [|o ops IH]; intros h Hwf; simpl; [by exists h|].
  destruct (run_op_wf o h Hwf) as (h' & -> & Hwf'). simpl. by apply IH.
Qed.

(** The messages a stream receives when it drains its channel. *)
Fixpoint drain (n : nat) (ch : nat) (h : t) : list ServerEnvelope * t :=
  match n with
  | O => ([], h)
  | S n =>
      match receive ch h with
      | (RecvMsg m, h) => let '(ms, h) := drain n ch h in (m :: ms, h)
      | (_, h) => ([], h)
      end
  end.

(** Pushing messages in turn; the ones that are accepted. *)
Fixpoint push_all (w : string) (msgs : list ServerEnvelope) (h : t)
    : option (list ServerEnvelope * t) :=
  match msgs with
  | [] => Some ([], h)
  | m :: msgs =>
      '(b, h) ← push w m h;
      '(acc, h) ← push_all w msgs h;
      Some (if b : bool then m :: acc else acc, h)
  end.

Lemma push_all_spec w ch msgs h c :
  wf h → workers h !! w = Some ch → chans h !! ch = Some c →
  ∃ h', push_all w msgs h = Some (take (capacity - length (buffer c)) msgs, h') ∧
    chans h' !! ch =
      Some (c <| buffer := buffer c ++ take (capacity - length (buffer c)) msgs |>).
Proof.
  revert h c. induction msgs as [|m msgs IH]; intros h c Hwf Hw Hc; cbn [push_all].
  - exists h. rewrite take_nil, app_nil_r. split; [done|]. by destruct c.
  - rewrite (push_connected w m h ch c) by done. pose proof (wf_capacity h Hwf ch c Hc) as Hcap.
    case_decide as Hlt; simpl.
    + set (h1 := h <| chans := <[ch := c <| buffer := buffer c ++ [m] |>]> (chans h) |>).
      assert (chans h1 !! ch = Some (c <| buffer := buffer c ++ [m] |>)) as Hc1.
      { apply list_lookup_insert_eq. by eapply lookup_lt_Some. }
      assert (wf h1) as Hwf1.
      { apply (wf_set_chan h ch c); [done|done| |by left]. simpl. rewrite length_app. simpl. lia. }
      destruct (IH h1 _ Hwf1 Hw Hc1) as (h2 & -> & Hc2). simpl in *.
      rewrite length_app in *. simpl in *. exists h2.
      replace (capacity - length (buffer c)) with (S (capacity - (length (buffer c) + 1))) by lia.
      split; [done|]. rewrite Hc2. simpl. by rewrite <-app_assoc.
    + destruct (IH h c Hwf Hw Hc) as (h2 & -> & Hc2). simpl. exists h2.
      replace (capacity - length (buffer c)) with 0 in * by lia. done.
Qed.

Lemma drain_spec ch h c :
  chans h !! ch = Some c → (drain (length (buffer c)) ch h).1 = buffer c.
Proof.
  remember (buffer c) as l eqn:Hl. revert h c Hl.
  induction l as [|m l IH]; intros h c Hl Hc; [done|]. cbn [drain length].
  unfold receive. rewrite Hc, <-Hl.
  set (h1 := h <| chans := <[ch := c <| buffer := l |>]> (chans h) |>).
  assert (chans h1 !! ch = Some (c <| buffer := l |>)) as Hc1.
  { apply list_lookup_insert_eq. by eapply lookup_lt_Some. }
  specialize (IH h1 (c <| buffer := l |>) eq_refl Hc1). destruct (drain (length l) ch h1) as [ms h2].
  simpl in *. by rewrite IH.
Qed.

(** A worker that has just registered receives, in the order they were
    pushed, the first 32 messages pushed to it before it reads any; the pushes
    beyond the capacity are refused and lost. The stream that was replaced
    finds its channel closed, and its departure leaves the new stream
    connected. *)
Theorem hub_fifo (w : string) (old : nat) (msgs : list ServerEnvelope) (h : t) :
  wf h → workers h !! w = Some old →
  ∃ ch h1 h2, register w h = Some (ch, h1) ∧
    push_all w msgs h1 = Some (take capacity msgs, h2) ∧
    (drain (length (take capacity msgs)) ch h2).1 = take capacity msgs ∧
    (closed <$> (chans h1 !! old)) = Some true ∧
    unregister w old h1 = Some h1 ∧ IsConnected w h1 = true.
Proof.
  intros Hwf Hold. destruct (register_spec w h Hwf) as (h1 & Hr & Hwf1 & Hws & Hc).
  assert (workers h1 !! w = Some (length (chans h))) as Hw1.
  { by rewrite Hws, lookup_insert_eq. }
  destruct (push_all_spec w _ msgs h1 _ Hwf1 Hw1 Hc) as (h2 & Hp & Hc2).
  change (capacity - length (buffer (mkChan [] false))) with capacity in *.
  change (buffer (mkChan [] false) ++ take capacity msgs) with (take capacity msgs) in Hc2.
  exists (length (chans h)), h1, h2. split; [done|]. split; [done|].
  pose proof (drain_spec _ _ _ Hc2) as Hd. simpl in Hd. split; [done|].
  destruct (wf_open h Hwf w old Hold) as (c & Hco & Ho).
  pose proof (lookup_lt_Some _ _ _ Hco) as Hlt.
  split_and!.
  - unfold register in Hr. simpl in Hr. rewrite Hold in Hr.
    rewrite (close_Some old _ c) in Hr; [|simpl; by rewrite lookup_app_l|done].
    simpl in Hr. injection Hr as <-. simpl.
    rewrite list_lookup_insert_eq by (rewrite length_app; simpl; lia). done.
  - unfold unregister. rewrite Hw1. by rewrite decide_False by lia.
  - unfold IsConnected. rewrite Hw1. by apply bool_decide_eq_true.
Qed.

Lemma hub_fifo_witness :
  let msgs := [ServerEnvelope_Command "stop"; ServerEnvelope_Command "restart"] in
  ∃ h1 h2, register "worker-000001" (mk {[ "worker-000001" := 0 ]} [mkChan [] false]) = Some (1, h1) ∧
    push_all "worker-000001" msgs h1 = Some (msgs, h2) ∧ (drain 2 1 h2).1 = msgs.
Proof.
  intros msgs. set (h := mk {[ "worker-000001" := 0 ]} [mkChan [] false]).
  assert (wf h) as Hwf.
  { split; simpl.
    - intros w ch [<- <-]%lookup_singleton_Some. by eexists.
    - by intros w w' ch [<- _]%lookup_singleton_Some [<- _]%lookup_singleton_Some.
    - intros ch c [_ <-]%list_lookup_singleton_Some. simpl. unfold capacity. lia. }
  destruct (hub_fifo "worker-000001" 0 msgs h Hwf) as (ch & h1 & h2 & Hr & Hp & Hd & _);
    [by apply lookup_singleton_Some|].
  exists h1, h2. assert (ch = 1) as ->.
  { vm_compute in Hr. by injection Hr as <- _. }
  done.
Defined.

End Hub.
