(* ===== verification/World.v ===== *)
(** * The state of the control plane

    The state the handlers share, the monad they are written in, and a small
    program logic for it. A computation may panic, which ends the handler and
    leaves the state as it was at that point; each reading of the clock or of
    the iteration order of a map takes the next entry of an oracle. *)
From S2P Require Import Prelude.
From S2P Require Import GoStrings.
From S2P Require Import Model.
From S2P Require Import Policy.
From S2P Require Import Modules.
From S2P Require Import Repository.
From S2P Require Import Hub.

Import Repository.

(** Computations that keep the invariant of the control plane, and those whose
    every operation does. *)
Create HintDb keeps discriminated.
Create HintDb neutral discriminated.

(** The readings that the surroundings supply, in the order they are taken. *)
Class Oracle := oracle : nat → Reading.

(** ** Agent metrics ([internal/interfaces/http/agent_metrics.go])

    Counters are int64 and durations int64 nanoseconds, which wrap around. *)
Module AgentMetrics.

Record Usage := mkUsage { PromptTokens : Z; CompletionTokens : Z; TotalTokens : Z }.

Record t := mk {
  runs : Z; successfulRuns : Z; toolCalls : Z; toolErrors : Z; policyRejections : Z; steps : Z;
  approvalWait : Z; modelLatency : Z; toolLatency : Z;
  approvals : Z; modelCalls : Z; toolLatencyCalls : Z;
  promptTokens : Z; completionTokens : Z; totalTokens : Z;
  inputTokenCostPer1K : float64; outputTokenCostPer1K : float64; tokenCostUSD : float64;
}.
#[global] Instance t_eta : Eta t := λ m,
  mk (runs m) (successfulRuns m) (toolCalls m) (toolErrors m) (policyRejections m) (steps m)
    (approvalWait m) (modelLatency m) (toolLatency m) (approvals m) (modelCalls m)
    (toolLatencyCalls m) (promptTokens m) (completionTokens m) (totalTokens m)
    (inputTokenCostPer1K m) (outputTokenCostPer1K m) (tokenCostUSD m).
Definition new (input output : float64) : t :=
  mk 0 0 0 0 0 0 0 0 0 0 0 0 0 0 0 input output float_zero.

Definition model (latency : Z) (usage : Usage) (m : t) : t :=
  let cost := float_add
    (float_mul (float_div (float_of_Z (PromptTokens usage)) (float_of_Z 1000)) (inputTokenCostPer1K m))
    (float_mul (float_div (float_of_Z (CompletionTokens usage)) (float_of_Z 1000))
      (outputTokenCostPer1K m)) in
  m <| modelCalls := i64_add (modelCalls m) 1 |>
    <| modelLatency := i64_add (modelLatency m) latency |>
    <| promptTokens := i64_add (promptTokens m) (PromptTokens usage) |>
    <| completionTokens := i64_add (completionTokens m) (CompletionTokens usage) |>
    <| totalTokens := i64_add (totalTokens m) (TotalTokens usage) |>
    <| tokenCostUSD := float_add (tokenCostUSD m) cost |>.

(** [err] is the text of the error of the call, if it failed. *)
Definition tool (latency : Z) (err : option string) (m : t) : t :=
  let m := m <| toolCalls := i64_add (toolCalls m) 1 |>
             <| toolLatencyCalls := i64_add (toolLatencyCalls m) 1 |>
             <| toolLatency := i64_add (toolLatency m) latency |> in
  match err with
  | None => m
  | Some e =>
      let m := m <| toolErrors := i64_add (toolErrors m) 1 |> in
      if contains e "template" || contains e "sensitive" || contains e "unauthorized"
      then m <| policyRejections := i64_add (policyRejections m) 1 |> else m
  end.

Definition complete (n : Z) (success : bool) (m : t) : t :=
  let m := m <| runs := i64_add (runs m) 1 |> <| steps := i64_add (steps m) n |> in
  if success then m <| successfulRuns := i64_add (successfulRuns m) 1 |> else m.

(** [time.Since(created)], read at [now]. *)
Definition approval (now created : time) (m : t) : t :=
  m <| approvals := i64_add (approvals m) 1 |>
    <| approvalWait := i64_add (approvalWait m) (time_sub now created) |>.

Definition dashboard (m : t) : list (string * float64) :=
  let per (n : float64) (count : Z) :=
    if (0 <? count)%Z then float_div n (float_of_Z count) else float_zero in
  [("run_success_rate", per (float_of_Z (successfulRuns m)) (runs m));
   ("tool_errors", float_of_Z (toolErrors m));
   ("policy_rejections", float_of_Z (policyRejections m));
   ("avg_steps", per (float_of_Z (steps m)) (runs m));
   ("approval_wait_seconds", per (duration_seconds (approvalWait m)) (approvals m));
   ("model_latency_seconds", per (duration_seconds (modelLatency m)) (modelCalls m));
   ("tool_latency_seconds", per (duration_seconds (toolLatency m)) (toolLatencyCalls m));
   ("total_tokens", float_of_Z (totalTokens m));
   ("token_cost_usd", tokenCostUSD m)].

End AgentMetrics.

(** ** Remote deployment ([internal/infrastructure/deploy/deploy.go]), requested only *)
Module Deploy.
Record Target := mkTarget {
  Host : string; Port : Z; User : string; Password : string; KeyFile : string;
}.
Record WorkerSpec := mkSpec {
  ServerURL : string; WorkerToken : string; WorkerName : string; WorkerType : string;
  LogToDB : bool;
}.
End Deploy.

(** ** The shared state *)
Module World.

(** What the server starts in a goroutine. *)
Inductive goroutine :=
  | ResumeInterrupted
  | ResumeRun (runID : string)
  | DeployWorker (target : Deploy.Target) (spec : Deploy.WorkerSpec) (localBinary : string).

Record t (R : Type) := mk {
  repo : R;
  hub : Hub.t;
  policyEng : Policy.Engine;
  moduleReg : Registry.t;
  templateEng : TemplateEngine.t;
  agentMetrics : AgentMetrics.t;
  spawned : list goroutine;   (* the goroutines started so far *)
  ticks : nat;                (* readings taken from the oracle *)
}.
Arguments mk {R}.
Arguments repo {R}.
Arguments hub {R}.
Arguments policyEng {R}.
Arguments moduleReg {R}.
Arguments templateEng {R}.
Arguments agentMetrics {R}.
Arguments spawned {R}.
Arguments ticks {R}.
#[global] Instance t_eta R : Eta (t R) := λ w,
  mk (repo w) (hub w) (policyEng w) (moduleReg w) (templateEng w) (agentMetrics w) (spawned w)
    (ticks w).

(** A computation is a program of atomic operations, each of which reads and
    changes the state and has a result; [None] is a panic, which ends the
    program. *)
Inductive M (R A : Type) : Type :=
  | Pure (a : A)
  | Atomic {X : Type} (f : t R → option X * t R) (k : X → M R A).
Arguments Pure {R A}.
Arguments Atomic {R A X}.

Fixpoint bind {R A B} (m : M R A) (k : A → M R B) : M R B :=
  match m with
  | Pure a => k a
  | Atomic f k' => Atomic f (λ x, bind (k' x) k)
  end.
#[export] Instance M_ret {R} : MRet (M R) := λ A a, Pure a.
#[export] Instance M_bind {R} : MBind (M R) := λ A B k m, bind m k.
#[global] Arguments M_ret : simpl never.
#[global] Arguments M_bind : simpl never.

(** The program alone, from the first operation to the last. *)
Fixpoint run {R A} (m : M R A) (w : t R) : option A * t R :=
  match m with
  | Pure a => (Some a, w)
  | Atomic f k =>
      match f w with
      | (Some x, w) => run (k x) w
      | (None, w) => (None, w)
      end
  end.
Coercion run : M >-> Funclass.

Lemma run_bind {R A B} (m : M R A) (k : A → M R B) w :
  (m ≫= k) w = match m w with (Some a, w) => k a w | (None, w) => (None, w) end.
Proof.
  revert w. induction m as [a|X f k' IH]; intros w; [done|]. simpl.
  destruct (f w) as [[x|] w']; [apply IH|done].
Qed.

(** *** What a program returns

    Whatever its operations give, the program returns a value of [Q], if it
    returns. *)
Fixpoint returns {R A} (m : M R A) (Q : A → Prop) : Prop :=
  match m with
  | Pure a => Q a
  | Atomic f k => ∀ x, returns (k x) Q
  end.

Lemma returns_run {R A} (m : M R A) (Q : A → Prop) w :
  returns m Q → match (m w).1 with Some a => Q a | None => True end.
Proof.
  revert w. induction m as [a|X f k IH]; intros w Hm; simpl in *; [done|].
  destruct (f w) as [[x|] w']; [|done]. by apply IH.
Qed.

Lemma returns_ret {R A} (a : A) (Q : A → Prop) : Q a → returns (mret a : M R A) Q.
Proof. done. Qed.

Lemma returns_bind {R A B} (m : M R A) (k : A → M R B) (Q : A → Prop) (S : B → Prop) :
  returns m Q → (∀ a, Q a → returns (k a) S) → returns (m ≫= k) S.
Proof.
  intros Hm Hk. induction m as [a|X f k' IH]; simpl in *; [by apply Hk|].
  intros x. by apply IH.
Qed.

Lemma returns_any {R A B} (m : M R A) (k : A → M R B) (S : B → Prop) :
  (∀ a, returns (k a) S) → returns (m ≫= k) S.
Proof.
  intros Hk. induction m as [a|X f k' IH]; simpl in *; [by apply Hk|]. intros x. apply IH.
Qed.

Section operations.
Context {R : Type} `{O : Oracle}.
Implicit Types w : t R.

(** One atomic operation. *)
Definition atomic {A} (f : t R → option A * t R) : M R A := Atomic f Pure.

Definition panic {A} : M R A := atomic (λ w, (None, w)).
Definition gets {A} (f : t R → A) : M R A := atomic (λ w, (Some (f w), w)).
Definition modify (f : t R → t R) : M R unit := atomic (λ w, (Some tt, f w)).

(** The next reading. *)
Definition read : M R Reading := atomic (λ w,
  (Some (oracle (ticks w)), w <| ticks := S (ticks w) |>)).

(** An operation of the repository, with a reading of its own. *)
Definition call {A} (op : Reading → Op R A) : M R (result A) := atomic (λ w,
  let '(res, r) := op (oracle (ticks w)) (repo w) in
  (Some res, w <| ticks := S (ticks w) |> <| repo := r |>)).
(** One that only reads. *)
Definition query {A} (f : Reading → R → result A) : M R (result A) := atomic (λ w,
  (Some (f (oracle (ticks w)) (repo w)), w <| ticks := S (ticks w) |>)).

(** An operation of the hub. *)
Definition on_hub {A} (f : Hub.t → option (A * Hub.t)) : M R A := atomic (λ w,
  match f (hub w) with
  | Some (a, h) => (Some a, w <| hub := h |>)
  | None => (None, w)
  end).

Definition spawn (g : goroutine) : M R unit :=
  modify (λ w, w <| spawned := spawned w ++ [g] |>).

Lemma run_atomic {A} (f : t R → option A * t R) w : atomic f w = f w.
Proof. unfold atomic. simpl. by destruct (f w) as [[?|] ?]. Qed.
Lemma run_call {A} (op : Reading → Op R A) w :
  call op w = let '(res, r) := op (oracle (ticks w)) (repo w) in
              (Some res, w <| ticks := S (ticks w) |> <| repo := r |>).
Proof. apply run_atomic. Qed.
Lemma run_on_hub {A} (f : Hub.t → option (A * Hub.t)) w :
  on_hub f w = match f (hub w) with
               | Some (a, h) => (Some a, w <| hub := h |>)
               | None => (None, w)
               end.
Proof. apply run_atomic. Qed.
Lemma run_ret {A} (a : A) w : (mret a : M R A) w = (Some a, w).
Proof. done. Qed.
Lemma run_panic {A} w : (panic : M R A) w = (None, w).
Proof. exact (run_atomic _ w). Qed.
Lemma run_gets {A} (f : t R → A) w : gets f w = (Some (f w), w).
Proof. exact (run_atomic _ w). Qed.
Lemma run_modify (f : t R → t R) w : modify f w = (Some tt, f w).
Proof. exact (run_atomic _ w). Qed.
Lemma run_read w : read w = (Some (oracle (ticks w)), w <| ticks := S (ticks w) |>).
Proof. exact (run_atomic _ w). Qed.
Lemma run_query {A} (f : Reading → R → result A) w :
  query f w = (Some (f (oracle (ticks w)) (repo w)), w <| ticks := S (ticks w) |>).
Proof. exact (run_atomic _ w). Qed.
Lemma run_spawn g w : spawn g w = (Some tt, w <| spawned := spawned w ++ [g] |>).
Proof. exact (run_atomic _ w). Qed.
End operations.
#[global] Opaque atomic M_ret.
#[global] Arguments panic : simpl never.
#[global] Arguments gets : simpl never.
#[global] Arguments modify : simpl never.
#[global] Arguments read : simpl never.
#[global] Arguments call : simpl never.
#[global] Arguments query : simpl never.
#[global] Arguments on_hub : simpl never.
#[global] Arguments spawn : simpl never.

(** Runs the program operation by operation. *)
Ltac run_step := repeat first
  [ rewrite run_bind | rewrite run_ret | rewrite run_call | rewrite run_query
  | rewrite run_gets | rewrite run_modify | rewrite run_read | rewrite run_on_hub
  | rewrite run_spawn | rewrite run_panic ].

(** ** A program logic

    [triple I P m Q]: from a state in [P], [m] ends in a state in [Q] of its
    result, and a panic leaves a state in [I]. *)
Section logic.
Context {R : Type}.
Implicit Types (I P : t R → Prop).

Definition triple {A} I P (m : M R A) (Q : A → t R → Prop) : Prop :=
  ∀ w, P w → match m w with (Some a, w') => Q a w' | (None, w') => I w' end.

Lemma triple_ret {A} I P (a : A) (Q : A → t R → Prop) :
  (∀ w, P w → Q a w) → triple I P (mret a) Q.
Proof. intros H w HP. by apply H. Qed.

Lemma triple_bind {A B} I P (m : M R A) (k : A → M R B) Q S :
  triple I P m Q → (∀ a, triple I (Q a) (k a) S) → triple I P (m ≫= k) S.
Proof.
  intros Hm Hk w HP. specialize (Hm w HP). rewrite run_bind.
  destruct (m w) as [[a|] w']; [|done]. by apply Hk.
Qed.

Lemma triple_conseq {A} I P P' (m : M R A) Q Q' :
  triple I P' m Q' → (∀ w, P w → P' w) → (∀ a w, Q' a w → Q a w) → triple I P m Q.
Proof.
  intros Hm HP HQ w Hw. specialize (Hm w (HP w Hw)). destruct (m w) as [[a|] w']; auto.
Qed.

(** A computation that keeps the invariant [I], whatever its result. *)
Definition keeps {A} I (m : M R A) : Prop := triple I I m (λ _, I).

Lemma keeps_ret {A} I (a : A) : keeps I (mret a).
Proof. by intros w. Qed.

Lemma keeps_bind {A B} I (m : M R A) (k : A → M R B) :
  keeps I m → (∀ a, keeps I (k a)) → keeps I (m ≫= k).
Proof. intros Hm Hk. by eapply triple_bind. Qed.

(** From a triple that starts in the invariant and ends above it. *)
Lemma keeps_triple {A} I (m : M R A) Q :
  triple I I m Q → (∀ a w, Q a w → I w) → keeps I m.
Proof. intros H HQ. by eapply triple_conseq. Qed.

Lemma keeps_gets {A} I (f : t R → A) : keeps I (gets f).
Proof. by intros w. Qed.

Lemma keeps_panic {A} I : keeps I (@panic R A).
Proof. by intros w. Qed.
End logic.

End World.
