(* ===== verification/MetricsFacts.v ===== *)
(** * Bounds of the agent metrics

    The counters and durations of the metrics are int64: what they hold after
    any sequence of recordings, and when that is the exact sum. *)
From S2P Require Import Prelude.
From S2P Require Import GoStrings.
From S2P Require Import Model.
From S2P Require Import World.

Module MetricsFacts.
Import AgentMetrics.

(** One call of a recording method. *)
Inductive event :=
  | Model (latency : Z) (usage : Usage)
  | Tool (latency : Z) (err : option string)
  | Complete (n : Z) (success : bool)
  | Approval (now created : time).

Definition record (m : AgentMetrics.t) (ev : event) : AgentMetrics.t :=
  match ev with
  | Model latency usage => model latency usage m
  | Tool latency err => tool latency err m
  | Complete n success => complete n success m
  | Approval now created => approval now created m
  end.
Definition recorded (input output : float64) (evs : list event) : AgentMetrics.t :=
  foldl record (new input output) evs.

(** ** What an event adds to each counter *)
Definition one (b : bool) : Z := if b then 1 else 0.
Definition is_rejection (err : option string) : bool :=
  match err with
  | Some e => contains e "template" || contains e "sensitive" || contains e "unauthorized"
  | None => false
  end.
Definition is_error (err : option string) : bool := match err with Some _ => true | None => false end.

Definition d_runs ev := match ev with Complete _ _ => 1 | _ => 0 end%Z.
Definition d_successfulRuns ev := match ev with Complete _ success => one success | _ => 0 end%Z.
Definition d_steps ev := match ev with Complete n _ => n | _ => 0 end%Z.
Definition d_toolCalls ev := match ev with Tool _ _ => 1 | _ => 0 end%Z.
Definition d_toolErrors ev := match ev with Tool _ err => one (is_error err) | _ => 0 end%Z.
Definition d_policyRejections ev := match ev with Tool _ err => one (is_rejection err) | _ => 0 end%Z.
Definition d_toolLatency ev := match ev with Tool latency _ => latency | _ => 0 end%Z.
Definition d_modelCalls ev := match ev with Model _ _ => 1 | _ => 0 end%Z.
Definition d_modelLatency ev := match ev with Model latency _ => latency | _ => 0 end%Z.
Definition d_promptTokens ev := match ev with Model _ u => PromptTokens u | _ => 0 end%Z.
Definition d_completionTokens ev := match ev with Model _ u => CompletionTokens u | _ => 0 end%Z.
Definition d_totalTokens ev := match ev with Model _ u => TotalTokens u | _ => 0 end%Z.
Definition d_approvals ev := match ev with Approval _ _ => 1 | _ => 0 end%Z.
Definition d_approvalWait ev := match ev with Approval now created => time_sub now created | _ => 0 end%Z.

(** The counters with what they count. *)
Definition counters : list ((AgentMetrics.t → Z) * (event → Z)) :=
  [(runs, d_runs); (successfulRuns, d_successfulRuns); (steps, d_steps); (toolCalls, d_toolCalls);
   (toolLatencyCalls, d_toolCalls); (toolErrors, d_toolErrors);
   (policyRejections, d_policyRejections); (toolLatency, d_toolLatency); (modelCalls, d_modelCalls);
   (modelLatency, d_modelLatency); (promptTokens, d_promptTokens);
   (completionTokens, d_completionTokens); (totalTokens, d_totalTokens); (approvals, d_approvals);
   (approvalWait, d_approvalWait)].

Definition total (d : event → Z) (evs : list event) : Z := foldr (λ ev n, d ev + n)%Z 0%Z evs.
(** The int64 with the bits of [z]. *)
Definition wrap (z : Z) : Z := ((z + 2 ^ 63) mod 2 ^ 64 - 2 ^ 63)%Z.

Lemma wrap_small z : (int64_min ≤ z ≤ int64_max)%Z → wrap z = z.
Proof. intros. rewrite <-(Z.add_0_r z) at 2. rewrite <-(i64_add_small z 0); [|lia]. unfold i64_add. by rewrite Z.add_0_r. Qed.

Lemma wrap_add a b : i64_add (wrap a) b = wrap (a + b).
Proof.
  unfold i64_add, wrap. f_equal.
  replace ((a + 2 ^ 63) mod 2 ^ 64 - 2 ^ 63 + b + 2 ^ 63)%Z with ((a + 2 ^ 63) mod 2 ^ 64 + b)%Z by lia.
  rewrite Z.add_mod_idemp_l by done. f_equal. lia.
Qed.

Lemma wrap_zero z : wrap z = wrap (z + 0).
Proof. by rewrite Z.add_0_r. Qed.

Lemma total_snoc d evs ev : total d (evs ++ [ev]) = (total d evs + d ev)%Z.
Proof. unfold total. induction evs as [|x evs IH]; simpl; lia. Qed.

(** Every event adds to every counter what it counts. *)
Lemma record_adds ev (m : AgentMetrics.t) (sum : (event → Z) → Z) :
  Forall (λ c, c.1 m = wrap (sum c.2)) counters →
  Forall (λ c, c.1 (record m ev) = wrap (sum c.2 + c.2 ev)) counters.
Proof.
  unfold counters. rewrite !Forall_cons. intros Hm. destruct_and!.
  destruct ev as [latency usage|latency [e|]|n [|]|now created]; cbn [record tool complete];
    [|destruct (is_rejection (Some e)) eqn:He; simpl in He; rewrite He| | | |];
    simpl in *; rewrite ?He;
    repeat match goal with H : _ m = _ |- _ => rewrite H; clear H end;
    rewrite ?wrap_add, ?Z.add_0_r; split_and!; try done; by apply Forall_nil.
Qed.

Lemma recorded_wrap input output evs :
  Forall (λ c, c.1 (recorded input output evs) = wrap (total c.2 evs)) counters.
Proof.
  unfold recorded. induction evs as [|ev evs IH] using rev_ind; [by repeat constructor|].
  rewrite foldl_app. simpl. eapply Forall_impl; [exact (record_adds ev _ (λ d, total d evs) IH)|].
  intros c Hc. simpl in Hc. by rewrite Hc, total_snoc.
Qed.

Lemma total_bounds d d' evs :
  (∀ ev, 0 ≤ d ev ≤ d' ev)%Z → (0 ≤ total d evs ≤ total d' evs)%Z.
Proof. intros Hd. unfold total. induction evs as [|ev evs IH]; simpl; [lia|]. specialize (Hd ev). lia. Qed.

Lemma total_one evs : total (λ _, 1%Z) evs = Z.of_nat (length evs).
Proof. unfold total. induction evs as [|ev evs IH]; simpl; lia. Qed.

Lemma one_bounds b : (0 ≤ one b ≤ 1)%Z.
Proof. by destruct b. Qed.

(** C19: after any recordings every counter holds the sum of what it counts,
    modulo 2^64, and the exact sum if that is an int64. Up to 2^63 recordings no
    count overflows: the runs that succeeded are among the runs, the rejected
    tool calls among the failed ones and these among the calls, and every
    recording is counted once. *)
Theorem metrics_bounds (input output : float64) (evs : list event) :
  let m := recorded input output evs in
  Forall (λ c, c.1 m = wrap (total c.2 evs) ∧
    ((int64_min ≤ total c.2 evs ≤ int64_max)%Z → c.1 m = total c.2 evs)) counters ∧
  ((Z.of_nat (length evs) ≤ int64_max)%Z →
   (0 ≤ successfulRuns m ≤ runs m)%Z ∧
   (0 ≤ policyRejections m ≤ toolErrors m)%Z ∧ (toolErrors m ≤ toolCalls m)%Z ∧
   toolLatencyCalls m = toolCalls m ∧ (0 ≤ modelCalls m)%Z ∧ (0 ≤ approvals m)%Z ∧
   (runs m + toolCalls m + modelCalls m + approvals m)%Z = Z.of_nat (length evs)).
Proof.
  intros m. pose proof (recorded_wrap input output evs) as Hw. fold m in Hw. split.
  { eapply Forall_impl; [exact Hw|]. intros c Hc. split; [done|]. intros Hr. by rewrite Hc, wrap_small. }
  intros Hlen. rewrite <-total_one in Hlen |- *.
  assert (∀ d, (∀ ev, 0 ≤ d ev ≤ 1)%Z → wrap (total d evs) = total d evs) as Hex.
  { intros d Hd. apply wrap_small. pose proof (total_bounds d (λ _, 1%Z) evs Hd). unfold int64_min. lia. }
  assert (∀ d d', (∀ ev, 0 ≤ d ev ≤ d' ev)%Z → (0 ≤ total d evs ≤ total d' evs)%Z) as Hle
    by (intros; by apply total_bounds).
  unfold counters in Hw. rewrite !Forall_cons in Hw. simpl in Hw. destruct_and!.
  repeat match goal with H : _ m = _ |- _ => rewrite H; clear H end.
  rewrite !Hex by (intros [| ? [?|]| ? []|]; simpl; try lia; apply one_bounds).
  pose proof (Hle d_successfulRuns d_runs ltac:(intros [| |? []|]; simpl; lia)).
  pose proof (Hle d_policyRejections d_toolErrors ltac:(intros [|? [e|]| |]; simpl; try lia; apply one_bounds)).
  pose proof (Hle d_toolErrors d_toolCalls ltac:(intros [|? [?|]| |]; simpl; lia)).
  pose proof (Hle d_modelCalls d_modelCalls ltac:(intros []; simpl; lia)).
  pose proof (Hle d_approvals d_approvals ltac:(intros []; simpl; lia)).
  split_and!; try lia. unfold total. clear. induction evs as [|[] evs IH]; simpl; lia.
Qed.

(** A run, a rejected call and an approval. *)
Lemma metrics_bounds_witness :
  let m := recorded float_zero float_zero
    [Complete 3 true; Tool 5 (Some "unauthorized tool"); Approval 9 2] in
  (0 ≤ policyRejections m ≤ toolErrors m)%Z ∧ (policyRejections m, approvalWait m, runs m) = (1, 7, 1)%Z.
Proof.
  intros m. split; [|vm_compute; reflexivity].
  apply (metrics_bounds float_zero float_zero
    [Complete 3 true; Tool 5 (Some "unauthorized tool"); Approval 9 2]). by vm_compute.
Defined.

(** Durations of 292 years in all make the waiting time negative. *)
Example wait_overflows :
  approvalWait (recorded float_zero float_zero [Approval int64_max 0; Approval 1 0]) = int64_min.
Proof. vm_compute. reflexivity. Qed.

End MetricsFacts.
