(* ===== verification/Spec.v ===== *)
(** * The control plane, abstractly

    What the server promises about jobs and the messages it queues for
    workers, as a transition system on the stored jobs, the idempotency keys
    and the hub; and the proof rules for the computations that refine it. *)
From S2P Require Import Prelude.
From S2P Require Import GoStrings.
From S2P Require Import Model.
From S2P Require Import Repository.
From S2P Require Import Hub.
From S2P Require Import World.

Import Repository World.

(** ** The transition system *)
Module Spec.

Record state := mk {
  jobs : gmap string Job.t;
  keys : gmap string string;
  hub : Hub.t;
}.
#[global] Instance state_eta : Eta state := λ s, mk (jobs s) (keys s) (hub s).
Definition init : state := mk ∅ ∅ Hub.NewHub.

(** The changes of stored jobs. Only a cleared job may be started by name. *)
Inductive change (js : gmap string Job.t) : (string → Job.t → Job.t → Prop) → Prop :=
  | change_start id : cleared js id → change js (started id)
  | change_next : change js next_started
  | change_finish id : change js (finished id)
  | change_approve id : change js (approved id)
  | change_reject id : change js (rejected id).

(** A job is queued for a worker only while it is stored as running on that
    worker. *)
Inductive step (s : state) : state → Prop :=
  | step_create j j' :
      creatable j → created_as j j' →
      (Job.IdempotencyKey j = "" ∨ keys s !! Job.IdempotencyKey j = None) →
      step s (mk (<[Job.ID j' := j']> (jobs s))
                 (if decide (Job.IdempotencyKey j = "") then keys s
                  else <[Job.IdempotencyKey j := Job.ID j']> (keys s)) (hub s))
  | step_change f js' :
      change (jobs s) f → evolves f (jobs s) js' → step s (s <| jobs := js' |>)
  | step_delete id ks' :
      (∀ k v, keys s !! k = Some v → v ≠ id → ks' !! k = Some v) →
      step s (mk (delete id (jobs s)) ks' (hub s))
  | step_push wid j b h' :
      jobs s !! Job.ID j = Some j → Job.Status j = JobStatusRunning → Job.AssignedWorkerID j = wid →
      Hub.PushJob wid j (hub s) = Some (b, h') → step s (s <| hub := h' |>)
  | step_command wid c b h' :
      Hub.PushCommand wid c (hub s) = Some (b, h') → step s (s <| hub := h' |>)
  | step_register wid ch h' :
      Hub.register wid (hub s) = Some (ch, h') → step s (s <| hub := h' |>)
  | step_unregister wid ch h' :
      Hub.unregister wid ch (hub s) = Some h' → step s (s <| hub := h' |>)
  | step_receive ch : step s (s <| hub := (Hub.receive ch (hub s)).2 |>).

(** The steps that any computation may take, whatever it knows of the stored
    jobs. *)
Inductive routine (s : state) : state → Prop :=
  | routine_stay : routine s s
  | routine_change f js' :
      change (jobs s) f → evolves f (jobs s) js' → routine s (s <| jobs := js' |>)
  | routine_delete id ks' :
      (∀ k v, keys s !! k = Some v → v ≠ id → ks' !! k = Some v) →
      (∀ k v, ks' !! k = Some v → keys s !! k = Some v) →
      routine s (mk (delete id (jobs s)) ks' (hub s))
  | routine_command wid c b h' :
      Hub.PushCommand wid c (hub s) = Some (b, h') → routine s (s <| hub := h' |>)
  | routine_register wid ch h' :
      Hub.register wid (hub s) = Some (ch, h') → routine s (s <| hub := h' |>)
  | routine_unregister wid ch h' :
      Hub.unregister wid ch (hub s) = Some h' → routine s (s <| hub := h' |>)
  | routine_receive ch : routine s (s <| hub := (Hub.receive ch (hub s)).2 |>).

Lemma routine_step s s' : routine s s' → s' = s ∨ step s s'.
Proof. destruct 1; eauto using step. Qed.

(** The jobs are behind the approval gate, and the hub is well formed. *)
Definition inv (s : state) : Prop := gated (jobs s) (keys s) ∧ Hub.wf (hub s).

Lemma inv_init : inv init.
Proof. split; [apply gated_empty|apply Hub.wf_NewHub]. Qed.

Lemma inv_change js ks js' f : change js f → evolves f js js' → gated js ks → gated js' ks.
Proof.
  destruct 1; eauto using gated_started, gated_next, gated_finished, gated_approved, gated_rejected.
Qed.

Lemma inv_hub s h' : inv s → Hub.wf h' → inv (s <| hub := h' |>).
Proof. by intros [? _] ?. Qed.

Lemma inv_step s s' : inv s → step s s' → inv s'.
Proof.
  intros [Hg Hh]. destruct 1 as [j j' Hc Ha Hk|f js' Hc He|id ks' Hk|wid j b h' _ _ _ Hp
    |wid c b h' Hp|wid ch h' Hp|wid ch h' Hp|ch].
  - split; [|done]. simpl. apply gated_create; [done|by eapply gate_created|done|done].
  - split; [|done]. by eapply inv_change.
  - split; [|done]. simpl. by eapply gated_delete.
  - apply inv_hub; [done|]. destruct (Hub.push_spec wid (Hub.ServerEnvelope_Job (Hub.jobToProto j)) _ Hh)
      as (b' & h2 & Hp' & ? & _). unfold Hub.PushJob in Hp. congruence.
  - apply inv_hub; [done|]. destruct (Hub.push_spec wid (Hub.ServerEnvelope_Command c) _ Hh)
      as (b' & h2 & Hp' & ? & _). unfold Hub.PushCommand in Hp. congruence.
  - apply inv_hub; [done|]. destruct (Hub.register_spec wid _ Hh) as (h2 & Hp' & ? & _). congruence.
  - apply inv_hub; [done|]. destruct (Hub.unregister_spec wid ch _ Hh) as (h2 & Hp' & ? & _). congruence.
  - apply inv_hub; [done|]. by apply Hub.wf_receive.
Qed.

Lemma inv_steps s s' : inv s → rtc step s s' → inv s'.
Proof. intros Hi. induction 1; eauto using inv_step. Qed.

(** Behind the gate, a running job is ready. *)
Lemma running_ready s j :
  inv s → jobs s !! Job.ID j = Some j → Job.Status j = JobStatusRunning → ready j.
Proof.
  intros [Hg _] Hj Hr Hreq. destruct (Hg _ _ Hj) as (_ & Hgate & _). apply Hgate; [done|].
  rewrite Hr. set_solver.
Qed.

(** *** Deliveries *)

(** The job [p] may be queued on the channel [ch]: it is the message of a job
    that is stored as running on the worker of the channel, and was approved
    if it needs to be. *)
Definition deliverable (s : state) (ch : nat) (p : Hub.ProtoJob.t) : Prop :=
  ∃ j, p = Hub.jobToProto j ∧ jobs s !! Job.ID j = Some j ∧ Job.Status j = JobStatusRunning ∧
    ready j ∧ Hub.workers (hub s) !! Job.AssignedWorkerID j = Some ch.

Lemma step_delivery s s' ch p :
  inv s → step s s' →
  Hub.ServerEnvelope_Job p ∈ Hub.messages_of (hub s') ch →
  Hub.ServerEnvelope_Job p ∈ Hub.messages_of (hub s) ch ∨ deliverable s ch p.
Proof.
  intros Hi. destruct 1 as [j j' _ _ _|f js' _ _|id ks' _|wid j b h' Hj Hr Ha Hp
    |wid c b h' Hp|wid n h' Hp|wid n h' Hp|n]; simpl; intros Hin; [by left..| | | | |].
  - destruct (Hub.messages_push _ _ _ _ _ _ _ Hp Hin) as [?|[[= ->] Hw]]; [by left|]. right.
    exists j. split_and!; [done..| |congruence]. by eapply running_ready.
  - destruct (Hub.messages_push _ _ _ _ _ _ _ Hp Hin) as [?|[? _]]; [by left|done].
  - rewrite (Hub.messages_register _ _ _ _ _ Hp) in Hin. by left.
  - rewrite (Hub.messages_unregister _ _ _ _ _ Hp) in Hin. by left.
  - left. by eapply Hub.messages_receive.
Qed.

Lemma steps_delivery s s' ch p :
  inv s → rtc step s s' →
  Hub.ServerEnvelope_Job p ∈ Hub.messages_of (hub s') ch →
  Hub.ServerEnvelope_Job p ∈ Hub.messages_of (hub s) ch ∨
  ∃ s1, rtc step s s1 ∧ rtc step s1 s' ∧ deliverable s1 ch p.
Proof.
  intros Hi Hs. induction Hs as [|s s1 s' Hst Hs IH]; [by left|]. intros Hin.
  destruct (IH (inv_step _ _ Hi Hst) Hin) as [Hin1|(s2 & ? & ? & ?)].
  - destruct (step_delivery _ _ _ _ Hi Hst Hin1) as [?|Hd]; [by left|]. right. exists s.
    split; [done|]. split; [by eapply rtc_l|done].
  - right. exists s2. split; [by eapply rtc_l|done].
Qed.

End Spec.

(** ** Refinement *)
Module Refine.

(** The abstraction of the state of the server. *)
Definition abs {R} `{JobLaws R} (w : World.t R) : Spec.state :=
  Spec.mk (jobs_of (repo w)) (keys_of (repo w)) (hub w).

(** The states that are reached from the abstract state [s0]. *)
Definition safe {R} `{JobLaws R} (s0 : Spec.state) (w : World.t R) : Prop :=
  Spec.inv s0 ∧ rtc Spec.step s0 (abs w).

Section keeps.
Context {R : Type} `{L : JobLaws R} `{O : Oracle} (s0 : Spec.state).
Implicit Types w : World.t R.

Lemma safe_inv w : safe s0 w → Spec.inv (abs w).
Proof. intros [? ?]. by eapply Spec.inv_steps. Qed.

Lemma safe_step w w' : safe s0 w → Spec.step (abs w) (abs w') → safe s0 w'.
Proof. intros [Hi Hs] ?. split; [done|]. by eapply rtc_r. Qed.

Lemma safe_eq w w' : safe s0 w → abs w' = abs w → safe s0 w'.
Proof. intros [? ?] Heq. unfold safe. by rewrite Heq. Qed.

Lemma keeps_call {A} (op : Reading → Op R A) :
  (∀ e w n, safe s0 w → safe s0 (w <| ticks := n |> <| repo := (op e (repo w)).2 |>)) →
  keeps (safe s0) (call op).
Proof.
  intros Hop w Hw. rewrite run_call. specialize (Hop (oracle (ticks w)) w (S (ticks w)) Hw).
  by destruct (op (oracle (ticks w)) (repo w)) as [res r].
Qed.

Lemma safe_change {A} (op : Op R A) f w n :
  safe s0 w → Spec.change (jobs_of (repo w)) f → changes f op →
  safe s0 (w <| ticks := n |> <| repo := (op (repo w)).2 |>).
Proof.
  intros Hw Hc Hop. eapply safe_step; [done|]. destruct (Hop (repo w)) as [He Hk].
  unfold abs. simpl. rewrite Hk. by apply (Spec.step_change (abs w) f).
Qed.

(** *** Neutral computations

    Every operation of a neutral computation is a routine step from every state
    of the invariant, whatever other computations did before it. *)
Definition neutral_op {X} (f : World.t R → option X * World.t R) : Prop :=
  ∀ w, Spec.inv (abs w) → Spec.routine (abs w) (abs (f w).2).
Fixpoint neutral {A} (m : M R A) : Prop :=
  match m with
  | Pure _ => True
  | Atomic f k => neutral_op f ∧ ∀ x, neutral (k x)
  end.

Lemma neutral_keeps {A} (m : M R A) : neutral m → keeps (safe s0) m.
Proof.
  induction m as [a|X f k IH]; [by intros _ w|]. intros [Hf Hk] w Hw. simpl.
  specialize (Hf w (safe_inv w Hw)). destruct (f w) as [[x|] w'] eqn:Heq; simpl in Hf.
  - apply IH; [done|]. destruct (Spec.routine_step _ _ Hf); [by eapply safe_eq|by eapply safe_step].
  - destruct (Spec.routine_step _ _ Hf); [by eapply safe_eq|by eapply safe_step].
Qed.

Lemma neutral_ret {A} (a : A) : neutral (mret a).
Proof. exact I. Qed.

Lemma neutral_bind {A B} (m : M R A) (k : A → M R B) :
  neutral m → (∀ a, neutral (k a)) → neutral (m ≫= k).
Proof.
  intros Hm Hk. induction m as [a|X f k' IH]; simpl; [apply Hk|].
  destruct Hm as [Hf Hm]. split; [done|]. intros x. by apply IH.
Qed.

Lemma neutral_atomic {X} (f : World.t R → option X * World.t R) : neutral_op f → neutral (atomic f).
Proof. by split. Qed.

Lemma neutral_same {X} (f : World.t R → option X * World.t R) :
  (∀ w, abs (f w).2 = abs w) → neutral (atomic f).
Proof. intros Hf. apply neutral_atomic. intros w _. rewrite Hf. apply Spec.routine_stay. Qed.

Lemma neutral_call {A} (op : Reading → Op R A) :
  (∀ e r h, Spec.inv (Spec.mk (jobs_of r) (keys_of r) h) →
     let r' := (op e r).2 in
     Spec.routine (Spec.mk (jobs_of r) (keys_of r) h) (Spec.mk (jobs_of r') (keys_of r') h)) →
  neutral (call op).
Proof.
  intros Hop. apply neutral_atomic. intros w Hw.
  specialize (Hop (oracle (ticks w)) (repo w) (World.hub w) Hw).
  by destruct (op (oracle (ticks w)) (repo w)) as [res r].
Qed.

Lemma neutral_frame {A} (op : Reading → Op R A) : (∀ e, frame (op e)) → neutral (call op).
Proof.
  intros Hf. apply neutral_call. intros e r h _ r'. destruct (Hf e r) as [Hj Hk].
  unfold r'. rewrite Hj, Hk. apply Spec.routine_stay.
Qed.

Lemma neutral_change {A} (op : Reading → Op R A) f :
  (∀ js, Spec.change js f) → (∀ e, changes f (op e)) → neutral (call op).
Proof.
  intros Hc Hop. apply neutral_call. intros e r h _ r'. destruct (Hop e r) as [He Hk].
  unfold r'. rewrite Hk.
  by apply (Spec.routine_change (Spec.mk (jobs_of r) (keys_of r) h) f).
Qed.

Lemma neutral_query {A} (f : Reading → R → result A) : neutral (query f).
Proof. by apply neutral_same. Qed.

Lemma neutral_read : neutral (@read R _).
Proof. by apply neutral_same. Qed.

Lemma neutral_gets {A} (f : World.t R → A) : neutral (gets f).
Proof. by apply neutral_same. Qed.

Lemma neutral_panic {A} : neutral (A:=A) panic.
Proof. by apply neutral_same. Qed.

Lemma neutral_modify (f : World.t R → World.t R) : (∀ w, abs (f w) = abs w) → neutral (modify f).
Proof. intros Hf. by apply neutral_same. Qed.

Lemma neutral_spawn g : neutral (spawn g).
Proof. by apply neutral_modify. Qed.

Lemma neutral_on_hub {A} (f : Hub.t → option (A * Hub.t)) :
  (∀ s, Hub.wf (Spec.hub s) → ∃ a h', f (Spec.hub s) = Some (a, h') ∧
     Spec.routine s (s <| Spec.hub := h' |>)) → neutral (on_hub f).
Proof.
  intros Hf. apply neutral_atomic. intros w [_ Hh].
  destruct (Hf (abs w) Hh) as (a & h' & Heq & Hs). simpl in Heq. by rewrite Heq.
Qed.

Lemma neutral_register id : neutral (on_hub (Hub.register id)).
Proof.
  apply neutral_on_hub. intros s Hh. destruct (Hub.register_spec id _ Hh) as (h' & Heq & _).
  eexists _, h'. split; [done|]. by eapply Spec.routine_register.
Qed.

Lemma neutral_unregister id ch : neutral (on_hub (λ h, pair tt <$> Hub.unregister id ch h)).
Proof.
  apply neutral_on_hub. intros s Hh.
  destruct (Hub.unregister_spec id ch _ Hh) as (h' & Heq & _). exists tt, h'.
  rewrite Heq. split; [done|]. by eapply Spec.routine_unregister.
Qed.

Lemma neutral_PushCommand id c : neutral (on_hub (Hub.PushCommand id c)).
Proof.
  apply neutral_on_hub. intros s Hh.
  destruct (Hub.push_spec id (Hub.ServerEnvelope_Command c) _ Hh) as (b & h' & Heq & _).
  exists b, h'. split; [done|]. by eapply Spec.routine_command.
Qed.

Lemma neutral_receive ch : neutral (on_hub (λ h, Some (Hub.receive ch h))).
Proof.
  apply neutral_on_hub. intros s Hh. pose proof (Spec.routine_receive s ch) as Hs.
  destruct (Hub.receive ch (Spec.hub s)) as [m h']. eauto.
Qed.

(** A job that is stored as running on the worker may be queued for it, and
    this changes nothing that the state of the jobs says. *)
Lemma triple_PushJob (P : World.t R → Prop) wid j :
  (∀ w, P w → safe s0 w ∧ jobs_of (repo w) !! Job.ID j = Some j ∧
     Job.Status j = JobStatusRunning ∧ Job.AssignedWorkerID j = wid) →
  (∀ w h', P w → safe s0 (w <| World.hub := h' |>) → P (w <| World.hub := h' |>)) →
  triple (safe s0) P (on_hub (Hub.PushJob wid j)) (λ _, P).
Proof.
  intros HP Hframe w Hw. destruct (HP w Hw) as (Hs & Hj & Hr & Ha).
  destruct (safe_inv w Hs) as [_ Hh]. rewrite run_on_hub.
  destruct (Hub.push_spec wid (Hub.ServerEnvelope_Job (Hub.jobToProto j)) _ Hh)
    as (b & h' & Heq & _). unfold Hub.PushJob. simpl in Heq. rewrite Heq.
  apply Hframe; [done|]. eapply safe_step; [done|].
  by apply (Spec.step_push (abs w) wid j b h').
Qed.
End keeps.

#[export] Hint Resolve keeps_ret : keeps.
#[export] Hint Resolve neutral_ret neutral_query neutral_read neutral_gets neutral_panic neutral_spawn
  neutral_register neutral_unregister neutral_PushCommand neutral_receive : neutral.
#[export] Hint Resolve RegisterWorker_frame HeartbeatWorker_frame UpdateWorkerStatus_frame
  DeleteWorker_frame AddAuditLog_frame UpsertIncidentCase_frame AddWorkerLog_frame
  SaveManagedConfig_frame DeleteManagedConfig_frame CreateConversation_frame
  DeleteConversation_frame AddConversationMessage_frame CreateAgentRun_frame
  UpdateAgentRun_frame AddAgentEvent_frame CreateAgentToolCall_frame
  CompleteAgentToolCall_frame : neutral.

(** Steps through a neutral computation. *)
Ltac neutral_step :=
  first
    [ solve [eauto with neutral]
    | apply neutral_frame; intros; solve [eauto with neutral]
    | progress intros
    | apply neutral_bind
    | case_match ].
Ltac neutral_auto := repeat neutral_step.

(** Steps through a computation that keeps the invariant. *)
Ltac keeps_step :=
  first
    [ solve [eauto with keeps]
    | apply neutral_keeps; solve [neutral_auto]
    | progress intros
    | apply keeps_bind
    | case_match ].
Ltac keeps_auto := repeat keeps_step.

End Refine.
