(* ===== verification/StreamService.v ===== *)
(** * The worker stream service ([internal/infrastructure/workerstream/service.go])

    One bidirectional stream per worker: authorization, the registration that
    must come first, the messages of the worker, and the messages the hub
    queues for it. The network is the sequence of events a stream sees. *)
From S2P Require Import Prelude.
From S2P Require Import GoStrings.
From S2P Require Import Model.
From S2P Require Import Scheduler.
From S2P Require Import Repository.
From S2P Require Import MemoryRepo.
From S2P Require Import MemoryRepoFacts.
From S2P Require Import Hub.
From S2P Require Import World.
From S2P Require Import Spec.

Import Repository World Spec.Refine.

Module StreamService.

(** ** Messages of a worker *)
Record Heartbeat := mkHeartbeat { hb_HostInfo : option HostInfo.t }.
Record JobResult := mkJobResult {
  JobId : string; Command : string; Success : bool; Output : string; LogToDb : bool;
}.
Inductive WorkerEnvelope :=
  | WorkerEnvelope_Register (name workerType : string)
  | WorkerEnvelope_Heartbeat (h : option Heartbeat)
  | WorkerEnvelope_JobResult (r : option JobResult)
  | WorkerEnvelope_CommandAck (command : string) (success : bool)
  | WorkerEnvelope_Empty.

(** An error of the [status] package. *)
Definition status (code : string) (e : error) : error :=
  Errorf "rpc error: code = %s desc = %s" [AStr code; AErr e].
(** [errors.Is(err, io.EOF)] for the error itself. *)
Definition is_EOF (e : error) : bool :=
  match e with Errorf msg [] => bool_decide (msg = "EOF") | _ => false end.

(** The metadata of the stream: [None] when there is none, else the values of
    x-worker-token. *)
Definition authorize (workerToken : string) (md : option (list string)) : result unit :=
  if decide (workerToken = "") then Ok tt
  else match md with
  | None => Err (status "Unauthenticated" (new_error "missing worker token"))
  | Some [] => Err (status "Unauthenticated" (new_error "invalid worker token"))
  | Some (token :: _) =>
      guard_err (bool_decide (token ≠ workerToken))
        (status "Unauthenticated" (new_error "invalid worker token"))
  end.

Definition protoHostInfo (info : option HostInfo.t) : HostInfo.t := default HostInfo.zero info.

Section service.
Context {R : Type} `{RR : Repository R} `{O : Oracle}.

Definition handleHeartbeat (workerID : string) (heartbeat : option Heartbeat)
    : M R (result unit) :=
  match heartbeat with
  | None => mret (Ok tt)
  | Some h =>
      let info := protoHostInfo (hb_HostInfo h) in
      res ← call (λ e, HeartbeatWorker e workerID (Some info));
      match res with
      | Err err => mret (Err (status "NotFound" (Errorf "heartbeat worker: %v" [AErr err])))
      | Ok _ => mret (Ok tt)
      end
  end.

Definition handleJobResult (workerID : string) (result_ : option JobResult)
    : M R (result unit) :=
  match result_ with
  | None => mret (Ok tt)
  | Some res =>
      job ← call (λ e, CompleteJob e workerID (JobId res) (Output res) (Success res));
      match job with
      | Err err => mret (Err (status "FailedPrecondition" (Errorf "complete job: %v" [AErr err])))
      | Ok job =>
          let action := if Success res then "job.completed" else "job.failed" in
          _ ← call (λ e, AddAuditLog e (AuditLog.mk "" "worker" workerID action "job" (Job.ID job)
                [("success", VBool (Success res)); ("transport", VString "grpc_stream")] time_zero));
          _ ← (if LogToDb res then
                 call (λ e, AddWorkerLog e (WorkerLog.mk 0 workerID (JobId res) (Command res)
                   "completed" (Output res) (Success res) time_zero))
               else mret (Ok tt));
          mret (Ok tt)
      end
  end.

(** One round of [receiveLoop]. *)
Definition handle_message (workerID : string) (msg : WorkerEnvelope) : M R (result unit) :=
  match msg with
  | WorkerEnvelope_Heartbeat h => handleHeartbeat workerID h
  | WorkerEnvelope_JobResult r => handleJobResult workerID r
  | _ => mret (Ok tt)
  end.

(** [receiveLoop] over the messages [Recv] returns before it fails with
    [final]. *)
Fixpoint receiveLoop (workerID : string) (msgs : list WorkerEnvelope) (final : error)
    : M R error :=
  match msgs with
  | [] => mret final
  | msg :: msgs =>
      res ← handle_message workerID msg;
      match res with
      | Err err => mret err
      | Ok _ => receiveLoop workerID msgs final
      end
  end.

(** The part of [Stream] before its loop, up to sending [Registered]: [first]
    is what the first [Recv] returns, [send] what [Send] returns. *)
Definition open_stream (workerToken : string) (md : option (list string))
    (first : result WorkerEnvelope) (send : result unit) : M R (result (Worker.t * nat)) :=
  match authorize workerToken md with
  | Err err => mret (Err err)
  | Ok _ =>
      match first with
      | Err err => mret (Err err)
      | Ok (WorkerEnvelope_Register name workerType) =>
          if decide (trim_space name = "" ∨ trim_space workerType = "") then
            mret (Err (status "InvalidArgument" (new_error "worker name and type are required")))
          else
            res ← call (λ e, RegisterWorker e name workerType);
            match res with
            | Err err => mret (Err (status "Internal" (Errorf "register worker: %v" [AErr err])))
            | Ok worker =>
                _ ← call (λ e, AddAuditLog e (AuditLog.mk "" "worker" (Worker.ID worker)
                      "worker.registered" "worker" (Worker.ID worker)
                      [("name", VString (Worker.Name worker));
                       ("worker_type", VString (Worker.WorkerType worker));
                       ("transport", VString "grpc_stream")] time_zero));
                outbound ← on_hub (Hub.register (Worker.ID worker));
                match send with
                | Err err =>
                    _ ← on_hub (λ h, pair tt <$> Hub.unregister (Worker.ID worker) outbound h);
                    mret (Err err)
                | Ok _ => mret (Ok (worker, outbound))
                end
            end
      | Ok _ =>
          mret (Err (status "InvalidArgument"
            (new_error "first worker stream message must be register")))
      end
  end.

(** What the [select] of the loop of [Stream] sees next. *)
Inductive stream_event :=
  | EvInbound (msg : WorkerEnvelope)            (* received by [receiveLoop] *)
  | EvRecvError (e : error)                     (* [Recv] failed *)
  | EvOutbound (send : result unit)             (* the channel, and what [Send] returns *)
  | EvDone (e : error).                         (* the context ended *)

(** One round: [Some] is what [Stream] returns, [None] as success. *)
Definition on_event (workerID : string) (outbound : nat) (ev : stream_event)
    : M R (option (option error)) :=
  match ev with
  | EvInbound msg =>
      res ← handle_message workerID msg;
      match res with
      | Ok _ => mret None
      | Err err => mret (Some (Some err))
      end
  | EvRecvError e => mret (Some (if is_EOF e then None else Some e))
  | EvOutbound send =>
      got ← on_hub (λ h, Some (Hub.receive outbound h));
      match got with
      | Hub.RecvBlock => mret None
      | Hub.RecvClosed => mret (Some None)
      | Hub.RecvMsg _ =>
          match send with
          | Ok _ => mret None
          | Err err => mret (Some (Some err))
          end
      end
  | EvDone e => mret (Some (Some e))
  end.

(** The loop, and the deferred [unregister] when it returns. *)
Fixpoint stream_loop (workerID : string) (outbound : nat) (evs : list stream_event)
    : M R (option (option error)) :=
  match evs with
  | [] => mret None
  | ev :: evs =>
      res ← on_event workerID outbound ev;
      match res with
      | None => stream_loop workerID outbound evs
      | Some err =>
          _ ← on_hub (λ h, pair tt <$> Hub.unregister workerID outbound h);
          mret (Some err)
      end
  end.

Definition Stream (workerToken : string) (md : option (list string))
    (first : result WorkerEnvelope) (send : result unit) (evs : list stream_event)
    : M R (option (option error)) :=
  res ← open_stream workerToken md first send;
  match res with
  | Err err => mret (Some (Some err))
  | Ok (worker, outbound) => stream_loop (Worker.ID worker) outbound evs
  end.

End service.

Definition ConnectedWorkers (it : MapIter) (h : Hub.t) : list string := Hub.ConnectedWorkers it h.

(** ** What a stream keeps *)
Section properties.
Context {R : Type} `{L : JobLaws R} `{O : Oracle}.

Lemma neutral_CompleteJob w id out success :
  neutral (call (λ e, CompleteJob e w id out success)).
Proof.
  apply (neutral_change _ (finished id)); intros;
    [apply Spec.change_finish|apply CompleteJob_law].
Qed.
Hint Resolve neutral_CompleteJob : neutral.

Lemma neutral_handle_message w msg : neutral (handle_message w msg).
Proof. unfold handle_message, handleHeartbeat, handleJobResult. destruct msg; neutral_auto. Qed.
Hint Resolve neutral_handle_message : neutral.

Lemma neutral_receiveLoop w msgs final : neutral (receiveLoop w msgs final).
Proof. induction msgs as [|msg msgs IH]; simpl; neutral_auto. Qed.

Lemma neutral_on_event w ch ev : neutral (on_event w ch ev).
Proof. unfold on_event. destruct ev; neutral_auto. Qed.
Hint Resolve neutral_on_event : neutral.

Lemma neutral_stream_loop w ch evs : neutral (stream_loop w ch evs).
Proof. induction evs as [|ev evs IH]; simpl; neutral_auto. Qed.
Hint Resolve neutral_stream_loop : neutral.

Lemma neutral_Stream token md first send evs : neutral (Stream token md first send evs).
Proof. unfold Stream, open_stream. neutral_auto. Qed.
End properties.

(** ** Who may act on a stream *)

(** The stream is authorized and opens with a complete registration. *)
Definition admitted (workerToken : string) (md : option (list string))
    (first : result WorkerEnvelope) : Prop :=
  (workerToken = "" ∨ ∃ rest, md = Some (workerToken :: rest)) ∧
  ∃ name workerType, first = Ok (WorkerEnvelope_Register name workerType) ∧
    trim_space name ≠ "" ∧ trim_space workerType ≠ "".

Lemma authorize_Ok token md :
  is_ok (authorize token md) = true → token = "" ∨ ∃ rest, md = Some (token :: rest).
Proof.
  unfold authorize. case_decide; [by left|]. destruct md as [[|t rest]|]; try done.
  case_bool_decide as Ht; [done|]. rewrite Ht. eauto.
Qed.

(** C14: a stream that is not admitted ends with an error before anything
    happens: no worker is registered, no audit log is written, and the hub and
    the clock are untouched. *)
Theorem stream_needs_admission {R} `{Repository R, Oracle} (token : string)
    (md : option (list string)) (first : result WorkerEnvelope) (send : result unit)
    (evs : list stream_event) (w : World.t R) :
  admitted token md first ∨
  ∃ err, Stream token md first send evs w = (Some (Some (Some err)), w).
Proof.
  destruct (authorize token md) as [[]|err] eqn:Ha.
  2:{ right. exists err. unfold Stream, open_stream. by rewrite Ha. }
  pose proof (authorize_Ok token md) as Hok. rewrite Ha in Hok. specialize (Hok eq_refl).
  destruct first as [msg|err].
  2:{ right. exists err. unfold Stream, open_stream. by rewrite Ha. }
  destruct msg; try (right; eexists; unfold Stream, open_stream; by rewrite Ha).
  destruct (decide (trim_space name = "" ∨ trim_space workerType = "")) as [Hb|Hb].
  - right. eexists. unfold Stream, open_stream. rewrite Ha. rewrite decide_True by done. done.
  - left. split; [done|]. exists name, workerType. split_and!; [done|tauto|tauto].
Qed.

(** *** Against the in-memory repository *)
Import MemoryRepo MemoryRepoFacts.

(** Nothing but the jobs assigned to [wid] and the record of [wid] changes. *)
Definition only_own (wid : string) (w0 w : World.t MemoryRepository) : Prop :=
  (∀ k j, mem_jobs (repo w0) !! k = Some j → Job.AssignedWorkerID j ≠ wid →
     mem_jobs (repo w) !! k = Some j) ∧
  (∀ k j, mem_jobs (repo w) !! k = Some j → Job.AssignedWorkerID j ≠ wid →
     mem_jobs (repo w0) !! k = Some j) ∧
  (∀ id, id ≠ wid →
     Scheduler.workers (store (repo w)) !! id = Scheduler.workers (store (repo w0)) !! id).

Section own.
Context `{O : Oracle} (wid : string) (w0 : World.t MemoryRepository).

Lemma own_heartbeat info : keeps (only_own wid w0) (call (λ e, HeartbeatWorker e wid info)).
Proof.
  intros w (H1 & H2 & H3). rewrite run_call. simpl. unfold mem_HeartbeatWorker, on_store.
  unfold Scheduler.HeartbeatWorker.
  destruct (Scheduler.workers (store (repo w)) !! wid) as [x|] eqn:Hx; simpl; [|done].
  assert (∀ s x', s = (store (repo w)) <| Scheduler.workers :=
      <[wid := x']> (Scheduler.workers (store (repo w))) |> →
    only_own wid w0 (w <| ticks := S (ticks w) |> <| repo := (repo w) <| store := s |> |>)) as Hown.
  { intros s x' ->. split_and!; [exact H1|exact H2|]. intros id Hid. simpl.
    rewrite lookup_insert_ne by done. by apply H3. }
  destruct info; by eapply Hown.
Qed.

Lemma own_complete id out success :
  keeps (only_own wid w0) (call (λ e, CompleteJob e wid id out success)).
Proof.
  intros w (H1 & H2 & H3).
  rewrite run_call.
  destruct (CompleteJob_shape (oracle (ticks w)) wid id out success (repo w))
    as [Heq|(j & j' & Hj & Hw & Hw' & Heq)];
    destruct (mem_CompleteJob (oracle (ticks w)) wid id out success (repo w)) as [res r] eqn:Hr;
    simpl in Heq |- *; rewrite Hr, Heq; [done|].
  split_and!; unfold mem_jobs in *; simpl; [..|exact H3].
  - intros k x Hk Hne. specialize (H1 k x Hk Hne). rewrite lookup_insert_ne; [done|].
    intros ->. congruence.
  - intros k x [[<- <-]|[_ Hk]]%lookup_insert_Some Hne; [done|by apply H2].
Qed.

Lemma own_audit entry : keeps (only_own wid w0) (call (λ e, AddAuditLog e entry)).
Proof. by intros w. Qed.

Lemma own_log entry : keeps (only_own wid w0) (call (λ e, AddWorkerLog e entry)).
Proof. by intros w. Qed.

Lemma own_receiveLoop msgs final : keeps (only_own wid w0) (receiveLoop wid msgs final).
Proof.
  induction msgs as [|msg msgs IH]; simpl; [apply keeps_ret|].
  apply keeps_bind; [|intros [?|?]; [exact IH|apply keeps_ret]].
  unfold handle_message, handleHeartbeat, handleJobResult.
  destruct msg as [| [h|] | [res|] | |]; try apply keeps_ret.
  - apply keeps_bind; [apply own_heartbeat|]. intros [?|?]; apply keeps_ret.
  - apply keeps_bind; [apply own_complete|]. intros [j|?]; [|apply keeps_ret].
    apply keeps_bind; [apply own_audit|]. intros _.
    apply keeps_bind; [|intros; apply keeps_ret].
    destruct (LogToDb res); [apply own_log|apply keeps_ret].
Qed.
End own.

(** C15: whatever messages a worker sends on its stream, and whatever worker and
    job they name, it changes no job that is not assigned to it and no record
    of another worker. *)
Theorem worker_changes_only_own_jobs `{Oracle} (wid : string) (msgs : list WorkerEnvelope)
    (final : error) (w : World.t MemoryRepository) :
  only_own wid w (receiveLoop wid msgs final w).2.
Proof.
  pose proof (own_receiveLoop wid w msgs final w) as Hk.
  assert (only_own wid w w) as H0 by done. specialize (Hk H0).
  by destruct (receiveLoop wid msgs final w) as [[e|] w'].
Qed.

End StreamService.
