(* ===== verification/Server.v ===== *)
(** * HTTP handlers: jobs, approvals, conversations and cases

    [internal/interfaces/http]: [job.go], [approval.go], [audit.go],
    [conversation.go], [case.go] and the routing of [server.go]. A handler takes
    the parts of the request it reads and returns the response; the body of a
    request is the result of decoding it. *)
From S2P Require Import Prelude.
From S2P Require Import GoStrings.
From S2P Require Import Model.
From S2P Require Import Sensitive.
From S2P Require Import Policy.
From S2P Require Import Modules.
From S2P Require Import Repository.
From S2P Require Import Hub.
From S2P Require Import World.

Import Repository World.

(** ** Responses *)
Inductive Body :=
  | BError (e : error)
  | BMap (m : any_map)
  | BJob (j : Job.t)
  | BJobs (l : list Job.t)
  | BJobList (jobs : list Job.t) (extra : any_map)     (* a map with the jobs under "jobs" *)
  | BWorker (w : Worker.t)
  | BWorkers (l : list Worker.t)
  | BWorkerMap (w : Worker.t) (extra : any_map)
  | BAuditLogs (l : list AuditLog.t)
  | BCases (l : list IncidentCase.t)
  | BCaseHints (l : list IncidentCase.t) (hints : list string)
  | BConversation (c : Conversation.t)
  | BConversations (l : list Conversation.t)
  | BMessages (l : list ConversationMessage.t)
  | BConversationMessages (c : Conversation.t) (l : list ConversationMessage.t)
  | BRun (r : AgentRun.t)
  | BRunMap (r : AgentRun.t) (extra : any_map)
  | BEvents (l : list AgentEvent.t)
  | BUser (u : User.t)
  | BUsers (l : list User.t)
  | BToken (token : string) (u : User.t)
  | BConfig (c : ManagedConfig.t)
  | BConfigs (l : list ManagedConfig.t).

Record Response := mkResponse { code : Z; body : Body }.
Definition writeJSON (statusCode : Z) (b : Body) : Response := mkResponse statusCode b.
Definition writeError (statusCode : Z) (e : error) : Response := mkResponse statusCode (BError e).
Definition status_map (s : string) : Body := BMap [("status", VString s)].

Definition StatusOK : Z := 200.
Definition StatusCreated : Z := 201.
Definition StatusAccepted : Z := 202.
Definition StatusBadRequest : Z := 400.
Definition StatusUnauthorized : Z := 401.
Definition StatusForbidden : Z := 403.
Definition StatusNotFound : Z := 404.
Definition StatusMethodNotAllowed : Z := 405.
Definition StatusConflict : Z := 409.
Definition StatusInternalServerError : Z := 500.

(** A YAML decoder, for the text of a batch of jobs. *)
Record YAMLTask := mkTask { task_Name : string; task_Template : string; task_Parameters : StringMap }.
Record YAMLJobSpec := mkSpec {
  spec_Name : string; spec_Tasks : list YAMLTask; spec_WorkerType : string;
  spec_Workers : list string;
}.
Class YAML := { unmarshal_jobs : string → result YAMLJobSpec }.

Module Server.

(** ** Helpers *)
Definition bearerToken (header : string) : string :=
  if negb (has_prefix header "Bearer ") then "" else trim_prefix header "Bearer ".
Definition cloneStringMap (m : StringMap) : StringMap := Some (smap_entries m).

Section handlers.
Context {R : Type} `{RR : Repository R} `{O : Oracle} `{TT : TextTemplate} `{Y : YAML}.

(** The entry is stored with its details sanitized; the log line is left out. *)
Definition recordAudit (actorType actorID action resourceType resourceID : string)
    (details : any_map) : M R unit :=
  e ← read;
  let entry := AuditLog.mk "" actorType actorID action resourceType resourceID
                 (Sensitive.SanitizeMap details) (now e) in
  _ ← call (λ e, AddAuditLog e entry);
  mret tt.

Definition PushJob (workerID : string) (job : Job.t) : M R bool := on_hub (Hub.PushJob workerID job).
Definition PushCommand (workerID command : string) : M R bool :=
  on_hub (Hub.PushCommand workerID command).

Definition dispatchJobToWorker (jobID workerID : string) : M R (result Job.t) :=
  res ← call (λ e, AssignJobToWorkers e jobID [workerID]);
  match res with
  | Err err => mret (Err err)
  | Ok _ => query (λ _, GetJob jobID)
  end.

(** ** Jobs *)
Record createJobRequest := mkCreateJob {
  cj_Name : string; cj_WorkerType : string; cj_Command : string; cj_WorkerIDs : list string;
}.

Definition type_mismatch (wid workerType jobType : string) : error :=
  Errorf "worker %s type %s cannot run job type %s" [AStr wid; AStr workerType; AStr jobType].

(** One worker of the loop: the job it gets, or the response that ends the
    handler. *)
Definition assign_copy (req : createJobRequest) (job : Job.t) (wid : string)
    : M R (Response + Job.t) :=
  wk ← query (λ e, GetWorker e wid);
  match wk with
  | Err _ => mret (inl (writeError StatusBadRequest (Errorf "worker %s not found" [AStr wid])))
  | Ok wk =>
      if negb (WorkerCanRunType (Worker.WorkerType wk) (cj_WorkerType req)) then
        mret (inl (writeError StatusBadRequest
          (type_mismatch wid (Worker.WorkerType wk) (cj_WorkerType req))))
      else
        let workerJob := job <| Job.Name := "[worker:" +:+ wid +:+ "] " +:+ cj_Name req |>
                             <| Job.Status := JobStatusPending |> in
        created ← call (λ e, CreateJob e workerJob);
        match created with
        | Err err => mret (inl (writeError StatusInternalServerError err))
        | Ok created =>
            created ← dispatchJobToWorker (Job.ID created) wid;
            match created with
            | Err err => mret (inl (writeError StatusInternalServerError err))
            | Ok created =>
                _ ← PushJob wid created;
                mret (inr created)
            end
        end
  end.

(** A loop whose body may end the handler with a response. *)
Fixpoint loop {A B} (f : A → M R (Response + B)) (l : list A) (acc : list B)
    : M R (Response + list B) :=
  match l with
  | [] => mret (inr acc)
  | x :: l =>
      r ← f x;
      match r with
      | inl resp => mret (inl resp)
      | inr y => loop f l (acc ++ [y])
      end
  end.

Definition handleCreateJob (user : User.t) (req : result createJobRequest) : M R Response :=
  match req with
  | Err err => mret (writeError StatusBadRequest err)
  | Ok req =>
      if decide (cj_Name req = "" ∨ cj_WorkerType req = "") then
        mret (writeError StatusBadRequest (new_error "name and worker_type are required"))
      else
        let job := Job.zero <| Job.Name := cj_Name req |>
                            <| Job.WorkerType := cj_WorkerType req |>
                            <| Job.Command := cj_Command req |>
                            <| Job.Status := JobStatusPending |>
                            <| Job.ApprovalStatus := ApprovalStatusNotRequired |>
                            <| Job.SourceType := "manual_job" |>
                            <| Job.ApprovalRequired := false |> in
        match cj_WorkerIDs req with
        | _ :: _ =>
            assigned ← loop (assign_copy req job) (cj_WorkerIDs req) [];
            match assigned with
            | inl resp => mret resp
            | inr assigned =>
                _ ← recordAudit "user" (User.Username user) "job.created_and_assigned" "job" ""
                      [("worker_type", VString (cj_WorkerType req));
                       ("worker_ids", VStrings (cj_WorkerIDs req));
                       ("job_count", VInt (Z.of_nat (length assigned)))];
                mret (writeJSON StatusCreated (BJobList assigned
                  [("total", VInt (Z.of_nat (length assigned)));
                   ("worker_ids", VStrings (cj_WorkerIDs req))]))
            end
        | [] =>
            created ← call (λ e, CreateJob e job);
            match created with
            | Err err => mret (writeError StatusInternalServerError err)
            | Ok created =>
                _ ← recordAudit "user" (User.Username user) "job.created" "job" (Job.ID created)
                      [("worker_type", VString (cj_WorkerType req))];
                mret (writeJSON StatusCreated (BJob created))
            end
        end
  end.

(** [q] is [r.URL.Query().Get]. *)
Definition handleListJobs (q : string → string) : M R Response :=
  let limitValue := trim_space (q "limit") in
  let limit := match atoi limitValue with
               | Some n => if (0 <? n)%Z then n else 0%Z
               | None => 0%Z
               end in
  let filter := mkFilter (trim_space (q "source_type")) (trim_space (q "worker_type"))
                  (trim_space (q "status")) (if decide (limitValue = "") then 0%Z else limit) in
  jobs ← query (λ e, ListJobs e filter);
  match jobs with
  | Err err => mret (writeError StatusInternalServerError err)
  | Ok jobs => mret (writeJSON StatusOK (BJobs jobs))
  end.

Definition jobs_prefix : string := "/api/v1/jobs/".

Definition handleGetJob (path : string) : M R Response :=
  let id := trim_prefix path jobs_prefix in
  if decide (id = "") then mret (writeError StatusBadRequest (new_error "job id is required"))
  else
    job ← query (λ _, GetJob id);
    match job with
    | Err err => mret (writeError StatusNotFound err)
    | Ok job => mret (writeJSON StatusOK (BJob job))
    end.

Definition handleDeleteJob (user : User.t) (path : string) : M R Response :=
  let id := trim_prefix path jobs_prefix in
  if decide (id = "") then mret (writeError StatusBadRequest (new_error "job id is required"))
  else
    res ← call (λ e, DeleteJob e id);
    match res with
    | Err err => mret (writeError StatusBadRequest err)
    | Ok _ =>
        _ ← recordAudit "user" (User.Username user) "job.deleted" "job" id [];
        mret (writeJSON StatusOK (status_map "deleted"))
    end.

(** The copy of [base] for the worker [wid], for every worker but the first. *)
Definition dispatch_clone (base : Job.t) (wid : string) : Job.t :=
  base <| Job.ID := "" |>
       <| Job.Name := "[dispatch:" +:+ Job.ID base +:+ "][worker:" +:+ wid +:+ "] " +:+ Job.Name base |>
       <| Job.Status := JobStatusPending |>
       <| Job.AssignedWorkerID := "" |>
       <| Job.Output := "" |>
       <| Job.StartedAt := None |>
       <| Job.FinishedAt := None |>
       <| Job.SourceID := Job.ID base |>
       <| Job.SourceType := if decide (Job.SourceType base = "") then "manual_dispatch"
                            else Job.SourceType base |>.

Definition dispatch_one (base : Job.t) (target : nat * string) : M R (Response + Job.t) :=
  let '(i, wid) := target in
  worker ← query (λ e, GetWorker e wid);
  match worker with
  | Err _ => mret (inl (writeError StatusBadRequest (Errorf "worker %s not found" [AStr wid])))
  | Ok worker =>
      if negb (WorkerCanRunType (Worker.WorkerType worker) (Job.WorkerType base)) then
        mret (inl (writeError StatusBadRequest
          (type_mismatch wid (Worker.WorkerType worker) (Job.WorkerType base))))
      else
        targetID ← (if decide (i = 0) then mret (inr (Job.ID base))
                    else
                      created ← call (λ e, CreateJob e (dispatch_clone base wid));
                      mret (match created with
                            | Err err => inl (writeError StatusInternalServerError err)
                            | Ok created => inr (Job.ID created)
                            end));
        match targetID with
        | inl resp => mret (inl resp)
        | inr targetID =>
            job ← dispatchJobToWorker targetID wid;
            match job with
            | Err err => mret (inl (writeError StatusInternalServerError err))
            | Ok job =>
                _ ← PushJob wid job;
                mret (inr job)
            end
        end
  end.

(** [for i, wid := range workerIDs]. *)
Definition enumerate (l : list string) : list (nat * string) := zip (seq 0 (length l)) l.

Definition handleDispatchJob (user : User.t) (path : string) (req : result (list string))
    : M R Response :=
  let jobID := trim_suffix (trim_prefix path jobs_prefix) "/dispatch" in
  if decide (jobID = "") then mret (writeError StatusBadRequest (new_error "job id is required"))
  else
    match req with
    | Err err => mret (writeError StatusBadRequest err)
    | Ok workerIDs =>
        if decide (workerIDs = []) then
          mret (writeError StatusBadRequest (new_error "worker_ids is required"))
        else
          base ← query (λ _, GetJob jobID);
          match base with
          | Err err => mret (writeError StatusNotFound err)
          | Ok base =>
              if decide (Job.Status base ≠ JobStatusPending ∧ Job.Status base ≠ JobStatusQueued) then
                mret (writeError StatusBadRequest
                  (Errorf "job status must be pending, got %s" [AStr (Job.Status base)]))
              else
                dispatched ← loop (dispatch_one base) (enumerate workerIDs) [];
                match dispatched with
                | inl resp => mret resp
                | inr dispatched =>
                    _ ← recordAudit "user" (User.Username user) "job.dispatched" "job" (Job.ID base)
                          [("worker_ids", VStrings workerIDs);
                           ("job_count", VInt (Z.of_nat (length dispatched)))];
                    mret (writeJSON StatusOK (BJobList dispatched
                      [("total", VInt (Z.of_nat (length dispatched)));
                       ("worker_ids", VStrings workerIDs)]))
                end
          end
    end.

Definition handleJobActions (user : User.t) (method path : string) (req : result (list string))
    : M R Response :=
  if decide (method = "GET") then handleGetJob path
  else if decide (method = "POST") then
    if has_suffix path "/dispatch" then handleDispatchJob user path req
    else mret (writeError StatusMethodNotAllowed (new_error "unsupported method"))
  else if decide (method = "DELETE") then handleDeleteJob user path
  else mret (writeError StatusMethodNotAllowed (new_error "unsupported method")).

(** ** Batches of jobs in YAML *)

(** The loop of [validateAndFixYAML]: the tasks with their parameters made
    non-nil, or the first error; [i] counts from 1. *)
Fixpoint validate_tasks (it : MapIter) (reg : Registry.t) (pol : Policy.Engine) (i : Z)
    (tasks : list YAMLTask) : result (list YAMLTask) :=
  match tasks with
  | [] => Ok []
  | task :: tasks =>
      if decide (task_Template task = "") then
        Err (Errorf "task %d: template is required" [AInt i])
      else
        let task := mkTask (task_Name task) (task_Template task)
                      (Some (smap_entries (task_Parameters task))) in
        if negb (is_ok (Registry.Get reg (task_Template task))) then
          Err (Errorf "task %d: module %q is not registered" [AInt i; AStr (task_Template task)])
        else
          _ ← Policy.ValidateTemplate pol (task_Template task);
          _ ← Sensitive.ValidateNoInlineSecrets it (task_Parameters task);
          rest ← validate_tasks it reg pol (i + 1)%Z tasks;
          Ok (task :: rest)
  end.
Definition validateAndFixYAML (it : MapIter) (reg : Registry.t) (pol : Policy.Engine)
    (spec : YAMLJobSpec) : result YAMLJobSpec :=
  if decide (spec_Tasks spec = []) then Err (new_error "tasks list is empty")
  else if decide (spec_WorkerType spec = "") then Err (new_error "worker_type is required")
  else
    tasks ← validate_tasks it reg pol 1 (spec_Tasks spec);
    Ok (mkSpec (spec_Name spec) tasks (spec_WorkerType spec) (spec_Workers spec)).

Definition task_error (task : YAMLTask) (err : error) : error :=
  Errorf "task '%s': %s" [AStr (task_Name task); AErr err].

(** One copy of a task, for a worker or, with an empty [wid], for any. *)
Definition yaml_job (spec : YAMLJobSpec) (task : YAMLTask) (tmpl : CommandTemplate.t)
    (cmd wid : string) : Job.t :=
  let name :=
    if decide (wid = "") then "[yaml:" +:+ spec_Name spec +:+ "] " +:+ task_Name task
    else "[yaml:" +:+ spec_Name spec +:+ "][worker:" +:+ wid +:+ "] " +:+ task_Name task in
  Job.zero <| Job.Name := name |>
           <| Job.WorkerType := spec_WorkerType spec |>
           <| Job.Command := cmd |>
           <| Job.Status := JobStatusPending |>
           <| Job.RiskLevel := CommandTemplate.RiskLevel tmpl |>
           <| Job.ApprovalRequired := false |>
           <| Job.ApprovalStatus := ApprovalStatusNotRequired |>
           <| Job.TemplateCode := task_Template task |>
           <| Job.Parameters := cloneStringMap (task_Parameters task) |>
           <| Job.SourceType := "yaml_job" |>.

Definition create_copy (spec : YAMLJobSpec) (task : YAMLTask) (tmpl : CommandTemplate.t)
    (cmd wid : string) : M R (Response + Job.t) :=
  created ← call (λ e, CreateJob e (yaml_job spec task tmpl cmd wid));
  match created with
  | Err err => mret (inl (writeError StatusInternalServerError err))
  | Ok created =>
      if decide (wid = "") then mret (inr created)
      else
        created ← dispatchJobToWorker (Job.ID created) wid;
        match created with
        | Err err => mret (inl (writeError StatusInternalServerError err))
        | Ok created =>
            _ ← PushJob wid created;
            mret (inr created)
        end
  end.

Definition create_task (spec : YAMLJobSpec) (workerIDs : list string) (task : YAMLTask)
    : M R (Response + list Job.t) :=
  eng ← gets templateEng;
  pol ← gets policyEng;
  match TemplateEngine.Render eng (task_Template task) (task_Parameters task) with
  | Err err => mret (inl (writeError StatusBadRequest (task_error task err)))
  | Ok (tmpl, cmd) =>
      match Policy.ValidateTemplate pol (task_Template task) with
      | Err err => mret (inl (writeError StatusForbidden (task_error task err)))
      | Ok _ =>
          match Policy.ValidateCommand pol cmd with
          | Err err => mret (inl (writeError StatusForbidden (task_error task err)))
          | Ok _ =>
              let targets := match workerIDs with [] => [""] | _ => workerIDs end in
              loop (create_copy spec task tmpl cmd) targets []
          end
      end
  end.

Definition eligible (workerType : string) (w : Worker.t) : Prop :=
  WorkerCanRunType (Worker.WorkerType w) workerType = true ∧
  Worker.Status w = WorkerStatusOnline.
#[local] Instance eligible_dec t w : Decision (eligible t w).
Proof. unfold eligible. apply _. Defined.

Definition resolve_workers (spec : YAMLJobSpec) : M R (list string) :=
  match spec_Workers spec with
  | [w] =>
      if decide (to_lower w = "all") then
        all ← query ListWorkers;
        let all := match all with Ok l => l | Err _ => [] end in
        mret (Worker.ID <$> filter (eligible (spec_WorkerType spec)) all)
      else mret [w]
  | ws => mret ws
  end.

Fixpoint audit_yaml_jobs (user : User.t) (spec : YAMLJobSpec) (jobs : list Job.t) : M R unit :=
  match jobs with
  | [] => mret tt
  | j :: jobs =>
      _ ← recordAudit "user" (User.Username user) "yaml_job.created" "job" (Job.ID j)
            [("worker_type", VString (spec_WorkerType spec));
             ("template", VString (Job.TemplateCode j))];
      audit_yaml_jobs user spec jobs
  end.

Definition handleCreateJobFromYAML (user : User.t) (req : result string) : M R Response :=
  match req with
  | Err err => mret (writeError StatusBadRequest err)
  | Ok text =>
      if decide (text = "") then
        mret (writeError StatusBadRequest (new_error "yaml payload is required"))
      else
        match unmarshal_jobs text with
        | Err err => mret (writeError StatusBadRequest (Errorf "invalid yaml: %s" [AErr err]))
        | Ok spec =>
            e ← read;
            reg ← gets moduleReg;
            pol ← gets policyEng;
            match validateAndFixYAML (order e) reg pol spec with
            | Err err => mret (writeError StatusBadRequest err)
            | Ok spec =>
                workerIDs ← resolve_workers spec;
                created ← loop (create_task spec workerIDs) (spec_Tasks spec) [];
                match created with
                | inl resp => mret resp
                | inr created =>
                    let created := concat created in
                    _ ← audit_yaml_jobs user spec created;
                    mret (writeJSON StatusCreated (BJobList created
                      [("total", VInt (Z.of_nat (length created)));
                       ("worker_count", VInt (Z.of_nat (length workerIDs)))]))
                end
            end
        end
  end.

Definition handleAddWorkerLog (entry : result WorkerLog.t) : M R Response :=
  match entry with
  | Err err => mret (writeError StatusBadRequest err)
  | Ok entry =>
      res ← call (λ e, AddWorkerLog e entry);
      match res with
      | Err err => mret (writeError StatusInternalServerError err)
      | Ok _ => mret (writeJSON StatusCreated (status_map "logged"))
      end
  end.

(** ** Approvals *)
Record approveJobRequest := mkApprove { Approved : option bool; Comment : string }.

Definition handleListPendingApprovalJobs : M R Response :=
  jobs ← query ListPendingApprovalJobs;
  mret (writeJSON StatusOK (BJobs (match jobs with Ok l => l | Err _ => [] end))).

(** The block that dispatches an approved job to the worker the Agent chose;
    the handler has it twice. *)
Definition auto_dispatch (approved : bool) (job : Job.t) : M R Job.t :=
  if approved && bool_decide (Job.AssignedWorkerID job ≠ "") then
    dispatched ← dispatchJobToWorker (Job.ID job) (Job.AssignedWorkerID job);
    match dispatched with
    | Ok dispatched =>
        _ ← PushJob (Job.AssignedWorkerID job) dispatched;
        mret dispatched
    | Err _ => mret job
    end
  else mret job.

(** The run that waits for a rejected job is cancelled. *)
Definition cancel_waiting_run (job : Job.t) : M R unit :=
  run ← query (λ _, GetAgentRun (Job.SourceID job));
  match run with
  | Err _ => mret tt
  | Ok run =>
      if decide (AgentRun.Status run = AgentRunStatusWaitingApproval) then
        let run := run <| AgentRun.Status := AgentRunStatusCancelled |>
                       <| AgentRun.Error := "approval rejected" |> in
        _ ← call (λ e, UpdateAgentRun e run);
        _ ← call (λ e, AddAgentEvent e (AgentEvent.zero
              <| AgentEvent.RunID := AgentRun.ID run |>
              <| AgentEvent.Type_ := "approval_rejected" |>
              <| AgentEvent.Data := [("job_id", VString (Job.ID job))] |>));
        mret tt
      else mret tt
  end.

Definition handleApproveJob (user : User.t) (path : string) (req : result approveJobRequest)
    : M R Response :=
  let jobID := trim_prefix path "/api/v1/approvals/jobs/" in
  if decide (jobID = "") then mret (writeError StatusBadRequest (new_error "job id is required"))
  else
    match req with
    | Err err => mret (writeError StatusBadRequest err)
    | Ok req =>
        match Approved req with
        | None => mret (writeError StatusBadRequest (new_error "approved is required"))
        | Some approved =>
            job ← (if approved : bool
                   then call (λ e, ApproveJob e jobID (User.Username user) (Comment req))
                   else call (λ e, RejectJob e jobID (User.Username user) (Comment req)));
            match job with
            | Err err => mret (writeError StatusBadRequest err)
            | Ok job =>
                _ ← (match Job.ApprovedAt job with
                     | Some _ =>
                         e ← read;
                         modify (λ w, w <| agentMetrics :=
                           AgentMetrics.approval (now e) (Job.CreatedAt job) (agentMetrics w) |>)
                     | None => mret tt
                     end);
                job ← auto_dispatch approved job;
                _ ← (if approved && bool_decide (Job.SourceID job ≠ "")
                     then spawn (ResumeRun (Job.SourceID job)) else mret tt);
                _ ← (if negb approved && bool_decide (Job.SourceID job ≠ "")
                     then cancel_waiting_run job else mret tt);
                job ← auto_dispatch approved job;
                let action := if approved then "job.approval.approved"
                              else "job.approval.rejected" in
                _ ← recordAudit "user" (User.Username user) action "job" (Job.ID job)
                      [("comment", VString (Comment req));
                       ("source_type", VString (Job.SourceType job));
                       ("source_id", VString (Job.SourceID job));
                       ("status", VTyped "model.JobStatus" (Job.Status job))];
                mret (writeJSON StatusOK (BJob job))
            end
        end
    end.

(** ** Audit logs, conversations and cases *)
Definition handleListAuditLogs (q : string → string) : M R Response :=
  logs ← query (λ e, ListAuditLogs e (q "resource_type") (q "resource_id"));
  mret (writeJSON StatusOK (BAuditLogs (match logs with Ok l => l | Err _ => [] end))).

Definition handleListConversations : M R Response :=
  convs ← query ListConversations;
  match convs with
  | Err err => mret (writeError StatusInternalServerError err)
  | Ok convs => mret (writeJSON StatusOK (BConversations convs))
  end.

(** [title] is the field after decoding, whose error is ignored. *)
Definition handleCreateConversation (user : User.t) (title : string) : M R Response :=
  conv ← call (λ e, CreateConversation e (trim_space title));
  match conv with
  | Err err => mret (writeError StatusInternalServerError err)
  | Ok conv =>
      _ ← recordAudit "user" (User.Username user) "conversation.created" "conversation"
            (Conversation.ID conv) [];
      mret (writeJSON StatusCreated (BConversation conv))
  end.

Definition handleConversationActions (user : User.t) (method path : string) : M R Response :=
  let id := trim_suffix (trim_prefix path "/api/v1/conversations/") "/messages" in
  if decide (id = "") then
    mret (writeError StatusBadRequest (new_error "conversation id is required"))
  else if bool_decide (method = "GET") && has_suffix path "/messages" then
    msgs ← query (λ _, ListConversationMessages id);
    match msgs with
    | Err err => mret (writeError StatusInternalServerError err)
    | Ok msgs => mret (writeJSON StatusOK (BMessages msgs))
    end
  else if decide (method = "GET") then
    conv ← query (λ _, GetConversation id);
    match conv with
    | Err err => mret (writeError StatusNotFound err)
    | Ok conv =>
        msgs ← query (λ _, ListConversationMessages id);
        match msgs with
        | Err err => mret (writeError StatusInternalServerError err)
        | Ok msgs => mret (writeJSON StatusOK (BConversationMessages conv msgs))
        end
    end
  else if decide (method = "DELETE") then
    res ← call (λ e, DeleteConversation e id);
    match res with
    | Err err => mret (writeError StatusNotFound err)
    | Ok _ =>
        _ ← recordAudit "user" (User.Username user) "conversation.deleted" "conversation" id [];
        mret (writeJSON StatusOK (status_map "deleted"))
    end
  else mret (writeError StatusMethodNotAllowed (new_error "unsupported method")).

Definition parsePositiveInt (value : string) : Z :=
  if decide (value = "") then 0%Z
  else match atoi value with
       | Some parsed => if (parsed <=? 0)%Z then 0%Z else parsed
       | None => 0%Z
       end.

Definition handleListIncidentCases (q : string → string) : M R Response :=
  let filter := IncidentCaseFilter.mk (trim_space (q "q")) (trim_space (q "trigger_type"))
                  (trim_space (q "fault_type")) [] (parsePositiveInt (q "limit")) in
  cases ← query (λ e, ListIncidentCases e filter);
  mret (writeJSON StatusOK (BCases (match cases with Ok l => l | Err _ => [] end))).

Definition buildHistoricalHints (cases : list IncidentCase.t) : list string :=
  omap (λ c, match IncidentCase.Suggestions c with
             | [] => None
             | s :: _ => Some (IncidentCase.Title c +:+ ": " +:+ s)
             end) cases.

Definition handleSuggestIncidentCases (q : string → string) : M R Response :=
  let limit := parsePositiveInt (q "limit") in
  let limit := if (limit =? 0)%Z then 3%Z else limit in
  cases ← query (λ e, FindSimilarIncidentCases e (trim_space (q "description"))
            (trim_space (q "trigger_type")) (trim_space (q "fault_type")) limit);
  let cases := match cases with Ok l => l | Err _ => [] end in
  mret (writeJSON StatusOK (BCaseHints cases (buildHistoricalHints cases))).

End handlers.
End Server.
