(* ===== verification/Auth.v ===== *)
(** * Authentication and users

    The service of tokens and users ([internal/infrastructure/auth/service.go])
    and the handlers of users with the two authentication wrappers
    ([internal/interfaces/http/user.go]). bcrypt and the JSON encoding of claims
    are parameters; the signature is HMAC-SHA256 as defined in [Crypto]. *)
From S2P Require Import Prelude.
From S2P Require Import GoStrings.
From S2P Require Import Fmt.
From S2P Require Import Crypto.
From S2P Require Import Model.
From S2P Require Import Repository.
From S2P Require Import World.
From S2P Require Import Server.

Import Repository World Server.Server Fmt.Fmt.

(** [golang.org/x/crypto/bcrypt]; the salt is drawn at random. The comparison is
    true when it returns no error. *)
Class Bcrypt := {
  GenerateFromPassword : nat → string → result string;
  CompareHashAndPassword : string → string → bool;
}.

Module Claims.
Record t := mk { Subject : string; Role : string; Expiry : Z }.
End Claims.

(** [encoding/json] on the claims of a token. *)
Class ClaimsJSON := {
  marshal_claims : Claims.t → string;
  unmarshal_claims : string → result Claims.t;
}.

(** [auth.UserStore]. *)
Class UserStore (U : Type) := {
  store_CreateUser : string → string → string → U → result User.t * U;
  store_GetUser : string → U → result (option (string * User.t));
  store_ListUsers : U → result (list User.t);
  store_DeleteUser : string → U → result unit * U;
  store_UpdatePassword : string → string → U → result unit * U;
}.

Module Auth.

Record storedUser := mkStored { password : string; user : User.t }.

Record Service (U : Type) := mkService {
  adminUsername : string;
  adminPassword : string;
  secret : string;
  users : gmap string storedUser;
  userStore : option U;
}.
Arguments mkService {U}.
Arguments adminUsername {U}.
Arguments adminPassword {U}.
Arguments secret {U}.
Arguments users {U}.
Arguments userStore {U}.
#[global] Instance Service_eta U : Eta (Service U) := λ s,
  mkService (adminUsername s) (adminPassword s) (secret s) (users s) (userStore s).

Section service.
Context {U : Type} `{US : UserStore U} `{B : Bcrypt} `{J : ClaimsJSON}.
Implicit Types s : Service U.

Definition NewService (salt : nat) (adminUsername adminPassword secret : string) : Service U :=
  let passwordHash :=
    match GenerateFromPassword salt adminPassword with
    | Ok hash => hash
    | Err _ => adminPassword
    end in
  mkService adminUsername adminPassword secret
    {[ adminUsername := mkStored passwordHash (User.mk adminUsername "admin") ]} None.

Definition SetUserStore (store : U) s : Service U := s <| userStore := Some store |>.

(** An operation on the store, if there is one. *)
Definition on_store (op : U → result unit * U) s : result unit * Service U :=
  match userStore s with
  | None => (Ok tt, s)
  | Some u => let '(res, u) := op u in (res, s <| userStore := Some u |>)
  end.
Definition discard {A} (r : result A * U) : result unit * U :=
  (match r.1 with Ok _ => Ok tt | Err e => Err e end, r.2).

Definition SeedUserStore s : result unit * Service U :=
  match userStore s with
  | None => (Ok tt, s)
  | Some u =>
      match store_GetUser (adminUsername s) u with
      | Err err => (Err err, s)
      | Ok (Some _) => (Ok tt, s)
      | Ok None =>
          let hash := match users s !! adminUsername s with Some r => password r | None => "" end in
          on_store (λ u, discard (store_CreateUser (adminUsername s) hash "admin" u)) s
      end
  end.

(** *** Tokens *)
Definition encodeSegment : string → string := Base64.encode.
Definition decodeSegment : string → result string := Base64.decode.

Definition signRaw s (signingInput : string) : string :=
  encodeSegment (Sha256.hmac (secret s) signingInput).

(** The JSON of the header, an object with two sorted keys. *)
Definition headerBytes : string :=
  let q x := dquote +:+ x +:+ dquote in
  "{" +:+ q "alg" +:+ ":" +:+ q "HS256" +:+ "," +:+ q "typ" +:+ ":" +:+ q "JWT" +:+ "}".

Definition sign s (claims : Claims.t) : string :=
  let signingInput := encodeSegment headerBytes +:+ "." +:+ encodeSegment (marshal_claims claims) in
  signingInput +:+ "." +:+ signRaw s signingInput.

Definition unix (t : time) : Z := t / second.

Definition generateToken s (now : time) (u : User.t) : string * User.t :=
  (sign s (Claims.mk (User.Username u) (User.Role u) (unix (now + 12 * hour))), u).

Definition ParseToken s (now : time) (token : string) : result User.t :=
  match split token "." with
  | [header; payload; signature] =>
      if negb (bool_decide (signature = signRaw s (header +:+ "." +:+ payload)))
      then Err (new_error "invalid token signature")
      else
        payload ← decodeSegment payload;
        claims ← unmarshal_claims payload;
        if (Claims.Expiry claims <? unix now)%Z then Err (new_error "token expired")
        else Ok (User.mk (Claims.Subject claims) (Claims.Role claims))
  | _ => Err (new_error "invalid token format")
  end.

(** *** Users *)
Definition bad_login : error := new_error "invalid username or password".

Definition Login s (now : time) (username pw : string) : result (string * User.t) :=
  let from_memory :=
    match users s !! username with
    | Some record =>
        if CompareHashAndPassword (password record) pw then Ok (generateToken s now (user record))
        else if decide (pw = password record) then Ok (generateToken s now (user record))
        else Err bad_login
    | None => Err bad_login
    end in
  match userStore s with
  | None => from_memory
  | Some u =>
      match store_GetUser username u with
      | Err err => Err (Errorf "login: %w" [AErr err])
      | Ok None => from_memory
      | Ok (Some (passwordHash, found)) =>
          if CompareHashAndPassword passwordHash pw || bool_decide (pw = passwordHash)
          then Ok (generateToken s now found) else Err bad_login
      end
  end.

Definition CreateUser (salt : nat) (username pw role : string) s : result User.t * Service U :=
  let username := trim_space username in
  let pw := trim_space pw in
  let role := trim_space role in
  if decide (username = "" ∨ pw = "") then
    (Err (new_error "username and password are required"), s)
  else
    let role := if decide (role = "") then "operator" else role in
    if decide (role ≠ "admin" ∧ role ≠ "operator") then
      (Err (new_error "role must be admin or operator"), s)
    else
      match GenerateFromPassword salt pw with
      | Err err => (Err (Errorf "hash password: %w" [AErr err]), s)
      | Ok passwordHash =>
          match on_store (λ u, discard (store_CreateUser username passwordHash role u)) s with
          | (Err err, s) => (Err err, s)
          | (Ok _, s) =>
              match users s !! username with
              | Some _ => (Err (new_error "user already exists"), s)
              | None =>
                  let u := User.mk username role in
                  (Ok u, s <| users := <[username := mkStored passwordHash u]> (users s) |>)
              end
          end
      end.

Definition ListUsers (it : MapIter) s : list User.t :=
  let from_memory :=
    sort_slice (λ x y, str_lt (User.Username x) (User.Username y)) (user <$> range_values it (users s)) in
  match userStore s with
  | None => from_memory
  | Some u => match store_ListUsers u with Ok l => l | Err _ => from_memory end
  end.

Definition DeleteUser (username : string) s : result unit * Service U :=
  let username := trim_space username in
  if decide (username = "") then (Err (new_error "username is required"), s)
  else if decide (username = adminUsername s) then
    (Err (new_error "cannot delete the initial admin user"), s)
  else
    match on_store (store_DeleteUser username) s with
    | (Err err, s) => (Err err, s)
    | (Ok _, s) =>
        match users s !! username with
        | None => (Err (new_error "user not found"), s)
        | Some _ => (Ok tt, s <| users := delete username (users s) |>)
        end
    end.

Definition ChangePassword (salt : nat) (username newPassword : string) s : result unit * Service U :=
  let username := trim_space username in
  let newPassword := trim_space newPassword in
  if decide (username = "" ∨ newPassword = "") then
    (Err (new_error "username and new password are required"), s)
  else
    match GenerateFromPassword salt newPassword with
    | Err err => (Err (Errorf "hash password: %w" [AErr err]), s)
    | Ok passwordHash =>
        match on_store (store_UpdatePassword username passwordHash) s with
        | (Err err, s) => (Err err, s)
        | (Ok _, s) =>
            match users s !! username with
            | None => (Err (new_error "user not found"), s)
            | Some record =>
                (Ok tt, s <| users := <[username := mkStored passwordHash (user record)]> (users s) |>)
            end
        end
    end.
End service.
End Auth.

(** ** Handlers

    A handler of users maps the service to the new one and to the rest of its
    work on the server. The request is authenticated at the time [now]. *)
Module Users.
Import Auth.

Section handlers.
Context {R : Type} `{RR : Repository R} `{O : Oracle}.
Context {U : Type} `{US : UserStore U} `{B : Bcrypt} `{J : ClaimsJSON}.
Implicit Types s : Service U.

Record createUserRequest := mkCreateUser { cu_Username : string; cu_Password : string; cu_Role : string }.

Definition handleLogin (now : time) (req : result (string * string)) s : Response :=
  match req with
  | Err err => writeError StatusBadRequest err
  | Ok (username, pw) =>
      match Login s now username pw with
      | Err err => writeError StatusUnauthorized err
      | Ok (token, u) => writeJSON StatusOK (BToken token u)
      end
  end.

(** [header] is the header Authorization; [deny] answers instead of the wrapped
    handler. *)
Definition withUserAuth {A} s (now : time) (header : string) (deny : Response → A)
    (next : User.t → A) : A :=
  let token := bearerToken header in
  if decide (token = "") then deny (writeError StatusUnauthorized (new_error "missing bearer token"))
  else match ParseToken s now token with
       | Err err => deny (writeError StatusUnauthorized err)
       | Ok u => next u
       end.

Definition admin_required : Response := writeError StatusForbidden (new_error "admin role required").

Definition withAdminAuth {A} s now header (deny : Response → A) (next : User.t → A) : A :=
  withUserAuth s now header deny (λ u,
    if decide (User.Role u ≠ "admin") then deny admin_required else next u).

(** A response and no more work. *)
Definition answer s (resp : Response) : Service U * M R Response := (s, mret resp).

Definition handleListUsers (it : MapIter) (actor : User.t) s : Service U * M R Response :=
  if decide (User.Role actor ≠ "admin") then answer s admin_required
  else answer s (writeJSON StatusOK (BUsers (ListUsers it s))).

Definition handleCreateUser (salt : nat) (actor : User.t) (req : result createUserRequest) s
    : Service U * M R Response :=
  if decide (User.Role actor ≠ "admin") then answer s admin_required
  else match req with
  | Err err => answer s (writeError StatusBadRequest err)
  | Ok req =>
      match CreateUser salt (cu_Username req) (cu_Password req) (cu_Role req) s with
      | (Err err, s) => answer s (writeError StatusBadRequest err)
      | (Ok u, s) =>
          (s, _ ← recordAudit "user" (User.Username actor) "user.created" "user" (User.Username u)
                    [("role", VString (User.Role u))];
              mret (writeJSON StatusCreated (BUser u)))
      end
  end.

Definition users_prefix : string := "/api/v1/users/".

Definition handleDeleteUser (actor : User.t) (path : string) s : Service U * M R Response :=
  if decide (User.Role actor ≠ "admin") then answer s admin_required
  else
    let username := trim_prefix path users_prefix in
    if decide (username = "") then
      answer s (writeError StatusBadRequest (new_error "username is required"))
    else
      let username := split_first username "/" in
      if decide (username = User.Username actor) then
        answer s (writeError StatusBadRequest (new_error "cannot delete yourself"))
      else
        match DeleteUser username s with
        | (Err err, s) => answer s (writeError StatusBadRequest err)
        | (Ok _, s) =>
            (s, _ ← recordAudit "user" (User.Username actor) "user.deleted" "user" username [];
                mret (writeJSON StatusOK (status_map "deleted")))
        end.

Definition handleChangePassword (salt : nat) (actor : User.t) (path : string) (req : result string) s
    : Service U * M R Response :=
  match split (trim_prefix path users_prefix) "/" with
  | username :: action :: _ =>
      if decide (action ≠ "password") then
        answer s (writeError StatusNotFound (new_error "route not found"))
      else if decide (User.Role actor ≠ "admin" ∧ User.Username actor ≠ username) then
        answer s (writeError StatusForbidden (new_error "cannot change another user's password"))
      else
        match req with
        | Err err => answer s (writeError StatusBadRequest err)
        | Ok newPassword =>
            if decide (newPassword = "") then
              answer s (writeError StatusBadRequest (new_error "new_password is required"))
            else
              match ChangePassword salt username newPassword s with
              | (Err err, s) => answer s (writeError StatusBadRequest err)
              | (Ok _, s) =>
                  (s, _ ← recordAudit "user" (User.Username actor) "user.password_changed" "user"
                            username [];
                      mret (writeJSON StatusOK (status_map "password updated")))
              end
        end
  | _ => answer s (writeError StatusNotFound (new_error "route not found"))
  end.

(** The routes of users, behind [withUserAuth]. *)
Inductive request :=
  | ListUsersRequest (it : MapIter)
  | CreateUserRequest (salt : nat) (req : result createUserRequest)
  | DeleteUserRequest (path : string)
  | ChangePasswordRequest (salt : nat) (path : string) (req : result string).

Definition handle (req : request) (actor : User.t) s : Service U * M R Response :=
  match req with
  | ListUsersRequest it => handleListUsers it actor s
  | CreateUserRequest salt req => handleCreateUser salt actor req s
  | DeleteUserRequest path => handleDeleteUser actor path s
  | ChangePasswordRequest salt path req => handleChangePassword salt actor path req s
  end.
Definition serve (now : time) (header : string) (req : request) s : Service U * M R Response :=
  withUserAuth s now header (answer s) (λ actor, handle req actor s).
End handlers.
End Users.
