(* ===== verification/AuthFacts.v ===== *)
(** * Properties of authentication and users

    Tokens, logins and the administration of users. *)
From Stdlib Require Import Ascii.
From S2P Require Import Prelude.
From S2P Require Import GoStrings.
From S2P Require Import Crypto.
From S2P Require Import Model.
From S2P Require Import Repository.
From S2P Require Import MemoryRepo.
From S2P Require Import World.
From S2P Require Import Server.
From S2P Require Import Auth.

Import Repository World Server.Server Auth.Auth Users.

Module AuthFacts.

(** ** Tokens *)
Definition dot : ascii := "."%char.

Lemma sextet_dot i v s : free dot s → free dot (String (Base64.sextet i v) s).
Proof.
  intros Hs. apply free_cons. split; [|done]. intros Heq.
  apply (Base64.char_no_dot (v / 2 ^ i mod 64)); [by apply Z.mod_pos_bound|].
  unfold Base64.sextet in Heq. by rewrite Heq.
Qed.

Lemma encode_dot s : free dot (Base64.encode s).
Proof.
  remember (String.length s) as n eqn:Hn. revert s Hn.
  induction n as [n IH] using lt_wf_ind. intros s ->.
  destruct s as [|x [|y [|z s]]]; [done|..]; cbn [Base64.encode]; repeat apply sextet_dot; try done.
  apply (IH (String.length s)); [simpl; lia|done].
Qed.

Section tokens.
Context {U : Type} `{US : UserStore U} `{B : Bcrypt} `{J : ClaimsJSON}.
Implicit Types s : Service U.

Lemma split_sign s c :
  split (sign s c) "." =
    [encodeSegment headerBytes; encodeSegment (marshal_claims c);
     signRaw s (encodeSegment headerBytes +:+ "." +:+ encodeSegment (marshal_claims c))].
Proof.
  unfold sign. set (sig := signRaw _ _). rewrite !string_app_assoc.
  apply (split_join dot [encodeSegment headerBytes; encodeSegment (marshal_claims c); sig]); [done|].
  repeat constructor; apply encode_dot.
Qed.

Lemma parse_sign s now c :
  unmarshal_claims (marshal_claims c) = Ok c →
  ParseToken s now (sign s c) =
    if (Claims.Expiry c <? unix now)%Z then Err (new_error "token expired")
    else Ok (User.mk (Claims.Subject c) (Claims.Role c)).
Proof.
  intros Hc. unfold ParseToken. rewrite split_sign, bool_decide_eq_true_2 by done. simpl.
  unfold decodeSegment, encodeSegment, Base64.decode. rewrite Base64.decode_encode_from. simpl.
  by rewrite Hc.
Qed.

(** C22: the token of a login names its user until twelve hours later, and is
    refused from the second after that on, provided that JSON reads back the
    claims it wrote. *)
Theorem token_roundtrip s (now later : time) (u : User.t) :
  let c := Claims.mk (User.Username u) (User.Role u) (unix (now + 12 * hour)) in
  unmarshal_claims (marshal_claims c) = Ok c →
  ParseToken s later (generateToken s now u).1 =
    if bool_decide (unix later ≤ unix now + 12 * 3600)%Z then Ok u
    else Err (new_error "token expired").
Proof.
  intros c Hc. change (generateToken s now u).1 with (sign s c). rewrite (parse_sign s later c Hc). subst c. cbn [Claims.Expiry Claims.Subject Claims.Role].
  assert (unix (now + 12 * hour) = unix now + 12 * 3600)%Z as ->.
  { unfold unix. change (12 * hour)%Z with (12 * 3600 * second)%Z. by rewrite Z.div_add. }
  case_bool_decide as Hle; [rewrite (proj2 (Z.ltb_ge _ _) Hle); by destruct u|].
  by rewrite (proj2 (Z.ltb_lt _ _)) by lia.
Qed.

(** C21: a token is accepted for a user exactly when it has three segments, the
    last one is the signature of the first two under the secret of the service,
    and the second decodes to claims of that user that have not expired. *)
Theorem parse_token_iff s (now : time) (token : string) (u : User.t) :
  ParseToken s now token = Ok u ↔
  ∃ header payload text c,
    split token "." = [header; payload; signRaw s (header +:+ "." +:+ payload)] ∧
    decodeSegment payload = Ok text ∧ unmarshal_claims text = Ok c ∧
    (unix now ≤ Claims.Expiry c)%Z ∧ u = User.mk (Claims.Subject c) (Claims.Role c).
Proof.
  unfold ParseToken. split.
  - destruct (split token ".") as [|h [|p [|sig [|]]]]; try done.
    case_bool_decide as Hs; simpl; [|done]. subst sig.
    intros (text & Ht & Hrest)%result_bind_Ok. apply result_bind_Ok in Hrest as (c & Hc & Hrest).
    destruct (Z.ltb_spec (Claims.Expiry c) (unix now)); [done|]. injection Hrest as <-.
    exists h, p, text, c. split_and!; done.
  - intros (h & p & text & c & -> & Ht & Hc & He & ->).
    rewrite bool_decide_eq_true_2 by done. simpl. rewrite Ht. simpl. rewrite Hc. simpl.
    by rewrite (proj2 (Z.ltb_ge _ _) He).
Qed.
End tokens.

(** ** Users *)
Section users.
Context {U : Type} `{US : UserStore U} `{B : Bcrypt} `{J : ClaimsJSON}.
Implicit Types s : Service U.

(** Without a database a login succeeds exactly for a stored user whose
    hash the password matches or is equal to, and returns that user and a
    token. *)
Theorem login_iff s (now : time) (username pw token : string) (u : User.t) :
  userStore s = None →
  (Login s now username pw = Ok (token, u) ↔
   ∃ r, users s !! username = Some r ∧ u = user r ∧ token = (generateToken s now u).1 ∧
     (CompareHashAndPassword (password r) pw = true ∨ pw = password r)).
Proof.
  intros Hs. unfold Login. rewrite Hs. split.
  - destruct (users s !! username) as [r|]; [|done]. intros Hl. exists r.
    destruct (CompareHashAndPassword (password r) pw); [|case_decide; [|done]];
      injection Hl as <- <-; split_and!; auto.
  - intros (r & -> & -> & -> & [-> | ->]); [done|]. rewrite decide_True by done.
    by destruct (CompareHashAndPassword _ _).
Qed.

(** The operations of the service, and what every sequence of them keeps. *)
Inductive operation :=
  | op_create (salt : nat) (username pw role : string)
  | op_delete (username : string)
  | op_change (salt : nat) (username pw : string).
Definition run_op (o : operation) s : Service U :=
  match o with
  | op_create salt username pw role => (CreateUser salt username pw role s).2
  | op_delete username => (DeleteUser username s).2
  | op_change salt username pw => (ChangePassword salt username pw s).2
  end.

Definition known_role (role : string) : Prop := role = "admin" ∨ role = "operator".
Definition users_wf s : Prop :=
  (∃ r, users s !! adminUsername s = Some r ∧ user r = User.mk (adminUsername s) "admin") ∧
  ∀ k r, users s !! k = Some r → User.Username (user r) = k ∧ known_role (User.Role (user r)).

Lemma on_store_fields (op : U → result unit * U) s :
  users (on_store op s).2 = users s ∧ adminUsername (on_store op s).2 = adminUsername s ∧
  secret (on_store op s).2 = secret s.
Proof. unfold on_store. destruct (userStore s) as [u|]; [by destruct (op u)|done]. Qed.

(** Every operation changes at most one entry of the users. *)
Inductive user_change s s' : Prop :=
  | user_same : users s' = users s → user_change s s'
  | user_created u role hash :
      users s !! u = None → known_role role →
      users s' = <[u := mkStored hash (User.mk u role)]> (users s) → user_change s s'
  | user_deleted u : u ≠ adminUsername s → users s' = delete u (users s) → user_change s s'
  | user_changed u r hash :
      users s !! u = Some r → users s' = <[u := mkStored hash (user r)]> (users s) → user_change s s'.

Lemma create_change salt username pw role s :
  user_change s (CreateUser salt username pw role s).2.
Proof.
  unfold CreateUser. case_decide; [by apply user_same|]. case_decide as Hr; [by apply user_same|].
  destruct (GenerateFromPassword _ _) as [hash|]; [|by apply user_same].
  destruct (on_store_fields (λ u, discard (store_CreateUser (trim_space username) hash
    (if decide (trim_space role = "") then "operator" else trim_space role) u)) s) as (Hu & _).
  destruct (on_store _ s) as [[?|?] s']; [|by apply user_same]. simpl in Hu.
  destruct (users s' !! trim_space username) eqn:Hn; [by apply user_same|]. simpl. rewrite Hu in Hn |- *.
  eapply user_created; [done| |done]. unfold known_role. destruct (decide (trim_space role = "")); [by right|].
  destruct (decide (trim_space role = "admin")); [by left|].
  right. destruct (decide (trim_space role = "operator")); [done|]. by destruct Hr.
Qed.

Lemma delete_change username s : user_change s (DeleteUser username s).2.
Proof.
  unfold DeleteUser. case_decide; [by apply user_same|]. case_decide as Ha; [by apply user_same|].
  destruct (on_store_fields (store_DeleteUser (trim_space username)) s) as (Hu & _).
  destruct (on_store _ s) as [[?|?] s']; [|by apply user_same]. simpl in Hu.
  destruct (users s' !! trim_space username); [|by apply user_same]. simpl. rewrite Hu.
  by eapply user_deleted.
Qed.

Lemma change_change salt username pw s : user_change s (ChangePassword salt username pw s).2.
Proof.
  unfold ChangePassword. case_decide; [by apply user_same|].
  destruct (GenerateFromPassword _ _) as [hash|]; [|by apply user_same].
  destruct (on_store_fields (store_UpdatePassword (trim_space username) hash) s) as (Hu & _).
  destruct (on_store _ s) as [[?|?] s']; [|by apply user_same]. simpl in Hu.
  destruct (users s' !! trim_space username) as [r|] eqn:Hr; [|by apply user_same]. simpl. rewrite Hu in Hr |- *.
  by eapply user_changed.
Qed.

Lemma run_op_change o s : user_change s (run_op o s).
Proof. destruct o; simpl; [apply create_change|apply delete_change|apply change_change]. Qed.

Lemma run_op_admin o s : adminUsername (run_op o s) = adminUsername s.
Proof.
  pose proof (λ op, proj1 (proj2 (on_store_fields op s))) as Hf.
  destruct o; simpl; unfold CreateUser, DeleteUser, ChangePassword;
    repeat (case_match; try done);
    match goal with H : on_store ?op _ = _ |- _ => specialize (Hf op); by rewrite H in Hf end.
Qed.

Lemma users_wf_run_op o s : users_wf s → users_wf (run_op o s).
Proof.
  intros [(r & Hr & Hur) Hall]. unfold users_wf. rewrite run_op_admin.
  destruct (run_op_change o s) as [Hu|u role hash Hn Hk Hu|u Hne Hu|u r' hash Hr' Hu]; rewrite Hu.
  - eauto.
  - split; [exists r; by rewrite lookup_insert_ne by congruence|].
    intros k r' [[<- <-]|[_ Hk']]%lookup_insert_Some; eauto.
  - split; [exists r; by rewrite lookup_delete_ne|]. intros k r' [_ ?]%lookup_delete_Some. eauto.
  - split.
    + destruct (decide (u = adminUsername s)) as [->|Hne].
      * rewrite lookup_insert_eq. eexists. split; [done|]. simpl. congruence.
      * exists r. by rewrite lookup_insert_ne.
    + intros k r'' [[<- <-]|[_ Hk']]%lookup_insert_Some; [|eauto]. apply (Hall _ _ Hr').
Qed.

(** Whatever users are created, deleted and changed, the initial
    administrator stays an administrator, and every stored user has its own
    name and one of the two roles. *)
Theorem initial_admin_stays (salt : nat) (admin pw key : string) (store : option U) (ops : list operation) :
  let s := foldl (λ s o, run_op o s) ((NewService salt admin pw key) <| userStore := store |>) ops in
  (∃ r, users s !! admin = Some r ∧ user r = User.mk admin "admin") ∧
  ∀ k r, users s !! k = Some r → User.Username (user r) = k ∧ known_role (User.Role (user r)).
Proof.
  set (s0 := (NewService salt admin pw key) <| userStore := store |>).
  assert (∀ s, users_wf s → adminUsername s = admin → let s := foldl (λ s o, run_op o s) s ops in
    users_wf s ∧ adminUsername s = admin) as Hfold.
  { induction ops as [|o ops IH]; intros s Hs Ha; [done|]. apply IH; [by apply users_wf_run_op|].
    by rewrite run_op_admin. }
  destruct (Hfold s0) as [[Hw Hall] Ha]; [|done|by rewrite Ha in Hw].
  unfold users_wf, s0, NewService. simpl. split; [eexists; by rewrite lookup_singleton_eq|].
  intros k r [<- <-]%lookup_singleton_Some. split; [done|by left].
Qed.

(** The hash of a new password is accepted with the password. *)
Class BcryptLaw := bcrypt_accepts : ∀ salt pw hash,
  GenerateFromPassword salt pw = Ok hash → CompareHashAndPassword hash pw = true.

(** The rows are those of before, but for what the row [name] holds besides its
    user. *)
Definition same_but {A} (name : string) (f : A → User.t) (m m' : gmap string A) : Prop :=
  ∀ k, if decide (k = name) then f <$> m' !! k = f <$> m !! k else m' !! k = m !! k.

(** What an update of a password does to the rows of a store: a user has a row
    of its name with a hash. *)
Class UserStoreLaws (U : Type) `{UserStore U} := {
  store_rows : U → gmap string (string * User.t);
  store_get_row name u row : store_GetUser name u = Ok row → row = store_rows u !! name;
  store_update_row name hash u :
    same_but name snd (store_rows u) (store_rows (store_UpdatePassword name hash u).2);
}.

(** The password of [name] is replaced: in the store, if there is one, and in
    the memory when that succeeds. *)
Definition password_replaced (name hash : string) s s' : Prop :=
  (users s' = users s ∨ users s' = alter (λ r, mkStored hash (user r)) name (users s)) ∧
  userStore s' = (λ u, (store_UpdatePassword name hash u).2) <$> userStore s ∧
  adminUsername s' = adminUsername s ∧ adminPassword s' = adminPassword s ∧ secret s' = secret s.

Lemma alter_as_insert {A} (f : A → A) (m : gmap string A) k x :
  m !! k = Some x → alter f k m = <[k := f x]> m.
Proof.
  intros Hx. apply map_eq. intros i. destruct (decide (i = k)) as [->|].
  - by rewrite lookup_alter_eq, lookup_insert_eq, Hx.
  - by rewrite lookup_alter_ne, lookup_insert_ne by done.
Qed.

Lemma password_change salt username pw s :
  let s' := (ChangePassword salt username pw s).2 in
  s' = s ∨ ∃ hash, GenerateFromPassword salt (trim_space pw) = Ok hash ∧
    password_replaced (trim_space username) hash s s'.
Proof.
  unfold ChangePassword. case_decide; [by left|].
  destruct (GenerateFromPassword _ _) as [hash|]; [|by left]. right. exists hash. split; [done|].
  unfold on_store. destruct (userStore s) as [u|] eqn:Hu.
  - destruct (store_UpdatePassword _ hash u) as [[x|e] u'] eqn:Hup; simpl.
    + destruct (users s !! trim_space username) as [r|] eqn:Hr; simpl; (split; [|by rewrite Hu; simpl; rewrite Hup]).
      * right. by rewrite (alter_as_insert _ _ _ _ Hr).
      * by left.
    + split; [by left|]. by rewrite Hu; simpl; rewrite Hup.
  - destruct (users s !! trim_space username) as [r|] eqn:Hr; simpl; (split; [|by rewrite Hu]).
    + right. by rewrite (alter_as_insert _ _ _ _ Hr).
    + by left.
Qed.

Lemma alter_same_but {A} name (f : A → User.t) (g : A → A) (m : gmap string A) :
  (∀ r, f (g r) = f r) → same_but name f m (alter g name m).
Proof.
  intros Hg k. case_decide as Hk; [|by rewrite lookup_alter_ne].
  subst k. rewrite lookup_alter_eq. destruct (m !! name); [|done]. simpl. by rewrite Hg.
Qed.

(** After a password is changed, the user logs in with the new one, as the
    same user, and the other users are as they were. *)
Theorem password_changed `{!BcryptLaw} (salt : nat) (username pw : string) s s' (now : time) :
  userStore s = None → ChangePassword salt username pw s = (Ok tt, s') →
  let name := trim_space username in
  (∃ r, users s !! name = Some r ∧
        Login s' now name (trim_space pw) = Ok (generateToken s now (user r))) ∧
  (∀ k, k ≠ name → users s' !! k = users s !! k) ∧ userStore s' = None ∧ secret s' = secret s.
Proof.
  intros Hs Hc name. unfold ChangePassword, on_store in Hc. rewrite Hs in Hc.
  case_decide; [done|]. destruct (GenerateFromPassword _ _) as [hash|] eqn:Hg; [|done].
  fold name in Hc. destruct (users s !! name) as [r|] eqn:Hr; [|done]. injection Hc as <-. simpl.
  split_and!; [|intros k Hk; by rewrite lookup_insert_ne by congruence|done..].
  exists r. split; [done|]. unfold Login. simpl. rewrite Hs, lookup_insert_eq. simpl.
  by rewrite (bcrypt_accepts salt _ hash Hg).
Qed.
(** A user that is in the database only, as every user is after a restart:
    its deletion succeeds there and is reported as a failure. *)
Lemma deletion_reported_missing username u u' s :
  userStore s = Some u → username = trim_space username → username ≠ "" →
  username ≠ adminUsername s → users s !! username = None → store_DeleteUser username u = (Ok tt, u') →
  DeleteUser username s = (Err (new_error "user not found"), s <| userStore := Some u' |>).
Proof.
  intros Hs Ht Hne Ha Hu Hd. unfold DeleteUser, on_store. rewrite <-Ht, Hs, Hd.
  rewrite !decide_False by done. simpl. by rewrite Hu.
Qed.
End users.

(** ** Handlers *)
Section handlers.
Context {R : Type} `{RR : Repository R} `{O : Oracle}.
Context {U : Type} `{US : UserStore U} `{B : Bcrypt} `{J : ClaimsJSON} `{!UserStoreLaws U}.
Implicit Types s : Service U.

Lemma replaced_others name hash s s' :
  password_replaced name hash s s' →
  same_but name user (users s) (users s') ∧
  ∀ u, userStore s = Some u →
    ∃ u', userStore s' = Some u' ∧ same_but name snd (store_rows u) (store_rows u').
Proof.
  intros (Hu & Hs & _). split.
  - destruct Hu as [->| ->]; [|by apply alter_same_but]. intros k. by case_decide.
  - intros u Hsu. rewrite Hsu in Hs. eexists. split; [exact Hs|]. apply store_update_row.
Qed.

(** C20: a request changes the users only with a valid token, and then only by
    an administrator, or by a user for its own password: the password of its own
    name is replaced by the hash of the new one, in the memory and by the update
    of that name in the user store, and by nothing else; the other users are as
    they were in the memory and in the rows of the store. *)
Theorem users_guarded (now : time) (header : string) (req : request) s :
  let s' := (serve (R:=R) now header req s).1 in
  s' = s ∨
  ∃ actor, ParseToken s now (bearerToken header) = Ok actor ∧
    (User.Role actor = "admin" ∨
     let name := trim_space (User.Username actor) in
     (∃ salt path pw hash, req = ChangePasswordRequest salt path (Ok pw) ∧
        GenerateFromPassword salt (trim_space pw) = Ok hash ∧ password_replaced name hash s s') ∧
     same_but name user (users s) (users s') ∧
     ∀ u, userStore s = Some u →
       ∃ u', userStore s' = Some u' ∧ same_but name snd (store_rows u) (store_rows u')).
Proof.
  unfold serve, withUserAuth. case_decide; [by left|].
  destruct (ParseToken s now (bearerToken header)) as [actor|]; [|by left].
  destruct (decide (User.Role actor = "admin")) as [|Hr]; [right; eauto|].
  destruct req as [it|salt req|path|salt path req]; simpl;
    unfold handleListUsers, handleCreateUser, handleDeleteUser, handleChangePassword;
    rewrite ?decide_True by done; [by left..|].
  destruct (split _ _) as [|username [|action ?]]; [by left..|].
  case_decide; [by left|]. case_decide as Hself; [by left|].
  destruct req as [newPassword|]; [|by left]. case_decide; [by left|].
  assert (username = User.Username actor) as ->.
  { destruct (decide (User.Username actor = username)); [done|]. by destruct Hself. }
  destruct (password_change salt (User.Username actor) newPassword s) as [Hs|(hash & Hh & Hc)].
  { left. by destruct (ChangePassword _ _ _ s) as [[?|?] s']. }
  right. exists actor. split; [done|]. right.
  destruct (ChangePassword salt (User.Username actor) newPassword s) as [res s1]. simpl in Hc.
  pose proof (replaced_others _ _ _ _ Hc) as [Hm Hrows].
  destruct res as [[]|err]; simpl; (split; [by exists salt, path, newPassword, hash|done]).
Qed.
End handlers.

(** ** A service

    Hashes that show the password and claims as comma-separated text. *)
Section demo.
#[local] Instance demo_bcrypt : Bcrypt := {|
  GenerateFromPassword := λ salt pw, Ok ("hash:" +:+ pw);
  CompareHashAndPassword := λ hash pw, bool_decide (hash = "hash:" +:+ pw);
|}.
#[local] Instance demo_bcrypt_law : BcryptLaw.
Proof. intros salt pw hash [= <-]. simpl. by apply bool_decide_eq_true_2. Qed.
#[local] Instance demo_claims : ClaimsJSON := {|
  marshal_claims := λ c, join [Claims.Subject c; Claims.Role c; pad6 (Claims.Expiry c)] ",";
  unmarshal_claims := λ s,
    match split s "," with
    | [sub; role; e] => Ok (Claims.mk sub role (decimal 0 e))
    | _ => Err (new_error "json")
    end;
|}.
#[local] Instance demo_store : UserStore unit := {|
  store_CreateUser := λ name _ role u, (Ok (User.mk name role), u);
  store_GetUser := λ _ _, Ok None;
  store_ListUsers := λ _, Ok [];
  store_DeleteUser := λ _ u, (Ok tt, u);
  store_UpdatePassword := λ _ _ u, (Ok tt, u);
|}.

(** A store of rows, and alice and bob in it. *)
Definition rows_store : Type := gmap string (string * User.t).
#[local] Instance demo_rows : UserStore rows_store := {|
  store_CreateUser := λ name hash role u, (Ok (User.mk name role), <[name := (hash, User.mk name role)]> u);
  store_GetUser := λ name u, Ok (u !! name);
  store_ListUsers := λ u, Ok [];
  store_DeleteUser := λ name u, (Ok tt, delete name u);
  store_UpdatePassword := λ name hash u, (Ok tt, alter (λ r, (hash, r.2)) name u);
|}.
#[local] Instance demo_rows_laws : UserStoreLaws rows_store.
Proof.
  exists (λ u, u); [by intros ??? [= <-]|]. intros name hash u.
  exact (alter_same_but name snd (λ r, (hash, r.2)) u (λ _, eq_refl)).
Defined.
Definition two_users : Service rows_store :=
  let s := SetUserStore ∅ (NewService 0 "root" "rootpw" "0123456789abcdef") in
  (CreateUser 2 "bob" "secret" "" (CreateUser 1 "alice" "secret" "" s).2).2.

Definition demo_service : Service unit := NewService 0 "root" "rootpw" "0123456789abcdef".
Definition demo_alice : User.t := User.mk "alice" "operator".
Definition demo_users : Service unit := (CreateUser 1 " alice " "secret" "" demo_service).2.

Lemma token_roundtrip_witness :
  ParseToken demo_service (11 * hour) (generateToken demo_service 0 demo_alice).1 = Ok demo_alice ∧
  ParseToken demo_service (13 * hour) (generateToken demo_service 0 demo_alice).1 =
    Err (new_error "token expired").
Proof.
  split.
  - rewrite (token_roundtrip demo_service 0 (11 * hour) demo_alice) by (vm_compute; reflexivity).
    vm_compute. reflexivity.
  - rewrite (token_roundtrip demo_service 0 (13 * hour) demo_alice) by (vm_compute; reflexivity).
    vm_compute. reflexivity.
Defined.

(** Bob changes his own password; Alice's row is as it was. *)
#[local] Instance bob_oracle : Oracle := λ n, mkReading 0 (Z.of_nat n) iter_default.
Definition bob_request : request := ChangePasswordRequest 3 "/api/v1/users/bob/password" (Ok "other").
Definition bob_header : string :=
  "Bearer " +:+ (generateToken two_users 0 (User.mk "bob" "operator")).1.
Definition bob_changed : Service rows_store :=
  (serve (R:=MemoryRepo.MemoryRepository) 0 bob_header bob_request two_users).1.

Definition row_hash (s : Service rows_store) (name : string) : option string :=
  match userStore s with Some u => fst <$> (u : gmap string (string * User.t)) !! name | None => None end.

Lemma users_guarded_witness :
  (∃ actor, ParseToken two_users 0 (bearerToken bob_header) = Ok actor ∧ User.Role actor ≠ "admin" ∧
     ∀ u, userStore two_users = Some u →
       ∃ u', userStore bob_changed = Some u' ∧
         same_but (trim_space (User.Username actor)) snd (store_rows u) (store_rows u')) ∧
  row_hash bob_changed "bob" = Some "hash:other" ∧ row_hash bob_changed "alice" = Some "hash:secret".
Proof.
  split; [|split; vm_compute; reflexivity].
  destruct (users_guarded (R:=MemoryRepo.MemoryRepository) 0 bob_header bob_request two_users)
    as [Hs|(actor & Hp & Hr)].
  - exfalso. apply (f_equal (λ s, row_hash s "bob")) in Hs. vm_compute in Hs. discriminate Hs.
  - assert (User.Role actor ≠ "admin") as Hn.
    { assert (ParseToken two_users 0 (bearerToken bob_header) = Ok (User.mk "bob" "operator")) as Hb
        by (vm_compute; reflexivity).
      rewrite Hb in Hp. injection Hp as <-. discriminate. }
    destruct Hr as [Hr|(_ & _ & Hrows)]; [contradiction|]. exists actor. split; [exact Hp|].
    split; [exact Hn|exact Hrows].
Defined.

(** The stored hash is accepted as a password. *)
Lemma login_iff_witness :
  (∃ r, users demo_users !! "alice" = Some r ∧ password r = "hash:secret") ∧
  Login demo_users 0 "alice" "hash:secret" =
    Ok ((generateToken demo_users 0 demo_alice).1, demo_alice).
Proof.
  split; [eexists; split; vm_compute; reflexivity|].
  apply (login_iff demo_users 0 "alice" "hash:secret"); [vm_compute; reflexivity|].
  exists (mkStored "hash:secret" demo_alice).
  split_and!; [vm_compute; reflexivity|reflexivity|reflexivity|right; reflexivity].
Defined.

Lemma password_changed_witness :
  let s' := (ChangePassword 2 "alice" "other" demo_users).2 in
  (∃ r, users demo_users !! "alice" = Some r ∧
        Login s' 0 "alice" "other" = Ok (generateToken demo_users 0 (user r))) ∧
  (∀ k, k ≠ "alice" → users s' !! k = users demo_users !! k) ∧
  userStore s' = None ∧ secret s' = secret demo_users.
Proof.
  apply (password_changed 2 "alice" "other" demo_users _ 0); [vm_compute; reflexivity|].
  vm_compute. reflexivity.
Defined.
End demo.
End AuthFacts.
