(* ===== verification/ServerFacts.v ===== *)
(** * What the handlers of jobs and approvals keep

    Every handler of [Server] refines the abstract control plane, against any
    repository with the laws of jobs. *)
From S2P Require Import Prelude.
From S2P Require Import GoStrings.
From S2P Require Import Model.
From S2P Require Import Modules.
From S2P Require Import Repository.
From S2P Require Import Hub.
From S2P Require Import World.
From S2P Require Import Spec.
From S2P Require Import StreamService.
From S2P Require Import Server.

Import Repository World Spec.Refine Server.Server.

Module ServerFacts.

(** ** Computations that no other can upset *)
Section neutral.
Context {R : Type} `{L : JobLaws R} `{O : Oracle}.

Lemma neutral_recordAudit a b c d e f : neutral (recordAudit a b c d e f).
Proof. unfold recordAudit. neutral_auto. Qed.
Hint Resolve neutral_recordAudit : neutral.

Lemma neutral_loop {A B} (f : A → M R (Response + B)) l acc :
  (∀ x, neutral (f x)) → neutral (loop f l acc).
Proof.
  intros Hf. revert acc. induction l as [|x l IH]; intros acc; simpl; [apply neutral_ret|].
  apply neutral_bind; [done|]. intros [?|?]; [apply neutral_ret|apply IH].
Qed.

Lemma neutral_handleListJobs q : neutral (handleListJobs q).
Proof. unfold handleListJobs. neutral_auto. Qed.

Lemma neutral_handleGetJob path : neutral (handleGetJob path).
Proof. unfold handleGetJob. neutral_auto. Qed.

Lemma neutral_DeleteJob id : neutral (call (λ e, DeleteJob e id)).
Proof.
  apply neutral_call. intros e r h _ r'. destruct (DeleteJob_law e id r) as [[Hj Hk]|(Hj & Hk & Hk')].
  - unfold r'. rewrite Hj, Hk. apply Spec.routine_stay.
  - unfold r'. rewrite Hj. by apply (Spec.routine_delete (Spec.mk (jobs_of r) (keys_of r) h)).
Qed.
Hint Resolve neutral_DeleteJob : neutral.

Lemma neutral_handleDeleteJob user path : neutral (handleDeleteJob user path).
Proof. unfold handleDeleteJob. neutral_auto. Qed.

Lemma neutral_audit_yaml_jobs user spec jobs : neutral (audit_yaml_jobs user spec jobs).
Proof. induction jobs; simpl; neutral_auto. Qed.

Lemma neutral_resolve_workers spec : neutral (resolve_workers spec).
Proof. unfold resolve_workers. neutral_auto. Qed.

Lemma neutral_handleAddWorkerLog entry : neutral (handleAddWorkerLog entry).
Proof. unfold handleAddWorkerLog. neutral_auto. Qed.

Lemma neutral_cancel_waiting_run job : neutral (cancel_waiting_run job).
Proof. unfold cancel_waiting_run. neutral_auto. Qed.

Lemma neutral_RejectJob id user comment : neutral (call (λ e, RejectJob e id user comment)).
Proof.
  apply (neutral_change _ (rejected id)); intros; [apply Spec.change_reject|apply RejectJob_law].
Qed.

Lemma neutral_handleConversationActions user method path :
  neutral (handleConversationActions user method path).
Proof. unfold handleConversationActions. neutral_auto. Qed.

Lemma neutral_handleCreateConversation user title : neutral (handleCreateConversation user title).
Proof. unfold handleCreateConversation. neutral_auto. Qed.
End neutral.

#[export] Hint Resolve neutral_recordAudit neutral_DeleteJob neutral_handleListJobs neutral_handleGetJob
  neutral_handleDeleteJob neutral_audit_yaml_jobs neutral_resolve_workers neutral_handleAddWorkerLog
  neutral_cancel_waiting_run neutral_RejectJob neutral_handleConversationActions
  neutral_handleCreateConversation : neutral.

(** ** Creating and dispatching *)
Section dispatch.
Context {R : Type} `{L : JobLaws R} `{O : Oracle} (s0 : Spec.state).
Implicit Types (w : World.t R) (base j : Job.t) (P : World.t R → Prop).

(** What is kept when a job is started and when the other state changes. *)
Definition closed P : Prop :=
  (∀ w, P w → safe s0 w) ∧
  ∀ id w w', P w → safe s0 w' →
    evolves (started id) (jobs_of (repo w)) (jobs_of (repo w')) →
    keys_of (repo w') = keys_of (repo w) → P w'.

Lemma closed_safe : closed (safe s0).
Proof. by split. Qed.

(** The job [id] may be started. *)
Definition startable (id : string) w : Prop := safe s0 w ∧ cleared (jobs_of (repo w)) id.

(** A creation with the key of [base] gives back [base], which may be started. *)
Definition armed base w : Prop :=
  startable (Job.ID base) w ∧
  (Job.IdempotencyKey base ≠ "" →
   keys_of (repo w) !! Job.IdempotencyKey base = Some (Job.ID base)).

Lemma closed_armed base : closed (armed base).
Proof.
  split; [by intros w [[? _] _]|]. intros id w w' [[_ Hc] Hk] Hs He Hks.
  split; [split; [done|by eapply cleared_started]|]. by rewrite Hks.
Qed.

Lemma closed_frame P w w' :
  closed P → P w → safe s0 w' → jobs_of (repo w') = jobs_of (repo w) →
  keys_of (repo w') = keys_of (repo w) → P w'.
Proof. intros [_ HP] Hw Hs Hj Hk. apply (HP "" w); [done..| |done]. rewrite Hj. apply evolves_refl. Qed.

(** The job is stored as running on the worker. *)
Definition running_on wid j w : Prop :=
  jobs_of (repo w) !! Job.ID j = Some j ∧ Job.Status j = JobStatusRunning ∧
  Job.AssignedWorkerID j = wid.

Lemma triple_dispatch P id wid :
  closed P →
  triple (safe s0) (λ w, P w ∧ cleared (jobs_of (repo w)) id) (dispatchJobToWorker id wid)
    (λ res w, P w ∧ match res with Ok j => running_on wid j w | Err _ => True end).
Proof.
  intros [HP1 HP2] w [Hw Hc]. unfold dispatchJobToWorker. rewrite run_bind, run_call.
  pose proof (safe_change s0 (AssignJobToWorkers (oracle (ticks w)) id [wid]) _ w (S (ticks w))
    (HP1 w Hw) (Spec.change_start _ id Hc) (AssignJobToWorkers_law _ _ _)) as Hs.
  destruct (AssignJobToWorkers_law (oracle (ticks w)) id [wid] (repo w)) as [He Hks].
  pose proof (AssignJobToWorkers_result (oracle (ticks w)) id wid (repo w)) as Hres.
  destruct (AssignJobToWorkers _ _ _ (repo w)) as [res r]. simpl in *.
  set (w1 := w <| ticks := S (ticks w) |> <| repo := r |>) in *.
  assert (P w1) as Hw1 by by apply (HP2 id w).
  destruct res as [u|err]; [|done]. destruct (Hres u r eq_refl) as (j & Hj & Hr & Ha).
  rewrite run_query. simpl. set (w2 := w1 <| ticks := S (S (ticks w)) |>).
  assert (P w2) as Hw2.
  { apply (closed_frame P w1); [done|done| |done..]. by apply (safe_eq s0 w1). }
  split; [done|]. destruct (GetJob id r) as [j'|] eqn:Hget; [|done].
  apply GetJob_law in Hget. simplify_eq. split; [|done]. simpl.
  destruct (safe_inv s0 w1 Hs) as [Hg _]. by destruct (Hg id j Hj) as (-> & _).
Qed.

(** Dispatching a job and queueing it for the worker. *)
Definition dispatch_push {A} id wid (k1 : error → M R A) (k2 : Job.t → M R A) : M R A :=
  job ← dispatchJobToWorker id wid;
  match job with
  | Err err => k1 err
  | Ok job => _ ← PushJob wid job; k2 job
  end.

Lemma triple_dispatch_running {A} P (Q : A → World.t R → Prop) id wid k1 k2 :
  closed P → (∀ e, triple (safe s0) P (k1 e) Q) →
  (∀ j, triple (safe s0) (λ w, P w ∧ running_on wid j w) (k2 j) Q) →
  triple (safe s0) (λ w, P w ∧ cleared (jobs_of (repo w)) id) (dispatch_push id wid k1 k2) Q.
Proof.
  intros HP H1 H2. eapply triple_bind; [by apply triple_dispatch|]. intros [j|err].
  - eapply triple_bind; [|intros b; apply H2].
    apply (triple_PushJob s0 (λ w, P w ∧ running_on wid j w)).
    + intros w [Hw Hr]. destruct HP as [HP _]. split; [by apply HP|done].
    + intros w h' [Hw Hr] Hs. split; [|done]. by apply (closed_frame P w).
  - eapply triple_conseq; [apply H1| |done]. by intros w [? _].
Qed.

Lemma triple_dispatch_push {A} P (Q : A → World.t R → Prop) id wid k1 k2 :
  closed P → (∀ e, triple (safe s0) P (k1 e) Q) → (∀ j, triple (safe s0) P (k2 j) Q) →
  triple (safe s0) (λ w, P w ∧ cleared (jobs_of (repo w)) id) (dispatch_push id wid k1 k2) Q.
Proof.
  intros HP H1 H2. apply triple_dispatch_running; [done..|]. intros j.
  eapply triple_conseq; [apply H2| |done]. by intros w [? _].
Qed.

(** A job that runs may be started again. *)
Lemma running_startable wid j w : safe s0 w → running_on wid j w → startable (Job.ID j) w.
Proof.
  intros Hs (Hj & Hr & _). split; [done|]. intros j' Hj'. simplify_eq.
  by apply (Spec.running_ready (abs w)); [apply (safe_inv s0)|..].
Qed.

Lemma closed_startable id : closed (startable id).
Proof.
  split; [by intros w [? _]|]. intros id' w w' [_ Hc] Hs He _. split; [done|].
  by eapply cleared_started.
Qed.

(** A creation under no key of a job that is ready gives a job that may be
    started. *)
Lemma create_ready j :
  Job.IdempotencyKey j = "" → ready j →
  triple (safe s0) (safe s0) (call (λ e, CreateJob e j))
    (λ res w, safe s0 w ∧ match res with Ok j' => cleared (jobs_of (repo w)) (Job.ID j')
                          | Err _ => True end).
Proof.
  intros Hkey Hready w Hw. rewrite run_call.
  pose proof (CreateJob_law (oracle (ticks w)) j (repo w)) as Hlaw.
  destruct (CreateJob _ j (repo w)) as [res r]. simpl.
  destruct (Hlaw res r (or_introl Hkey) eq_refl) as [(Hok & Hjs & Hks)|(j0 & j' & -> & Hid & Hc & Hjs & Hks)].
  - split; [|by destruct res]. apply (safe_eq s0 w); [done|]. unfold abs. simpl. by rewrite Hjs, Hks.
  - split.
    + eapply safe_step; [done|]. unfold abs. simpl. rewrite Hjs, Hks.
      apply (Spec.step_create (abs w) j j'); [by left|done|by left].
    + intros j'' Hj'' Hreq. simpl in Hj''.
      rewrite Hjs, <-Hid, lookup_insert_eq in Hj''. simplify_eq.
      destruct Hc as (_ & Hr & Hs & _). rewrite Hr in Hreq. specialize (Hready Hreq).
      rewrite Hs; [done|]. by rewrite Hready.
Qed.

Lemma keeps_create_ready j :
  Job.IdempotencyKey j = "" → ready j → keeps (safe s0) (call (λ e, CreateJob e j)).
Proof. intros. eapply keeps_triple; [by apply create_ready|]. by intros a w [? _]. Qed.

(** The loop that may end the handler, on an invariant above the safe states. *)
Lemma triple_loop {A B} P (f : A → M R (Response + B)) l :
  (∀ x, triple (safe s0) P (f x) (λ _, P)) → ∀ acc, triple (safe s0) P (loop f l acc) (λ _, P).
Proof.
  intros Hf. induction l as [|x l IH]; intros acc; simpl; [by apply triple_ret|].
  eapply triple_bind; [apply Hf|]. intros [?|?]; [by apply triple_ret|apply IH].
Qed.

Lemma keeps_loop {A B} (f : A → M R (Response + B)) l acc :
  (∀ x, keeps (safe s0) (f x)) → keeps (safe s0) (loop f l acc).
Proof. intros. by apply triple_loop. Qed.
End dispatch.

#[export] Hint Resolve keeps_loop closed_safe : keeps.

(** ** The handlers *)
Section handlers.
Context {R : Type} `{L : JobLaws R} `{O : Oracle} `{TT : TextTemplate} `{Y : YAML}.
Context (s0 : Spec.state).

Lemma keeps_create_push {A} j wid (k0 k1 : error → M R A) (k2 : Job.t → M R A) :
  Job.IdempotencyKey j = "" → ready j →
  (∀ e, keeps (safe s0) (k0 e)) → (∀ e, keeps (safe s0) (k1 e)) → (∀ j, keeps (safe s0) (k2 j)) →
  keeps (safe s0) (created ← call (λ e, CreateJob e j);
    match created with
    | Err err => k0 err
    | Ok created => dispatch_push (Job.ID created) wid k1 k2
    end).
Proof.
  intros Hk Hr H0 H1 H2. eapply triple_bind; [by apply create_ready|]. intros [j'|err].
  - apply triple_dispatch_push; auto with keeps.
  - eapply triple_conseq; [apply H0| |done]. by intros w [? _].
Qed.

Lemma keeps_assign_copy req job wid :
  Job.IdempotencyKey job = "" → ready job → keeps (safe s0) (assign_copy req job wid).
Proof.
  intros Hk Hr. unfold assign_copy. apply keeps_bind; [apply neutral_keeps, neutral_query|].
  intros [wk|err]; [|auto with keeps]. destruct (negb _); [auto with keeps|].
  by apply keeps_create_push; auto with keeps.
Qed.

Lemma keeps_handleCreateJob user req : keeps (safe s0) (handleCreateJob user req).
Proof.
  unfold handleCreateJob. destruct req as [req|]; [|auto with keeps].
  case_decide; [auto with keeps|]. destruct (cj_WorkerIDs req).
  - apply keeps_bind; [by apply keeps_create_ready|]. keeps_auto.
  - apply keeps_bind; [|keeps_auto]. apply keeps_loop. intros x. by apply keeps_assign_copy.
Qed.

(** *** Dispatching a stored job *)

(** The clone carries the key of [base], so creating it again gives back
    [base] if [base] has a key. *)
Lemma create_clone base wid :
  ready base →
  triple (safe s0) (armed s0 base) (call (λ e, CreateJob e (dispatch_clone base wid)))
    (λ res w, armed s0 base w ∧
       match res with Ok j => cleared (jobs_of (repo w)) (Job.ID j) | Err _ => True end).
Proof.
  intros Hready. destruct (decide (Job.IdempotencyKey base = "")) as [Hkey|Hkey].
  - intros w [[Hs Hc] Hk]. pose proof (create_ready s0 (dispatch_clone base wid) Hkey Hready w Hs) as Hcr.
    pose proof (CreateJob_law (oracle (ticks w)) (dispatch_clone base wid) (repo w)) as Hlaw.
    rewrite run_call in Hcr |- *. destruct (CreateJob _ _ (repo w)) as [res r]. simpl in *.
    destruct Hcr as [Hs' Hres]. split; [|done]. split; [split; [done|]|done]. simpl.
    destruct (Hlaw res r (or_introl Hkey) eq_refl) as [(_ & -> & _)|(j0 & j' & -> & Hid & _ & Hjs & _)]; [done|].
    simpl in Hres. intros x Hx. destruct (decide (Job.ID base = Job.ID j')) as [Heq|Hne].
    + apply Hres. by rewrite <-Hid, <-Heq.
    + rewrite Hjs, lookup_insert_ne in Hx by done. by apply Hc.
  - intros w [[Hs Hc] Hk]. rewrite run_call.
    destruct (CreateJob_replay (oracle (ticks w)) (dispatch_clone base wid) _ (Job.ID base) Hkey (Hk Hkey))
      as (res & -> & Hres).
    assert (armed s0 base (w <| ticks := S (ticks w) |> <| repo := repo w |>)) as Ha.
    { split; [split; [by apply (safe_eq s0 w)|done]|done]. }
    split; [done|]. destruct res as [j|]; [|done]. destruct Hres as [Hj|Hj]; [|done].
    symmetry in Hj. apply GetJob_law in Hj. destruct (safe_inv s0 w Hs) as [Hg _].
    destruct (Hg _ j Hj) as (Hid & _). simpl. by rewrite Hid.
Qed.

Lemma armed_frame base w n : armed s0 base w → armed s0 base (w <| ticks := n |>).
Proof.
  intros Hw. apply (closed_frame s0 (armed s0 base) w); [apply closed_armed|done| |done..].
  apply (safe_eq s0 w); [|done]. by destruct Hw as [[? _] _].
Qed.

Lemma armed_dispatch_one base target :
  ready base → triple (safe s0) (armed s0 base) (dispatch_one base target) (λ _, armed s0 base).
Proof.
  intros Hready. destruct target as [i wid]. unfold dispatch_one.
  eapply (triple_bind _ _ _ _ (λ _, armed s0 base)).
  { intros w Hw. by apply armed_frame. }
  intros [worker|err]; [|by apply triple_ret]. destruct (negb _); [by apply triple_ret|].
  eapply (triple_bind _ _ _ _ (λ res w, armed s0 base w ∧
    match res with inr id => cleared (jobs_of (repo w)) id | inl _ => True end)).
  { case_decide.
    - apply triple_ret. intros w Hw. split; [done|]. by destruct Hw as [[_ ?] _].
    - eapply triple_bind; [by apply create_clone|]. intros [j|err]; by apply triple_ret. }
  intros [resp|id]; [apply triple_ret; by intros w [? _]|].
  apply triple_dispatch_push; [apply closed_armed|intros; by apply triple_ret..].
Qed.

Lemma keeps_handleDispatchJob user path req : keeps (safe s0) (handleDispatchJob user path req).
Proof.
  unfold handleDispatchJob. case_decide; [auto with keeps|].
  destruct req as [ids|]; [|auto with keeps]. case_decide; [auto with keeps|].
  set (id := trim_suffix _ _).
  eapply (triple_bind _ _ _ _ (λ res w, safe s0 w ∧
    match res with Ok j => jobs_of (repo w) !! id = Some j | Err _ => True end)).
  { intros w Hw. split; [by apply (safe_eq s0 w)|]. simpl.
    destruct (GetJob id (repo w)) eqn:Hj; [|done]. by apply GetJob_law. }
  intros [base|err]; [|apply triple_ret; by intros w [? _]].
  destruct (decide _) as [|Hst]; [apply triple_ret; by intros w [? _]|].
  assert (Job.Status base = JobStatusPending ∨ Job.Status base = JobStatusQueued) as Hst'.
  { destruct (decide (Job.Status base = JobStatusPending)); [by left|].
    destruct (decide (Job.Status base = JobStatusQueued)); [by right|]. by destruct Hst. }
  intros w [Hw Hj]. destruct (safe_inv s0 w Hw) as [Hg _]. destruct (Hg id base Hj) as (Hid & Hgate & Hk).
  assert (cleared (jobs_of (repo w)) id) as Hc by by eapply cleared_ready.
  assert (ready base) as Hready by (intros Hreq; by apply (Hc base)).
  assert (armed s0 base w) as Ha by (unfold armed, startable; rewrite Hid; done).
  revert w Hw Hj Hg Hc Hk Ha. intros w _ _ _ _ _ Ha. revert w Ha.
  change (triple (safe s0) (armed s0 base)
    (dispatched ← loop (dispatch_one base) (enumerate ids) [];
     match dispatched with
     | inl resp => mret resp
     | inr dispatched =>
         _ ← recordAudit "user" (User.Username user) "job.dispatched" "job" (Job.ID base)
               [("worker_ids", VStrings ids);
                ("job_count", VInt (Z.of_nat (length dispatched)))];
         mret (writeJSON StatusOK (BJobList dispatched
           [("total", VInt (Z.of_nat (length dispatched))); ("worker_ids", VStrings ids)]))
     end) (λ _, safe s0)).
  eapply triple_bind; [apply triple_loop; intros; by apply armed_dispatch_one|].
  assert (∀ w, armed s0 base w → safe s0 w) as Has by by apply closed_armed.
  intros r. eapply (triple_conseq _ _ (safe s0) _ _ (λ _, safe s0)); [|exact Has|done].
  match goal with |- triple ?I _ ?m _ => change (keeps I m) end. keeps_auto.
Qed.

(** *** Batches in YAML *)
Lemma keeps_create_copy spec task tmpl cmd wid :
  keeps (safe s0) (create_copy spec task tmpl cmd wid).
Proof.
  unfold create_copy. case_decide as Hw.
  - apply keeps_bind; [by apply keeps_create_ready|]. keeps_auto.
  - by apply keeps_create_push; auto with keeps.
Qed.
Hint Resolve keeps_create_copy : keeps.

Lemma keeps_create_task spec ids task : keeps (safe s0) (create_task spec ids task).
Proof. unfold create_task. keeps_auto. Qed.
Hint Resolve keeps_create_task : keeps.

Lemma keeps_handleCreateJobFromYAML user req : keeps (safe s0) (handleCreateJobFromYAML user req).
Proof. unfold handleCreateJobFromYAML. keeps_auto. Qed.

(** *** Approvals *)
Lemma startable_auto_dispatch job :
  triple (safe s0) (startable s0 (Job.ID job)) (auto_dispatch true job)
    (λ job', startable s0 (Job.ID job')).
Proof.
  unfold auto_dispatch. case_bool_decide; simpl; [|by apply triple_ret].
  apply (triple_conseq _ _ (λ w, startable s0 (Job.ID job) w ∧ cleared (jobs_of (repo w)) (Job.ID job))
    _ _ (λ job', startable s0 (Job.ID job'))); [|by intros w [? ?]|done].
  apply triple_dispatch_running; [apply closed_startable|intros; by apply triple_ret|].
  intros j. apply triple_ret. intros w [[Hs _] Hr]. by eapply running_startable.
Qed.

(** What the handler does once the job is approved or rejected, and recorded
    in the metrics. *)
Definition after_decision (user : User.t) (req : approveJobRequest) (approved : bool) (job : Job.t)
    : M R Response :=
  job ← auto_dispatch approved job;
  _ ← (if approved && bool_decide (Job.SourceID job ≠ "")
       then spawn (ResumeRun (Job.SourceID job)) else mret tt);
  _ ← (if negb approved && bool_decide (Job.SourceID job ≠ "")
       then cancel_waiting_run job else mret tt);
  job ← auto_dispatch approved job;
  let action := if approved then "job.approval.approved" else "job.approval.rejected" in
  _ ← recordAudit "user" (User.Username user) action "job" (Job.ID job)
        [("comment", VString (Comment req));
         ("source_type", VString (Job.SourceType job));
         ("source_id", VString (Job.SourceID job));
         ("status", VTyped "model.JobStatus" (Job.Status job))];
  mret (writeJSON StatusOK (BJob job)).

Lemma after_rejection user req job : keeps (safe s0) (after_decision user req false job).
Proof.
  unfold after_decision, auto_dispatch. simpl. keeps_auto.
Qed.

Lemma after_approval user req job :
  triple (safe s0) (startable s0 (Job.ID job)) (after_decision user req true job) (λ _, safe s0).
Proof.
  unfold after_decision. eapply triple_bind; [apply startable_auto_dispatch|]. intros job1. simpl.
  eapply (triple_bind _ _ _ _ (λ _, startable s0 (Job.ID job1))).
  { case_bool_decide; [|by apply triple_ret]. intros w [Hs Hc]. split; [|done].
    by apply (safe_eq s0 w). }
  intros _. eapply (triple_bind _ _ _ _ (λ _, startable s0 (Job.ID job1))); [by apply triple_ret|].
  intros _. eapply triple_bind; [apply startable_auto_dispatch|]. intros job2.
  eapply (triple_conseq _ _ (safe s0) _ _ (λ _, safe s0)); [|by intros w [? _]|done].
  match goal with |- triple ?I _ ?m _ => change (keeps I m) end. keeps_auto.
Qed.

Lemma keeps_handleApproveJob user path req : keeps (safe s0) (handleApproveJob user path req).
Proof.
  unfold handleApproveJob. case_decide; [auto with keeps|]. destruct req as [req|]; [|auto with keeps].
  destruct (Approved req) as [[]|]; [| |auto with keeps].
  - set (id := trim_prefix _ _).
    eapply (triple_bind _ _ _ _ (λ res w, safe s0 w ∧
      match res with Ok j => cleared (jobs_of (repo w)) (Job.ID j) | Err _ => True end)).
    { intros w Hw. rewrite run_call.
      pose proof (safe_change s0 (ApproveJob (oracle (ticks w)) id (User.Username user) (Comment req))
        _ w (S (ticks w)) Hw (Spec.change_approve _ id) (ApproveJob_law _ _ _ _)) as Hs.
      pose proof (ApproveJob_result (oracle (ticks w)) id (User.Username user) (Comment req) (repo w)) as Hres.
      destruct (ApproveJob _ _ _ _ (repo w)) as [[j|err] r]; simpl in *; [|done].
      split; [done|]. destruct (Hres j r eq_refl) as (Hj & _ & Ha). intros j' Hj' _.
      destruct (safe_inv s0 _ Hs) as [Hg _]. destruct (Hg id j Hj) as (Hid & _).
      rewrite Hid in Hj'. by simplify_eq. }
    intros [j|err]; [|apply triple_ret; by intros w [? _]].
    eapply (triple_bind _ _ _ _ (λ _, startable s0 (Job.ID j))); [|intros; apply after_approval].
    destruct (Job.ApprovedAt j); [|by apply triple_ret].
    intros w [Hs Hc]. split; [|done]. by apply (safe_eq s0 w).
  - apply keeps_bind; [|intros [j|err]; [|auto with keeps]].
    + apply neutral_keeps, neutral_RejectJob.
    + apply keeps_bind; [|intros; apply after_rejection].
      destruct (Job.ApprovedAt j); [|auto with keeps]. apply keeps_bind; [apply neutral_keeps, neutral_read|].
      intros. by apply neutral_keeps, neutral_modify.
Qed.

(** *** The rest *)
Lemma keeps_handleJobActions user method path req :
  keeps (safe s0) (handleJobActions user method path req).
Proof.
  unfold handleJobActions.
  pose proof keeps_handleDispatchJob. keeps_auto.
Qed.

End handlers.

End ServerFacts.
