(* ===== verification/ServerWorkers.v ===== *)
(** * HTTP handlers: workers ([internal/interfaces/http/worker.go])

    Registration, remote deployment, heartbeats, the results workers report and
    the commands sent to them, with the lexical cleaning of the path of an SSH
    key ([path/filepath.Clean]). *)
From Stdlib Require Import Ascii.
From S2P Require Import Prelude.
From S2P Require Import GoStrings.
From S2P Require Import Model.
From S2P Require Import Modules.
From S2P Require Import Repository.
From S2P Require Import Hub.
From S2P Require Import World.
From S2P Require Import Spec.
From S2P Require Import Server.
From S2P Require Import ServerFacts.

Import Repository World Spec.Refine Server.Server.

(** ** [filepath.Clean] on Unix *)
Module Filepath.

(** The components that remain, last first: an empty component and [.] are
    dropped, [..] removes the one before it if there is one to remove. *)
Definition clean_step (rooted : bool) (out : list string) (c : string) : list string :=
  if decide (c = "" ∨ c = ".") then out
  else if decide (c = "..") then
    match out with
    | [] => if rooted then [] else [".."]
    | d :: out' => if decide (d = "..") then ".." :: out else out'
    end
  else c :: out.

Definition components (rooted : bool) (path : string) : list string :=
  reverse (foldl (clean_step rooted) [] (split path "/")).

Definition Clean (path : string) : string :=
  if decide (path = "") then "."
  else
    let rooted := has_prefix path "/" in
    let out := join (components rooted path) "/" in
    if rooted then "/" +:+ out
    else if decide (out = "") then "." else out.

Example clean_1 : Clean "/etc/adp/ssh/../../shadow" = "/etc/shadow".
Proof. vm_compute. reflexivity. Qed.
Example clean_2 : Clean "/etc/adp/ssh//./a/../id_ed25519/" = "/etc/adp/ssh/id_ed25519".
Proof. vm_compute. reflexivity. Qed.
Example clean_3 : Clean "../a/../../b" = "../../b".
Proof. vm_compute. reflexivity. Qed.

End Filepath.

Module Workers.

Record Config := mkConfig { Addr : string; WorkerSharedToken : string }.

Record registerWorkerRequest := mkRegister {
  rw_Name : string; rw_WorkerType : string; rw_SSHHost : string; rw_SSHPort : Z;
  rw_SSHUser : string; rw_SSHPassword : string; rw_SSHKeyFile : string; rw_LogToDB : bool;
}.
Record completeJobRequest := mkComplete { cr_Success : bool; cr_Output : string }.

Section handlers.
Context {R : Type} `{RR : Repository R} `{O : Oracle}.

Definition handleListWorkers : M R Response :=
  workers ← query ListWorkers;
  mret (writeJSON StatusOK (BWorkers (match workers with Ok l => l | Err _ => [] end))).

Definition name_and_type_required : error := new_error "name and worker_type are required".
Definition key_prefix : string := "/etc/adp/ssh/".

(** [env] is the variable ADP_ENABLE_REMOTE_WORKER_DEPLOY, [executable] what
    [os.Executable] returns. *)
Definition deploy_remote (cfg : Config) (env : string) (executable : result string)
    (user : User.t) (req : registerWorkerRequest) : M R Response :=
  if decide (env ≠ "true") then
    mret (writeError StatusForbidden (new_error "remote worker deployment is disabled; enable it explicitly only on a private management endpoint"))
  else if decide (rw_SSHUser req = "") then
    mret (writeError StatusBadRequest (new_error "ssh_user is required for remote deployment"))
  else if decide (rw_SSHPassword req ≠ "") then
    mret (writeError StatusBadRequest (new_error "ssh_password is not accepted; provision a protected SSH key file on the server instead"))
  else
    let keyFile := Filepath.Clean (rw_SSHKeyFile req) in
    if negb (has_prefix keyFile key_prefix) then
      mret (writeError StatusBadRequest (new_error "ssh_key_file must reference a protected key under /etc/adp/ssh/"))
    else
      match executable with
      | Err err =>
          mret (writeError StatusInternalServerError
            (Errorf "cannot locate server binary: %s" [AErr err]))
      | Ok localBinary =>
          let target := Deploy.mkTarget (rw_SSHHost req) (rw_SSHPort req) (rw_SSHUser req)
                          (rw_SSHPassword req) keyFile in
          let spec := Deploy.mkSpec ("http://" +:+ Addr cfg) (WorkerSharedToken cfg)
                        (rw_Name req) (rw_WorkerType req) (rw_LogToDB req) in
          _ ← spawn (DeployWorker target spec localBinary);
          worker ← call (λ e, RegisterWorker e (rw_Name req) (rw_WorkerType req));
          match worker with
          | Err err => mret (writeError StatusInternalServerError err)
          | Ok worker =>
              _ ← recordAudit "user" (User.Username user) "worker.deploy_requested" "worker"
                    (Worker.ID worker)
                    [("name", VString (Worker.Name worker));
                     ("worker_type", VString (Worker.WorkerType worker));
                     ("ssh_host", VString (rw_SSHHost req))];
              mret (writeJSON StatusAccepted (BWorkerMap worker
                [("deploying", VBool true); ("ssh_host", VString (rw_SSHHost req))]))
          end
      end.

Definition handleCreateWorker (cfg : Config) (env : string) (executable : result string)
    (user : User.t) (req : result registerWorkerRequest) : M R Response :=
  match req with
  | Err err => mret (writeError StatusBadRequest err)
  | Ok req =>
      if decide (rw_Name req = "" ∨ rw_WorkerType req = "") then
        mret (writeError StatusBadRequest name_and_type_required)
      else if decide (rw_SSHHost req ≠ "") then deploy_remote cfg env executable user req
      else
        worker ← call (λ e, RegisterWorker e (rw_Name req) (rw_WorkerType req));
        match worker with
        | Err err => mret (writeError StatusInternalServerError err)
        | Ok worker =>
            _ ← recordAudit "user" (User.Username user) "worker.created" "worker" (Worker.ID worker)
                  [("name", VString (Worker.Name worker));
                   ("worker_type", VString (Worker.WorkerType worker))];
            mret (writeJSON StatusCreated (BWorker worker))
        end
  end.

Definition handleRegisterWorker (req : result registerWorkerRequest) : M R Response :=
  match req with
  | Err err => mret (writeError StatusBadRequest err)
  | Ok req =>
      if decide (rw_Name req = "" ∨ rw_WorkerType req = "") then
        mret (writeError StatusBadRequest name_and_type_required)
      else
        worker ← call (λ e, RegisterWorker e (rw_Name req) (rw_WorkerType req));
        match worker with
        | Err err => mret (writeError StatusInternalServerError err)
        | Ok worker =>
            _ ← recordAudit "worker" (Worker.ID worker) "worker.registered" "worker"
                  (Worker.ID worker)
                  [("name", VString (Worker.Name worker));
                   ("worker_type", VString (Worker.WorkerType worker))];
            mret (writeJSON StatusCreated (BWorker worker))
        end
  end.

(** [info] is the field after decoding, whose error is ignored. *)
Definition handleWorkerHeartbeat (workerID : string) (info : option HostInfo.t) : M R Response :=
  worker ← call (λ e, HeartbeatWorker e workerID info);
  match worker with
  | Err err => mret (writeError StatusNotFound err)
  | Ok worker => mret (writeJSON StatusOK (BWorker worker))
  end.

Definition poll_command (status : WorkerStatus) : string :=
  if decide (status = "stopping") then "stop"
  else if decide (status = "restarting") then "restart"
  else if decide (status = "force_stopping") then "force_stop" else "".

Definition handleWorkerPoll (workerID : string) : M R Response :=
  worker ← query (λ e, GetWorker e workerID);
  match worker with
  | Err _ => mret (writeJSON StatusOK (BMap [("job", VNil)]))
  | Ok worker =>
      mret (writeJSON StatusOK (BMap
        [("job", VNil); ("command", VString (poll_command (Worker.Status worker)))]))
  end.

Definition handleWorkerCompleteJob (workerID jobID : string) (req : result completeJobRequest)
    : M R Response :=
  match req with
  | Err err => mret (writeError StatusBadRequest err)
  | Ok req =>
      job ← call (λ e, CompleteJob e workerID jobID (cr_Output req) (cr_Success req));
      match job with
      | Err err => mret (writeError StatusBadRequest err)
      | Ok job =>
          let action := if cr_Success req then "job.completed" else "job.failed" in
          _ ← recordAudit "worker" workerID action "job" (Job.ID job)
                [("success", VBool (cr_Success req))];
          mret (writeJSON StatusOK (BJob job))
      end
  end.

Definition handleUpdateHostInfo (workerID : string) (info : result HostInfo.t) : M R Response :=
  match info with
  | Err err => mret (writeError StatusBadRequest err)
  | Ok info =>
      res ← call (λ e, HeartbeatWorker e workerID (Some info));
      match res with
      | Err err => mret (writeError StatusInternalServerError err)
      | Ok _ => mret (writeJSON StatusOK (status_map "ok"))
      end
  end.

Definition handleDeleteWorker (user : User.t) (workerID : string) : M R Response :=
  _ ← PushCommand workerID "force_stop";
  res ← call (λ e, DeleteWorker e workerID);
  match res with
  | Err err => mret (writeError StatusInternalServerError err)
  | Ok _ =>
      _ ← recordAudit "user" (User.Username user) "worker.deleted" "worker" workerID [];
      mret (writeJSON StatusOK (status_map "deleted"))
  end.

(** [force] is the query parameter. *)
Definition handleStopWorker (user : User.t) (workerID force : string) : M R Response :=
  let force := bool_decide (trim_space force = "true") in
  let targetStatus := if force then "force_stopping" else "stopping" in
  res ← call (λ e, UpdateWorkerStatus e workerID targetStatus);
  match res with
  | Err err => mret (writeError StatusInternalServerError err)
  | Ok _ =>
      _ ← PushCommand workerID (if force then "force_stop" else "stop");
      _ ← recordAudit "user" (User.Username user) "worker.stop_requested" "worker" workerID
            [("force", VBool force)];
      mret (writeJSON StatusAccepted (status_map targetStatus))
  end.

Definition handleRestartWorker (user : User.t) (workerID : string) : M R Response :=
  res ← call (λ e, UpdateWorkerStatus e workerID "restarting");
  match res with
  | Err err => mret (writeError StatusInternalServerError err)
  | Ok _ =>
      _ ← PushCommand workerID "restart";
      _ ← recordAudit "user" (User.Username user) "worker.restart_requested" "worker" workerID [];
      mret (writeJSON StatusAccepted (status_map "restarting"))
  end.

(** ** Routing *)
Definition workers_prefix : string := "/api/v1/workers/".

(** The body, decoded as the type each route expects. *)
Record worker_body := mkBody {
  as_heartbeat : option HostInfo.t; as_complete : result completeJobRequest;
  as_hostinfo : result HostInfo.t;
}.

Definition unsupported (msg : string) : Response := writeError StatusNotFound (new_error msg).

(** [user] is what [currentUser] finds: the zero user on a route of workers. *)
Definition handleWorkerActions (user : User.t) (method path force : string) (body : worker_body)
    : M R Response :=
  let parts := split (trim_prefix path workers_prefix) "/" in
  match parts with
  | workerID :: action :: rest =>
      if bool_decide (action = "heartbeat") && bool_decide (method = "POST") then
        handleWorkerHeartbeat workerID (as_heartbeat body)
      else if bool_decide (action = "poll") && bool_decide (method = "POST") then
        handleWorkerPoll workerID
      else
        let complete := match rest with
                        | [jobID; last] =>
                            if bool_decide (action = "jobs") && bool_decide (last = "complete") &&
                               bool_decide (method = "POST") then Some jobID else None
                        | _ => None
                        end in
        match complete with
        | Some jobID => handleWorkerCompleteJob workerID jobID (as_complete body)
        | None =>
            if bool_decide (action = "stop") && bool_decide (method = "POST") then
              handleStopWorker user workerID force
            else if bool_decide (action = "restart") && bool_decide (method = "POST") then
              handleRestartWorker user workerID
            else if bool_decide (action = "hostinfo") && bool_decide (method = "PUT") then
              handleUpdateHostInfo workerID (as_hostinfo body)
            else if bool_decide (action = "command-ack") && bool_decide (method = "POST") then
              mret (writeJSON StatusOK (status_map "ok"))
            else mret (unsupported "unsupported worker route")
        end
  | _ => mret (unsupported "unsupported worker route")
  end.

Definition handleWorkerUserAction (user : User.t) (method path force : string) : M R Response :=
  match split (trim_prefix path workers_prefix) "/" with
  | [] => mret (unsupported "unsupported route")
  | workerID :: rest =>
      if decide (workerID = "") then mret (unsupported "unsupported route")
      else
        let action := match rest with [] => "" | a :: _ => a end in
        if bool_decide (action = "stop") && bool_decide (method = "POST") then
          handleStopWorker user workerID force
        else if bool_decide (action = "restart") && bool_decide (method = "POST") then
          handleRestartWorker user workerID
        else if bool_decide (action = "") && bool_decide (method = "DELETE") then
          handleDeleteWorker user workerID
        else mret (unsupported "unsupported route")
  end.

(** [token] is the header X-Worker-Token. *)
Definition withWorkerAuth (cfg : Config) (next : M R Response) (token : string) : M R Response :=
  if decide (token = "" ∨ token ≠ WorkerSharedToken cfg) then
    mret (writeError StatusUnauthorized (new_error "invalid worker token"))
  else next.

End handlers.
End Workers.

(** ** Properties *)
Module WorkersFacts.
Import Filepath Workers.

(** *** Paths *)
Definition slash : ascii := "/"%char.
Abbreviation slash_free := (free slash).
(** A component that names an entry of a directory. *)
Definition proper (c : string) : Prop := c ≠ "" ∧ c ≠ "." ∧ c ≠ ".." ∧ slash_free c.

Lemma components_proper path : Forall proper (components true path).
Proof.
  unfold components. apply Forall_reverse. assert (Forall proper []) as Hacc by constructor.
  pose proof (split_free slash path : Forall slash_free (split path "/")) as Hl. revert Hacc Hl. generalize (@nil string).
  generalize (split path "/"). intros l. induction l as [|c l IH]; intros acc Hacc Hl; [done|].
  apply Forall_cons in Hl as [Hc Hl]. simpl. apply IH; [|done]. unfold clean_step.
  case_decide as H1; [done|]. case_decide as H2.
  - destruct acc as [|d acc]; [done|]. apply Forall_cons in Hacc as [(_ & _ & Hd & _) Hacc].
    by rewrite decide_False by done.
  - constructor; [|done]. unfold proper. tauto.
Qed.

(** A slash ends a component. *)
Lemma prefix_component d u c :
  slash_free c → has_prefix c (d +:+ String slash u) = false.
Proof.
  unfold has_prefix. revert c. induction d as [|b d IH]; intros [|a c] Hc; [done| |done|].
  - apply free_cons in Hc as [Ha _]. change ("" +:+ String slash u) with (String slash u).
    cbn [String.prefix]. destruct (Ascii.ascii_dec slash a) as [He|]; [by destruct Ha|done].
  - rewrite string_app_cons. cbn [String.prefix]. destruct (Ascii.ascii_dec b a); [|done].
    apply IH. by apply free_cons in Hc as [_ ?].
Qed.

Lemma prefix_slash d u c t :
  slash_free c → slash_free d →
  has_prefix (c +:+ String slash t) (d +:+ String slash u) = true → c = d ∧ has_prefix t u = true.
Proof.
  unfold has_prefix. revert d. induction c as [|a c IH]; intros [|b d] Hc Hd.
  - change ("" +:+ ?x) with x. cbn [String.prefix]. by destruct (Ascii.ascii_dec _ _).
  - rewrite string_app_cons. change ("" +:+ ?x) with x. cbn [String.prefix].
    apply free_cons in Hd as [Hb _]. by destruct (Ascii.ascii_dec b slash).
  - rewrite string_app_cons. change ("" +:+ ?x) with x. cbn [String.prefix].
    apply free_cons in Hc as [Ha _].
    destruct (Ascii.ascii_dec slash a) as [He|]; [by destruct Ha|done].
  - rewrite !string_app_cons. cbn [String.prefix]. apply free_cons in Hc as [_ Hc], Hd as [_ Hd].
    destruct (Ascii.ascii_dec b a) as [->|]; [|done]. intros Hp.
    by destruct (IH d Hc Hd Hp) as [-> ?].
Qed.

Lemma join_prefix d u l :
  slash_free d → Forall slash_free l → has_prefix (join l "/") (d +:+ String slash u) = true →
  ∃ l', l = d :: l' ∧ l' ≠ [] ∧ has_prefix (join l' "/") u = true.
Proof.
  intros Hd Hl. destruct l as [|c l]; cbn [join]; [by rewrite (prefix_component d u "")|].
  apply Forall_cons in Hl as [Hc Hl]. destruct l as [|c' l'].
  - by rewrite prefix_component.
  - change (c +:+ "/" +:+ join (c' :: l') "/") with (c +:+ String slash (join (c' :: l') "/")).
    intros [-> Hp]%prefix_slash; [|done..]. by exists (c' :: l').
Qed.

Lemma components_named rooted path : Forall (λ c, c ≠ "" ∧ slash_free c) (components rooted path).
Proof.
  unfold components. apply Forall_reverse. assert (Forall (λ c, c ≠ "" ∧ slash_free c) []) as Hacc
    by constructor.
  pose proof (split_free slash path : Forall slash_free (split path "/")) as Hl. revert Hacc Hl. generalize (@nil string).
  generalize (split path "/"). intros l. induction l as [|c l IH]; intros acc Hacc Hl; [done|].
  apply Forall_cons in Hl as [Hc Hl]. simpl. apply IH; [|done]. unfold clean_step.
  case_decide; [done|]. case_decide; [|constructor; [tauto|done]].
  destruct acc as [|d acc]; [destruct rooted; by repeat constructor|].
  case_decide; [by constructor|]. by apply Forall_cons in Hacc as [_ ?].
Qed.

(** A cleaned path under the directory of keys names an entry below it. *)
Lemma clean_under_prefix path :
  has_prefix (Clean path) key_prefix = true →
  ∃ comps, Clean path = key_prefix +:+ join comps "/" ∧ comps ≠ [] ∧ Forall proper comps.
Proof.
  unfold Clean. case_decide; [done|]. destruct (has_prefix path "/") eqn:Hr.
  - pose proof (components_proper path) as Hp. set (l := components true path) in *.
    assert (Forall slash_free l) as Hs.
    { apply (Forall_impl _ _ _ Hp). by intros c (_ & _ & _ & ?). }
    clearbody l. unfold key_prefix. intros Hpre.
    assert (has_prefix (join l "/") ("etc" +:+ String slash "adp/ssh/") = true) as H1 by exact Hpre.
    apply join_prefix in H1 as (l1 & -> & _ & H1); [|done..].
    apply Forall_cons in Hs as [_ Hs], Hp as [_ Hp].
    apply (join_prefix "adp" "ssh/") in H1 as (l2 & -> & _ & H1); [|done..].
    apply Forall_cons in Hs as [_ Hs], Hp as [_ Hp].
    apply (join_prefix "ssh" "") in H1 as (l3 & -> & Hne & _); [|done..].
    apply Forall_cons in Hs as [_ Hs], Hp as [_ Hp].
    exists l3. split; [|done]. by destruct l3.
  - pose proof (components_named false path) as Hp. destruct (components false path) as [|c l]; [done|].
    apply Forall_cons in Hp as [[Hc Hs] _]. destruct c as [|a c]; [done|].
    apply free_cons in Hs as [Ha _].
    assert (∃ t, join (String a c :: l) "/" = String a t) as [t ->] by (destruct l; simpl; eauto).
    rewrite decide_False by done. unfold has_prefix, key_prefix. cbn [String.prefix].
    by destruct (Ascii.ascii_dec _ a) as [<-|].
Qed.

(** *** What the handlers keep *)
Section neutral.
Context {R : Type} `{L : JobLaws R} `{O : Oracle}.

Lemma neutral_handleCreateWorker cfg env exe user req :
  neutral (handleCreateWorker cfg env exe user req).
Proof. unfold handleCreateWorker, deploy_remote. neutral_auto. Qed.

Lemma neutral_handleRegisterWorker req : neutral (handleRegisterWorker req).
Proof. unfold handleRegisterWorker. neutral_auto. Qed.

Lemma neutral_complete w id out success : neutral (call (λ e, CompleteJob e w id out success)).
Proof.
  apply (neutral_change _ (finished id)); intros; [apply Spec.change_finish|apply CompleteJob_law].
Qed.
Hint Resolve neutral_complete : neutral.

Lemma neutral_handleStopWorker user id force : neutral (handleStopWorker user id force).
Proof. unfold handleStopWorker, PushCommand. neutral_auto. Qed.

Lemma neutral_handleRestartWorker user id : neutral (handleRestartWorker user id).
Proof. unfold handleRestartWorker, PushCommand. neutral_auto. Qed.

Lemma neutral_handleDeleteWorker user id : neutral (handleDeleteWorker user id).
Proof. unfold handleDeleteWorker, PushCommand. neutral_auto. Qed.
Hint Resolve neutral_handleStopWorker neutral_handleRestartWorker neutral_handleDeleteWorker : neutral.

Lemma neutral_handleWorkerActions user method path force body :
  neutral (handleWorkerActions user method path force body).
Proof.
  unfold handleWorkerActions, handleWorkerHeartbeat, handleWorkerPoll, handleWorkerCompleteJob,
    handleUpdateHostInfo. neutral_auto.
Qed.

Lemma neutral_handleWorkerUserAction user method path force :
  neutral (handleWorkerUserAction user method path force).
Proof. unfold handleWorkerUserAction. neutral_auto. Qed.

Lemma neutral_withWorkerAuth cfg next token :
  neutral next → neutral (withWorkerAuth cfg next token).
Proof. intros. unfold withWorkerAuth. neutral_auto. Qed.
End neutral.

(** *** Remote deployment *)
Section deploy.
Context {R : Type} `{RR : Repository R} `{O : Oracle}.

(** The goroutines that are running are [l]. *)
Definition spawned_is (l : list goroutine) (w : World.t R) : Prop := spawned w = l.

Lemma spawned_call {A} l (op : Reading → Op R A) : keeps (spawned_is l) (call op).
Proof. intros w Hw. rewrite run_call. by destruct (op _ _). Qed.

Lemma spawned_register {A} l name wt (k : result Worker.t → M R A) :
  (∀ x, keeps (spawned_is l) (k x)) →
  keeps (spawned_is l) (x ← call (λ e, RegisterWorker e name wt); k x).
Proof. intros Hk. apply keeps_bind; [apply spawned_call|done]. Qed.

Lemma spawned_audit l a b c d e f : keeps (spawned_is l) (recordAudit (R:=R) a b c d e f).
Proof.
  unfold recordAudit. apply keeps_bind; [by intros w|]. intros r. apply keeps_bind; [apply spawned_call|].
  intros. apply keeps_ret.
Qed.

Lemma spawned_after {A} g (k : unit → M R A) w :
  (∀ l, keeps (spawned_is l) (k tt)) → spawned ((spawn g ≫= k) w).2 = spawned w ++ [g].
Proof.
  intros Hk. specialize (Hk _ (w <| spawned := spawned w ++ [g] |>) eq_refl).
  rewrite run_bind, run_spawn. by destruct (k tt _) as [[a|] w'].
Qed.

Lemma spawned_same {A} (m : M R A) w : (∀ l, keeps (spawned_is l) m) → spawned (m w).2 = spawned w.
Proof. intros Hk. specialize (Hk _ w eq_refl). by destruct (m w) as [[a|] w']. Qed.

(** A deployment that the request may ask for. *)
Definition permitted (cfg : Config) (env : string) (req : registerWorkerRequest)
    (g : goroutine) : Prop :=
  env = "true" ∧ rw_Name req ≠ "" ∧
  ∃ target spec bin comps, g = DeployWorker target spec bin ∧
    Deploy.Host target = rw_SSHHost req ∧ Deploy.User target ≠ "" ∧ Deploy.Password target = "" ∧
    Deploy.KeyFile target = key_prefix +:+ join comps "/" ∧ comps ≠ [] ∧ Forall proper comps ∧
    Deploy.WorkerToken spec = WorkerSharedToken cfg.

(** C13: creating a worker deploys nothing, or starts one deployment: remote
    deployment is then enabled, no password is sent, and the SSH key is a file
    below /etc/adp/ssh whose path has no dot components, whatever path the
    request names. *)
Theorem remote_deploy_guarded (cfg : Config) (env : string) (exe : result string) (user : User.t)
    (req : registerWorkerRequest) (w : World.t R) :
  let w' := (handleCreateWorker cfg env exe user (Ok req) w).2 in
  spawned w' = spawned w ∨ ∃ g, spawned w' = spawned w ++ [g] ∧ permitted cfg env req g.
Proof.
  unfold handleCreateWorker. case_decide as Hname; [by left|]. case_decide as Hhost.
  - unfold deploy_remote. case_decide; [by left|]. case_decide; [by left|]. case_decide; [by left|].
    destruct (has_prefix _ _) eqn:Hp; [|by left]. cbn [negb]. destruct exe as [bin|]; [|by left].
    right. match goal with |- context [spawn ?g] => exists g end.
    apply clean_under_prefix in Hp as (comps & Hc & Hne & Hf). split.
    + apply spawned_after. intros l. apply spawned_register. intros [x|?]; [|apply keeps_ret].
      apply keeps_bind; [apply spawned_audit|intros; apply keeps_ret].
    + split; [done|]. split; [tauto|]. by eexists _, _, _, comps.
  - left. apply spawned_same. intros l. apply spawned_register. intros [x|?]; [|apply keeps_ret].
    apply keeps_bind; [apply spawned_audit|intros; apply keeps_ret].
Qed.
End deploy.

End WorkersFacts.
