(* ===== verification/Config.v ===== *)
(** * Managed configurations

    Templates and policies in YAML: the handlers, the reload of the running
    server ([internal/interfaces/http/config.go]) and the synchronization with a
    directory ([server.go]). The decoders of YAML are parameters, and a walk of
    the directory is the sequence of entries it visits. *)
From Stdlib Require Import Ascii.
From S2P Require Import Prelude.
From S2P Require Import GoStrings.
From S2P Require Import Fmt.
From S2P Require Import Crypto.
From S2P Require Import Model.
From S2P Require Import Policy.
From S2P Require Import Modules.
From S2P Require Import Repository.
From S2P Require Import MemoryRepo.
From S2P Require Import Hub.
From S2P Require Import World.
From S2P Require Import Spec.
From S2P Require Import Server.
From S2P Require Import ServerFacts.
From S2P Require Import ServerWorkers.

Import Repository World Spec.Refine Server.Server.

(** ** Paths *)
Module Path.

(** From the first slash on. *)
Fixpoint from_slash (s : string) : string :=
  match s with
  | EmptyString => ""
  | String c s' => if decide (c = "/"%char) then s else from_slash s'
  end.
Fixpoint drop_slashes (s : string) : string :=
  match s with
  | EmptyString => ""
  | String c s' => if decide (c = "/"%char) then drop_slashes s' else s
  end.

(** [strings.Trim(s, "/")]. *)
Definition trim_slashes (s : string) : string :=
  string_rev (drop_slashes (string_rev (drop_slashes s))).

Definition last_element (path : string) : string := List.last (split path "/") "".

(** [filepath.Ext]: from the last dot of the last element. *)
Definition Ext (path : string) : string :=
  match cut (string_rev (last_element path)) "." with
  | Some (ext, _) => "." +:+ string_rev ext
  | None => ""
  end.
Definition Base (path : string) : string :=
  if decide (path = "") then "."
  else
    let path := string_rev (drop_slashes (string_rev path)) in
    if decide (path = "") then "/" else last_element path.
Definition Dir (path : string) : string :=
  Filepath.Clean (string_rev (from_slash (string_rev path))).

Example kind_of_path : Base (Dir "configs/templates/mysql.v1.yaml") = "templates".
Proof. vm_compute. reflexivity. Qed.
Example ext_of_path : Ext "configs.d/templates/mysql.v1.yaml" = ".yaml" ∧ Ext "a.d/README" = "".
Proof. split; vm_compute; reflexivity. Qed.

End Path.

(** ** Decoded configurations *)
Record templateParamYAML := mkParamYAML {
  py_Name : string; py_Description : string; py_Required : bool; py_Default : string;
}.
Record templateConfigYAML := mkTemplateYAML {
  ty_Code : string; ty_Name : string; ty_Description : string; ty_ToolType : string;
  ty_Command : string; ty_Parameters : list templateParamYAML; ty_RiskLevel : RiskLevel;
}.
Record templateGroupConfigYAML := mkGroupYAML {
  gy_ID : string; gy_Name : string; gy_Templates : list templateConfigYAML;
}.
Record policyConfigYAML := mkPolicyYAML {
  ly_ID : string; ly_Name : string; ly_BlockedTools : list string; ly_AllowedTemplates : list string;
  ly_HighRiskKeywords : list string; ly_ApprovalRiskLevels : list string;
}.
Class ConfigYAML := {
  unmarshal_group : string → result templateGroupConfigYAML;
  unmarshal_policy : string → result policyConfigYAML;
}.

Module Configs.

Definition configKindTemplate : string := "templates".
Definition configKindPolicy : string := "policies".
Definition isSupportedConfigKind (kind : string) : bool :=
  bool_decide (kind = configKindTemplate) || bool_decide (kind = configKindPolicy).

Record managedConfigRequest := mkConfigRequest {
  mr_ID : string; mr_Name : string; mr_YAMLContent : string; mr_Active : option bool;
}.

Definition managedConfigPath (path : string) : string * string :=
  match split (Path.trim_slashes (trim_prefix path "/api/v1/configs/")) "/" with
  | [] => ("", "")
  | kind :: rest => if decide (kind = "") then ("", "")
                    else match rest with [] => (kind, "") | id :: _ => (kind, id) end
  end.

Definition yamlSHA256 (content : string) : string := Sha256.hex (Sha256.Sum256 content).

Section decoded.
Context `{Y : ConfigYAML} `{TT : TextTemplate}.

Definition managedConfigIdentity (kind raw : string) : result (string * string) :=
  if decide (kind = configKindTemplate) then
    group ← unmarshal_group raw;
    if decide (gy_ID group = "") then Err (new_error "template group id is required")
    else Ok (gy_ID group, gy_Name group)
  else if decide (kind = configKindPolicy) then
    p ← unmarshal_policy raw;
    Ok (if decide (ly_ID p = "") then "default" else ly_ID p, ly_Name p)
  else Err (new_error "unsupported config kind").

Definition newTemplateModuleFromYAML (t : templateConfigYAML) : Module_.t :=
  TemplateModule.NewTemplateModule
    (CommandTemplate.mk (ty_Code t) (ty_Name t) (ty_Description t) (ty_ToolType t) (ty_Command t)
      ((λ p, TemplateParam.mk (py_Name p) (py_Description p) (py_Required p) (py_Default p))
         <$> ty_Parameters t)
      (ty_RiskLevel t)).

(** What a configuration does to the policy and the registry. *)
Definition apply_config (cfg : ManagedConfig.t) (pol : Policy.Engine) (reg : Registry.t)
    : result (Policy.Engine * Registry.t) :=
  if decide (ManagedConfig.Kind cfg = configKindPolicy) then
    p ← unmarshal_policy (ManagedConfig.YAMLContent cfg);
    Ok (Policy.Configure (ly_BlockedTools p) (ly_AllowedTemplates p) (ly_HighRiskKeywords p)
          (ly_ApprovalRiskLevels p) pol, reg)
  else if decide (ManagedConfig.Kind cfg = configKindTemplate) then
    group ← unmarshal_group (ManagedConfig.YAMLContent cfg);
    Ok (pol, foldl (λ reg t, Registry.Register (newTemplateModuleFromYAML t) reg) reg (gy_Templates group))
  else Ok (pol, reg).
End decoded.

Section handlers.
Context {R : Type} `{RR : Repository R} `{O : Oracle} `{Y : ConfigYAML} `{TT : TextTemplate}.

Definition applyManagedConfig (cfg : ManagedConfig.t) : M R (result unit) := atomic (λ w,
  match apply_config cfg (policyEng w) (moduleReg w) with
  | Err err => (Some (Err err), w)
  | Ok (pol, reg) => (Some (Ok tt), w <| policyEng := pol |> <| moduleReg := reg |>)
  end).

Fixpoint apply_active (cfgs : list ManagedConfig.t) : M R (result unit) :=
  match cfgs with
  | [] => mret (Ok tt)
  | cfg :: cfgs =>
      if ManagedConfig.Active cfg then
        r ← applyManagedConfig cfg;
        match r with
        | Err err => mret (Err err)
        | Ok _ => apply_active cfgs
        end
      else apply_active cfgs
  end.

(** [builtin.ClearTemplateModules] clears the registry. *)
Definition reloadManagedConfigs : M R (result unit) :=
  _ ← modify (λ w, w <| moduleReg := Registry.Clear (moduleReg w) |>);
  cfgs ← query (λ e, ListManagedConfigs e "");
  match cfgs with
  | Err err => mret (Err err)
  | Ok cfgs => apply_active cfgs
  end.

(** The answer after a reload. *)
Definition reload_then (resp : Response) : M R Response :=
  r ← reloadManagedConfigs;
  match r with
  | Err err => mret (writeError StatusBadRequest err)
  | Ok _ => mret resp
  end.

Definition handleSaveManagedConfig (req : result managedConfigRequest) (kind pathID : string)
    : M R Response :=
  match req with
  | Err err => mret (writeError StatusBadRequest err)
  | Ok req =>
      match managedConfigIdentity kind (mr_YAMLContent req) with
      | Err err => mret (writeError StatusBadRequest err)
      | Ok (id, name) =>
          let id := if decide (mr_ID req = "") then id else mr_ID req in
          let id := if decide (pathID = "") then id else pathID in
          let name := if decide (mr_Name req = "") then name else mr_Name req in
          let active := match mr_Active req with Some b => b | None => true end in
          cfg ← call (λ e, SaveManagedConfig e
                  (ManagedConfig.mk id kind name (mr_YAMLContent req) active time_zero time_zero));
          match cfg with
          | Err err => mret (writeError StatusInternalServerError err)
          | Ok cfg => reload_then (writeJSON StatusCreated (BConfig cfg))
          end
      end
  end.

(** *** Synchronization *)
Record syncReport := mkReport { Imported : Z; Updated : Z; InSync : Z; Drifted : list string }.
#[global] Instance syncReport_eta : Eta syncReport := λ r,
  mkReport (Imported r) (Updated r) (InSync r) (Drifted r).

(** What the walk hands to its function: the path, the error of the walk, and
    for an entry whether it is a directory and the result of reading it. *)
Record walk_entry := mkEntry {
  path : string; walkErr : option error; IsDir : bool; ReadFile : result string;
}.

Definition sync_entry (enforce : bool) (entry : walk_entry) (report : syncReport)
    : M R (result syncReport) :=
  match walkErr entry with
  | Some err => mret (Err err)
  | None =>
      if IsDir entry || (bool_decide (Path.Ext (path entry) ≠ ".yaml")
                         && bool_decide (Path.Ext (path entry) ≠ ".yml"))
      then mret (Ok report)
      else
        let kind := Path.Base (Path.Dir (path entry)) in
        if negb (isSupportedConfigKind kind) then mret (Ok report)
        else match ReadFile entry with
        | Err err => mret (Err err)
        | Ok content =>
            match managedConfigIdentity kind content with
            | Err err => mret (Err (Errorf "validate %s: %w" [AStr (path entry); AErr err]))
            | Ok (id, name) =>
                existing ← query (λ _, GetManagedConfig kind id);
                match existing with
                | Err _ =>
                    saved ← call (λ e, SaveManagedConfig e
                      (ManagedConfig.mk id kind name content true time_zero time_zero));
                    mret (match saved with
                          | Err err => Err err
                          | Ok _ => Ok (report <| Imported := (Imported report + 1)%Z |>)
                          end)
                | Ok existing =>
                    if decide (yamlSHA256 (ManagedConfig.YAMLContent existing) = yamlSHA256 content) then
                      mret (Ok (report <| InSync := (InSync report + 1)%Z |>))
                    else if negb enforce then
                      mret (Ok (report <| Drifted := Drifted report ++ [kind +:+ "/" +:+ id] |>))
                    else
                      saved ← call (λ e, SaveManagedConfig e
                        (ManagedConfig.mk id kind name content true (ManagedConfig.CreatedAt existing)
                           time_zero));
                      mret (match saved with
                            | Err err => Err err
                            | Ok _ => Ok (report <| Updated := (Updated report + 1)%Z |>)
                            end)
                end
            end
        end
  end.

Fixpoint sync_entries (enforce : bool) (walk : list walk_entry) (report : syncReport)
    : M R (result syncReport) :=
  match walk with
  | [] => mret (Ok report)
  | entry :: walk =>
      r ← sync_entry enforce entry report;
      match r with
      | Err err => mret (Err err)
      | Ok report => sync_entries enforce walk report
      end
  end.

Definition emptyReport : syncReport := mkReport 0 0 0 [].
Definition syncManagedConfigs (dir : string) (enforce : bool) (walk : list walk_entry)
    : M R (result syncReport) :=
  if decide (trim_space dir = "") then mret (Ok emptyReport)
  else sync_entries enforce walk emptyReport.

Definition report_body (r : syncReport) : Body :=
  BMap ([("imported", VInt (Imported r)); ("updated", VInt (Updated r)); ("in_sync", VInt (InSync r))]
        ++ (if decide (Drifted r = []) then [] else [("drifted", VStrings (Drifted r))])).

Definition handleManagedConfigSync (dir : string) (enforce : bool) (walk : list walk_entry)
    : M R Response :=
  report ← syncManagedConfigs dir enforce walk;
  match report with
  | Err err => mret (writeError StatusBadRequest err)
  | Ok report => reload_then (writeJSON StatusOK (report_body report))
  end.

Definition handleManagedConfigActions (method urlPath : string) (req : result managedConfigRequest)
    (dir : string) (enforce : bool) (walk : list walk_entry) : M R Response :=
  let '(kind, id) := managedConfigPath urlPath in
  if decide (kind = "sync") then handleManagedConfigSync dir enforce walk
  else if negb (isSupportedConfigKind kind) then
    mret (writeError StatusBadRequest (Errorf "unsupported config kind: %s" [AStr kind]))
  else if decide (method = "GET") then
    if decide (id = "") then
      cfgs ← query (λ e, ListManagedConfigs e kind);
      mret (match cfgs with
            | Err err => writeError StatusInternalServerError err
            | Ok cfgs => writeJSON StatusOK (BConfigs cfgs)
            end)
    else
      cfg ← query (λ _, GetManagedConfig kind id);
      mret (match cfg with
            | Err err => writeError StatusNotFound err
            | Ok cfg => writeJSON StatusOK (BConfig cfg)
            end)
  else if decide (method = "POST" ∨ method = "PUT") then handleSaveManagedConfig req kind id
  else if decide (method = "DELETE") then
    if decide (id = "") then
      mret (writeError StatusBadRequest (new_error "config id is required"))
    else
      r ← call (λ e, DeleteManagedConfig e kind id);
      match r with
      | Err err => mret (writeError StatusNotFound err)
      | Ok _ => reload_then (writeJSON StatusOK (status_map "deleted"))
      end
  else mret (writeError StatusMethodNotAllowed (new_error "unsupported method")).
End handlers.
End Configs.
