(* ===== verification/ConfigFacts.v ===== *)
(** * Properties of managed configurations

    What a reload leaves in the registry and the policy, what a
    synchronization changes, and that neither touches the control plane. *)
From S2P Require Import Prelude.
From S2P Require Import GoStrings.
From S2P Require Import Model.
From S2P Require Import Policy.
From S2P Require Import Modules.
From S2P Require Import Repository.
From S2P Require Import MemoryRepo.
From S2P Require Import Hub.
From S2P Require Import World.
From S2P Require Import Spec.
From S2P Require Import Server.
From S2P Require Import ServerFacts.
From S2P Require Import Config.

Import Repository World Spec.Refine Server.Server Configs.

Module ConfigFacts.

(** ** The control plane *)
Section neutral.
Context {R : Type} `{L : JobLaws R} `{O : Oracle} `{Y : ConfigYAML} `{TT : TextTemplate}.

Lemma neutral_applyManagedConfig cfg : neutral (applyManagedConfig cfg).
Proof.
  apply neutral_same. intros w. by destruct (apply_config _ _ _) as [[pol reg]|].
Qed.
#[local] Hint Resolve neutral_applyManagedConfig : neutral.

Lemma neutral_apply_active cfgs : neutral (apply_active cfgs).
Proof. induction cfgs; simpl; neutral_auto. Qed.
#[local] Hint Resolve neutral_apply_active : neutral.

Lemma neutral_clear (f : Registry.t → Registry.t) :
  neutral (modify (λ w : World.t R, w <| moduleReg := f (moduleReg w) |>)).
Proof. by apply neutral_modify. Qed.
#[local] Hint Resolve neutral_clear : neutral.

Lemma neutral_reloadManagedConfigs : neutral reloadManagedConfigs.
Proof. unfold reloadManagedConfigs. neutral_auto. Qed.
#[local] Hint Resolve neutral_reloadManagedConfigs : neutral.

Lemma neutral_reload_then resp : neutral (reload_then resp).
Proof. unfold reload_then. neutral_auto. Qed.
#[local] Hint Resolve neutral_reload_then : neutral.

Lemma neutral_sync_entries enforce walk report : neutral (sync_entries enforce walk report).
Proof.
  revert report. induction walk as [|entry walk IH]; intros report; simpl; [neutral_auto|].
  apply neutral_bind; [unfold sync_entry; neutral_auto|]. intros [report'|]; [apply IH|neutral_auto].
Qed.
#[local] Hint Resolve neutral_sync_entries : neutral.

Lemma neutral_syncManagedConfigs dir enforce walk :
  neutral (syncManagedConfigs dir enforce walk).
Proof. unfold syncManagedConfigs. neutral_auto. Qed.
#[local] Hint Resolve neutral_syncManagedConfigs : neutral.

Lemma neutral_handleManagedConfigActions method path req dir enforce walk :
  neutral (handleManagedConfigActions method path req dir enforce walk).
Proof.
  unfold handleManagedConfigActions, handleManagedConfigSync, handleSaveManagedConfig. neutral_auto.
Qed.
End neutral.

(** ** Reload *)
Section reload.
Context {R : Type} `{RR : Repository R} `{O : Oracle} `{Y : ConfigYAML} `{TT : TextTemplate}.
Implicit Types w : World.t R.

Definition active_kind (kind : string) (cfg : ManagedConfig.t) : Prop :=
  ManagedConfig.Active cfg = true ∧ ManagedConfig.Kind cfg = kind.
#[global] Instance active_kind_dec kind cfg : Decision (active_kind kind cfg).
Proof. unfold active_kind. apply _. Defined.

(** The modules of an active group of templates, and the settings of an active
    policy. *)
Definition modules_of (cfg : ManagedConfig.t) : list Module_.t :=
  if decide (active_kind configKindTemplate cfg) then
    match unmarshal_group (ManagedConfig.YAMLContent cfg) with
    | Ok group => newTemplateModuleFromYAML <$> gy_Templates group
    | Err _ => []
    end
  else [].
Definition policies_of (cfg : ManagedConfig.t) : list policyConfigYAML :=
  if decide (active_kind configKindPolicy cfg) then
    match unmarshal_policy (ManagedConfig.YAMLContent cfg) with Ok p => [p] | Err _ => [] end
  else [].
Definition policy_engine (p : policyConfigYAML) : Policy.Engine :=
  Policy.Configure (ly_BlockedTools p) (ly_AllowedTemplates p) (ly_HighRiskKeywords p)
    (ly_ApprovalRiskLevels p) Policy.NewEngine.

(** An active configuration that decodes. *)
Definition decodes (cfg : ManagedConfig.t) : Prop :=
  (active_kind configKindTemplate cfg → is_ok (unmarshal_group (ManagedConfig.YAMLContent cfg)) = true) ∧
  (active_kind configKindPolicy cfg → is_ok (unmarshal_policy (ManagedConfig.YAMLContent cfg)) = true).

Definition register_all : Registry.t → list Module_.t → Registry.t := foldl (λ r m, Registry.Register m r).

Lemma register_all_lookup ms reg code :
  register_all reg ms !! code =
    match last (filter (λ m, Module_.Code m = code) ms) with Some m => Some m | None => reg !! code end.
Proof.
  induction ms as [|m ms IH] using rev_ind; [done|]. unfold register_all in *.
  rewrite foldl_app, filter_app, last_app. simpl. rewrite filter_cons, filter_nil. unfold Registry.Register.
  case_decide as Hm; simpl; [by rewrite Hm, lookup_insert_eq|]. rewrite lookup_insert_ne by done. apply IH.
Qed.

Lemma Configure_any b a k l e : Policy.Configure b a k l e = Policy.Configure b a k l Policy.NewEngine.
Proof. by destruct e. Qed.

(** The state after the configurations [cfgs] are applied to [w]. *)
Definition reloaded (cfgs : list ManagedConfig.t) w w' : Prop :=
  moduleReg w' = register_all (moduleReg w) (concat (modules_of <$> cfgs)) ∧
  policyEng w' = from_option policy_engine (policyEng w) (last (concat (policies_of <$> cfgs))) ∧
  repo w' = repo w ∧ hub w' = hub w ∧ templateEng w' = templateEng w.

Lemma decodes_inactive cfg :
  ManagedConfig.Active cfg = false → decodes cfg ∧ modules_of cfg = [] ∧ policies_of cfg = [].
Proof.
  intros Ha. assert (∀ kind, ¬ active_kind kind cfg) as Hn by (intros kind [? _]; congruence).
  unfold modules_of, policies_of. rewrite !decide_False by apply Hn.
  split_and!; [split; intros H; by destruct (Hn _ H)|done|done].
Qed.

Lemma apply_config_spec cfg pol reg :
  ManagedConfig.Active cfg = true →
  match apply_config cfg pol reg with
  | Ok (pol', reg') =>
      decodes cfg ∧ reg' = register_all reg (modules_of cfg) ∧
      pol' = from_option policy_engine pol (last (policies_of cfg))
  | Err _ => ¬ decodes cfg
  end.
Proof.
  intros Ha. assert (∀ kind, active_kind kind cfg ↔ ManagedConfig.Kind cfg = kind) as Hk
    by (intros kind; split; [by intros [_ ?]|done]).
  assert (decodes cfg ↔
    (ManagedConfig.Kind cfg = configKindTemplate →
       is_ok (unmarshal_group (ManagedConfig.YAMLContent cfg)) = true) ∧
    (ManagedConfig.Kind cfg = configKindPolicy →
       is_ok (unmarshal_policy (ManagedConfig.YAMLContent cfg)) = true)) as Hd
    by (unfold decodes; by rewrite !Hk).
  unfold apply_config, modules_of, policies_of.
  destruct (decide (ManagedConfig.Kind cfg = configKindPolicy)) as [Hp|Hp].
  - rewrite (decide_False (P := active_kind configKindTemplate cfg)) by (rewrite Hk, Hp; done).
    rewrite decide_True by (by apply Hk). destruct (unmarshal_policy _) as [p|]; simpl.
    + rewrite Configure_any. split_and!; [apply Hd; split; [by rewrite Hp|done]|done..].
    + intros [_ H]%Hd. by specialize (H Hp).
  - rewrite (decide_False (P := active_kind configKindPolicy cfg)) by (by rewrite Hk).
    destruct (decide (ManagedConfig.Kind cfg = configKindTemplate)) as [Ht|Ht].
    + rewrite decide_True by (by apply Hk). destruct (unmarshal_group _) as [g|]; simpl.
      * split_and!; [apply Hd; split; [done|by intros ?]| |done]. unfold register_all. by rewrite foldl_fmap.
      * intros [H _]%Hd. by specialize (H Ht).
    + rewrite decide_False by (by rewrite Hk). split_and!; [apply Hd; by split; intros ?|done..].
Qed.

Lemma apply_active_spec cfgs w :
  match apply_active cfgs w with
  | (Some (Ok _), w') => Forall decodes cfgs ∧ reloaded cfgs w w'
  | (Some (Err _), w') => ¬ Forall decodes cfgs ∧ repo w' = repo w
  | (None, _) => False
  end.
Proof.
  revert w. induction cfgs as [|cfg cfgs IH]; intros w; cbn [apply_active].
  - rewrite run_ret. unfold reloaded. by repeat constructor.
  - destruct (ManagedConfig.Active cfg) eqn:Ha.
    + unfold applyManagedConfig. rewrite run_bind, run_atomic.
      pose proof (apply_config_spec cfg (policyEng w) (moduleReg w) Ha) as Hc.
      destruct (apply_config _ _ _) as [[pol reg]|]; [|by split; [intros [? _]%Forall_cons|]].
      destruct Hc as (Hd & -> & ->). specialize (IH (w <| policyEng := from_option policy_engine
        (policyEng w) (last (policies_of cfg)) |> <| moduleReg := register_all (moduleReg w) (modules_of cfg) |>)).
      destruct (run (apply_active _) _) as [[[u|err]|] w']; [| |done].
      * destruct IH as (Hall & Hm & Hp & Hrest). split; [by constructor|]. unfold reloaded.
        rewrite Hm, Hp. simpl. split_and!; [by unfold register_all; rewrite foldl_app| |apply Hrest..].
        rewrite last_app. by destruct (last (concat _)).
      * destruct IH as [Hn Hr]. split; [|done]. rewrite Forall_cons. tauto.
    + destruct (decodes_inactive cfg Ha) as (Hd & Hm & Hp). specialize (IH w).
      unfold reloaded. simpl. rewrite Hm, Hp.
      destruct (apply_active cfgs w) as [[[u|err]|] w']; [| |done].
      * destruct IH as [Hall Hr]. split; [by constructor|done].
      * destruct IH as [Hn Hr]. split; [|done]. rewrite Forall_cons. tauto.
Qed.

(** C23: a reload succeeds exactly when every active configuration decodes. The
    registry then holds exactly the modules of the active template groups, the
    last one of a code; the policy is the last active one, and the previous
    policy stays in force when none is active. *)
Theorem reload_outcome w (cfgs : list ManagedConfig.t) :
  ListManagedConfigs (oracle (ticks w)) "" (repo w) = Ok cfgs →
  match reloadManagedConfigs w with
  | (Some (Ok _), w') =>
      Forall decodes cfgs ∧
      (∀ code, moduleReg w' !! code =
         last (filter (λ m, Module_.Code m = code) (concat (modules_of <$> cfgs)))) ∧
      policyEng w' = from_option policy_engine (policyEng w) (last (concat (policies_of <$> cfgs))) ∧
      repo w' = repo w ∧ hub w' = hub w ∧ templateEng w' = templateEng w
  | (Some (Err _), w') => ¬ Forall decodes cfgs ∧ repo w' = repo w
  | (None, _) => False
  end.
Proof.
  intros Hc. unfold reloadManagedConfigs. run_step. simpl. rewrite Hc.
  match goal with |- context [run (apply_active cfgs) ?w1] => pose proof (apply_active_spec cfgs w1) as Ha end.
  destruct (run (apply_active _) _) as [[[u|err]|] w']; [|done..].
  destruct Ha as (Hd & Hm & Hp & Hr & Hh & Ht). simpl in *.
  split; [done|]. split; [|done]. intros code. rewrite Hm, register_all_lookup.
  destruct (last (filter _ _)); [done|apply lookup_empty].
Qed.
End reload.

(** ** Synchronization *)
Section sync.
Import MemoryRepo.MemoryRepo.
Context `{O : Oracle} `{Y : ConfigYAML} `{TT : TextTemplate}.
Implicit Types w : World.t MemoryRepository.

#[local] Opaque yamlSHA256 Path.Ext Path.Base Path.Dir.

Definition kind_of (entry : walk_entry) : string := Path.Base (Path.Dir (path entry)).
Definition is_config_file (entry : walk_entry) : bool :=
  negb (IsDir entry) &&
  (bool_decide (Path.Ext (path entry) = ".yaml") || bool_decide (Path.Ext (path entry) = ".yml")) &&
  isSupportedConfigKind (kind_of entry).

(** The configuration that a file holds is stored. *)
Definition present (entry : walk_entry) w : Prop :=
  is_config_file entry = true →
  ∃ content id name, ReadFile entry = Ok content ∧
    managedConfigIdentity (kind_of entry) content = Ok (id, name) ∧
    is_Some (managedConfigs (repo w) !! managedConfigKey (kind_of entry) id).

Definition grows w w' : Prop := managedConfigs (repo w) ⊆ managedConfigs (repo w').

#[global] Instance grows_preorder : PreOrder grows.
Proof. split; unfold grows; [intros w; reflexivity|]. intros w1 w2 w3 ? ?. by etrans. Qed.

Lemma present_grows entry w w' : grows w w' → present entry w → present entry w'.
Proof.
  intros Hg Hp Hf. destruct (Hp Hf) as (content & id & name & ? & ? & [c Hc]).
  exists content, id, name. split_and!; [done..|]. exists c. by eapply lookup_weaken.
Qed.

Lemma skipped_entry entry :
  IsDir entry || (bool_decide (Path.Ext (path entry) ≠ ".yaml")
                  && bool_decide (Path.Ext (path entry) ≠ ".yml")) = true →
  is_config_file entry = false.
Proof.
  unfold is_config_file. destruct (IsDir entry); [done|]. simpl. rewrite !bool_decide_not.
  by destruct (bool_decide _), (bool_decide _).
Qed.

Lemma identity_named kind raw id name : managedConfigIdentity kind raw = Ok (id, name) → id ≠ "".
Proof.
  unfold managedConfigIdentity. case_decide.
  - intros (g & _ & Hg)%result_bind_Ok. case_decide; [done|]. congruence.
  - case_decide; [|done]. intros (p & _ & [= <- _])%result_bind_Ok. by case_decide.
Qed.

Lemma sync_entry_spec entry report w :
  let '(res, w') := sync_entry false entry report w in
  grows w w' ∧
  match res with
  | Some (Ok report') => Updated report' = Updated report ∧ present entry w'
  | Some (Err _) => True
  | None => False
  end.
Proof.
  assert (∀ w', repo w' = repo w → grows w w') as Hsame by (intros w' Hw; unfold grows; by rewrite Hw).
  unfold sync_entry.
  destruct (walkErr entry) as [err|]; [by split; [apply Hsame|]|].
  destruct (_ || _) eqn:Hskip.
  { apply skipped_entry in Hskip. split; [by apply Hsame|]. split; [done|]. unfold present. by rewrite Hskip. }
  fold (kind_of entry). destruct (isSupportedConfigKind (kind_of entry)) eqn:Hk; simpl.
  2: { split; [by apply Hsame|]. split; [done|]. unfold present, is_config_file.
       by rewrite Hk, andb_false_r. }
  destruct (ReadFile entry) as [content|] eqn:Hread; [|by split; [apply Hsame|]].
  destruct (managedConfigIdentity _ content) as [[id name]|] eqn:Hid; [|by split; [apply Hsame|]].
  rewrite run_bind, run_query. simpl. unfold mem_GetManagedConfig.
  destruct (managedConfigs (repo w) !! managedConfigKey (kind_of entry) id) as [old|] eqn:Hold; simpl.
  - assert (present entry w) as Hp.
    { intros _. exists content, id, name. rewrite Hold. eauto. }
    clear Hskip. destruct (decide (yamlSHA256 _ = _)); (split; [by apply Hsame|]; split; [done|exact Hp]).
  - run_step. unfold mem_SaveManagedConfig. simpl. rewrite (decide_False (P := id = "")) by (by eapply identity_named).
    simpl. split; [by apply insert_subseteq|]. split; [done|].
    intros _. exists content, id, name. split_and!; [done..|]. simpl. by rewrite lookup_insert_eq.
Qed.

Lemma sync_entries_spec walk report w :
  let '(res, w') := sync_entries false walk report w in
  grows w w' ∧
  match res with
  | Some (Ok report') => Updated report' = Updated report ∧ Forall (λ entry, present entry w') walk
  | Some (Err _) => True
  | None => False
  end.
Proof.
  revert report w. induction walk as [|entry walk IH]; intros report w.
  { split; [reflexivity|]. by repeat constructor. }
  cbn [sync_entries]. rewrite run_bind. pose proof (sync_entry_spec entry report w) as He.
  destruct (sync_entry false entry report w) as [[[report1|err]|] w1]; [|by split; [apply He|]|by destruct He].
  destruct He as (Hg & Hu & Hp). specialize (IH report1 w1).
  destruct (sync_entries false walk report1 w1) as [[[report2|err]|] w2];
    [|by split; [etrans; [|apply IH]|]|by destruct IH].
  destruct IH as (Hg2 & Hu2 & Hall). split; [by etrans|]. split; [congruence|].
  constructor; [by eapply present_grows|done].
Qed.

(** C24: on the in-memory repository a synchronization without enforcement keeps
    every stored configuration as it is, whether it succeeds or not; when it
    succeeds it has updated none and the configuration of every file of the
    directory is stored. (A repository whose reads can fail for other reasons
    does not have this property: any error counts as a missing configuration.) *)
Theorem sync_only_imports (dir : string) (walk : list walk_entry) w :
  let '(res, w') := syncManagedConfigs dir false walk w in
  managedConfigs (repo w) ⊆ managedConfigs (repo w') ∧
  match res with
  | Some (Ok report) =>
      Updated report = 0%Z ∧ (trim_space dir = "" ∨ Forall (λ entry, present entry w') walk)
  | Some (Err _) => True
  | None => False
  end.
Proof.
  unfold syncManagedConfigs. case_decide as Hd; [split; [done|by split; [|left]]|].
  pose proof (sync_entries_spec walk emptyReport w) as Hs.
  destruct (sync_entries _ _ _ _) as [[[report|err]|] w']; destruct Hs as [Hg Hs]; [|done..].
  split; [done|]. destruct Hs as [-> ?]. split; [done|by right].
Qed.
End sync.

(** ** A reload of an in-memory server *)
Section demo.
Import MemoryRepo.MemoryRepo.
#[local] Instance demo_oracle : Oracle := λ n, mkReading (Z.of_nat n) (Z.of_nat n) iter_default.
#[local] Instance demo_template : TextTemplate :=
  {| other_parse := λ _, Err (new_error "parse"); other_execute := λ _ _, Err (new_error "execute") |}.
#[local] Instance demo_yaml : ConfigYAML := {|
  unmarshal_group := λ s,
    Ok (mkGroupYAML "group" "" [mkTemplateYAML s s "" "shell" s [] "low"]);
  unmarshal_policy := λ s, Ok (mkPolicyYAML "" "" [] [s] [] ["high"]);
|}.

Definition demo_config (kind content : string) : ManagedConfig.t :=
  ManagedConfig.mk "main" kind "" content true time_zero time_zero.
Definition demo_repo : MemoryRepository :=
  (mem_SaveManagedConfig (oracle 1) (demo_config "policies" "uptime")
    (mem_SaveManagedConfig (oracle 0) (demo_config "templates" "uptime") NewMemoryRepository).2).2.
Definition demo_world : World.t MemoryRepository :=
  World.mk demo_repo Hub.NewHub Policy.NewEngine Registry.NewRegistry TemplateEngine.NewEngine
    (AgentMetrics.new float_zero float_zero) [] 2.
Definition demo_cfgs : list ManagedConfig.t :=
  match ListManagedConfigs (oracle 2) "" demo_repo with Ok l => l | Err _ => [] end.

Lemma reload_outcome_witness :
  match reloadManagedConfigs demo_world with
  | (Some (Ok _), w') =>
      Forall decodes demo_cfgs ∧
      (∀ code, moduleReg w' !! code =
         last (filter (λ m, Module_.Code m = code) (concat (modules_of <$> demo_cfgs)))) ∧
      policyEng w' = from_option policy_engine (policyEng demo_world)
                       (last (concat (policies_of <$> demo_cfgs))) ∧
      repo w' = repo demo_world ∧ hub w' = hub demo_world ∧ templateEng w' = templateEng demo_world
  | (Some (Err _), w') => ¬ Forall decodes demo_cfgs ∧ repo w' = repo demo_world
  | (None, _) => False
  end ∧ length demo_cfgs = 2.
Proof.
  split; [|vm_compute; reflexivity].
  apply (reload_outcome demo_world demo_cfgs). vm_compute. reflexivity.
Defined.
End demo.
End ConfigFacts.
