(* ===== verification/AgentTools.v ===== *)
(** * The tools of the agent ([internal/interfaces/http/agent.go])

    The messages of the model ([internal/infrastructure/llm/client.go]) and the
    six tools the agent may call: each takes the JSON arguments the model wrote
    and returns a dynamic value or an error. *)
From S2P Require Import Prelude.
From S2P Require Import GoStrings.
From S2P Require Import Fmt.
From S2P Require Import Model.
From S2P Require Import Policy.
From S2P Require Import Modules.
From S2P Require Import Sensitive.
From S2P Require Import Repository.
From S2P Require Import Hub.
From S2P Require Import World.
From S2P Require Import Server.

Import Repository World Server.Server Fmt.Fmt.

(** ** The model's messages *)
Module Llm.

Record ToolCall := mkCall { ID : string; Name : string; Arguments : bytes }.
Record Message := mkMessage {
  Role : string; Content : string; ToolCallID : string; ToolCalls : list ToolCall;
}.
#[global] Instance Message_eta : Eta Message := λ m,
  mkMessage (Role m) (Content m) (ToolCallID m) (ToolCalls m).
Definition text (role content : string) : Message := mkMessage role content "" [].
Definition tool_message (callID content : string) : Message := mkMessage "tool" content callID [].

Record Completion := mkCompletion { Message_ : Message; Usage_ : AgentMetrics.Usage }.

End Llm.

(** ** [encoding/json] on the types that occur *)
Record operationInput := mkOperation {
  ModuleCode : string; WorkerID : string; WorkerIDs : list string; OpParameters : StringMap;
  Reason : string;
}.
Record searchInput := mkSearch {
  Query : string; TriggerType : string; FaultType : string; EnvironmentTags : list string;
  SearchLimit : Z;
}.
Class JSON := {
  unmarshal_worker_ids : bytes → result (string * list string);
  unmarshal_job_ids : bytes → result (string * list string);
  unmarshal_operation : bytes → result operationInput;
  unmarshal_search : bytes → result searchInput;
  unmarshal_map : bytes → any_map;          (* the map after decoding, empty on an error *)
  marshal_map : any_map → bytes;
  marshal_messages : list Llm.Message → bytes;
  unmarshal_messages : bytes → result (list Llm.Message);
}.

Module AgentTools.

(** The values of the context a tool is called in. *)
Record Context := mkContext { RunID : string; CallID : string }.

Definition agentJobIdempotencyKey (ctx : Context) (workerID : string) : string :=
  if decide (RunID ctx = "" ∨ CallID ctx = "") then ""
  else RunID ctx +:+ ":" +:+ CallID ctx +:+ ":" +:+ workerID.

(** The trimmed identifiers that are not empty, each once. *)
Fixpoint unique_ids (seen ids : list string) : list string :=
  match ids with
  | [] => []
  | id :: ids =>
      let id := trim_space id in
      if decide (id = "" ∨ id ∈ seen) then unique_ids seen ids
      else id :: unique_ids (id :: seen) ids
  end.

Definition collectIDs (single : string) (plural : list string) (fieldName : string)
    : result (list string) :=
  let ids := if decide (single = "") then plural else single :: plural in
  let required := Errorf "at least one of %s or %ss is required" [AStr fieldName; AStr fieldName] in
  match ids with
  | [] => Err required
  | _ => match unique_ids [] ids with
         | [] => Err required
         | unique => Ok unique
         end
  end.

Definition maxIncidentToolFieldLength : nat := 800.
Definition caseToolText (value : string) : string :=
  let value := Sensitive.SanitizeText value in
  if decide (maxIncidentToolFieldLength < String.length value) then
    take_bytes maxIncidentToolFieldLength value +:+ "…[truncated]"
  else value.
Definition caseToolStrings (values : list string) : list string := caseToolText <$> values.
Definition truncateAgentOutput (value : string) : string := Sensitive.SanitizeText value.

(** [m[k] = v]: assigning to a nil map panics. *)
Definition smap_assign (m : StringMap) (k v : string) : option StringMap :=
  m ← m; Some (Some (<[k := v]> m)).

Section tools.
Context {R : Type} `{RR : Repository R} `{O : Oracle} `{P : Printable} `{J : JSON}.

(** *** Reading tools *)
Definition or_else (a b : string) : string := if decide (a = "") then b else a.

Definition case_item (c : IncidentCase.t) : any_map :=
  let alertSymptoms := or_else (IncidentCase.AlertSymptoms c) (IncidentCase.Summary c) in
  let evidenceSummary := or_else (IncidentCase.EvidenceSummary c) (IncidentCase.Summary c) in
  let rootCause := or_else (IncidentCase.RootCause c)
                     (default "" (head (IncidentCase.PossibleCauses c))) in
  let resolutionSteps := match IncidentCase.ResolutionSteps c with
                         | [] => IncidentCase.Suggestions c
                         | steps => steps
                         end in
  [("source_id", VString (IncidentCase.ID c));
   ("alert_symptoms", VString (caseToolText alertSymptoms));
   ("environment_tags", VStrings (IncidentCase.EnvironmentTags c));
   ("evidence_summary", VString (caseToolText evidenceSummary));
   ("root_cause", VString (caseToolText rootCause));
   ("resolution_steps", VStrings (caseToolStrings resolutionSteps));
   ("resolution_result", VString (caseToolText (IncidentCase.ResolutionResult c)));
   ("disclaimer", VString "Historical reference only; verify against this run's tools before treating it as a current fact.")].

Definition searchIncidentCases (raw : bytes) : M R (result any) :=
  match unmarshal_search raw with
  | Err err => mret (Err err)
  | Ok input =>
      let query_ := trim_space (Query input) in
      let triggerType := trim_space (TriggerType input) in
      let faultType := trim_space (FaultType input) in
      if decide (query_ = "" ∧ triggerType = "" ∧ faultType = "" ∧ EnvironmentTags input = []) then
        mret (Err (new_error "query, trigger_type, fault_type, or environment_tags is required"))
      else
        let limit := if (SearchLimit input <=? 0)%Z || (5 <? SearchLimit input)%Z then 3%Z
                     else SearchLimit input in
        cases ← query (λ e, ListIncidentCases e
                  (IncidentCaseFilter.mk query_ triggerType faultType (EnvironmentTags input) limit));
        match cases with
        | Err err => mret (Err err)
        | Ok cases =>
            mret (Ok (VMap [("cases", VMaps (case_item <$> cases));
                            ("source", VString "historical_incident_cases");
                            ("historical_only", VBool true)]))
        end
  end.

(** A time and host facts, as values. *)
Definition any_time (t : time) : any := VOther "time.Time" [("", VInt t)].
Definition any_host (h : HostInfo.t) : any :=
  VOther "model.HostInfo"
    [("Hostname", VString (HostInfo.Hostname h)); ("IPAddress", VString (HostInfo.IPAddress h));
     ("CPUUsage", VFloat (HostInfo.CPUUsage h)); ("StorageUsage", VFloat (HostInfo.StorageUsage h))].
Definition any_param (p : Module_.ParamDef) : string * any :=
  (Module_.Name p, VOther "module.ParamDef"
    [("Description", VString (Module_.Description p)); ("Required", VBool (Module_.Required p));
     ("Default", VString (Module_.Default p))]).

Definition worker_item (w : Worker.t) : any_map :=
  [("id", VString (Worker.ID w)); ("name", VString (Worker.Name w));
   ("type", VString (Worker.WorkerType w));
   ("status", VTyped "model.WorkerStatus" (Worker.Status w));
   ("last_heartbeat_at", any_time (Worker.LastHeartbeatAt w))].

Definition listWorkers : M R (result any) :=
  workers ← query ListWorkers;
  match workers with
  | Err err => mret (Err err)
  | Ok workers =>
      mret (Ok (VMap [("workers", VMaps (worker_item <$> workers));
                      ("total", VInt (Z.of_nat (length workers)))]))
  end.

Definition listCapabilities : M R (result any) :=
  e ← read;
  reg ← gets moduleReg;
  pol ← gets policyEng;
  let allowed := filter (λ m, is_ok (Policy.ValidateTemplate pol (Module_.Code m)) = true)
                   (Registry.List (order e) reg) in
  mret (Ok (VMaps ((λ m,
    [("code", VString (Module_.Code m)); ("name", VString (Module_.ModName m));
     ("description", VString (Module_.ModDescription m));
     ("worker_type", VString (Module_.ToolType m));
     ("risk_level", VTyped "model.RiskLevel" (Module_.RiskLevel_ m));
     ("parameters", VOther "[]module.ParamDef" (any_param <$> Module_.Parameters m))]) <$> allowed))).

(** The items of a list, in order, from a computation for each. *)
Fixpoint collect {A B} (f : A → M R B) (l : list A) : M R (list B) :=
  match l with
  | [] => mret []
  | x :: l => y ← f x; ys ← collect f l; mret (y :: ys)
  end.

Definition worker_facts (wid : string) : M R any_map :=
  worker ← query (λ e, GetWorker e wid);
  match worker with
  | Err werr => mret [("worker_id", VString wid); ("error", VString (error_text werr))]
  | Ok worker =>
      mret [("worker_id", VString wid); ("name", VString (Worker.Name worker));
            ("type", VString (Worker.WorkerType worker));
            ("status", VTyped "model.WorkerStatus" (Worker.Status worker));
            ("last_heartbeat_at", any_time (Worker.LastHeartbeatAt worker));
            ("host_info", any_host (Worker.HostInfo worker))]
  end.

Definition getWorkerFacts (raw : bytes) : M R (result any) :=
  match (input ← unmarshal_worker_ids raw; collectIDs input.1 input.2 "worker_id") with
  | Err err => mret (Err err)
  | Ok ids =>
      results ← collect worker_facts ids;
      mret (Ok (VMap [("workers", VMaps results); ("total", VInt (Z.of_nat (length results)))]))
  end.

(** What one job counts as: [None] for a status that is not counted. *)
Inductive outcome := Succeeded | Failed_ | Pending_ | Running_.
#[export] Instance outcome_eq_dec : EqDecision outcome.
Proof. solve_decision. Defined.
Definition job_outcome (status : JobStatus) : option outcome :=
  if decide (status = JobStatusSuccess) then Some Succeeded
  else if decide (status ∈ [JobStatusFailed; JobStatusCancelled]) then Some Failed_
  else if decide (status ∈ [JobStatusPending; JobStatusQueued; JobStatusWaitingApproval])
  then Some Pending_
  else if decide (status = JobStatusRunning) then Some Running_ else None.

Definition job_result (jid : string) : M R (any_map * option outcome) :=
  job ← query (λ _, GetJob jid);
  match job with
  | Err jerr => mret ([("job_id", VString jid); ("error", VString (error_text jerr))], Some Failed_)
  | Ok job =>
      mret ([("job_id", VString (Job.ID job)); ("worker_id", VString (Job.AssignedWorkerID job));
             ("status", VTyped "model.JobStatus" (Job.Status job));
             ("success", VBool (bool_decide (Job.Status job = JobStatusSuccess)));
             ("output", VString (truncateAgentOutput (Job.Output job)))],
            job_outcome (Job.Status job))
  end.

Definition count_outcome (o : outcome) (l : list (any_map * option outcome)) : any :=
  VInt (Z.of_nat (length (filter (λ e, e.2 = Some o) l))).

Definition getJobResult (raw : bytes) : M R (result any) :=
  match (input ← unmarshal_job_ids raw; collectIDs input.1 input.2 "job_id") with
  | Err err => mret (Err err)
  | Ok ids =>
      results ← collect job_result ids;
      mret (Ok (VMap
        [("results", VMaps results.*1); ("total", VInt (Z.of_nat (length results)));
         ("summary", VOther "map[string]int"
           [("succeeded", count_outcome Succeeded results); ("failed", count_outcome Failed_ results);
            ("pending", count_outcome Pending_ results); ("running", count_outcome Running_ results)])]))
  end.

(** *** Operations *)

(** The parameters with the unit replaced by the placeholder, when a service
    profile is named. *)
Definition pin_unit (params : StringMap) : option StringMap :=
  if decide (smap_get params "ServiceProfile" = "") then Some params
  else smap_assign (delete "Unit" <$> params) "Unit" "worker-local-profile".

(** The loop that fills in defaults; [None] is a panic. *)
Fixpoint fill_params (ps : list Module_.ParamDef) (params : StringMap) : option (result StringMap) :=
  match ps with
  | [] => Some (Ok params)
  | p :: ps =>
      params ← (if decide (smap_get params (Module_.Name p) = "" ∧ Module_.Default p ≠ "")
                then smap_assign params (Module_.Name p) (Module_.Default p) else Some params);
      if decide (Module_.Required p = true ∧ smap_get params (Module_.Name p) = "") then
        Some (Err (Errorf "required module parameter missing: %s" [AStr (Module_.Name p)]))
      else fill_params ps params
  end.

(** A validated operation: everything the jobs of a batch share. *)
Record operation := mkOp {
  op_module : Module_.t; op_code : string; op_reason : string; op_params : StringMap;
  op_command : string; op_risk : RiskLevel; op_approval : bool;
}.

Definition lift_panic {A} (o : option A) : M R A :=
  match o with Some a => mret a | None => panic end.

(** From the input to the operation and the workers it names. *)
Definition validate_operation (raw : bytes) : M R (result (operation * list string)) :=
  match unmarshal_operation raw with
  | Err err => mret (Err err)
  | Ok input =>
      if decide (ModuleCode input = "" ∨ Reason input = "") then
        mret (Err (new_error "module_code and reason are required"))
      else
        e ← read;
        match (ids ← collectIDs (WorkerID input) (WorkerIDs input) "worker_id";
               _ ← Sensitive.ValidateNoInlineSecrets (order e) (OpParameters input);
               _ ← Sensitive.ValidateServiceProfile (ModuleCode input) (OpParameters input);
               Ok ids) with
        | Err err => mret (Err err)
        | Ok workerIDs =>
            params ← lift_panic (pin_unit (OpParameters input));
            reg ← gets moduleReg;
            pol ← gets policyEng;
            match (mod_ ← Registry.Get reg (ModuleCode input);
                   _ ← Policy.ValidateTemplate pol (ModuleCode input);
                   Ok mod_) with
            | Err err => mret (Err err)
            | Ok mod_ =>
                filled ← lift_panic (fill_params (Module_.Parameters mod_) params);
                match filled with
                | Err err => mret (Err err)
                | Ok params =>
                    match Module_.DryRun mod_ params with
                    | (_, Some cmdErr) =>
                        mret (Err (Errorf "render template %s: %w"
                          [AStr (ModuleCode input); AErr cmdErr]))
                    | (renderedCmd, None) =>
                        let risk := Policy.MergeRisk pol [Module_.RiskLevel_ mod_] in
                        let approval := Policy.RequiresManualApproval pol risk in
                        mret (Ok (mkOp mod_ (ModuleCode input) (Reason input) params
                          (Module_.Output renderedCmd) risk approval, workerIDs))
                    end
                end
            end
        end
  end.

(** A worker that can run the operation, or the error entry. *)
Definition check_worker (op : operation) (wid : string) : M R (any_map + string) :=
  worker ← query (λ e, GetWorker e wid);
  match worker with
  | Err werr => mret (inl [("worker_id", VString wid); ("error", VString (error_text werr))])
  | Ok worker =>
      let required := Module_.ToolType (op_module op) in
      if negb (WorkerCanRunType (Worker.WorkerType worker) required) then
        mret (inl [("worker_id", VString wid); ("worker_type", VString (Worker.WorkerType worker));
                   ("required_type", VString required);
                   ("error", VString ("worker " +:+ wid +:+ " type " +:+ Worker.WorkerType worker +:+
                      " cannot run module " +:+ op_code op +:+ " (requires " +:+ required +:+ ")"))])
      else mret (inr wid)
  end.

Definition operation_job (ctx : Context) (op : operation) (wid : string) : Job.t :=
  Job.zero <| Job.Name := "[agent][worker:" +:+ wid +:+ "] " +:+ op_reason op |>
           <| Job.WorkerType := Module_.ToolType (op_module op) |>
           <| Job.Command := op_command op |>
           <| Job.Status := if op_approval op then JobStatusWaitingApproval else JobStatusPending |>
           <| Job.RiskLevel := op_risk op |>
           <| Job.ApprovalRequired := op_approval op |>
           <| Job.ApprovalStatus := if op_approval op then ApprovalStatusPending
                                    else ApprovalStatusNotRequired |>
           <| Job.TemplateCode := op_code op |>
           <| Job.Parameters := cloneStringMap (op_params op) |>
           <| Job.SourceType := "agent" |>
           <| Job.SourceID := RunID ctx |>
           <| Job.IdempotencyKey := agentJobIdempotencyKey ctx wid |>
           <| Job.AssignedWorkerID := wid |>.

Definition job_entry (op : operation) (wid jobID : string) (status : JobStatus) : any_map :=
  [("job_id", VString jobID); ("worker_id", VString wid);
   ("status", VTyped "model.JobStatus" status); ("approval_required", VBool (op_approval op));
   ("module_code", VString (op_code op))].
Definition job_error (wid : string) (err : error) : any_map :=
  [("worker_id", VString wid); ("error", VString (error_text err))].

(** One job copy: the entry of the result. *)
Definition create_operation_job (ctx : Context) (op : operation) (wid : string) : M R any_map :=
  created ← call (λ e, CreateJob e (operation_job ctx op wid));
  match created with
  | Err cerr => mret (job_error wid cerr)
  | Ok created =>
      if op_approval op then mret (job_entry op wid (Job.ID created) (Job.Status created))
      else
        dispatched ← dispatchJobToWorker (Job.ID created) wid;
        match dispatched with
        | Err derr => mret (job_error wid derr)
        | Ok dispatched =>
            _ ← PushJob wid dispatched;
            mret (job_entry op wid (Job.ID created) (Job.Status dispatched))
        end
  end.

Definition is_job_entry (j : any_map) : bool :=
  match any_get j "error" with VNil => true | _ => false end.

Fixpoint lefts {A B} (l : list (A + B)) : list A :=
  match l with [] => [] | inl a :: l => a :: lefts l | inr _ :: l => lefts l end.
Fixpoint rights {A B} (l : list (A + B)) : list B :=
  match l with [] => [] | inl _ :: l => rights l | inr b :: l => b :: rights l end.

Definition createModuleOperation (ctx : Context) (raw : bytes) : M R (result any) :=
  valid ← validate_operation raw;
  match valid with
  | Err err => mret (Err err)
  | Ok (op, workerIDs) =>
      checked ← collect (check_worker op) workerIDs;
      let validationErrors := lefts checked in
      let compatible := rights checked in
      if decide (compatible = []) then
        mret (Err (Errorf "no compatible workers for module %q (type %s): %d validation errors"
          [AStr (op_code op); AStr (Module_.ToolType (op_module op));
           AInt (Z.of_nat (length validationErrors))]))
      else
        jobs ← collect (create_operation_job ctx op) compatible;
        let dispatchedCount := length (List.filter (λ j, is_job_entry j && negb (op_approval op)) jobs) in
        mret (Ok (VMap
          [("jobs", VMaps jobs); ("total", VInt (Z.of_nat (length jobs)));
           ("summary", VMap [("dispatched", VInt (Z.of_nat dispatchedCount));
                             ("failed_validation", VInt (Z.of_nat (length validationErrors)));
                             ("approval_required", VBool (op_approval op))]);
           ("validation_errors", VMaps validationErrors)]))
  end.

(** *** The tool table *)
Definition Tool : Type := Context → bytes → M R (result any).

Definition agentTools : gmap string Tool :=
  list_to_map
    [("search_incident_cases", λ _, searchIncidentCases);
     ("get_worker_facts", λ _, getWorkerFacts);
     ("list_workers", λ _ _, listWorkers);
     ("list_capabilities", λ _ _, listCapabilities);
     ("create_module_operation", createModuleOperation);
     ("get_job_result", λ _, getJobResult)].

End tools.
End AgentTools.
