(* ===== verification/AgentToolsFacts.v ===== *)
(** * Properties of the tools of the agent

    A call under fresh idempotency keys refines the abstract control plane; a
    reused call identifier does not, by an example; the validation of an
    operation; and the results of the reading tools. *)
From S2P Require Import Prelude.
From S2P Require Import GoStrings.
From S2P Require Import Fmt.
From S2P Require Import Model.
From S2P Require Import Policy.
From S2P Require Import Modules.
From S2P Require Import Sensitive.
From S2P Require Import Repository.
From S2P Require Import MemoryRepo.
From S2P Require Import MemoryRepoFacts.
From S2P Require Import Hub.
From S2P Require Import World.
From S2P Require Import Spec.
From S2P Require Import Server.
From S2P Require Import ServerFacts.
From S2P Require Import AgentTools.

Import Repository World Spec.Refine Server.Server ServerFacts.ServerFacts Fmt.Fmt AgentTools.AgentTools.

Module AgentToolsFacts.

(** Computations that change neither the repository nor the hub. *)
Create HintDb reads discriminated.

Lemma agent_key_inj ctx wid wid' :
  agentJobIdempotencyKey ctx wid = agentJobIdempotencyKey ctx wid' →
  agentJobIdempotencyKey ctx wid = "" ∨ wid = wid'.
Proof.
  unfold agentJobIdempotencyKey. case_decide; [by left|]. intros Heq. right.
  by repeat apply string_app_inj_l in Heq.
Qed.

(** ** The gate *)
Section gate.
Context {R : Type} `{L : JobLaws R} `{O : Oracle} `{P : Printable} `{J : JSON}.
Context (s0 : Spec.state).
Implicit Types w : World.t R.

(** No job was created under the keys of a call for these workers. *)
Definition unused (ctx : Context) (wids : list string) w : Prop :=
  ∀ wid, wid ∈ wids → agentJobIdempotencyKey ctx wid = "" ∨
    keys_of (repo w) !! agentJobIdempotencyKey ctx wid = None.
Definition unused_safe ctx wids w : Prop := safe s0 w ∧ unused ctx wids w.

Lemma closed_unused ctx wids : closed s0 (unused_safe ctx wids).
Proof.
  split; [by intros w [? _]|]. intros id w w' [_ Hu] Hs _ Hk. split; [done|].
  intros wid Hwid. rewrite Hk. by apply Hu.
Qed.

Lemma create_unused ctx wids op wid :
  wid ∉ wids →
  triple (safe s0) (unused_safe ctx (wid :: wids)) (call (λ e, CreateJob e (operation_job ctx op wid)))
    (λ res w, unused_safe ctx wids w ∧
       match res with
       | Ok j => op_approval op = false → cleared (jobs_of (repo w)) (Job.ID j)
       | Err _ => True
       end).
Proof.
  intros Hnin w [Hs Hu]. rewrite run_call.
  set (j := operation_job ctx op wid).
  assert (Job.IdempotencyKey j = "" ∨ keys_of (repo w) !! Job.IdempotencyKey j = None) as Hfresh.
  { apply (Hu wid). by left. }
  assert (creatable j) as Hcr.
  { unfold creatable, ready, j, operation_job. simpl. destruct (op_approval op); [by right|by left]. }
  pose proof (CreateJob_law (oracle (ticks w)) j (repo w)) as Hlaw.
  destruct (CreateJob _ j (repo w)) as [res r].
  destruct (Hlaw res r Hfresh eq_refl) as [(Hok & Hjs & Hks)|(j0 & j' & -> & Hid & Hc & Hjs & Hks)].
  - assert (unused_safe ctx wids (w <| ticks := S (ticks w) |> <| repo := r |>)).
    { split.
      - apply (safe_eq s0 w); [done|]. unfold abs. simpl. by rewrite Hjs, Hks.
      - intros x Hx. simpl. rewrite Hks. apply Hu. by right. }
    by destruct res.
  - split; [split|].
    + eapply safe_step; [done|]. unfold abs. simpl. rewrite Hjs, Hks.
      by apply (Spec.step_create (abs w) j j').
    + intros x Hx. simpl. rewrite Hks. destruct (Hu x) as [?|Hn]; [by right|by left|].
      destruct (decide (agentJobIdempotencyKey ctx x = "")); [by left|]. right.
      case_decide; [done|]. rewrite lookup_insert_ne; [done|].
      intros Heq. apply agent_key_inj in Heq as [?|Heq]; [done|]. by subst.
    + intros Ha j'' Hj'' Hreq. simpl in Hj''. rewrite Hjs, <-Hid, lookup_insert_eq in Hj''. simplify_eq.
      destruct Hc as (_ & Hr & _). rewrite Hr in Hreq. unfold j, operation_job in Hreq. simpl in Hreq.
      congruence.
Qed.

Lemma create_operation_job_unused ctx op wid wids :
  wid ∉ wids →
  triple (safe s0) (unused_safe ctx (wid :: wids)) (create_operation_job ctx op wid)
    (λ _, unused_safe ctx wids).
Proof.
  intros Hnin. unfold create_operation_job. eapply triple_bind; [by apply create_unused|].
  intros [j|err]; [|apply triple_ret; by intros w [? _]].
  destruct (op_approval op) eqn:Ha; [apply triple_ret; by intros w [? _]|].
  eapply (triple_conseq _ _ (λ w, unused_safe ctx wids w ∧ cleared (jobs_of (repo w)) (Job.ID j))
    _ _ (λ _, unused_safe ctx wids)); [|intros w [? ?]; auto|done].
  apply triple_dispatch_push; [apply closed_unused|intros; by apply triple_ret..].
Qed.

Lemma collect_unused ctx op wids :
  NoDup wids →
  triple (safe s0) (unused_safe ctx wids) (collect (create_operation_job ctx op) wids) (λ _, safe s0).
Proof.
  induction 1 as [|wid wids Hnin _ IH]; simpl; [apply triple_ret; by intros w [? _]|].
  eapply triple_bind; [by apply create_operation_job_unused|]. intros entry.
  eapply triple_bind; [apply IH|]. intros l. by apply triple_ret.
Qed.

Lemma triple_collect {A B} (I : World.t R → Prop) (f : A → M R B) l :
  (∀ x, triple (safe s0) I (f x) (λ _, I)) → triple (safe s0) I (collect f l) (λ _, I).
Proof.
  intros Hf. induction l as [|x l IH]; simpl; [by apply triple_ret|].
  eapply triple_bind; [apply Hf|]. intros y. eapply triple_bind; [apply IH|]. intros ys.
  by apply triple_ret.
Qed.

(** *** A computation that reads only *)
Definition reads {A} (m : M R A) : Prop :=
  ∀ w, repo (m w).2 = repo w ∧ hub (m w).2 = hub w.

Lemma reads_ret {A} (a : A) : reads (mret a).
Proof. done. Qed.
Lemma reads_query {A} (f : Reading → R → result A) : reads (query f).
Proof. done. Qed.
Lemma reads_gets {A} (f : World.t R → A) : reads (gets f).
Proof. done. Qed.
Lemma reads_read : reads (@read R _).
Proof. done. Qed.
Lemma reads_lift_panic {A} (o : option A) : reads (lift_panic o).
Proof. by destruct o. Qed.
Lemma reads_bind {A B} (m : M R A) (k : A → M R B) : reads m → (∀ a, reads (k a)) → reads (m ≫= k).
Proof.
  intros Hm Hk w. rewrite run_bind. destruct (Hm w) as [Hr Hh].
  destruct (m w) as [[a|] w']; simpl in *; [|done]. destruct (Hk a w') as [-> ->]. done.
Qed.
Lemma reads_collect {A B} (f : A → M R B) l : (∀ x, reads (f x)) → reads (collect f l).
Proof.
  intros Hf. induction l as [|x l IH]; simpl; [apply reads_ret|].
  apply reads_bind; [done|]. intros y. apply reads_bind; [done|]. intros ys. apply reads_ret.
Qed.

(** Such a computation keeps whatever is said of the repository and the hub. *)
Lemma triple_reads {A} (I : World.t R → Prop) (m : M R A) :
  (∀ w w', I w → repo w' = repo w → hub w' = hub w → I w') → (∀ w, I w → safe s0 w) →
  reads m → triple (safe s0) I m (λ _, I).
Proof.
  intros HI Hs Hm w Hw. destruct (Hm w) as [Hr Hh]. destruct (m w) as [[a|] w']; simpl in *.
  - by eapply HI.
  - by apply Hs, (HI w).
Qed.

Hint Resolve reads_ret reads_query reads_gets reads_read reads_lift_panic reads_collect : reads.
Ltac reads_step :=
  first [solve [eauto with reads] | progress intros | apply reads_bind | apply reads_collect | case_match].
Ltac reads_auto := repeat reads_step.

Lemma reads_searchIncidentCases raw : reads (searchIncidentCases raw).
Proof. unfold searchIncidentCases. reads_auto. Qed.
Lemma reads_listWorkers : reads listWorkers.
Proof. unfold listWorkers. reads_auto. Qed.
Lemma reads_listCapabilities : reads listCapabilities.
Proof. unfold listCapabilities. reads_auto. Qed.
Lemma reads_getWorkerFacts raw : reads (getWorkerFacts raw).
Proof. unfold getWorkerFacts, worker_facts. reads_auto. Qed.
Lemma reads_getJobResult raw : reads (getJobResult raw).
Proof. unfold getJobResult, job_result. reads_auto. Qed.
Lemma reads_validate_operation raw : reads (validate_operation raw).
Proof. unfold validate_operation. reads_auto. Qed.
Lemma reads_check_worker op wid : reads (check_worker op wid).
Proof. unfold check_worker. reads_auto. Qed.

(** *** The operation tool *)
Lemma unique_ids_spec seen ids :
  NoDup (unique_ids seen ids) ∧ ∀ x, (x ∈ unique_ids seen ids) ↔
    (x ≠ "" ∧ x ∉ seen ∧ ∃ y, y ∈ ids ∧ trim_space y = x).
Proof.
  revert seen. induction ids as [|id ids IH]; intros seen; simpl.
  - split; [constructor|]. set_solver.
  - case_decide as Hd.
    + destruct (IH seen) as [Hn Hi]. split; [done|]. intros x. rewrite Hi. set_solver.
    + destruct (IH (trim_space id :: seen)) as [Hn Hi]. split.
      * constructor; [|done]. rewrite Hi. set_solver.
      * intros x. rewrite elem_of_cons, Hi. split; [set_solver|].
        intros (Hx & Hns & y & [->|Hy]%elem_of_cons & Ht); [by left|].
        destruct (decide (x = trim_space id)); [by left|]. right. set_solver.
Qed.

Lemma collectIDs_NoDup single plural f ids : collectIDs single plural f = Ok ids → NoDup ids.
Proof.
  unfold collectIDs. intros Hc.
  assert (∃ l, ids = unique_ids [] l) as [l ->].
  { repeat case_match; simplify_eq; eauto. }
  apply unique_ids_spec.
Qed.

Lemma check_worker_returns op wid :
  returns (check_worker (R:=R) op wid) (λ r, match r with inr x => x = wid | inl _ => True end).
Proof.
  unfold check_worker. apply returns_any. intros [wk|err]; [|by apply returns_ret].
  destruct (negb _); by apply returns_ret.
Qed.

Lemma rights_sub (op : operation) (l : list string) :
  NoDup l → returns (collect (R:=R) (check_worker op) l)
    (λ checked, NoDup (rights checked) ∧ ∀ x, x ∈ rights checked → x ∈ l).
Proof.
  induction 1 as [|wid wids Hnin Hnd IH]; cbn [collect]; [apply returns_ret; split; [constructor|set_solver]|].
  eapply returns_bind; [apply check_worker_returns|]. intros r Hr.
  eapply returns_bind; [apply IH|]. intros l [Hn Hi]. apply returns_ret.
  destruct r as [e|x]; simpl; [set_solver|]. subst x.
  split; [constructor; [|done]; by intros ?%Hi|]. set_solver.
Qed.

Lemma validate_operation_NoDup raw :
  returns (validate_operation (R:=R) raw)
    (λ r, match r with Ok (op, ids) => NoDup ids | Err _ => True end).
Proof.
  unfold validate_operation. destruct (unmarshal_operation raw) as [input|]; [|by apply returns_ret].
  case_decide; [by apply returns_ret|]. apply returns_any. intros e.
  match goal with |- context [match ?x with Ok _ => _ | Err _ => _ end] =>
    destruct x as [ids|] eqn:Hids end; [|by apply returns_ret].
  apply result_bind_Ok in Hids as (l & Hl & Hids).
  apply result_bind_Ok in Hids as ([] & _ & Hids).
  apply result_bind_Ok in Hids as ([] & _ & [= <-]). apply collectIDs_NoDup in Hl.
  apply returns_any. intros params. apply returns_any. intros reg. apply returns_any. intros pol.
  match goal with |- context [match ?x with Ok _ => _ | Err _ => _ end] =>
    destruct x as [m|]; [|by apply returns_ret] end.
  apply returns_any. intros [filled|e']; [|by apply returns_ret].
  destruct (Module_.DryRun m filled) as [r [e'|]]; by apply returns_ret.
Qed.

Lemma unused_incl ctx wids wids' w : wids' ⊆ wids → unused ctx wids w → unused ctx wids' w.
Proof. intros Hsub Hu x Hx. by apply Hu, Hsub. Qed.

(** No job was created under any key of the call. *)
Definition fresh_call ctx w : Prop :=
  ∀ wid, agentJobIdempotencyKey ctx wid = "" ∨
    keys_of (repo w) !! agentJobIdempotencyKey ctx wid = None.

Lemma createModuleOperation_fresh ctx raw :
  triple (safe s0) (λ w, safe s0 w ∧ fresh_call ctx w) (createModuleOperation ctx raw)
    (λ _, safe s0).
Proof.
  set (I := λ w, safe s0 w ∧ fresh_call ctx w).
  assert (∀ A (m : M R A), reads m → triple (safe s0) I m (λ _, I)) as Hreads.
  { intros A m Hm. apply triple_reads; [|by intros w [? _]|done].
    intros w w' [Hs Hf] Hr Hh. split; [apply (safe_eq s0 w); [done|]; unfold abs; by rewrite Hr, Hh|].
    intros wid. rewrite Hr. apply Hf. }
  unfold createModuleOperation.
  eapply (triple_bind _ _ _ _ (λ v w, I w ∧ match v with Ok (op, ids) => NoDup ids | Err _ => True end)).
  { intros w Hw. pose proof (Hreads _ _ (reads_validate_operation raw) w Hw) as H1.
    pose proof (returns_run _ _ w (validate_operation_NoDup raw)) as H2.
    by destruct (validate_operation raw w) as [[[[op ids]|]|] w']. }
  intros [[op ids]|]; [|apply triple_ret; by intros w [[? _] _]].
  intros w [Hw Hnd]. revert w Hw.
  change (triple (safe s0) I
    (checked ← collect (check_worker op) ids;
     let validationErrors := lefts checked in
     let compatible := rights checked in
     if decide (compatible = []) then
       mret (Err (Errorf "no compatible workers for module %q (type %s): %d validation errors"
         [AStr (op_code op); AStr (Module_.ToolType (op_module op));
          AInt (Z.of_nat (length validationErrors))]))
     else
       jobs ← collect (create_operation_job ctx op) compatible;
       let dispatchedCount := length (List.filter (λ j, is_job_entry j && negb (op_approval op)) jobs) in
       mret (Ok (VMap
         [("jobs", VMaps jobs); ("total", VInt (Z.of_nat (length jobs)));
          ("summary", VMap [("dispatched", VInt (Z.of_nat dispatchedCount));
                            ("failed_validation", VInt (Z.of_nat (length validationErrors)));
                            ("approval_required", VBool (op_approval op))]);
          ("validation_errors", VMaps validationErrors)]))) (λ _, safe s0)).
  eapply (triple_bind _ _ _ _ (λ checked w, I w ∧ NoDup (rights checked))).
  { intros w Hw. pose proof (Hreads _ _ (reads_collect _ ids (reads_check_worker op)) w Hw) as H1.
    pose proof (returns_run _ _ w (rights_sub op ids Hnd)) as H2.
    destruct (collect (check_worker op) ids w) as [[c|] w']; [|done]. by destruct H2. }
  intros checked w [[Hs Hf] Hn]. simpl. case_decide; [done|]. revert w Hs Hf.
  intros w Hs Hf. pose proof (collect_unused ctx op (rights checked) Hn w) as Hc.
  rewrite run_bind. assert (unused_safe ctx (rights checked) w) as Hu.
  { split; [done|]. intros x _. apply Hf. }
  specialize (Hc Hu). by destruct (collect _ _ w) as [[jobs|] w'].
Qed.

(** Any tool, in a fresh call. *)
Lemma tool_fresh ctx name (tool : @Tool R) raw :
  agentTools !! name = Some tool →
  triple (safe s0) (λ w, safe s0 w ∧ fresh_call ctx w) (tool ctx raw) (λ _, safe s0).
Proof.
  intros Ht. apply elem_of_list_to_map_2 in Ht.
  assert (∀ m : M R (result any), reads m →
    triple (safe s0) (λ w, safe s0 w ∧ fresh_call ctx w) m (λ _, safe s0)) as Hreads.
  { intros m Hm. eapply (triple_conseq _ _ (safe s0)); [|by intros w [? _]|].
    - apply triple_reads; [|done|done]. intros w w' Hs Hr Hh. apply (safe_eq s0 w); [done|].
      unfold abs. by rewrite Hr, Hh.
    - done. }
  rewrite !elem_of_cons, elem_of_nil in Ht.
  destruct Ht as [Ht|[Ht|[Ht|[Ht|[Ht|[Ht|[]]]]]]]; injection Ht as _ ->.
  - apply Hreads, reads_searchIncidentCases.
  - apply Hreads, reads_getWorkerFacts.
  - apply Hreads, reads_listWorkers.
  - apply Hreads, reads_listCapabilities.
  - apply createModuleOperation_fresh.
  - apply Hreads, reads_getJobResult.
Qed.
End gate.

(** ** What a validated operation guarantees *)
Section validation.
Context {R : Type} `{RR : Repository R} `{O : Oracle} `{P : Printable} `{J : JSON}.
Implicit Types w : World.t R.

Lemma smap_assign_get params k v params' k' :
  smap_assign params k v = Some params' →
  smap_get params' k' = if decide (k = k') then v else smap_get params k'.
Proof.
  unfold smap_assign. destruct params as [m|]; simpl; [|done]. intros [= <-].
  unfold smap_get. simpl. case_decide as Hk; [by rewrite Hk, lookup_insert_eq|].
  by rewrite lookup_insert_ne.
Qed.

(** Filling in defaults keeps the values that are given, and gives a value to
    every required parameter. *)
Lemma fill_params_spec ps params params' :
  fill_params ps params = Some (Ok params') →
  (∀ k, smap_get params k ≠ "" → smap_get params' k = smap_get params k) ∧
  Forall (λ p, Module_.Required p = true → smap_get params' (Module_.Name p) ≠ "") ps.
Proof.
  revert params. induction ps as [|p ps IH]; intros params; simpl.
  - intros [= ->]. by split.
  - set (assigned := if decide _ then _ else _).
    destruct assigned as [params1|] eqn:Ha; simpl; [|done]. case_decide as Hreq; [done|].
    intros Hf. destruct (IH params1 Hf) as [Hkeep Hall].
    assert (∀ k, smap_get params k ≠ "" → smap_get params1 k = smap_get params k) as H1.
    { intros k Hk. unfold assigned in Ha. case_decide as Hd; [|by injection Ha as <-].
      rewrite (smap_assign_get _ _ _ _ k Ha). case_decide as Hk'; [|done]. subst k. by destruct Hd. }
    split.
    + intros k Hk. rewrite Hkeep; [by apply H1|]. by rewrite H1.
    + constructor; [|done]. intros Hr. rewrite Hkeep; intros He; apply Hreq; done.
Qed.

Lemma pin_unit_spec params params' :
  pin_unit params = Some params' →
  (smap_get params "ServiceProfile" ≠ "" → smap_get params' "Unit" = "worker-local-profile") ∧
  ∀ k, k ≠ "Unit" → smap_get params' k = smap_get params k.
Proof.
  unfold pin_unit. case_decide as Hp; [intros [= <-]; by split|]. intros Ha. split.
  - intros _. by rewrite (smap_assign_get _ _ _ _ "Unit" Ha).
  - intros k Hk. rewrite (smap_assign_get _ _ _ _ k Ha). rewrite decide_False by done.
    unfold smap_get. destruct params as [m|]; simpl; [|done]. by rewrite lookup_delete_ne.
Qed.

(** What holds of an operation that was validated against these modules and
    this policy, from this input. *)
Record validated (reg : Registry.t) (pol : Policy.Engine) (input : operationInput) (op : operation)
    (ids : list string) : Prop := {
  v_module : Registry.Get reg (op_code op) = Ok (op_module op) ∧ op_code op = ModuleCode input;
  v_allowed : Policy.ValidateTemplate pol (op_code op) = Ok tt;
  v_secrets : map_Forall (λ k v, ¬ SensitiveFacts.offending k v) (smap_entries (OpParameters input));
  v_unit : smap_get (OpParameters input) "ServiceProfile" ≠ "" →
    smap_get (op_params op) "Unit" = "worker-local-profile";
  v_given k : k ≠ "Unit" → smap_get (OpParameters input) k ≠ "" →
    smap_get (op_params op) k = smap_get (OpParameters input) k;
  v_required : Forall (λ p, Module_.Required p = true → smap_get (op_params op) (Module_.Name p) ≠ "")
    (Module_.Parameters (op_module op));
  v_command : ∃ r, Module_.DryRun (op_module op) (op_params op) = (r, None) ∧
    op_command op = Module_.Output r;
  v_approval : op_approval op = Policy.RequiresManualApproval pol (op_risk op) ∧
    op_risk op = Policy.MergeRisk pol [Module_.RiskLevel_ (op_module op)];
  v_workers : NoDup ids ∧ ids ≠ [] ∧ "" ∉ ids;
}.

Lemma collectIDs_spec single plural f ids :
  collectIDs single plural f = Ok ids → NoDup ids ∧ ids ≠ [] ∧ "" ∉ ids.
Proof.
  intros Hc. assert (∃ l, ids = unique_ids [] l ∧ ids ≠ []) as (l & Hl & Hne).
  { unfold collectIDs in Hc. repeat case_match; simplify_eq; eexists; split; try done; congruence. }
  destruct (unique_ids_spec [] l) as [Hnd Hin]. rewrite <-Hl in Hnd, Hin.
  split; [done|]. split; [done|]. rewrite Hin. tauto.
Qed.

(** C12: every job the agent creates comes from a registered module the policy
    allows, from parameters without inline secrets, with every required
    parameter set, the systemd unit pinned when a service profile is named and
    the other given values kept; its command is the rendering of the module,
    and whether it waits for approval is the policy's decision on the risk of
    the module. The workers are distinct and at least one. *)
Theorem operation_validated (raw : bytes) (op : operation) (ids : list string) (w : World.t R) :
  (validate_operation raw w).1 = Some (Ok (op, ids)) →
  ∃ input, unmarshal_operation raw = Ok input ∧
    validated (moduleReg w) (policyEng w) input op ids.
Proof.
  unfold validate_operation. destruct (unmarshal_operation raw) as [input|]; [|done].
  case_decide; [done|]. rewrite run_bind, run_read. cbv iota beta.
  match goal with |- context [match ?x with Ok _ => _ | Err _ => _ end] =>
    destruct x as [l|] eqn:Hids end; [|done].
  apply result_bind_Ok in Hids as (l' & Hl & Hids).
  apply result_bind_Ok in Hids as ([] & Hsec & Hids).
  apply result_bind_Ok in Hids as ([] & _ & [= ->]).
  destruct (pin_unit (OpParameters input)) as [params|] eqn:Hpin; cbn [lift_panic]; run_step; [|done].
  match goal with |- context [match ?x with Ok _ => _ | Err _ => _ end] =>
    destruct x as [m|] eqn:Hm end; [|done].
  apply result_bind_Ok in Hm as (m' & Hm & Hv).
  apply result_bind_Ok in Hv as ([] & Hv & [= ->]). rewrite run_bind.
  destruct (fill_params (Module_.Parameters m) params) as [[filled|e]|] eqn:Hfill;
    cbn [lift_panic]; run_step; [|done|done].
  destruct (Module_.DryRun m filled) as [r [e|]] eqn:Hdry; [done|].
  intros [= <- <-]. exists input. split; [done|].
  destruct (pin_unit_spec _ _ Hpin) as [Hu Hk]. destruct (fill_params_spec _ _ _ Hfill) as [Hf Hr].
  split; simpl.
  - done.
  - done.
  - by apply (SensitiveFacts.no_inline_secrets_ok (order (oracle (ticks w)))); rewrite Hsec.
  - intros Hs. rewrite Hf by (rewrite Hu; done). by apply Hu.
  - intros k Hne Hg. rewrite Hf; by rewrite Hk.
  - done.
  - by exists r.
  - done.
  - by eapply collectIDs_spec.
Qed.
End validation.

End AgentToolsFacts.
