(* ===== verification/AgentRuntime.v ===== *)
(** * The agent loop ([internal/application/agent/runtime.go])

    The bounded tool-calling loop. The model is a parameter: whatever it
    answers, the loop checks. The observer is a record of callbacks with a
    state of its own, the variables its closures share. The channel of events
    is not modelled: sends on it never block the loop or are dropped, but for
    the text deltas of a streaming model, which belong to the model's call. *)
From S2P Require Import Prelude.
From S2P Require Import GoStrings.
From S2P Require Import Fmt.
From S2P Require Import Model.
From S2P Require Import Sensitive.
From S2P Require Import Repository.
From S2P Require Import World.
From S2P Require Import AgentTools.

Import Repository World Fmt.Fmt AgentTools.AgentTools.

(** The client of the model: what the call made at a tick returns for the
    messages and the names of the declared tools. *)
Class LLM := complete : nat → list Llm.Message → list string → result Llm.Completion.

Module AgentRuntime.

(** The text, with DQ for a double quote. *)
Definition prompt_text : string := "You are ADP, a controlled operations agent for infrastructure diagnostics and repair.

## Rules
1. Always use list_workers FIRST to discover available Workers. Never guess worker IDs.
2. Use list_capabilities to see what operations are available for each worker type.
3. Use only registered modules through create_module_operation. Shell commands, SQL, YAML and arbitrary files are never available.
4. Never invent worker IDs, module codes, commands, YAML, credentials, or skip approvals.
5. Observe each tool result before deciding the next step.
6. For diagnosis requests, search_incident_cases before proposing a cause when historical cases may help. Historical cases are suggestions, never current facts.
7. The final report MUST have two headings: DQ本次工具证据DQ (only facts obtained from this run's live tools) and DQ历史参考案例DQ (only historical case IDs and recommendations). Do not describe historical results as current observations.
8. Be concise. Summarize findings, don't repeat raw JSON.

## Failure handling
- If a command fails due to permissions (polkit, EACCES, DQpermission deniedDQ), do NOT retry with variations like sudo or alternative syntax. Tell the user what failed and suggest they configure sudoers on the Worker.
- After 2 consecutive failures for the same goal, STOP and tell the user. Do not keep retrying.
- Before running a risky command, first check if a simpler read-only diagnostic can confirm the state.

## Workflow
1. list_workers → discover targets
2. get_worker_facts → check host state
3. create_module_operation → act
4. get_job_result → verify
5. Answer concisely with evidence.".
Definition SystemPrompt : string := replace_all prompt_text "DQ" dquote.

Record Event := mkEvent { Step : Z; Type_ : string; Name : string; Data : any }.
Record Result := mkResult {
  Answer : string; Events : list Event; Steps : Z; Paused : bool;
}.
#[global] Instance Result_eta : Eta Result := λ r,
  mkResult (Answer r) (Events r) (Steps r) (Paused r).
Definition Result_zero : Result := mkResult "" [] 0 false.

(** ** Provenance of the answer *)
Definition evidence_heading : string := "本次工具证据".
Definition history_heading : string := "历史参考案例".
Definition newline : string := String (Ascii.ascii_of_nat 10) "".

Definition source_ids (ev : Event) : list string :=
  if decide (Type_ ev = "tool" ∧ Name ev = "search_incident_cases") then
    let result := as_map (any_get (as_map (Data ev)) "result") in
    omap (λ item, let id := as_string (any_get item "source_id") in
                  if decide (id = "") then None else Some id)
      (as_maps (any_get result "cases"))
  else [].

Definition ensureEvidenceSections (answer : string) (events : list Event) : string :=
  let answer :=
    if contains answer evidence_heading then answer
    else answer +:+ newline +:+ newline +:+ evidence_heading +:+ newline +:+
      "- 请以本次运行中 get_worker_facts、get_job_result 或受控操作的工具结果为准。" in
  if contains answer history_heading then answer
  else
    let ids := events ≫= source_ids in
    let answer := answer +:+ newline +:+ newline +:+ history_heading +:+ newline in
    match ids with
    | [] => answer +:+ "- 本次未检索到可引用的历史案例；不要将此视为实时检查结论。"
    | _ => answer +:+ "- 历史案例来源：" +:+ join ids "、" +:+
             "。仅作排查与处置参考，不代表当前环境事实。"
    end.

(** ** Targets *)
Definition target_ids (input : string * list string) : list string :=
  input.2 ++ (if decide (input.1 = "") then [] else [input.1]).

Fixpoint check_targets (ids : list string) (discovered : gset string) : result unit :=
  match ids with
  | [] => Ok tt
  | id :: ids =>
      if decide (id ∈ discovered) then check_targets ids discovered
      else Err (Errorf "worker %q was not returned by list_workers" [AStr id])
  end.
Definition validateDiscoveredWorkers `{JSON} (raw : bytes) (discovered : gset string) : result unit :=
  input ← unmarshal_worker_ids raw;
  check_targets (target_ids input) discovered.

Definition worker_ids (payload : any_map) : list string :=
  let result := as_map (any_get payload "result") in
  omap (λ worker, let id := as_string (any_get worker "id") in
                  if decide (id = "") then None else Some id)
    (as_maps (any_get result "workers")).
Definition recordDiscoveredWorkers (payload : any_map) (discovered : gset string) : gset string :=
  list_to_set (worker_ids payload) ∪ discovered.

Section runtime.
Context {R : Type} `{O : Oracle} `{P : Printable} `{J : JSON} `{C : LLM}.

(** ** The observer *)
Record Observer (S : Type) := mkObserver {
  OnModelComplete : option (Z → Z → AgentMetrics.Usage → S → M R (option error * S));
  OnAssistant : option (Z → Llm.Message → S → M R (option error * S));
  OnToolCall : option (Z → Llm.ToolCall → S → M R (option error * S));
  OnToolResult : option (Z → Llm.ToolCall → any_map → S → M R (option error * S));
  OnToolComplete : option (Z → Llm.ToolCall → Z → option error → S → M R (option error * S));
  PauseAfterTool : option (Llm.ToolCall → any_map → bool);
}.
#[global] Arguments mkObserver {S}.
#[global] Arguments OnModelComplete {S}.
#[global] Arguments OnAssistant {S}.
#[global] Arguments OnToolCall {S}.
#[global] Arguments OnToolResult {S}.
#[global] Arguments OnToolComplete {S}.
#[global] Arguments PauseAfterTool {S}.
Definition no_observer : Observer unit := mkObserver None None None None None None.

(** ** The runtime *)
Record Runtime := mkRuntime {
  client : bool;                   (* whether a model is configured *)
  tools : gmap string (@Tool R);
  maxSteps : Z;
  timeout : Z;
}.
Definition New (client : bool) (tools : gmap string (@Tool R)) (maxSteps timeout : Z) : Runtime :=
  mkRuntime client tools (if (maxSteps <=? 0)%Z then 20%Z else maxSteps)
    (if (timeout <=? 0)%Z then (10 * minute)%Z else timeout).

(** What the loop carries from one call to the next. *)
Record loop_state (S : Type) := mkLoop {
  messages : list Llm.Message; result_ : Result; discovered : gset string; obs : S;
}.
#[global] Arguments mkLoop {S}.
#[global] Arguments messages {S}.
#[global] Arguments result_ {S}.
#[global] Arguments discovered {S}.
#[global] Arguments obs {S}.

(** A round either goes on, or ends the run with an error or without. *)
Inductive outcome (S : Type) :=
  | Continue (l : loop_state S)
  | Stop (l : loop_state S) (err : option error).
#[global] Arguments Continue {S}.
#[global] Arguments Stop {S}.

Section with_observer.
Context {S : Type} (rt : Runtime) (observer : Observer S) (runID : string).

Definition payload_of (out : result any) : any_map :=
  match out with
  | Ok output => Sensitive.SanitizeMap [("ok", VBool true); ("result", output)]
  | Err toolErr =>
      Sensitive.SanitizeMap [("ok", VBool false); ("result", VNil)] ++
      [("error", VString (Sensitive.SanitizeText (error_text toolErr)))]
  end.
Definition error_of (out : result any) : option error :=
  match out with Ok _ => None | Err e => Some e end.

Definition undeclared (name : string) : error :=
  Errorf "agent requested undeclared tool %q" [AStr name].
Definition unauthorized (e : error) : error :=
  Errorf "agent requested unauthorized target: %w" [AErr e].

(** Whether a call may be executed: its tool. *)
Definition authorize_call (call : Llm.ToolCall) (discovered : gset string) : result (@Tool R) :=
  match tools rt !! Llm.Name call with
  | None => Err (undeclared (Llm.Name call))
  | Some tool =>
      if decide (Llm.Name call = "list_workers") then Ok tool
      else match validateDiscoveredWorkers (Llm.Arguments call) discovered with
           | Err err => Err (unauthorized err)
           | Ok _ => Ok tool
           end
  end.

(** A callback, and the rest of the round unless it returns an error. *)
Definition observe (cb : option (S → M R (option error * S))) (l : loop_state S)
    (k : loop_state S → M R (outcome S)) : M R (outcome S) :=
  match cb with
  | None => k l
  | Some f =>
      r ← f (obs l);
      let l := mkLoop (messages l) (result_ l) (discovered l) r.2 in
      match r.1 with
      | Some err => mret (Stop l (Some err))
      | None => k l
      end
  end.

Definition add_message (m : Llm.Message) (l : loop_state S) : loop_state S :=
  mkLoop (messages l ++ [m]) (result_ l) (discovered l) (obs l).
Definition add_event (ev : Event) (l : loop_state S) : loop_state S :=
  mkLoop (messages l) ((result_ l) <| Events := Events (result_ l) ++ [ev] |>) (discovered l) (obs l).
Definition set_result (f : Result → Result) (l : loop_state S) : loop_state S :=
  mkLoop (messages l) (f (result_ l)) (discovered l) (obs l).
Definition discover (payload : any_map) (l : loop_state S) : loop_state S :=
  mkLoop (messages l) (result_ l) (recordDiscoveredWorkers payload (discovered l)) (obs l).

(** After the tool returned [out]. *)
Definition finish_call (step : Z) (call : Llm.ToolCall) (out : result any) (l : loop_state S)
    : M R (outcome S) :=
  let payload := payload_of out in
  let l := if decide (Llm.Name call = "list_workers" ∧ is_ok out = true) then discover payload l
           else l in
  let l := add_message (Llm.tool_message (Llm.ID call) (marshal_map payload)) l in
  observe ((λ f, f step call payload) <$> OnToolResult observer) l (λ l,
    let l := add_event (mkEvent step "tool" (Llm.Name call) (VMap payload)) l in
    let paused := match PauseAfterTool observer with Some f => f call payload | None => false end in
    if paused : bool then mret (Stop (set_result (λ r, r <| Paused := true |>) l) None)
    else mret (Continue l)).

(** One call of a tool. *)
Definition run_call (step : Z) (call : Llm.ToolCall) (l : loop_state S) : M R (outcome S) :=
  match authorize_call call (discovered l) with
  | Err err => mret (Stop l (Some err))
  | Ok tool =>
      observe ((λ f, f step call) <$> OnToolCall observer) l (λ l,
        toolStarted ← read;
        out ← tool (mkContext runID (Llm.ID call)) (Llm.Arguments call);
        ended ← read;
        let latency := time_sub (now ended) (now toolStarted) in
        observe ((λ f, f step call latency (error_of out)) <$> OnToolComplete observer) l
          (finish_call step call out))
  end.

Fixpoint run_calls (step : Z) (calls : list Llm.ToolCall) (l : loop_state S) : M R (outcome S) :=
  match calls with
  | [] => mret (Continue l)
  | call :: calls =>
      o ← run_call step call l;
      match o with
      | Continue l => run_calls step calls l
      | Stop l err => mret (Stop l err)
      end
  end.

(** One step: a call of the model and the calls it asks for. *)
Definition run_step (definitions : list string) (step : Z) (l : loop_state S) : M R (outcome S) :=
  started ← read;
  n ← gets ticks;
  match complete n (messages l) definitions with
  | Err err => mret (Stop l (Some (Errorf "agent step %d: %w" [AInt step; AErr err])))
  | Ok completion =>
      let message := Llm.Message_ completion in
      ended ← read;
      let latency := time_sub (now ended) (now started) in
      observe ((λ f, f step latency (Llm.Usage_ completion)) <$> OnModelComplete observer) l (λ l,
        let l := add_message message (set_result (λ r, r <| Steps := step |>) l) in
        observe ((λ f, f step message) <$> OnAssistant observer) l (λ l,
          let l := add_event (mkEvent step "assistant" "" (VString (Llm.Content message))) l in
          match Llm.ToolCalls message with
          | [] =>
              let answer := ensureEvidenceSections (Llm.Content message) (Events (result_ l)) in
              mret (Stop (set_result (λ r, r <| Answer := answer |>) l) None)
          | calls => run_calls step calls l
          end))
  end.

(** The loop from [step]: [n] steps are left. *)
Fixpoint run_steps (definitions : list string) (n : nat) (step : Z) (l : loop_state S)
    : M R (loop_state S * option error) :=
  match n with
  | 0 => mret (l, Some (Errorf "agent exceeded maximum of %d steps" [AInt (maxSteps rt)]))
  | Datatypes.S n =>
      o ← run_step definitions step l;
      match o with
      | Continue l => run_steps definitions n (step + 1)%Z l
      | Stop l err => mret (l, err)
      end
  end.

Definition RunMessages (msgs : list Llm.Message) (startStep : Z) (s : S)
    : M R (Result * option error * S) :=
  if negb (client rt) then mret (Result_zero, Some (new_error "agent model is not configured"), s)
  else
    e ← read;
    let definitions := (range_map (order e) ((λ _, tt) <$> tools rt)).*1 in
    let startStep := if (startStep <? 1)%Z then 1%Z else startStep in
    r ← run_steps definitions (Z.to_nat (maxSteps rt + 1 - startStep)) startStep
          (mkLoop msgs Result_zero ∅ s);
    mret (result_ r.1, r.2, obs r.1).
End with_observer.

Definition RunStreaming (rt : Runtime) (input : string) (history : list Llm.Message)
    : M R (Result * option error) :=
  if decide (trim_space input = "") then
    mret (Result_zero, Some (new_error "input is required"))
  else
    let msgs := [Llm.text "system" SystemPrompt] ++ history ++ [Llm.text "user" input] in
    r ← RunMessages rt no_observer "" msgs 1 tt;
    mret r.1.
Definition Run (rt : Runtime) (input : string) (history : list Llm.Message)
    : M R (Result * option error) := RunStreaming rt input history.

End runtime.
End AgentRuntime.
