(* ===== verification/AgentRuns.v ===== *)
(** * Durable agent runs ([internal/interfaces/http/agent_runs.go] and the
    handlers of [agent.go])

    A run is stored with its transcript; the observer of the loop stores every
    message, tool call and event as it happens, and the run resumes from the
    stored transcript. *)
From S2P Require Import Prelude.
From S2P Require Import GoStrings.
From S2P Require Import Fmt.
From S2P Require Import Model.
From S2P Require Import Sensitive.
From S2P Require Import Repository.
From S2P Require Import Hub.
From S2P Require Import World.
From S2P Require Import Server.
From S2P Require Import AgentTools.
From S2P Require Import AgentRuntime.

Import Repository World Server.Server Fmt.Fmt AgentTools.AgentTools AgentRuntime.AgentRuntime.

Module AgentRuns.

Definition agentPromptVersion : string := "controlled-agent-v1".
Definition agentPolicyVersion : string := "default-v1".

(** [context.DeadlineExceeded], and whether an error wraps it. *)
Definition deadline_exceeded : error := new_error "context deadline exceeded".
Fixpoint is_deadline (e : error) : bool :=
  match e with
  | Errorf f args =>
      (bool_decide (f = "context deadline exceeded") && match args with [] => true | _ => false end) ||
      (contains f "%w" && (fix any_arg (l : list error_arg) : bool :=
         match l with
         | [] => false
         | AErr e :: l => is_deadline e || any_arg l
         | _ :: l => any_arg l
         end) args)
  end.

(** [fmt.Sprint(v) == s] for a text [s] that no value other than a string
    prints as. *)
Definition prints_as (v : any) (s : string) : bool :=
  match v with
  | VString x | VTyped _ x => bool_decide (x = s)
  | _ => false
  end.
Definition payloadNeedsApproval (payload : any_map) : bool :=
  existsb (λ job, prints_as (any_get job "status") JobStatusWaitingApproval)
    (as_maps (any_get (as_map (any_get payload "result")) "jobs")).

(** ** Helpers of the handlers *)
Definition maxHistory : nat := 10.
Definition conversationMessagesToLLM (msgs : list ConversationMessage.t) : list Llm.Message :=
  let msgs := drop (length msgs - maxHistory) msgs in
  omap (λ m,
    if decide (ConversationMessage.Role m = "user") then
      Some (Llm.text "user" (ConversationMessage.Content m))
    else if decide (ConversationMessage.Role m = "assistant") then
      if decide (ConversationMessage.Content m = "") then None
      else Some (Llm.text "assistant" (ConversationMessage.Content m))
    else None) msgs.

(** The status of an entry: a [model.JobStatus], else a string. *)
Definition entry_status (job : any_map) : string :=
  let v := any_get job "status" in
  match v with
  | VTyped "model.JobStatus" s => s
  | _ => as_string v
  end.
Definition awaits_approval (job : any_map) : bool :=
  bool_decide (as_string (any_get job "job_id") ≠ "") &&
  as_bool (any_get job "approval_required") &&
  bool_decide (entry_status job = JobStatusWaitingApproval).

(** The entries that wait for approval, each job once. *)
Fixpoint pending_jobs (seen : list string) (jobs : list any_map) : list any_map :=
  match jobs with
  | [] => []
  | job :: jobs =>
      let jobID := as_string (any_get job "job_id") in
      if awaits_approval job && bool_decide (jobID ∉ seen) then
        job :: pending_jobs (jobID :: seen) jobs
      else pending_jobs seen jobs
  end.
Definition event_jobs (ev : Event) : list any_map :=
  if decide (Type_ ev = "tool") then
    as_maps (any_get (as_map (any_get (as_map (Data ev)) "result")) "jobs")
  else [].
Definition pendingApprovalsFromEvents (events : list Event) : list any_map :=
  pending_jobs [] (events ≫= event_jobs).

Definition event_value (ev : Event) : any :=
  VOther "agent.Event" [("step", VInt (Step ev)); ("type", VString (Type_ ev));
                        ("name", VString (Name ev)); ("data", Data ev)].

Section runs.
Context {R : Type} `{RR : Repository R} `{O : Oracle} `{P : Printable} `{J : JSON} `{C : LLM}.

(** ** Creating and executing a run *)
Definition createPersistentRun (input conversationID : string) (history : list Llm.Message)
    : M R (result AgentRun.t) :=
  let msgs := [Llm.text "system" SystemPrompt] ++ history ++ [Llm.text "user" input] in
  e ← read;
  let run := AgentRun.zero
    <| AgentRun.Input := Sensitive.SanitizeText input |>
    <| AgentRun.ConversationID := conversationID |>
    <| AgentRun.Status := AgentRunStatusQueued |>
    <| AgentRun.TraceID := "trace-" +:+ pretty (now e) |>
    <| AgentRun.PolicyVersion := agentPolicyVersion |>
    <| AgentRun.PromptVersion := agentPromptVersion |>
    <| AgentRun.Transcript := marshal_messages msgs |>
    <| AgentRun.NextStep := 1%Z |> in
  call (λ e, CreateAgentRun e run).

(** The variables the closures of the observer share. *)
Record shared := mkShared { sh_run : AgentRun.t; sh_transcript : list Llm.Message }.

Definition err_of {A} (r : result A) : option error :=
  match r with Ok _ => None | Err e => Some e end.

Definition persist (s : shared) : M R (option error * shared) :=
  let run := (sh_run s) <| AgentRun.Transcript := marshal_messages (sh_transcript s) |> in
  res ← call (λ e, UpdateAgentRun e run);
  mret (err_of res, mkShared run (sh_transcript s)).

Definition set_metrics (f : AgentMetrics.t → AgentMetrics.t) : M R unit :=
  modify (λ w, w <| agentMetrics := f (agentMetrics w) |>).

Definition on_model (_ latency : Z) (usage : AgentMetrics.Usage) (s : shared)
    : M R (option error * shared) :=
  _ ← set_metrics (AgentMetrics.model latency usage);
  mret (None, s).

Definition on_tool_complete (_ : Z) (_ : Llm.ToolCall) (latency : Z) (err : option error) (s : shared)
    : M R (option error * shared) :=
  _ ← set_metrics (AgentMetrics.tool latency (error_text <$> err));
  mret (None, s).

Definition on_assistant (step : Z) (message : Llm.Message) (s : shared)
    : M R (option error * shared) :=
  let message := message <| Llm.Content := Sensitive.SanitizeText (Llm.Content message) |> in
  let s := mkShared (sh_run s) (sh_transcript s ++ [message]) in
  res ← call (λ e, AddAgentEvent e (AgentEvent.zero
          <| AgentEvent.RunID := AgentRun.ID (sh_run s) |>
          <| AgentEvent.Step := step |>
          <| AgentEvent.Type_ := "assistant" |>
          <| AgentEvent.Data := [("content", VString (Llm.Content message))] |>));
  match res with
  | Err err => mret (Some err, s)
  | Ok _ => persist s
  end.

Definition call_id (run : AgentRun.t) (call : Llm.ToolCall) : string :=
  AgentRun.ID run +:+ ":" +:+ Llm.ID call.

Definition on_tool_call (step : Z) (call_ : Llm.ToolCall) (s : shared)
    : M R (option error * shared) :=
  let safeArguments := marshal_map (Sensitive.SanitizeMap (unmarshal_map (Llm.Arguments call_))) in
  res ← call (λ e, CreateAgentToolCall e (AgentToolCall.zero
          <| AgentToolCall.ID := call_id (sh_run s) call_ |>
          <| AgentToolCall.RunID := AgentRun.ID (sh_run s) |>
          <| AgentToolCall.Step := step |>
          <| AgentToolCall.ToolName := Llm.Name call_ |>
          <| AgentToolCall.Arguments := safeArguments |>
          <| AgentToolCall.Status := "running" |>));
  mret (err_of res, s).

Definition on_tool_result (step : Z) (call_ : Llm.ToolCall) (payload : any_map) (s : shared)
    : M R (option error * shared) :=
  let encoded := marshal_map payload in
  let s := mkShared (sh_run s) (sh_transcript s ++ [Llm.tool_message (Llm.ID call_) encoded]) in
  res ← call (λ e, CompleteAgentToolCall e (AgentToolCall.zero
          <| AgentToolCall.ID := call_id (sh_run s) call_ |>
          <| AgentToolCall.Result := encoded |>
          <| AgentToolCall.Error := as_string (any_get payload "error") |>
          <| AgentToolCall.Status := "completed" |>));
  match res with
  | Err err => mret (Some err, s)
  | Ok _ =>
      res ← call (λ e, AddAgentEvent e (AgentEvent.zero
              <| AgentEvent.RunID := AgentRun.ID (sh_run s) |>
              <| AgentEvent.Step := step |>
              <| AgentEvent.Type_ := "tool" |>
              <| AgentEvent.Name := Llm.Name call_ |>
              <| AgentEvent.Data := payload |>));
      match res with
      | Err err => mret (Some err, s)
      | Ok _ => persist s
      end
  end.

Definition run_observer : Observer shared :=
  mkObserver (Some on_model) (Some on_assistant) (Some on_tool_call) (Some on_tool_result)
    (Some on_tool_complete) (Some (λ _ payload, payloadNeedsApproval payload)).

(** The run after the loop returned. *)
Definition settle (run : AgentRun.t) (res : Result) (err : option error) : AgentRun.t :=
  let run := run <| AgentRun.NextStep := (Steps res + 1)%Z |> in
  if Paused res then run <| AgentRun.Status := AgentRunStatusWaitingApproval |>
  else match err with
  | Some e =>
      run <| AgentRun.Error := error_text e |>
          <| AgentRun.Status := if is_deadline e then AgentRunStatusTimedOut
                                else AgentRunStatusFailed |>
  | None =>
      run <| AgentRun.Answer := Answer res |> <| AgentRun.Status := AgentRunStatusCompleted |>
  end.

Definition executePersistentRun (rt : @Runtime R) (runID : string)
    : M R (AgentRun.t * list Event * option error) :=
  run ← query (λ _, GetAgentRun runID);
  match run with
  | Err err => mret (AgentRun.zero, [], Some err)
  | Ok run =>
      if decide (AgentRun.Status run = AgentRunStatusCancelled ∨
                 AgentRun.Status run = AgentRunStatusCompleted) then mret (run, [], None)
      else
        match unmarshal_messages (AgentRun.Transcript run) with
        | Err err => mret (run, [], Some (Errorf "decode run transcript: %w" [AErr err]))
        | Ok transcript =>
            let run := run <| AgentRun.Status := AgentRunStatusRunning |> in
            res ← call (λ e, UpdateAgentRun e run);
            match res with
            | Err err => mret (run, [], Some err)
            | Ok _ =>
                r ← RunMessages rt run_observer (AgentRun.ID run) transcript (AgentRun.NextStep run)
                      (mkShared run transcript);
                let '(res, runErr, s) := r in
                let s := mkShared (settle (sh_run s) res runErr) (sh_transcript s) in
                s ← persist s;
                let success := match runErr with None => negb (Paused res) | Some _ => false end in
                _ ← set_metrics (AgentMetrics.complete (Steps res) success);
                mret (sh_run s.2, Events res, runErr)
            end
        end
  end.

(** ** Handlers *)
Record agentRunRequest := mkAgentRun { ar_Input : string; ar_ConversationID : string; ar_Stream : bool }.

(** The conversation of a request and its history, or the error response. *)
Definition open_conversation (req : agentRunRequest)
    : M R (Response + (string * list Llm.Message)) :=
  if decide (ar_ConversationID req = "") then
    conv ← call (λ e, CreateConversation e (take_bytes 50 (ar_Input req)));
    match conv with
    | Err err => mret (inl (writeError StatusInternalServerError err))
    | Ok conv => mret (inr (Conversation.ID conv, []))
    end
  else
    msgs ← query (λ _, ListConversationMessages (ar_ConversationID req));
    let history := match msgs with Ok msgs => conversationMessagesToLLM msgs | Err _ => [] end in
    mret (inr (ar_ConversationID req, history)).

Definition message (convID role content : string) : ConversationMessage.t :=
  ConversationMessage.zero <| ConversationMessage.ConversationID := convID |>
                           <| ConversationMessage.Role := role |>
                           <| ConversationMessage.Content := content |>.
Definition store_message (m : ConversationMessage.t) : M R unit :=
  _ ← call (λ e, AddConversationMessage e m); mret tt.

(** The tool events as messages, and the answer. *)
Fixpoint store_events (convID : string) (events : list Event) : M R unit :=
  match events with
  | [] => mret tt
  | ev :: events =>
      _ ← (if decide (Type_ ev = "tool") then
             store_message ((message convID (Type_ ev) "")
               <| ConversationMessage.Step := Step ev |>
               <| ConversationMessage.ToolName := Name ev |>
               <| ConversationMessage.ToolData := as_map (Data ev) |>)
           else mret tt);
      store_events convID events
  end.
Definition store_answer (convID : string) (run : AgentRun.t) : M R unit :=
  if decide (AgentRun.Answer run = "") then mret tt
  else store_message ((message convID "assistant" (AgentRun.Answer run))
         <| ConversationMessage.Step := AgentRun.NextStep run |>).

Definition audit_run (user : User.t) (convID : string) (run : AgentRun.t) : M R unit :=
  recordAudit "user" (User.Username user) "agent.run.completed" "agent_run" (AgentRun.ID run)
    [("steps", VInt (AgentRun.NextStep run - 1)); ("conversation_id", VString convID);
     ("status", VTyped "model.AgentRunStatus" (AgentRun.Status run))].

Definition StatusUnprocessableEntity : Z := 422.

Definition pending_field (events : list Event) : any_map :=
  match pendingApprovalsFromEvents events with
  | [] => []
  | pending => [("pending_approvals", VMaps pending)]
  end.

Definition run_agent (rt : @Runtime R) (user : User.t) (req : agentRunRequest) : M R Response :=
  conv ← open_conversation req;
  match conv with
  | inl resp => mret resp
  | inr (convID, history) =>
      _ ← store_message (message convID "user" (ar_Input req));
      run ← createPersistentRun (ar_Input req) convID history;
      match run with
      | Err err => mret (writeError StatusInternalServerError err)
      | Ok run =>
          r ← executePersistentRun rt (AgentRun.ID run);
          let '(run, events, err) := r in
          match err with
          | Some err =>
              _ ← store_message (message convID "assistant" (error_text err));
              mret (writeError StatusUnprocessableEntity err)
          | None =>
              _ ← store_events convID events;
              _ ← store_answer convID run;
              _ ← audit_run user convID run;
              mret (writeJSON StatusOK (BRunMap run
                ([("answer", VString (AgentRun.Answer run));
                  ("events", VOther "[]agent.Event" ((λ ev, ("", event_value ev)) <$> events));
                  ("steps", VInt (AgentRun.NextStep run - 1));
                  ("conversation_id", VString convID)] ++ pending_field events)))
          end
      end
  end.

(** The streaming variant: the response, or the data of the final event. The
    conversation and its history are found in the same way. *)
Definition handleAgentRunStream (rt : @Runtime R) (user : User.t) (req : agentRunRequest)
    : M R (Response + (AgentRun.t * any_map)) :=
  conv ← open_conversation req;
  match conv with
  | inl resp => mret (inl resp)
  | inr (convID, history) =>
      _ ← store_message (message convID "user" (ar_Input req));
      created ← createPersistentRun (ar_Input req) convID history;
      r ← (match created with
           | Ok run => executePersistentRun rt (AgentRun.ID run)
           | Err err => mret (AgentRun.zero, [], Some err)
           end);
      let '(run, events, err) := r in
      _ ← store_events convID events;
      _ ← store_answer convID run;
      _ ← audit_run user convID run;
      mret (inr (run,
        [("steps", VInt (AgentRun.NextStep run - 1))] ++
        match err with Some err => [("error", VString (error_text err))] | None => [] end ++
        (if decide (AgentRun.Answer run = "") then [] else [("answer", VString (AgentRun.Answer run))]) ++
        pending_field events ++ [("conversation_id", VString convID)]))
  end.

Definition handleAgentRun (rt : @Runtime R) (user : User.t) (req : result agentRunRequest)
    : M R (Response + (AgentRun.t * any_map)) :=
  match req with
  | Err err => mret (inl (writeError StatusBadRequest err))
  | Ok req =>
      if ar_Stream req then handleAgentRunStream rt user req
      else resp ← run_agent rt user req; mret (inl resp)
  end.

Definition runs_prefix : string := "/api/v1/agent/runs/".
Definition not_found : Response := writeError StatusNotFound (new_error "not found").

Definition handleAgentEventsSSE (id after : string) : M R Response :=
  run ← query (λ _, GetAgentRun id);
  match run with
  | Err err => mret (writeError StatusNotFound err)
  | Ok _ =>
      let parsed := if decide (after = "") then Some 0%Z else atoi after in
      match parsed with
      | None => mret (writeError StatusBadRequest (new_error "after must be a non-negative event ID"))
      | Some after =>
          if (after <? 0)%Z then
            mret (writeError StatusBadRequest (new_error "after must be a non-negative event ID"))
          else
            events ← query (λ _, ListAgentEvents id after);
            match events with
            | Err err => mret (writeError StatusInternalServerError err)
            | Ok events => mret (writeJSON StatusOK (BEvents events))
            end
      end
  end.

Definition handleAgentRunActions (method path after : string) : M R Response :=
  match split (trim_prefix path runs_prefix) "/" with
  | [id; action] =>
      if bool_decide (action = "cancel") && bool_decide (method = "POST") then
        run ← query (λ _, GetAgentRun id);
        match run with
        | Err err => mret (writeError StatusNotFound err)
        | Ok run =>
            if decide (AgentRun.Status run = AgentRunStatusRunning) then
              mret (writeError StatusConflict (new_error "run is active"))
            else
              let run := run <| AgentRun.Status := AgentRunStatusCancelled |> in
              _ ← call (λ e, UpdateAgentRun e run);
              _ ← call (λ e, AddAgentEvent e (AgentEvent.zero
                    <| AgentEvent.RunID := id |> <| AgentEvent.Type_ := "cancelled" |>));
              mret (writeJSON StatusOK (BRun run))
        end
      else if bool_decide (action = "events") && bool_decide (method = "GET") then
        handleAgentEventsSSE id after
      else mret not_found
  | _ => mret not_found
  end.

Definition handleGetAgentRun (method path after : string) : M R Response :=
  let id := trim_prefix path runs_prefix in
  if has_suffix id "/events" || has_suffix id "/cancel" then handleAgentRunActions method path after
  else
    run ← query (λ _, GetAgentRun id);
    match run with
    | Err err => mret (writeError StatusNotFound err)
    | Ok run => mret (writeJSON StatusOK (BRun run))
    end.

(** ** Recovery when the server starts ([server.go]) *)
Fixpoint resume_runs (rt : @Runtime R) (runs : list AgentRun.t) : M R unit :=
  match runs with
  | [] => mret tt
  | run :: runs => _ ← executePersistentRun rt (AgentRun.ID run); resume_runs rt runs
  end.
Definition resumeInterruptedAgentRuns (rt : @Runtime R) : M R unit :=
  runs ← query (λ e, ListAgentRunsByStatus e [AgentRunStatusQueued; AgentRunStatusRunning]);
  match runs with
  | Err _ => mret tt
  | Ok runs => resume_runs rt runs
  end.

End runs.
End AgentRuns.
