(* ===== verification/System.v ===== *)
(** * The running server

    Every way the state of the server changes, as a step relation: a handler,
    an event of a worker's stream, a tool call or the bookkeeping of an agent
    run, a reload of the configuration. Steps of different requests interleave;
    each step runs alone here, and [Interleave] runs them operation by operation. The steps refine the abstract control plane of
    [Spec], and what follows for every reachable state. *)
From S2P Require Import Prelude.
From S2P Require Import GoStrings.
From S2P Require Import Fmt.
From S2P Require Import Model.
From S2P Require Import Policy.
From S2P Require Import Modules.
From S2P Require Import Repository.
From S2P Require Import MemoryRepo.
From S2P Require Import MemoryRepoFacts.
From S2P Require Import Hub.
From S2P Require Import World.
From S2P Require Import Spec.
From S2P Require Import StreamService.
From S2P Require Import Server.
From S2P Require Import ServerFacts.
From S2P Require Import ServerWorkers.
From S2P Require Import Auth.
From S2P Require Import Config.
From S2P Require Import ConfigFacts.
From S2P Require Import AgentTools.
From S2P Require Import AgentToolsFacts.
From S2P Require Import AgentRuntime.
From S2P Require Import AgentRuns.

Import Repository World Spec.Refine StreamService.StreamService Server.Server Workers
  AgentTools.AgentTools AgentRuns.AgentRuns Fmt.Fmt.

Module System.

Section system.
Context {R : Type} `{RR : Repository R} `{O : Oracle} `{TT : TextTemplate} `{Y : YAML}
  `{P : Printable} `{J : JSON} `{CY : ConfigYAML}.

(** What runs without a condition of its own. *)
Inductive handler : ∀ A : Type, M R A → Prop :=
  | h_create_job user req : handler _ (handleCreateJob user req)
  | h_list_jobs q : handler _ (handleListJobs q)
  | h_job_actions user method path req : handler _ (handleJobActions user method path req)
  | h_yaml user req : handler _ (handleCreateJobFromYAML user req)
  | h_worker_log entry : handler _ (handleAddWorkerLog entry)
  | h_pending_approvals : handler _ handleListPendingApprovalJobs
  | h_approve user path req : handler _ (handleApproveJob user path req)
  | h_audit_logs q : handler _ (handleListAuditLogs q)
  | h_list_conversations : handler _ handleListConversations
  | h_create_conversation user title : handler _ (handleCreateConversation user title)
  | h_conversation user method path : handler _ (handleConversationActions user method path)
  | h_list_cases q : handler _ (handleListIncidentCases q)
  | h_suggest_cases q : handler _ (handleSuggestIncidentCases q)
  | h_list_workers : handler _ handleListWorkers
  | h_create_worker cfg env exe user req : handler _ (handleCreateWorker cfg env exe user req)
  | h_register_worker cfg req token :
      handler _ (withWorkerAuth cfg (handleRegisterWorker req) token)
  | h_worker_actions cfg user method path force body token :
      handler _ (withWorkerAuth cfg (handleWorkerActions user method path force body) token)
  | h_worker_user user method path force : handler _ (handleWorkerUserAction user method path force)
  | h_configs method path req dir enforce walk :
      handler _ (Configs.handleManagedConfigActions method path req dir enforce walk)
  | h_users U (US : UserStore U) (B : Bcrypt) (CJ : ClaimsJSON) now header req (s : Auth.Service U) :
      handler _ (Users.serve now header req s).2
  | h_open_stream token md first send : handler _ (open_stream token md first send)
  | h_stream_event wid ch ev : handler _ (on_event wid ch ev)
  | h_stream_end wid ch : handler _ (on_hub (λ h, pair tt <$> Hub.unregister wid ch h))
  | h_open_conversation req : handler _ (open_conversation req)
  | h_add_message m : handler _ (store_message m)
  | h_create_run input convID history : handler _ (createPersistentRun input convID history)
  | h_persist s : handler _ (persist s)
  | h_on_model step latency usage s : handler _ (on_model step latency usage s)
  | h_on_assistant step m s : handler _ (on_assistant step m s)
  | h_on_tool_call step c s : handler _ (on_tool_call step c s)
  | h_on_tool_result step c payload s : handler _ (on_tool_result step c payload s)
  | h_on_tool_complete step c latency err s : handler _ (on_tool_complete step c latency err s)
  | h_audit_run user convID run : handler _ (audit_run user convID run)
  | h_agent_run method path after : handler _ (handleGetAgentRun method path after).

(** A tool is called under keys that no job was created with before. *)
Inductive step (fresh : Context → World.t R → Prop) (w : World.t R) : World.t R → Prop :=
  | step_handler A (m : M R A) : handler A m → step fresh w (m w).2
  | step_tool ctx name (tool : @Tool R) raw :
      agentTools !! name = Some tool → fresh ctx w → step fresh w (tool ctx raw w).2
  | step_reload pol reg eng :
      step fresh w (w <| policyEng := pol |> <| moduleReg := reg |> <| templateEng := eng |>).
End system.

(** The server when it starts, on a repository. *)
Definition init {R} (r : R) : World.t R :=
  World.mk r Hub.NewHub Policy.NewEngine Registry.NewRegistry TemplateEngine.NewEngine
    (AgentMetrics.new float_zero float_zero) [] 0.

Section facts.
Context {R : Type} `{L : JobLaws R} `{O : Oracle} `{TT : TextTemplate} `{Y : YAML}
  `{P : Printable} `{J : JSON} `{CY : ConfigYAML}.
Implicit Types w : World.t R.

Import ServerFacts.ServerFacts WorkersFacts AgentToolsFacts.AgentToolsFacts.

Abbreviation server_step := (step fresh_call).

Lemma neutral_set_metrics f : neutral (set_metrics (R:=R) f).
Proof. by apply neutral_modify. Qed.
#[local] Hint Resolve neutral_set_metrics : neutral.
Lemma neutral_persist s : neutral (persist (R:=R) s).
Proof. unfold persist. neutral_auto. Qed.
#[local] Hint Resolve neutral_persist : neutral.

Lemma neutral_users_handle {U} `{UserStore U, Bcrypt, ClaimsJSON} req actor (s : Auth.Service U) :
  neutral (Users.handle (R:=R) req actor s).2.
Proof.
  destruct req; simpl; unfold Users.handleListUsers, Users.handleCreateUser, Users.handleDeleteUser,
    Users.handleChangePassword, Users.answer; repeat (case_match; simpl); neutral_auto.
Qed.

Lemma neutral_users {U} `{UserStore U, Bcrypt, ClaimsJSON} now header req (s : Auth.Service U) :
  neutral (Users.serve (R:=R) now header req s).2.
Proof.
  pose proof neutral_users_handle as Hh.
  unfold Users.serve, Users.withUserAuth. repeat (case_match; simpl); try apply neutral_ret; apply Hh.
Qed.

(** The handlers that create or start jobs. *)
Inductive starts_jobs : ∀ A : Type, M R A → Prop :=
  | s_create_job user req : starts_jobs _ (handleCreateJob user req)
  | s_job_actions user method path req : starts_jobs _ (handleJobActions user method path req)
  | s_yaml user req : starts_jobs _ (handleCreateJobFromYAML user req)
  | s_approve user path req : starts_jobs _ (handleApproveJob user path req).

(** Every other handler is neutral. *)
Lemma handler_neutral A (m : M R A) : handler A m → neutral m ∨ starts_jobs A m.
Proof.
  destruct 1; try (right; constructor); left;
    auto using neutral_handleListJobs, neutral_handleAddWorkerLog,
    neutral_handleCreateConversation, neutral_handleConversationActions, neutral_handleCreateWorker,
    neutral_withWorkerAuth, neutral_handleRegisterWorker, neutral_handleWorkerActions,
    neutral_handleWorkerUserAction, neutral_on_event, neutral_unregister,
    ConfigFacts.neutral_handleManagedConfigActions, @neutral_users.
  - unfold handleListPendingApprovalJobs. neutral_auto.
  - unfold handleListAuditLogs. neutral_auto.
  - unfold handleListConversations. neutral_auto.
  - unfold handleListIncidentCases. neutral_auto.
  - unfold handleSuggestIncidentCases. neutral_auto.
  - unfold handleListWorkers. neutral_auto.
  - unfold open_stream. neutral_auto.
  - unfold open_conversation. neutral_auto.
  - unfold store_message. neutral_auto.
  - unfold createPersistentRun. neutral_auto.
  - apply neutral_persist.
  - unfold on_model. neutral_auto.
  - unfold on_assistant. neutral_auto.
  - unfold on_tool_call. neutral_auto.
  - unfold on_tool_result. neutral_auto.
  - unfold on_tool_complete. neutral_auto.
  - unfold audit_run. neutral_auto.
  - unfold handleGetAgentRun, handleAgentRunActions, handleAgentEventsSSE. neutral_auto.
Qed.

Lemma keeps_handler s0 A (m : M R A) : handler A m → keeps (safe s0) m.
Proof.
  intros [Hm|Hm]%handler_neutral; [by apply neutral_keeps|].
  destruct Hm; auto using keeps_handleCreateJob, keeps_handleJobActions,
    keeps_handleCreateJobFromYAML, keeps_handleApproveJob.
Qed.

Lemma step_safe s0 w w' : safe s0 w → server_step w w' → safe s0 w'.
Proof.
  intros Hw. destruct 1 as [A m Hm|ctx name tool raw Ht Hf|pol reg eng].
  - pose proof (keeps_handler s0 A m Hm w Hw) as Hk. by destruct (m w) as [[a|] w'].
  - pose proof (tool_fresh s0 ctx name tool raw Ht w (conj Hw Hf)) as Hk.
    by destruct (tool ctx raw w) as [[a|] w'].
  - by apply (safe_eq s0 w).
Qed.

Lemma steps_safe s0 w w' : safe s0 w → rtc server_step w w' → safe s0 w'.
Proof. intros Hw Hs. revert Hw. induction Hs; eauto using step_safe. Qed.

Lemma safe_self w : Spec.inv (abs w) → safe (abs w) w.
Proof. by split. Qed.

Lemma init_inv (r : R) : jobs_of r = ∅ → keys_of r = ∅ → Spec.inv (abs (init r)).
Proof. intros Hj Hk. unfold abs. simpl. rewrite Hj, Hk. apply Spec.inv_init. Qed.

(** C4: the server refines the abstract control plane: on any repository with the
    laws of the interface, and in every state with the invariant of the abstract
    control plane, a handler, an event of a stream, the bookkeeping of a run or a
    tool call under an unused call identifier changes the jobs, the keys and the
    hub by a sequence of abstract steps. *)
Theorem server_refines_spec (w w' : World.t R) :
  Spec.inv (abs w) → server_step w w' → rtc Spec.step (abs w) (abs w').
Proof. intros Hi Hs. by destruct (step_safe (abs w) w w' (safe_self w Hi) Hs) as [_ ?]. Qed.

(** In every state a server reaches from an empty repository, a job that
    requires approval and is pending, queued or running was approved; and the
    hub is well formed. *)
Theorem approval_gate (r : R) (w : World.t R) :
  jobs_of r = ∅ → keys_of r = ∅ → rtc server_step (init r) w →
  (∀ k j, jobs_of (repo w) !! k = Some j → Job.ID j = k ∧ gate j) ∧ Hub.wf (hub w).
Proof.
  intros Hj Hk Hs. pose proof (init_inv r Hj Hk) as Hi.
  destruct (safe_inv _ w (steps_safe _ _ _ (safe_self _ Hi) Hs)) as [Hg Hh].
  split; [|done]. intros k j Hjk. destruct (Hg k j Hjk) as (? & ? & _). done.
Qed.

(** Whenever a job is queued for the stream of a worker, it is at that
    moment stored as running on exactly that worker, and was approved if it
    requires approval. *)
Theorem delivered_jobs_approved (r : R) (w : World.t R) (ch : nat) (p : Hub.ProtoJob.t) :
  jobs_of r = ∅ → keys_of r = ∅ → rtc server_step (init r) w →
  Hub.ServerEnvelope_Job p ∈ Hub.messages_of (hub w) ch →
  ∃ s, rtc Spec.step (abs (init r)) s ∧ rtc Spec.step s (abs w) ∧ Spec.deliverable s ch p.
Proof.
  intros Hj Hk Hs Hin. pose proof (init_inv r Hj Hk) as Hi.
  destruct (steps_safe _ _ _ (safe_self _ Hi) Hs) as [_ Hsteps].
  destruct (Spec.steps_delivery _ _ ch p Hi Hsteps Hin) as [Hn|(s & ? & ? & ?)].
  - unfold Hub.messages_of, init in Hn. simpl in Hn. by apply elem_of_nil in Hn.
  - by exists s.
Qed.
End facts.

(** ** A running server

    An in-memory server with a shell worker on a stream, two modules and a
    policy that asks for approval at the high level. *)
Section demo.
Import MemoryRepo.MemoryRepo MemoryRepoFacts.MemoryRepoFacts AgentToolsFacts.AgentToolsFacts.
#[local] Instance demo_oracle : Oracle := λ n, mkReading (Z.of_nat n) (Z.of_nat n) iter_default.
#[local] Instance demo_template : TextTemplate :=
  {| other_parse := λ _, Err (new_error "parse"); other_execute := λ _ _, Err (new_error "execute") |}.
#[local] Instance demo_yaml : YAML := {| unmarshal_jobs := λ _, Err (new_error "yaml") |}.
#[local] Instance demo_config_yaml : ConfigYAML :=
  {| unmarshal_group := λ _, Err (new_error "yaml"); unmarshal_policy := λ _, Err (new_error "yaml") |}.
#[local] Instance demo_printable : Printable := λ _, true.

(** The arguments of an operation are the code of its module. *)
#[local] Instance demo_json : JSON := {|
  unmarshal_worker_ids := λ _, Ok ("worker-000001", []);
  unmarshal_job_ids := λ _, Ok ("", []);
  unmarshal_operation := λ raw, Ok (mkOperation raw "worker-000001" [] (Some ∅) "maintenance");
  unmarshal_search := λ _, Err (new_error "search");
  unmarshal_map := λ _, []; marshal_map := λ _, ""; marshal_messages := λ _, "";
  unmarshal_messages := λ _, Ok [];
|}.

Definition demo_module (code : string) (risk : RiskLevel) : Module_.t :=
  TemplateModule.NewTemplateModule (CommandTemplate.mk code code "" "shell" "uptime" [] risk).
Definition demo_modules : Registry.t :=
  Registry.Register (demo_module "restart" RiskLevelHigh)
    (Registry.Register (demo_module "uptime" RiskLevelLow) Registry.NewRegistry).
Definition demo_policy : Policy.Engine :=
  Policy.Configure [] ["restart"; "uptime"] [] [RiskLevelHigh] Policy.NewEngine.
Definition demo_user : User.t := User.mk "alice" "admin".
Definition demo_job : createJobRequest := mkCreateJob "disk" "shell" "df -h" ["worker-000001"].

Definition demo_init : World.t MemoryRepository := init NewMemoryRepository.
Definition demo_connected : World.t MemoryRepository :=
  (open_stream "" None (Ok (WorkerEnvelope_Register "node" "shell")) (Ok tt) demo_init).2.
Definition demo_assigned : World.t MemoryRepository :=
  (handleCreateJob demo_user (Ok demo_job) demo_connected).2.

Lemma demo_inv : Spec.inv (abs demo_init).
Proof. by apply init_inv. Qed.

Lemma demo_steps : rtc (step fresh_call) demo_init demo_assigned.
Proof.
  eapply rtc_l; [apply step_handler, (h_open_stream "" None)|].
  eapply rtc_l; [apply step_handler, (h_create_job demo_user (Ok demo_job))|]. apply rtc_refl.
Qed.

Lemma server_refines_spec_witness :
  rtc Spec.step (abs demo_connected) (abs demo_assigned) ∧
  size (Spec.jobs (abs demo_connected)) = 0 ∧ size (Spec.jobs (abs demo_assigned)) = 1.
Proof.
  split; [|split; vm_compute; reflexivity].
  apply (server_refines_spec demo_connected demo_assigned).
  - pose proof demo_inv as Hi.
    refine (proj1 (conj (safe_inv _ demo_connected (step_safe _ _ _ (safe_self _ Hi) _)) I)).
    apply step_handler, (h_open_stream "" None).
  - apply step_handler, (h_create_job demo_user (Ok demo_job)).
Defined.

Lemma approval_gate_witness :
  (∀ k j, jobs_of (repo demo_assigned) !! k = Some j → Job.ID j = k ∧ gate j) ∧
  Hub.wf (hub demo_assigned).
Proof. apply (approval_gate NewMemoryRepository demo_assigned); [done|done|apply demo_steps]. Defined.

Definition demo_message : Hub.ProtoJob.t :=
  Hub.ProtoJob.mk "job-000003" "[worker:worker-000001] disk" "shell" "df -h" "" None "manual_job".

Lemma delivered_jobs_approved_witness :
  ∃ s, rtc Spec.step (abs demo_init) s ∧ rtc Spec.step s (abs demo_assigned) ∧
    Spec.deliverable s 0 demo_message.
Proof.
  apply (delivered_jobs_approved NewMemoryRepository demo_assigned 0 demo_message); [done|done| |].
  - apply demo_steps.
  - assert (Hub.messages_of (hub demo_assigned) 0 = [Hub.ServerEnvelope_Job demo_message]) as ->
      by (vm_compute; reflexivity).
    by left.
Defined.

Definition demo_configured : World.t MemoryRepository :=
  demo_connected <| policyEng := demo_policy |> <| moduleReg := demo_modules |>.
Definition demo_operation : operation * list string :=
  match (validate_operation "restart" demo_configured).1 with
  | Some (Ok x) => x
  | _ => (mkOp (demo_module "" "") "" "" None "" "" false, [])
  end.

Lemma operation_validated_witness :
  op_command demo_operation.1 = "uptime" ∧ op_approval demo_operation.1 = true ∧
  ∃ input, unmarshal_operation "restart" = Ok input ∧
    validated (moduleReg demo_configured) (policyEng demo_configured) input
      demo_operation.1 demo_operation.2.
Proof.
  split; [vm_compute; reflexivity|]. split; [vm_compute; reflexivity|].
  apply (operation_validated "restart" demo_operation.1 demo_operation.2 demo_configured).
  vm_compute. reflexivity.
Defined.

(** *** Where the code falls short *)
Definition demo_call : Context := mkContext "run-000001" "call-1".
Definition demo_waiting : World.t MemoryRepository :=
  (createModuleOperation demo_call "restart" demo_configured).2.
Definition approval_of (id : string) (w : World.t MemoryRepository)
    : option (JobStatus * bool * ApprovalStatus) :=
  (λ j, (Job.Status j, Job.ApprovalRequired j, Job.ApprovalStatus j)) <$> jobs_of (repo w) !! id.

(** A model that uses the identifier of an earlier call again gets the job of
    that call back from the idempotent creation; if the second operation needs
    no approval, the waiting job is started without one. *)
Example reused_call_id_skips_approval :
  approval_of "job-000003" demo_waiting = Some (JobStatusWaitingApproval, true, ApprovalStatusPending) ∧
  approval_of "job-000003" (createModuleOperation demo_call "uptime" demo_waiting).2 =
    Some (JobStatusRunning, true, ApprovalStatusPending).
Proof. split; vm_compute; reflexivity. Qed.

(** The approval handler dispatches an approved job twice: the worker receives
    it two times. *)
Example approval_pushes_twice :
  let w := (handleApproveJob demo_user "/api/v1/approvals/jobs/job-000003"
              (Ok (mkApprove (Some true) "ok")) demo_waiting).2 in
  match Hub.messages_of (hub w) 0 with
  | [Hub.ServerEnvelope_Job p; Hub.ServerEnvelope_Job q] => p = q
  | _ => False
  end.
Proof. vm_compute. reflexivity. Qed.

(** Parameters that are null in the arguments panic on a module with a default
    value: the defaults are stored in the nil map. *)
Example nil_parameters_panic (p : Module_.ParamDef) :
  Module_.Default p ≠ "" → fill_params [p] None = None.
Proof. intros Hp. simpl. by rewrite decide_True. Qed.
End demo.

End System.
