(* ===== verification/AgentFacts.v ===== *)
(** * Properties of the agent loop and of durable runs

    Whatever the model answers: the steps are bounded, every executed tool is
    declared, targets were discovered in the run, the answer keeps the two
    evidence sections, and a run ends in the status its outcome calls for. *)
From S2P Require Import Prelude.
From S2P Require Import GoStrings.
From S2P Require Import Fmt.
From S2P Require Import Model.
From S2P Require Import Policy.
From S2P Require Import Modules.
From S2P Require Import Repository.
From S2P Require Import MemoryRepo.
From S2P Require Import Hub.
From S2P Require Import World.
From S2P Require Import AgentTools.
From S2P Require Import AgentRuntime.
From S2P Require Import AgentRuns.

Import Repository World Fmt.Fmt AgentTools.AgentTools AgentRuntime.AgentRuntime AgentRuns.AgentRuns.

Module AgentFacts.








(** ** The loop *)
Section loop.
Context {R : Type} `{O : Oracle} `{P : Printable} `{J : JSON} `{C : LLM}.
Context {S : Type} (rt : @Runtime R) (observer : @Observer R S) (runID : string).

Definition is_assistant (ev : Event) : Prop := Type_ ev = "assistant".
#[local] Instance is_assistant_dec ev : Decision (is_assistant ev).
Proof. unfold is_assistant. apply _. Defined.


















End loop.

(** ** Targets *)
Lemma check_targets_Ok ids d u : check_targets ids d = Ok u → ∀ id, id ∈ ids → id ∈ d.
Proof.
  induction ids as [|x ids IH]; simpl; [set_solver|]. case_decide; [|done].
  intros Hc id [->|Hid]%elem_of_cons; [done|]. by apply IH.
Qed.

Section targets.
Context {R : Type} `{O : Oracle} `{P : Printable} `{J : JSON} `{C : LLM}.
Context {S : Type} (rt : @Runtime R) (observer : @Observer R S) (runID : string).
Context (I : World.t R → Prop) (D : string → Prop).

(** The callbacks and the clock keep [I]; listing workers keeps it and returns
    only workers in [D]; any other declared tool keeps it when all the workers
    its arguments name are in [D]. *)
Record guards := {
  g_ticks w n : I w → I (w <| ticks := n |>);
  g_model f step latency usage s : OnModelComplete observer = Some f → keeps I (f step latency usage s);
  g_assistant f step m s : OnAssistant observer = Some f → keeps I (f step m s);
  g_call f step c s : OnToolCall observer = Some f → keeps I (f step c s);
  g_result f step c p s : OnToolResult observer = Some f → keeps I (f step c p s);
  g_complete f step c latency e s : OnToolComplete observer = Some f → keeps I (f step c latency e s);
  g_list tool ctx raw : tools rt !! "list_workers" = Some tool →
    triple I I (tool ctx raw) (λ out w, I w ∧ ∀ id, id ∈ worker_ids (payload_of out) → D id);
  g_tool name tool ctx raw input : tools rt !! name = Some tool → name ≠ "list_workers" →
    unmarshal_worker_ids raw = Ok input → (∀ id, id ∈ target_ids input → D id) →
    keeps I (tool ctx raw);
}.
Context (HG : guards).

Definition known (l : loop_state S) : Prop := ∀ id, id ∈ discovered l → D id.
Definition known_round (o : outcome S) (w : World.t R) : Prop :=
  I w ∧ match o with Continue l => known l | Stop _ _ => True end.

Lemma read_keeps : keeps I (@read R _).
Proof. intros w Hw. by apply (g_ticks HG). Qed.

Lemma observe_known cb l (rest : loop_state S → M R (outcome S)) :
  known l → (∀ f s, cb = Some f → keeps I (f s)) →
  (∀ l', known l' → result_ l' = result_ l → triple I I (rest l') known_round) →
  triple I I (observe cb l rest) known_round.
Proof.
  intros Hl Hcb Hrest. unfold observe. destruct cb as [f|]; [|by apply Hrest].
  eapply triple_bind; [by apply Hcb|]. intros [[err|] s]; simpl; [by apply triple_ret|].
  by apply Hrest.
Qed.

Lemma run_call_known step call l :
  known l → triple I I (run_call rt observer runID step call l) known_round.
Proof.
  intros Hl. unfold run_call, authorize_call.
  destruct (tools rt !! Llm.Name call) as [tool|] eqn:Ht; [|by apply triple_ret].
  assert (∀ l', known l' → ∀ ctx, triple I I (
      out ← tool ctx (Llm.Arguments call); mret out) (λ out w, I w ∧
      (Llm.Name call = "list_workers" → ∀ id, id ∈ worker_ids (payload_of out) → D id)) ∨
    ∃ e, (if decide (Llm.Name call = "list_workers") then Ok tool
          else match validateDiscoveredWorkers (Llm.Arguments call) (discovered l) with
               | Err err => Err (unauthorized err) | Ok _ => Ok tool end) = Err e) as Htool.
  { intros l' _ ctx. case_decide as Hn.
    - left. rewrite Hn in Ht. eapply triple_bind; [by apply (g_list HG)|].
      intros out. apply triple_ret. by intros w [? ?].
    - unfold validateDiscoveredWorkers.
      destruct (unmarshal_worker_ids (Llm.Arguments call)) as [input|err] eqn:Hu;
        [|right; by eexists]. simpl.
      destruct (check_targets (target_ids input) (discovered l)) as [u|err] eqn:Hc;
        [|right; by eexists]. left.
      eapply triple_bind.
      + eapply (g_tool HG); [done|done|done|]. intros id Hid. by eapply Hl, check_targets_Ok.
      + intros out. by apply triple_ret. }
  set (auth := if decide _ then _ else _) in *.
  assert (auth = Ok tool ∨ ∃ e, auth = Err e) as [->|[e ->]].
  { unfold auth. case_decide; [by left|]. destruct (validateDiscoveredWorkers _ _); eauto. }
  2:{ by apply triple_ret. }
  apply observe_known; [done| |].
  { intros f s Hf. destruct (OnToolCall observer) as [g|] eqn:Hg; [|done]. simpl in Hf.
    injection Hf as <-. by apply (g_call HG). }
  intros l1 Hl1 _. eapply triple_bind; [apply read_keeps|]. intros started.
  eapply (triple_bind _ _ _ _ (λ out w, I w ∧
      (Llm.Name call = "list_workers" → ∀ id, id ∈ worker_ids (payload_of out) → D id))).
  { destruct (Htool l1 Hl1 (mkContext runID (Llm.ID call))) as [Hk|[e [=]]].
    intros w Hw. specialize (Hk w Hw). rewrite run_bind in Hk.
    by destruct (tool _ _ w) as [[out|] w']. }
  intros out w [Hw HD]. revert w Hw.
  match goal with |- ∀ w, I w → match run ?m w with _ => _ end => change (triple I I m known_round) end.
  eapply triple_bind; [apply read_keeps|]. intros ended_. simpl.
  apply observe_known; [done| |].
  { intros f s Hf. destruct (OnToolComplete observer) as [g|] eqn:Hg; [|done]. simpl in Hf.
    injection Hf as <-. by apply (g_complete HG). }
  intros l2 Hl2 _. unfold finish_call. apply observe_known.
  - simpl. case_decide as Hc; [|exact Hl2]. unfold discover. intros id Hid.
    simpl in Hid. unfold recordDiscoveredWorkers in Hid.
    apply elem_of_union in Hid as [Hid%elem_of_list_to_set|Hid]; [|by apply Hl2].
    destruct Hc as [Hc _]. by apply HD.
  - intros f s Hf. destruct (OnToolResult observer) as [g|] eqn:Hg; [|done]. simpl in Hf.
    injection Hf as <-. by apply (g_result HG).
  - intros l3 Hl3 _. destruct (match PauseAfterTool observer with Some f => _ | None => _ end);
      by apply triple_ret.
Qed.

Lemma run_calls_known step calls l :
  known l → triple I I (run_calls rt observer runID step calls l) known_round.
Proof.
  revert l. induction calls as [|call calls IH]; intros l Hl; simpl; [by apply triple_ret|].
  eapply triple_bind; [by apply run_call_known|].
  intros [l'|l' err] w [Hw Ho]; [by apply IH|done].
Qed.

Lemma run_step_known defs step l :
  known l → triple I I (run_step rt observer runID defs step l) known_round.
Proof.
  intros Hl. unfold run_step. eapply triple_bind; [apply read_keeps|]. intros started.
  eapply triple_bind; [apply (keeps_gets I)|]. intros n.
  destruct (complete n (messages l) defs) as [completion|err]; [|by apply triple_ret].
  eapply triple_bind; [apply read_keeps|]. intros ended_. simpl.
  apply observe_known; [done| |].
  { intros f s Hf. destruct (OnModelComplete observer) as [g|] eqn:Hg; [|done]. simpl in Hf.
    injection Hf as <-. by apply (g_model HG). }
  intros l1 Hl1 _. apply observe_known; [exact Hl1| |].
  { intros f s Hf. destruct (OnAssistant observer) as [g|] eqn:Hg; [|done]. simpl in Hf.
    injection Hf as <-. by apply (g_assistant HG). }
  intros l2 Hl2 _. destruct (Llm.ToolCalls _) as [|c cs]; [by apply triple_ret|].
  by apply (run_calls_known step (c :: cs)).
Qed.

Lemma run_steps_known defs n step l :
  known l → keeps I (run_steps rt observer runID defs n step l).
Proof.
  revert step l. induction n as [|n IH]; intros step l Hl; simpl; [by apply triple_ret|].
  eapply triple_bind; [by apply run_step_known|].
  intros [l'|l' err] w [Hw Ho]; [by apply IH|done].
Qed.

(** C5: a run acts only on workers that were listed in it: if every tool keeps
    [I] provided that the workers its arguments name are in [D], and listing
    returns only workers in [D], the whole run keeps [I], whatever workers the
    model asks for. *)
Theorem run_targets_discovered (msgs : list Llm.Message) (startStep : Z) (s : S) :
  keeps I (RunMessages rt observer runID msgs startStep s).
Proof.
  unfold RunMessages. destruct (client rt); simpl; [|apply keeps_ret].
  apply keeps_bind; [apply read_keeps|]. intros e. apply keeps_bind; [|intros r; apply keeps_ret].
  apply run_steps_known. intros id Hid. by apply elem_of_empty in Hid.
Qed.
End targets.

(** A model that asks for an unlisted worker after a listed one. *)
Section targets_witness.
#[local] Instance w_oracle : Oracle := λ n, mkReading (Z.of_nat n) (Z.of_nat n) iter_default.
#[local] Instance w_printable : Printable := λ _, true.
#[local] Instance w_json : JSON := {|
  unmarshal_worker_ids := λ raw, Ok (raw, []);
  unmarshal_job_ids := λ _, Ok ("", []);
  unmarshal_operation := λ _, Err (new_error "json");
  unmarshal_search := λ _, Err (new_error "json");
  unmarshal_map := λ _, []; marshal_map := λ _, ""; marshal_messages := λ _, "";
  unmarshal_messages := λ _, Ok [];
|}.
#[local] Instance w_llm : LLM := λ _ _ _,
  Ok (Llm.mkCompletion (Llm.mkMessage "assistant" "" ""
        [Llm.mkCall "c1" "list_workers" ""; Llm.mkCall "c2" "touch" "w1";
         Llm.mkCall "c3" "touch" "w2"]) (AgentMetrics.mkUsage 0 0 0)).

(** The repository is the set of the workers that were touched. *)
Definition w_list : @Tool (gset string) := λ _ _,
  mret (Ok (VMap [("workers", VMaps [[("id", VString "w1")]])])).
Definition w_touch : @Tool (gset string) := λ _ raw,
  _ ← modify (λ w, if decide (raw = "") then w else w <| repo := {[ raw ]} ∪ repo w |>);
  mret (Ok VNil).
Definition w_runtime : @Runtime (gset string) :=
  New true (list_to_map [("list_workers", w_list); ("touch", w_touch)]) 3 0.
Definition w_world : World.t (gset string) :=
  World.mk ∅ Hub.NewHub Policy.NewEngine Registry.NewRegistry
    TemplateEngine.NewEngine (AgentMetrics.new float_zero float_zero) [] 0.

Lemma run_targets_discovered_witness :
  let w := (RunMessages w_runtime no_observer "run" [] 1 tt w_world).2 in
  repo w ⊆ {[ "w1" ]} ∧ elements (repo w) = ["w1"].
Proof.
  split; [|vm_compute; reflexivity].
  set (I := λ w : World.t (gset string), repo w ⊆ {[ "w1" ]}).
  assert (guards w_runtime (@no_observer (gset string)) I (λ id, id = "w1")) as HG.
  { split; try done.
    - intros tool ctx raw [= <-]. apply triple_ret. intros w Hw. split; [done|].
      vm_compute. intros id [->|Hid]%elem_of_cons; [done|]. by apply elem_of_nil in Hid.
    - intros name tool ctx raw input Ht Hn [= <-] HD w Hw.
      assert (tool = w_touch) as ->.
      { apply elem_of_list_to_map_2 in Ht. rewrite !elem_of_cons, elem_of_nil in Ht.
        destruct Ht as [Ht|[Ht|[]]]; by simplify_eq. }
      unfold I, w_touch, target_ids in *. run_step. simpl in *. case_decide as He; [done|]. simpl.
      rewrite (HD raw) by (by left). set_solver. }
  pose proof (run_targets_discovered w_runtime no_observer "run" I (λ id, id = "w1") HG [] 1%Z tt
    w_world (empty_subseteq _)) as Hk.
  unfold I in Hk. by destruct (RunMessages _ _ _ _ _ _ w_world) as [[r|] w'].
Defined.
End targets_witness.

(** ** Durable runs *)
Section durable.
Context {R : Type} `{RR : Repository R} `{O : Oracle} `{P : Printable} `{J : JSON} `{C : LLM}.
Implicit Types (w : World.t R) (run : AgentRun.t).








(** A cancelled or completed run is not executed again: neither the model
    nor a tool is called, and nothing is stored. *)
Theorem finished_run_untouched (rt : @Runtime R) (runID : string) run w :
  GetAgentRun runID (repo w) = Ok run →
  AgentRun.Status run = AgentRunStatusCancelled ∨ AgentRun.Status run = AgentRunStatusCompleted →
  executePersistentRun rt runID w = (Some (run, [], None), w <| ticks := S (ticks w) |>).
Proof.
  intros Hrun Hst. unfold executePersistentRun. rewrite run_bind, run_query. cbn. rewrite Hrun.
  by rewrite decide_True.
Qed.
End durable.

(** A run of the in-memory server that is created and cancelled. *)
Section cancelled.
Import MemoryRepo.
#[local] Existing Instances w_oracle w_printable w_json w_llm.

Definition c_created : result AgentRun.t * World.t MemoryRepository :=
  match createPersistentRun "check the disks" "conv-000001" []
    (World.mk NewMemoryRepository Hub.NewHub Policy.NewEngine Registry.NewRegistry
       TemplateEngine.NewEngine (AgentMetrics.new float_zero float_zero) [] 0) with
  | (Some r, w) => (r, w)
  | (None, w) => (Err (new_error "panic"), w)
  end.
Definition c_id : string := match c_created.1 with Ok run => AgentRun.ID run | Err _ => "" end.
Definition c_cancelled : World.t MemoryRepository :=
  (handleAgentRunActions "POST" (runs_prefix +:+ c_id +:+ "/cancel") "" c_created.2).2.
Definition c_run : AgentRun.t :=
  match GetAgentRun c_id (repo c_cancelled) with Ok run => run | Err _ => AgentRun.zero end.

Lemma finished_run_untouched_witness :
  AgentRun.Status c_run = AgentRunStatusCancelled ∧
  executePersistentRun (New true ∅ 0 0) c_id c_cancelled =
    (Some (c_run, [], None), c_cancelled <| ticks := S (ticks c_cancelled) |>).
Proof.
  split; [vm_compute; reflexivity|].
  apply (finished_run_untouched (New true ∅ 0 0) c_id c_run c_cancelled).
  - vm_compute. reflexivity.
  - left. vm_compute. reflexivity.
Defined.

(** A failure before the first step of a resumed run sets its next step back
    to the first. *)
Example failed_resume_resets_step (run : AgentRun.t) (e : error) :
  AgentRun.NextStep (settle run Result_zero (Some e)) = 1%Z.
Proof. reflexivity. Qed.
End cancelled.

End AgentFacts.
