(* ===== verification/Dashboard.v ===== *)
(** * Pages: the dashboard, the metrics and the user interface

    [internal/interfaces/http]: [dashboard.go], [metrics.go] and [ui.go]. These
    handlers read the server and change nothing. They ignore the error of a
    listing and use the value returned next to it, which for a query that was
    interrupted is the part read so far: that value is an argument. *)
From S2P Require Import Prelude.
From S2P Require Import GoStrings.
From S2P Require Import Model.
From S2P Require Import Modules.
From S2P Require Import Repository.
From S2P Require Import World.

Import Repository World.

Module Dashboard.

Definition limitJobs (values : list Job.t) (max : nat) : list Job.t :=
  if (length values <=? max)%nat then values else take max values.
Definition limitAuditLogs (values : list AuditLog.t) (max : nat) : list AuditLog.t :=
  if (length values <=? max)%nat then values else take max values.

Record dashboardSummaryResponse := mkSummary {
  User_ : User.t; CurrentTime : time; Metrics : MetricsSnapshot.t;
  AgentMetrics_ : list (string * float64);
  RecentJobs : list Job.t; Workers : list Worker.t; PendingApprovals : list Job.t;
  RecentCases : list IncidentCase.t; RecentAuditLogs : list AuditLog.t;
  TemplatesTotal : Z; Templates : list CommandTemplate.t;
}.

(** What the listings return next to an error. *)
Record remains := mkRemains {
  jobs_read : list Job.t; workers_read : list Worker.t; pending_read : list Job.t;
  cases_read : list IncidentCase.t; logs_read : list AuditLog.t; metrics_read : MetricsSnapshot.t;
}.
Definition no_remains : remains := mkRemains [] [] [] [] [] MetricsSnapshot.zero.
Definition value_of {A} (res : result A) (read : A) : A := match res with Ok a => a | Err _ => read end.

Section handlers.
Context {R : Type} `{RR : Repository R} `{O : Oracle}.

Definition job_after (x y : Job.t) : bool := bool_decide (Job.CreatedAt y < Job.CreatedAt x)%Z.
Definition worker_after (x y : Worker.t) : bool := bool_decide (Worker.UpdatedAt y < Worker.UpdatedAt x)%Z.
Definition log_after (x y : AuditLog.t) : bool := bool_decide (AuditLog.CreatedAt y < AuditLog.CreatedAt x)%Z.

Definition handleDashboardSummary (user : User.t) (rem : remains) : M R dashboardSummaryResponse :=
  jobs ← query (λ e, ListJobs e (mkFilter "" "" "" 8));
  workers ← query ListWorkers;
  pending ← query ListPendingApprovalJobs;
  cases ← query (λ e, ListIncidentCases e (IncidentCaseFilter.mk "" "" "" [] 4));
  logs ← query (λ e, ListAuditLogs e "" "");
  metrics ← query GetMetrics;
  e ← read;
  agent ← gets (λ w, AgentMetrics.dashboard (agentMetrics w));
  templates ← gets templateEng;
  let jobs := sort_slice job_after (value_of jobs (jobs_read rem)) in
  let workers := sort_slice worker_after (value_of workers (workers_read rem)) in
  let pending := sort_slice job_after (value_of pending (pending_read rem)) in
  let logs := sort_slice log_after (value_of logs (logs_read rem)) in
  let listed := TemplateEngine.ListTemplates (order e) templates in
  mret (mkSummary user (now e) (value_of metrics (metrics_read rem)) agent
    (limitJobs jobs 8) workers (limitJobs pending 6) (value_of cases (cases_read rem))
    (limitAuditLogs logs 8) (Z.of_nat (length listed)) listed).

(** ** Metrics

    The page is a sequence of constant lines, written as they are, and of values
    with the format they are written in. *)
Inductive metric_value := MInt (z : Z) | MFloat (f : float64).
Inductive metric_line :=
  | Line (text : string)
  | Metricf (format : string) (value : metric_value).

(** The two comment lines of a metric and its value. *)
Definition metric (name help kind verb : string) (v : metric_value) : list metric_line :=
  [Line ("# HELP " +:+ name +:+ " " +:+ help); Line ("# TYPE " +:+ name +:+ " " +:+ kind);
   Metricf (name +:+ " " +:+ verb) v].
Definition ratio (n : float64) (count : Z) : float64 :=
  if (0 <? count)%Z then float_div n (float_of_Z count) else float_zero.

Definition snapshot_lines (s : MetricsSnapshot.t) : list metric_line :=
  metric "adp_jobs_total" "Total number of jobs created." "gauge" "%d" (MInt (MetricsSnapshot.JobsTotal s)) ++
  metric "adp_jobs_success_total" "Total number of successful jobs." "gauge" "%d"
    (MInt (MetricsSnapshot.JobsSuccess s)) ++
  metric "adp_jobs_failed_total" "Total number of failed jobs." "gauge" "%d"
    (MInt (MetricsSnapshot.JobsFailed s)) ++
  metric "adp_jobs_waiting_approval" "Total number of jobs waiting for approval." "gauge" "%d"
    (MInt (MetricsSnapshot.JobsWaitingApproval s)) ++
  metric "adp_workers_online" "Current number of online workers." "gauge" "%d"
    (MInt (MetricsSnapshot.WorkersOnline s)) ++
  metric "adp_incident_cases_total" "Total number of stored incident cases." "gauge" "%d"
    (MInt (MetricsSnapshot.IncidentCasesTotal s)) ++
  metric "adp_job_success_rate" "Success rate of completed jobs." "gauge" "%.6f"
    (MFloat (MetricsSnapshot.JobSuccessRate s)) ++
  metric "adp_job_failure_rate" "Failure rate of completed jobs." "gauge" "%.6f"
    (MFloat (MetricsSnapshot.JobFailureRate s)) ++
  metric "adp_job_schedule_latency_seconds_avg" "Average queue-to-start latency in seconds." "gauge" "%.6f"
    (MFloat (MetricsSnapshot.AvgScheduleLatencySeconds s)).

Definition agent_lines (m : AgentMetrics.t) : list metric_line :=
  metric "adp_agent_run_success_rate" "Successful controlled Agent runs divided by completed runs."
    "gauge" "%.6f" (MFloat (ratio (float_of_Z (AgentMetrics.successfulRuns m)) (AgentMetrics.runs m))) ++
  metric "adp_agent_tool_error_total" "Tool calls returning an error." "counter" "%d"
    (MInt (AgentMetrics.toolErrors m)) ++
  metric "adp_agent_policy_rejection_total" "Policy-enforced tool rejections." "counter" "%d"
    (MInt (AgentMetrics.policyRejections m)) ++
  metric "adp_agent_steps_avg" "Average LLM steps per Agent run." "gauge" "%.6f"
    (MFloat (ratio (float_of_Z (AgentMetrics.steps m)) (AgentMetrics.runs m))) ++
  metric "adp_agent_approval_wait_seconds_avg" "Average time a job waited for human approval." "gauge" "%.6f"
    (MFloat (ratio (duration_seconds (AgentMetrics.approvalWait m)) (AgentMetrics.approvals m))) ++
  metric "adp_agent_model_latency_seconds_avg" "Average model completion latency." "gauge" "%.6f"
    (MFloat (ratio (duration_seconds (AgentMetrics.modelLatency m)) (AgentMetrics.modelCalls m))) ++
  metric "adp_agent_tool_latency_seconds_avg" "Average local tool latency." "gauge" "%.6f"
    (MFloat (ratio (duration_seconds (AgentMetrics.toolLatency m)) (AgentMetrics.toolLatencyCalls m))) ++
  metric "adp_agent_tokens_total" "Model token usage reported by the provider." "counter" "%d"
    (MInt (AgentMetrics.totalTokens m)) ++
  metric "adp_agent_prompt_tokens_total" "Prompt token usage reported by the provider." "counter" "%d"
    (MInt (AgentMetrics.promptTokens m)) ++
  metric "adp_agent_completion_tokens_total" "Completion token usage reported by the provider." "counter" "%d"
    (MInt (AgentMetrics.completionTokens m)) ++
  metric "adp_agent_token_cost_usd_total" "Configured-price estimate of model token cost in USD." "counter" "%.8f"
    (MFloat (AgentMetrics.tokenCostUSD m)).

(** A worker counts as online for 30 seconds after a heartbeat. *)
Definition online_workers (now : time) (workers : list Worker.t) : Z :=
  Z.of_nat (length (filter (λ w, now - 30 * second < Worker.LastHeartbeatAt w)%Z workers)).

Definition handleMetrics (rem : remains) : M R (list metric_line) :=
  metrics ← query GetMetrics;
  workers ← query ListWorkers;
  e ← read;
  agent ← gets agentMetrics;
  let snapshot := value_of metrics (metrics_read rem) in
  let online := online_workers (now e) (value_of workers (workers_read rem)) in
  mret (snapshot_lines (snapshot <| MetricsSnapshot.WorkersOnline := online |>) ++ agent_lines agent).

End handlers.

(** ** Pages *)
Definition uiPageName (requestPath : string) : result string :=
  match (list_to_map [("/", "index.html"); ("/login", "login.html"); ("/users", "users.html");
           ("/workers", "workers.html"); ("/jobs", "jobs.html"); ("/tasks", "tasks.html");
           ("/configs", "configs.html")] : gmap string string) !! requestPath with
  | Some filename => Ok filename
  | None => Err (new_error "page not found")
  end.

(** ** What the dashboard shows *)
Lemma limitJobs_take values max : limitJobs values max = take max values.
Proof. unfold limitJobs. destruct (Nat.leb_spec (length values) max); [by rewrite take_ge|done]. Qed.
Lemma limitAuditLogs_take values max : limitAuditLogs values max = take max values.
Proof. unfold limitAuditLogs. destruct (Nat.leb_spec (length values) max); [by rewrite take_ge|done]. Qed.

End Dashboard.
