(* ===== verification/Mux.v ===== *)
(** * Routing ([net/http.ServeMux])

    The multiplexer of the standard library that the server registers its
    routes with: patterns with a method, literal segments, wildcards and a
    trailing slash, of which the most specific one that matches is chosen. *)
From Stdlib Require Import Ascii.
From S2P Require Import Prelude.
From S2P Require Import GoStrings.
From S2P Require Import ServerWorkers.

Module Mux.

(** ** Paths *)
Definition slash : ascii := "/"%char.

Definition hex_value (c : ascii) : option Z :=
  let b := byte_of c in
  if in_range 48 57 b then Some (b - 48)%Z
  else if in_range 97 102 b then Some (b - 87)%Z
  else if in_range 65 70 b then Some (b - 55)%Z
  else None.

(** [url.PathUnescape]: [None] is an error. *)
Fixpoint path_unescape (s : string) : option string :=
  match s with
  | EmptyString => Some ""
  | String c rest =>
      if decide (c = "%"%char) then
        match rest with
        | String h (String l rest') =>
            match hex_value h, hex_value l with
            | Some h, Some l => String (of_byte (16 * h + l)) <$> path_unescape rest'
            | _, _ => None
            end
        | _ => None
        end
      else String c <$> path_unescape rest
  end.
Definition unescape (s : string) : string := default s (path_unescape s).

(** [cleanPath]: a trailing slash is kept. *)
Definition cleanPath (p : string) : string :=
  if decide (p = "") then "/"
  else
    let p := if has_prefix p "/" then p else "/" +:+ p in
    let np := Filepath.Clean p in
    if has_suffix p "/" && negb (bool_decide (np = "/")) then np +:+ "/" else np.

(** [firstSegment], again and again: the unescaped segments of a path; a slash
    at the end is a segment of its own. *)
Definition segments (path : string) : list string :=
  let parts := split (drop_bytes 1 path) "/" in
  match reverse parts with
  | "" :: before => (unescape <$> reverse before) ++ ["/"]
  | _ => unescape <$> parts
  end.

(** ** Patterns *)
Inductive segment := Lit (s : string) | Wild (name : string) | Multi.
#[global] Instance segment_eq_dec : EqDecision segment.
Proof. solve_decision. Defined.

Definition is_multi (s : segment) : bool := match s with Multi => true | _ => false end.

(** A pattern ends in a multi wildcard if it ends in a slash. *)
Definition parse_segment (s : string) : segment :=
  if has_prefix s "{" && has_suffix s "}" then Wild (trim_suffix (trim_prefix s "{") "}")
  else Lit (unescape s).
Definition parse_path (path : string) : list segment :=
  let parts := split (drop_bytes 1 path) "/" in
  match reverse parts with
  | "" :: before => (parse_segment <$> reverse before) ++ [Multi]
  | _ => parse_segment <$> parts
  end.
(** ["METHOD /path"]. *)
Definition parse_pattern (pattern : string) : string * list segment :=
  match cut pattern " " with
  | Some (method, path) => (method, parse_path path)
  | None => ("", parse_path pattern)
  end.

Section mux.
Context {H : Type}.

Record route := mkRoute { route_method : string; route_path : list segment; handler : H }.
Definition mux := list route.
Definition HandleFunc (pattern : string) (h : H) : route :=
  let '(method, path) := parse_pattern pattern in mkRoute method path h.

(** ** Matching

    The entries carry the segments that are still to be matched. A literal is
    preferred over a wildcard, and a wildcard over the rest of the path. *)
Definition entry : Type := list segment * route.
Definition take_lit (s : string) (e : entry) : option entry :=
  match e with
  | (Lit s' :: ps, r) => if decide (s = s') then Some (ps, r) else None
  | _ => None
  end.
Definition take_wild (e : entry) : option entry :=
  match e with (Wild _ :: ps, r) => Some (ps, r) | _ => None end.
Definition take_multi (e : entry) : option route :=
  match e with (Multi :: _, r) => Some r | _ => None end.
Definition take_end (e : entry) : option route :=
  match e with ([], r) => Some r | _ => None end.

Fixpoint match_path (path : list string) (es : list entry) : option route :=
  match path with
  | [] => head (omap take_end es)
  | s :: rest =>
      match match_path rest (omap (take_lit s) es) with
      | Some r => Some r
      | None =>
          match (if decide (s = "/") then None else match_path rest (omap take_wild es)) with
          | Some r => Some r
          | None => head (omap take_multi es)
          end
      end
  end.

Definition entries (m : mux) (method : string) : list entry :=
  (λ r, (route_path r, r)) <$> filter (λ r, route_method r = method) m.

(** A pattern without a method matches every method, and GET matches HEAD. *)
Definition match_route (m : mux) (method path : string) : option route :=
  let find method := match_path (segments path) (entries m method) in
  match find method with
  | Some r => Some r
  | None =>
      match (if decide (method = "HEAD") then find "GET" else None) with
      | Some r => Some r
      | None => find ""
      end
  end.

(** [strings.Count(path, "/")]. *)
Fixpoint count_slashes (s : string) : nat :=
  match s with
  | EmptyString => 0
  | String c s => (if decide (c = slash) then 1 else 0) + count_slashes s
  end.
Definition exactMatch (r : option route) (path : string) : bool :=
  match r with
  | None => false
  | Some r =>
      if negb (is_multi (List.last (route_path r) (Lit ""))) then true
      else if negb (has_suffix path "/") then false
      else bool_decide (length (route_path r) = count_slashes path)
  end.

Inductive found := Found (r : route) | Redirected | MethodNotAllowed | NotFound.

(** The methods that have a route for the path, or for it with a slash: they
    tell the two errors apart. *)
Definition matching_methods (m : mux) (path : string) : list string :=
  let matched path method := is_Some (match_path (segments path) (entries m method)) in
  filter (λ method, matched path method ∨ (has_suffix path "/" = false ∧ matched (path +:+ "/") method))
    (route_method <$> m).

(** [findHandler], of the escaped path of a request. *)
Definition findHandler (m : mux) (method escapedPath : string) : found :=
  let connect := bool_decide (method = "CONNECT") in
  let path := if connect then escapedPath else cleanPath escapedPath in
  let n := match_route m method path in
  if negb (exactMatch n path) && negb (has_suffix path "/")
     && exactMatch (match_route m method (path +:+ "/")) (path +:+ "/") then Redirected
  else if negb connect && negb (bool_decide (path = escapedPath)) then Redirected
  else match n with
  | Some r => Found r
  | None => if decide (matching_methods m path = []) then NotFound else MethodNotAllowed
  end.

End mux.
Arguments route : clear implicits.
Arguments mux : clear implicits.
Arguments entry : clear implicits.
Arguments found : clear implicits.

End Mux.

(** ** What the multiplexer finds *)
Module MuxFacts.
Import Mux.

Inductive matches : list segment → list string → Prop :=
  | matches_end : matches [] []
  | matches_lit s ps rest : matches ps rest → matches (Lit s :: ps) (s :: rest)
  | matches_wild n s ps rest : s ≠ "/" → matches ps rest → matches (Wild n :: ps) (s :: rest)
  | matches_multi s ps rest : matches (Multi :: ps) (s :: rest).

(** At the first segment where two patterns differ, the more specific one has a
    literal, or a wildcard where the other has the rest of the path. *)
Inductive more_specific : list segment → list segment → Prop :=
  | specific_lit_wild s n ps qs : more_specific (Lit s :: ps) (Wild n :: qs)
  | specific_lit_multi s ps qs : more_specific (Lit s :: ps) (Multi :: qs)
  | specific_wild_multi n ps qs : more_specific (Wild n :: ps) (Multi :: qs)
  | specific_lit s ps qs : more_specific ps qs → more_specific (Lit s :: ps) (Lit s :: qs)
  | specific_wild n n' ps qs : more_specific ps qs → more_specific (Wild n :: ps) (Wild n' :: qs).

Section facts.
Context {H : Type}.
Implicit Types (es : list (entry H)) (r : route H).

Lemma elem_of_take_lit s ps r es :
  (ps, r) ∈ omap (take_lit s) es ↔ (Lit s :: ps, r) ∈ es.
Proof.
  rewrite list_elem_of_omap. split.
  - intros ([[|[s'|n|] qs] r'] & Hin & Heq); simpl in Heq; try done.
    case_decide; [|done]. by simplify_eq.
  - intros Hin. eexists. split; [exact Hin|]. simpl. by rewrite decide_True.
Qed.

Lemma elem_of_take_wild ps r es :
  (ps, r) ∈ omap take_wild es ↔ ∃ n, (Wild n :: ps, r) ∈ es.
Proof.
  rewrite list_elem_of_omap. split.
  - intros ([[|[s'|n|] qs] r'] & Hin & Heq); simplify_eq/=. by exists n.
  - intros [n Hin]. eexists. by split; [exact Hin|].
Qed.

Lemma elem_of_take_multi r es : r ∈ omap take_multi es ↔ ∃ ps, (Multi :: ps, r) ∈ es.
Proof.
  rewrite list_elem_of_omap. split.
  - intros ([[|[s'|n|] qs] r'] & Hin & Heq); simplify_eq/=. by exists qs.
  - intros [ps Hin]. eexists. by split; [exact Hin|].
Qed.

Lemma elem_of_take_end r es : r ∈ omap take_end es ↔ ([], r) ∈ es.
Proof.
  rewrite list_elem_of_omap. split.
  - intros ([[|p qs] r'] & Hin & Heq); simplify_eq/=. done.
  - intros Hin. eexists. by split; [exact Hin|].
Qed.

(** A pattern that matches, and that no other match is more specific than. *)
Definition best (path : list string) es (o : option (route H)) : Prop :=
  match o with
  | Some r => ∃ ps, (ps, r) ∈ es ∧ matches ps path ∧
                ∀ qs r', (qs, r') ∈ es → matches qs path → ¬ more_specific qs ps
  | None => ∀ ps r, (ps, r) ∈ es → ¬ matches ps path
  end.

Lemma head_best {A} (l : list A) : match head l with Some x => x ∈ l | None => l = [] end.
Proof. destruct l; [done|]. by left. Qed.

Lemma match_path_best path es : best path es (match_path path es).
Proof.
  revert es. induction path as [|s rest IH]; intros es; simpl.
  { pose proof (head_best (omap take_end es)) as Hh. destruct (head _) as [r|]; simpl.
    - apply elem_of_take_end in Hh. exists []. split_and!; [done|constructor|]. intros qs r' _ _ Hs. inversion Hs.
    - intros ps r Hin Hm. inversion Hm; subst. apply elem_of_take_end in Hin. rewrite Hh in Hin. by apply not_elem_of_nil in Hin. }
  pose proof (IH (omap (take_lit s) es)) as Hl. destruct (match_path rest (omap (take_lit s) es)) as [r|].
  { destruct Hl as (ps & Hin & Hm & Hb). exists (Lit s :: ps). split_and!; [by apply elem_of_take_lit|by constructor|].
    intros qs r' Hq Hmq Hs. inversion Hs as [| | |? qs' ? Hs' |]; subst.
    inversion Hmq; subst. by eapply Hb; [apply elem_of_take_lit| |]. }
  assert (∀ ps r, (Lit s :: ps, r) ∈ es → ¬ matches ps rest) as Hnolit.
  { intros ps r Hin. eapply Hl. by apply elem_of_take_lit. }
  pose proof (IH (omap take_wild es)) as Hw.
  destruct (if decide (s = "/") then None else match_path rest (omap take_wild es)) as [r|] eqn:Hwild.
  { destruct (decide (s = "/")) as [|Hs]; [done|]. rewrite Hwild in Hw. destruct Hw as (ps & Hin & Hm & Hb).
    apply elem_of_take_wild in Hin as [n Hin]. exists (Wild n :: ps). split_and!; [done|by constructor|].
    intros qs r' Hq Hmq Hspec. inversion Hspec; subst; inversion Hmq; subst; [by eapply Hnolit|].
    eapply Hb; [apply elem_of_take_wild; by eexists|done|done]. }
  assert (s ≠ "/" → ∀ n ps r, (Wild n :: ps, r) ∈ es → ¬ matches ps rest) as Hnowild.
  { intros Hs n ps r Hin. destruct (decide (s = "/")); [done|]. rewrite Hwild in Hw. eapply Hw.
    apply elem_of_take_wild. by exists n. }
  pose proof (head_best (omap take_multi es)) as Hh. destruct (head _) as [r|]; simpl.
  - apply elem_of_take_multi in Hh as [ps Hin]. exists (Multi :: ps). split_and!; [done|constructor|].
    intros qs r' Hq Hmq Hspec. inversion Hspec; subst; inversion Hmq; subst; [by eapply Hnolit|by eapply Hnowild].
  - intros ps r Hin Hm. inversion Hm; subst; [by eapply Hnolit|by eapply Hnowild|].
    assert (r ∈ omap take_multi es) as Hr by (apply elem_of_take_multi; by eexists).
    rewrite Hh in Hr. by apply not_elem_of_nil in Hr.
Qed.

Lemma elem_of_entries ps r (m : mux H) method :
  (ps, r) ∈ entries m method ↔ r ∈ m ∧ route_method r = method ∧ ps = route_path r.
Proof.
  unfold entries. rewrite list_elem_of_fmap. setoid_rewrite list_elem_of_filter. naive_solver.
Qed.

(** What is found is registered, for the method of the request or, for HEAD, for
    GET. *)
Lemma findHandler_found (m : mux H) method path r :
  findHandler m method path = Found r →
  r ∈ m ∧ (route_method r = method ∨ (method = "HEAD" ∧ route_method r = "GET") ∨ route_method r = "").
Proof.
  unfold findHandler. set (p := if bool_decide (method = "CONNECT") then _ else _).
  destruct (_ && exactMatch _ _); [done|]. destruct (_ && negb _); [done|].
  destruct (match_route m method p) as [r'|] eqn:Hm; [|by destruct (decide _)].
  intros [= ->]. unfold match_route in Hm.
  assert (∀ method', match_path (segments p) (entries m method') = Some r → r ∈ m ∧ route_method r = method') as Hin.
  { intros method' Hr. pose proof (match_path_best (segments p) (entries m method')) as Hb. rewrite Hr in Hb.
    destruct Hb as (ps & Hps & _). apply elem_of_entries in Hps. naive_solver. }
  destruct (match_path _ (entries m method)) eqn:H1; [naive_solver|].
  destruct (if decide (method = "HEAD") then _ else _) eqn:H2; [|naive_solver].
  case_decide; [|done]. simplify_eq. naive_solver.
Qed.
End facts.
End MuxFacts.
