(* ===== verification/Routes.v ===== *)
(** * The HTTP interface of the server ([internal/interfaces/http/server.go])

    The route table, the wrappers that authenticate a request before its
    handler, and the response of the server to a request. *)
From S2P Require Import Prelude.
From S2P Require Import GoStrings.
From S2P Require Import Fmt.
From S2P Require Import Model.
From S2P Require Import Modules.
From S2P Require Import Repository.
From S2P Require Import World.
From S2P Require Import Server.
From S2P Require Import ServerWorkers.
From S2P Require Import Auth.
From S2P Require Import Config.
From S2P Require Import AgentTools.
From S2P Require Import AgentRuntime.
From S2P Require Import AgentRuns.
From S2P Require Import Dashboard.
From S2P Require Import Mux.

Import Repository World Server.Server Workers Fmt.Fmt.

Module Routes.
Import Mux.

(** [Config] of [server.go]. *)
Record Config := mkConfig {
  Addr : string; AdminUsername : string; AdminPassword : string; AuthSecret : string;
  WorkerSharedToken : string; LLMBaseURL : string; LLMAPIKey : string; LLMModel : string;
  AgentMaxSteps : Z; AgentInputTokenCostUSDPer1K : float64; AgentOutputTokenCostUSDPer1K : float64;
  ManagedConfigDir : string; ManagedConfigSyncMode : string;
}.
Definition HasLLM (c : Config) : bool := negb (bool_decide (LLMBaseURL c = "")).

(** What the wrapper of a route asks for. *)
Inductive guard := Public | UserAuth | AdminAuth | WorkerAuth.
#[global] Instance guard_eq_dec : EqDecision guard.
Proof. solve_decision. Defined.

(** The handlers the routes name. *)
Inductive endpoint :=
  | DashboardPage | StaticAssets | Healthz | Metrics | Login
  | ListUsers | CreateUser | DeleteUser | ChangePassword
  | DashboardSummary
  | CreateJob | ListJobs | JobActions | CreateJobFromYAML
  | CreateWorker | ListWorkers | WorkerUserAction | RegisterWorker | WorkerActions
  | AgentRun | GetAgentRun
  | ListConversations | CreateConversation | ConversationActions
  | ListPendingApprovalJobs | ApproveJob
  | ListAuditLogs | ListIncidentCases | SuggestIncidentCases
  | ManagedConfigActions | AddWorkerLog.
#[global] Instance endpoint_eq_dec : EqDecision endpoint.
Proof. solve_decision. Defined.

Definition routes : list (string * guard * endpoint) := [
  ("GET /", Public, DashboardPage);
  ("GET /login", Public, DashboardPage);
  ("GET /users", Public, DashboardPage);
  ("GET /workers", Public, DashboardPage);
  ("GET /jobs", Public, DashboardPage);
  ("GET /tasks", Public, DashboardPage);
  ("GET /configs", Public, DashboardPage);
  ("GET /static/", Public, StaticAssets);
  ("GET /healthz", Public, Healthz);
  ("GET /metrics", Public, Metrics);
  ("POST /api/v1/auth/login", Public, Login);
  ("GET /api/v1/users", UserAuth, ListUsers);
  ("POST /api/v1/users", UserAuth, CreateUser);
  ("DELETE /api/v1/users/", UserAuth, DeleteUser);
  ("PUT /api/v1/users/", UserAuth, ChangePassword);
  ("GET /api/v1/dashboard/summary", UserAuth, DashboardSummary);
  ("POST /api/v1/jobs", UserAuth, CreateJob);
  ("GET /api/v1/jobs", UserAuth, ListJobs);
  ("GET /api/v1/jobs/", UserAuth, JobActions);
  ("POST /api/v1/jobs/", UserAuth, JobActions);
  ("DELETE /api/v1/jobs/", UserAuth, JobActions);
  ("POST /api/v1/jobs/yaml", UserAuth, CreateJobFromYAML);
  ("POST /api/v1/workers", UserAuth, CreateWorker);
  ("GET /api/v1/workers", UserAuth, ListWorkers);
  ("POST /api/v1/workers/{id}/stop", UserAuth, WorkerUserAction);
  ("POST /api/v1/workers/{id}/restart", UserAuth, WorkerUserAction);
  ("DELETE /api/v1/workers/{id}", UserAuth, WorkerUserAction);
  ("POST /api/v1/workers/register", WorkerAuth, RegisterWorker);
  ("POST /api/v1/workers/", WorkerAuth, WorkerActions);
  ("PUT /api/v1/workers/", WorkerAuth, WorkerActions);
  ("POST /api/v1/agent/runs", UserAuth, AgentRun);
  ("GET /api/v1/agent/runs/", UserAuth, GetAgentRun);
  ("POST /api/v1/agent/runs/", UserAuth, GetAgentRun);
  ("GET /api/v1/conversations", UserAuth, ListConversations);
  ("POST /api/v1/conversations", UserAuth, CreateConversation);
  ("GET /api/v1/conversations/", UserAuth, ConversationActions);
  ("DELETE /api/v1/conversations/", UserAuth, ConversationActions);
  ("GET /api/v1/approvals/jobs", UserAuth, ListPendingApprovalJobs);
  ("POST /api/v1/approvals/jobs/", UserAuth, ApproveJob);
  ("GET /api/v1/audit/logs", UserAuth, ListAuditLogs);
  ("GET /api/v1/cases", UserAuth, ListIncidentCases);
  ("GET /api/v1/cases/suggestions", UserAuth, SuggestIncidentCases);
  ("GET /api/v1/configs/", AdminAuth, ManagedConfigActions);
  ("POST /api/v1/configs/", AdminAuth, ManagedConfigActions);
  ("PUT /api/v1/configs/", AdminAuth, ManagedConfigActions);
  ("DELETE /api/v1/configs/", AdminAuth, ManagedConfigActions);
  ("POST /api/v1/job-logs", WorkerAuth, AddWorkerLog)
].

Definition server_mux : mux (guard * endpoint) :=
  (λ '(pattern, g, ep), HandleFunc pattern (g, ep)) <$> routes.

(** ** Requests *)
Record request := mkRequest {
  Method : string;
  EscapedPath : string;               (* as the multiplexer reads it *)
  Path : string;                      (* [URL.Path], as the handlers read it *)
  Query : string → string;
  Authorization : string;
  XWorkerToken : string;
  RequestBody : string;
}.

(** [decodeJSON] at the types of the handlers; the heartbeat and the title of a
    conversation ignore the error. *)
Class RequestJSON := {
  decode_login : string → result (string * string);
  decode_create_user : string → result Users.createUserRequest;
  decode_password : string → result string;
  decode_create_job : string → result createJobRequest;
  decode_dispatch : string → result (list string);
  decode_yaml : string → result string;
  decode_worker : string → result registerWorkerRequest;
  decode_heartbeat : string → option HostInfo.t;
  decode_complete : string → result completeJobRequest;
  decode_host_info : string → result HostInfo.t;
  decode_agent_run : string → result AgentRuns.agentRunRequest;
  decode_title : string → string;
  decode_approve : string → result approveJobRequest;
  decode_config : string → result Configs.managedConfigRequest;
  decode_worker_log : string → result WorkerLog.t;
}.

(** What the handlers read of the host, and the reading of a request: the
    clock, the salt of a hash, the order of a map, what an interrupted query
    leaves. *)
Record Host := mkHost {
  deploy_env : string; executable : result string; walk : list Configs.walk_entry;
}.
Record Moment := mkMoment {
  now : time; salt : nat; iter : MapIter; remains : Dashboard.remains;
}.

(** ** Replies *)
Inductive reply :=
  | Json (r : Response)
  | RunStream (run : Model.AgentRun.t) (final : any_map)
  | Page (filename : string)
  | PageNotFound
  | Asset (path : string)                        (* [http.FileServerFS] of the embedded files *)
  | Summary (d : Dashboard.dashboardSummaryResponse)
  | MetricsText (l : list Dashboard.metric_line)
  | MuxRedirect | MuxMethodNotAllowed | MuxNotFound.

Section serve.
Context {R : Type} `{RR : Repository R} `{O : Oracle} `{TT : TextTemplate} `{Y : YAML}
  `{P : Printable} `{J : JSON} `{CY : ConfigYAML} `{C : LLM} `{D : RequestJSON}.
Context {U : Type} `{US : UserStore U} `{B : Bcrypt} `{CJ : ClaimsJSON}.
Variables (cfg : Config) (host : Host) (rt : @AgentRuntime.Runtime R).
Implicit Types s : Auth.Service U.

Definition worker_cfg : Workers.Config := Workers.mkConfig (Addr cfg) (WorkerSharedToken cfg).

Definition json (m : M R Response) : M R reply := r ← m; mret (Json r).
(** A handler that does not touch the users. *)
Definition plain s (m : M R reply) : Auth.Service U * M R reply := (s, m).
Definition users (at_ : Moment) (req : Users.request) (user : User.t) s
    : Auth.Service U * M R reply :=
  let '(s, m) := Users.handle req user s in (s, json m).

Definition handleDashboardPage (path : string) : reply :=
  match Dashboard.uiPageName path with Ok filename => Page filename | Err _ => PageNotFound end.

(** The handler of a route, for the user that the wrapper found. *)
Definition handle (at_ : Moment) (ep : endpoint) (user : User.t) (req : request) s
    : Auth.Service U * M R reply :=
  let method := Method req in
  let path := Path req in
  let body := RequestBody req in
  match ep with
  | DashboardPage => plain s (mret (handleDashboardPage path))
  | StaticAssets => plain s (mret (Asset (trim_prefix path "/static/")))
  | Healthz => plain s (mret (Json (writeJSON StatusOK (status_map "ok"))))
  | Metrics => plain s (l ← Dashboard.handleMetrics (remains at_); mret (MetricsText l))
  | Login => plain s (mret (Json (Users.handleLogin (now at_) (decode_login body) s)))
  | ListUsers => users at_ (Users.ListUsersRequest (iter at_)) user s
  | CreateUser => users at_ (Users.CreateUserRequest (salt at_) (decode_create_user body)) user s
  | DeleteUser => users at_ (Users.DeleteUserRequest path) user s
  | ChangePassword => users at_ (Users.ChangePasswordRequest (salt at_) path (decode_password body)) user s
  | DashboardSummary =>
      plain s (d ← Dashboard.handleDashboardSummary user (remains at_); mret (Summary d))
  | CreateJob => plain s (json (handleCreateJob user (decode_create_job body)))
  | ListJobs => plain s (json (handleListJobs (Query req)))
  | JobActions => plain s (json (handleJobActions user method path (decode_dispatch body)))
  | CreateJobFromYAML => plain s (json (handleCreateJobFromYAML user (decode_yaml body)))
  | CreateWorker =>
      plain s (json (handleCreateWorker worker_cfg (deploy_env host) (executable host) user
                       (decode_worker body)))
  | ListWorkers => plain s (json handleListWorkers)
  | WorkerUserAction => plain s (json (handleWorkerUserAction user method path (Query req "force")))
  | RegisterWorker => plain s (json (handleRegisterWorker (decode_worker body)))
  | WorkerActions =>
      plain s (json (handleWorkerActions user method path (Query req "force")
        (mkBody (decode_heartbeat body) (decode_complete body) (decode_host_info body))))
  | AgentRun =>
      plain s (r ← AgentRuns.handleAgentRun rt user (decode_agent_run body);
               mret (match r with inl resp => Json resp | inr (run, final) => RunStream run final end))
  | GetAgentRun => plain s (json (AgentRuns.handleGetAgentRun method path (Query req "after")))
  | ListConversations => plain s (json handleListConversations)
  | CreateConversation => plain s (json (handleCreateConversation user (decode_title body)))
  | ConversationActions => plain s (json (handleConversationActions user method path))
  | ListPendingApprovalJobs => plain s (json handleListPendingApprovalJobs)
  | ApproveJob => plain s (json (handleApproveJob user path (decode_approve body)))
  | ListAuditLogs => plain s (json (handleListAuditLogs (Query req)))
  | ListIncidentCases => plain s (json (handleListIncidentCases (Query req)))
  | SuggestIncidentCases => plain s (json (handleSuggestIncidentCases (Query req)))
  | ManagedConfigActions =>
      plain s (json (Configs.handleManagedConfigActions method path (decode_config body)
        (ManagedConfigDir cfg) (bool_decide (Query req "enforce" = "true")) (walk host)))
  | AddWorkerLog => plain s (json (handleAddWorkerLog (decode_worker_log body)))
  end.

(** [currentUser] without a wrapper that sets it. *)
Definition no_user : User.t := User.mk "" "".

Definition refuse s (resp : Response) : Auth.Service U * M R reply := (s, mret (Json resp)).
Definition invalid_token : Response :=
  writeError StatusUnauthorized (new_error "invalid worker token").

Definition guarded (at_ : Moment) (g : guard) (ep : endpoint) (req : request) s
    : Auth.Service U * M R reply :=
  match g with
  | Public => handle at_ ep no_user req s
  | UserAuth => Users.withUserAuth s (now at_) (Authorization req) (refuse s)
                  (λ user, handle at_ ep user req s)
  | AdminAuth => Users.withAdminAuth s (now at_) (Authorization req) (refuse s)
                   (λ user, handle at_ ep user req s)
  | WorkerAuth =>
      if decide (XWorkerToken req = "" ∨ XWorkerToken req ≠ Workers.WorkerSharedToken worker_cfg)
      then refuse s invalid_token
      else handle at_ ep no_user req s
  end.

(** [Handler.ServeHTTP]. *)
Definition serve (at_ : Moment) (req : request) s : Auth.Service U * M R reply :=
  match findHandler server_mux (Method req) (EscapedPath req) with
  | Found r => let '(g, ep) := Mux.handler r in guarded at_ g ep req s
  | Redirected => plain s (mret MuxRedirect)
  | MethodNotAllowed => plain s (mret MuxMethodNotAllowed)
  | NotFound => plain s (mret MuxNotFound)
  end.

End serve.
End Routes.
