(* ===== verification/RoutesFacts.v ===== *)
(** * Access control of the HTTP interface

    What a request can change, by what it is authenticated with: nothing
    without a token; the policy and the modules by an administrator only. *)
From S2P Require Import Prelude.
From S2P Require Import GoStrings.
From S2P Require Import Fmt.
From S2P Require Import Model.
From S2P Require Import Policy.
From S2P Require Import Modules.
From S2P Require Import Repository.
From S2P Require Import World.
From S2P Require Import Server.
From S2P Require Import ServerWorkers.
From S2P Require Import Auth.
From S2P Require Import Config.
From S2P Require Import AgentTools.
From S2P Require Import AgentRuntime.
From S2P Require Import AgentRuns.
From S2P Require Import Dashboard.
From S2P Require Import Mux.
From S2P Require Import Routes.

Import Repository World Server.Server Workers AgentTools.AgentTools AgentRuntime.AgentRuntime
  AgentRuns.AgentRuns Fmt.Fmt.

Module RoutesFacts.
Import Mux MuxFacts Routes.

(** ** What governs the control plane *)
Section governance.
Context {R : Type} `{RR : Repository R} `{O : Oracle} `{TT : TextTemplate} `{Y : YAML}
  `{P : Printable} `{J : JSON} `{C : LLM}.
Implicit Types w : World.t R.

Definition governance w : Policy.Engine * Registry.t * TemplateEngine.t :=
  (policyEng w, moduleReg w, templateEng w).
Variable g : Policy.Engine * Registry.t * TemplateEngine.t.
Definition governed w : Prop := governance w = g.

Lemma governed_call {A} (op : Reading → Op R A) : keeps governed (call op).
Proof. intros w Hw. rewrite World.run_call. by destruct (op _ _). Qed.
Lemma governed_query {A} (f : Reading → R → result A) : keeps governed (query f).
Proof. by intros w Hw. Qed.
Lemma governed_read : keeps governed read.
Proof. by intros w Hw. Qed.
Lemma governed_on_hub {A} (f : Hub.Hub.t → option (A * Hub.Hub.t)) : keeps governed (on_hub f).
Proof. intros w Hw. rewrite run_on_hub. by destruct (f _) as [[? ?]|]. Qed.
Lemma governed_modify f : (∀ w, governance (f w) = governance w) → keeps governed (modify (R:=R) f).
Proof. intros Hf w Hw. rewrite run_modify. simpl. unfold governed. by rewrite Hf. Qed.
Lemma governed_spawn x : keeps governed (spawn x).
Proof. by apply governed_modify. Qed.
Lemma governed_lift_panic {A} (o : option A) : keeps governed (lift_panic o).
Proof. destruct o; [apply keeps_ret|apply keeps_panic]. Qed.
End governance.

Create HintDb governed discriminated.
#[local] Hint Resolve keeps_ret keeps_gets keeps_panic governed_call governed_query governed_read
  governed_on_hub governed_spawn governed_lift_panic : governed.
#[local] Hint Extern 2 (keeps (governed _) (modify _)) => apply governed_modify; reflexivity : governed.
Ltac governed_step :=
  first [solve [eauto with governed] | progress intros | apply keeps_bind | case_match].
Ltac governed_auto := repeat governed_step.

(** ** The handlers *)
Section handlers.
Context {R : Type} `{RR : Repository R} `{O : Oracle} `{TT : TextTemplate} `{Y : YAML}
  `{P : Printable} `{J : JSON} `{C : LLM}.
Variable g : Policy.Engine * Registry.t * TemplateEngine.t.
Abbreviation I := (governed (R:=R) g).

Lemma governed_audit a b c d e f : keeps I (recordAudit a b c d e f).
Proof. unfold recordAudit. governed_auto. Qed.
Lemma governed_dispatch j w : keeps I (dispatchJobToWorker j w).
Proof. unfold dispatchJobToWorker. governed_auto. Qed.
Lemma governed_loop {A B} (f : A → M R (Response + B)) l acc :
  (∀ x, keeps I (f x)) → keeps I (loop f l acc).
Proof. intros Hf. revert acc. induction l; intros acc; simpl; governed_auto. Qed.
Lemma governed_collect {A B} (f : A → M R B) l : (∀ x, keeps I (f x)) → keeps I (collect f l).
Proof. intros Hf. induction l; simpl; governed_auto. Qed.
#[local] Hint Resolve governed_audit governed_dispatch : governed.
#[local] Hint Extern 3 (keeps _ (loop _ _ _)) => apply governed_loop : governed.

Lemma governed_users req actor {U} `{US : UserStore U} `{B : Bcrypt} (s : Auth.Service U) :
  keeps I (Users.handle (R:=R) req actor s).2.
Proof.
  destruct req; simpl; unfold Users.handleListUsers, Users.handleCreateUser, Users.handleDeleteUser,
    Users.handleChangePassword, Users.answer; repeat (case_match; simpl); governed_auto.
Qed.

Lemma governed_push wid j : keeps I (PushJob wid j).
Proof. apply governed_on_hub. Qed.
Lemma governed_assign_copy req job wid : keeps I (assign_copy req job wid).
Proof. unfold assign_copy. governed_auto. Qed.
Lemma governed_dispatch_one base target : keeps I (dispatch_one base target).
Proof. unfold dispatch_one. governed_auto. Qed.
Lemma governed_create_copy spec task tmpl cmd wid : keeps I (create_copy spec task tmpl cmd wid).
Proof. unfold create_copy. governed_auto. Qed.
#[local] Hint Resolve governed_push governed_assign_copy governed_dispatch_one governed_create_copy : governed.
Lemma governed_create_task spec ids task : keeps I (create_task spec ids task).
Proof. unfold create_task. governed_auto. Qed.
Lemma governed_audit_yaml_jobs user spec jobs : keeps I (audit_yaml_jobs user spec jobs).
Proof. induction jobs; simpl; governed_auto. Qed.
Lemma governed_resolve_workers spec : keeps I (resolve_workers spec).
Proof. unfold resolve_workers. governed_auto. Qed.
Lemma governed_auto_dispatch approved job : keeps I (auto_dispatch approved job).
Proof. unfold auto_dispatch. governed_auto. Qed.
Lemma governed_cancel_waiting_run job : keeps I (cancel_waiting_run job).
Proof. unfold cancel_waiting_run. governed_auto. Qed.
#[local] Hint Resolve governed_create_task governed_audit_yaml_jobs governed_resolve_workers
  governed_auto_dispatch governed_cancel_waiting_run : governed.

Lemma governed_job_actions user method path req : keeps I (handleJobActions user method path req).
Proof. unfold handleJobActions, handleGetJob, handleDispatchJob, handleDeleteJob. governed_auto. Qed.
Lemma governed_create_job user req : keeps I (handleCreateJob user req).
Proof. unfold handleCreateJob. governed_auto. Qed.
Lemma governed_yaml user req : keeps I (handleCreateJobFromYAML user req).
Proof. unfold handleCreateJobFromYAML. governed_auto. Qed.
Lemma governed_approve user path req : keeps I (handleApproveJob user path req).
Proof. unfold handleApproveJob. governed_auto. Qed.
Lemma governed_conversation user method path : keeps I (handleConversationActions user method path).
Proof. unfold handleConversationActions. governed_auto. Qed.
Lemma governed_create_worker cfg env exe user req : keeps I (handleCreateWorker cfg env exe user req).
Proof. unfold handleCreateWorker, deploy_remote. governed_auto. Qed.
Lemma governed_worker_actions user method path force body :
  keeps I (handleWorkerActions user method path force body).
Proof.
  unfold handleWorkerActions, handleWorkerHeartbeat, handleWorkerPoll, handleWorkerCompleteJob,
    handleStopWorker, handleRestartWorker, handleUpdateHostInfo, PushCommand. governed_auto.
Qed.
Lemma governed_worker_user user method path force : keeps I (handleWorkerUserAction user method path force).
Proof.
  unfold handleWorkerUserAction, handleStopWorker, handleRestartWorker, handleDeleteWorker, PushCommand.
  governed_auto.
Qed.
#[local] Hint Resolve governed_job_actions governed_create_job governed_yaml governed_approve
  governed_conversation governed_create_worker governed_worker_actions governed_worker_user : governed.

(** ** The agent *)
Lemma governed_worker_facts wid : keeps I (worker_facts wid).
Proof. unfold worker_facts. governed_auto. Qed.
Lemma governed_job_result jid : keeps I (job_result jid).
Proof. unfold job_result. governed_auto. Qed.
Lemma governed_check_worker op wid : keeps I (check_worker op wid).
Proof. unfold check_worker. governed_auto. Qed.
Lemma governed_operation_job ctx op wid : keeps I (create_operation_job ctx op wid).
Proof. unfold create_operation_job. governed_auto. Qed.
Lemma governed_validate raw : keeps I (validate_operation raw).
Proof. unfold validate_operation. governed_auto. Qed.
#[local] Hint Resolve governed_worker_facts governed_job_result governed_check_worker
  governed_operation_job governed_validate : governed.
#[local] Hint Extern 3 (keeps _ (collect _ _)) => apply governed_collect : governed.

Lemma governed_tools name (tool : @Tool R) ctx raw :
  agentTools !! name = Some tool → keeps I (tool ctx raw).
Proof.
  intros Ht. apply elem_of_list_to_map_2 in Ht. rewrite !elem_of_cons, elem_of_nil in Ht.
  destruct Ht as [Ht|[Ht|[Ht|[Ht|[Ht|[Ht|[]]]]]]]; injection Ht as _ ->.
  - unfold searchIncidentCases. governed_auto.
  - unfold getWorkerFacts. governed_auto.
  - unfold listWorkers. governed_auto.
  - unfold listCapabilities. governed_auto.
  - unfold createModuleOperation. governed_auto.
  - unfold getJobResult. governed_auto.
Qed.

(** The loop of the agent, with tools and an observer that keep the
    invariant. *)
Section loop.
Context {S : Type} (rt : @Runtime R) (observer : @Observer R S) (runID : string).
Hypothesis tools_kept : ∀ name tool ctx raw, tools rt !! name = Some tool → keeps I (tool ctx raw).
Hypothesis on_model_kept : ∀ f, OnModelComplete observer = Some f → ∀ a b c s, keeps I (f a b c s).
Hypothesis on_assistant_kept : ∀ f, OnAssistant observer = Some f → ∀ a b s, keeps I (f a b s).
Hypothesis on_call_kept : ∀ f, OnToolCall observer = Some f → ∀ a b s, keeps I (f a b s).
Hypothesis on_result_kept : ∀ f, OnToolResult observer = Some f → ∀ a b c s, keeps I (f a b c s).
Hypothesis on_complete_kept : ∀ f, OnToolComplete observer = Some f → ∀ a b c d s, keeps I (f a b c d s).

Lemma governed_observe (f : option (S → M R (option error * S))) l (k : loop_state S → M R (outcome S)) :
  (∀ f' s, f = Some f' → keeps I (f' s)) → (∀ l, keeps I (k l)) → keeps I (observe f l k).
Proof.
  intros Hf Hk. unfold observe. destruct f as [f'|]; [|apply Hk].
  apply keeps_bind; [by apply Hf|]. governed_auto.
Qed.

Lemma governed_run_call step call l : keeps I (run_call rt observer runID step call l).
Proof.
  unfold run_call. destruct (authorize_call _ _ _) as [tool|] eqn:Ha; [|governed_auto].
  assert (∃ name, tools rt !! name = Some tool) as [name Ht].
  { unfold authorize_call in Ha. exists (Llm.Name call). destruct (tools rt !! Llm.Name call); [|done].
    case_decide; [congruence|]. destruct (validateDiscoveredWorkers _ _); congruence. }
  apply governed_observe.
  { intros f' s Hf. destruct (OnToolCall observer) as [f|] eqn:Ho; [|done]. injection Hf as <-. by apply on_call_kept. }
  intros l'. apply keeps_bind; [governed_auto|]. intros t1.
  apply keeps_bind; [by eapply tools_kept|]. intros out. apply keeps_bind; [governed_auto|]. intros t2.
  apply governed_observe.
  { intros f' s Hf. destruct (OnToolComplete observer) as [f|] eqn:Ho; [|done]. injection Hf as <-. by apply on_complete_kept. }
  intros l2. unfold finish_call. apply governed_observe.
  { intros f' s Hf. destruct (OnToolResult observer) as [f|] eqn:Ho; [|done]. injection Hf as <-. by apply on_result_kept. }
  governed_auto.
Qed.

Lemma governed_run_calls step calls l : keeps I (run_calls rt observer runID step calls l).
Proof.
  revert l. induction calls as [|c calls IH]; intros l; simpl; [governed_auto|].
  apply keeps_bind; [apply governed_run_call|]. intros [l'|l' err]; [apply IH|governed_auto].
Qed.

Lemma governed_run_step definitions step l : keeps I (run_step rt observer runID definitions step l).
Proof.
  unfold run_step. apply keeps_bind; [governed_auto|]. intros t1. apply keeps_bind; [governed_auto|]. intros n.
  destruct (complete n _ _) as [k|]; [|governed_auto]. apply keeps_bind; [governed_auto|]. intros t2.
  apply governed_observe.
  { intros f' s Hf. destruct (OnModelComplete observer) as [f|] eqn:Ho; [|done]. injection Hf as <-. by apply on_model_kept. }
  intros l'. apply governed_observe.
  { intros f' s Hf. destruct (OnAssistant observer) as [f|] eqn:Ho; [|done]. injection Hf as <-. by apply on_assistant_kept. }
  intros l2. destruct (Llm.ToolCalls _); [governed_auto|apply governed_run_calls].
Qed.

Lemma governed_run_messages msgs start s : keeps I (RunMessages rt observer runID msgs start s).
Proof.
  assert (∀ definitions n step l, keeps I (run_steps rt observer runID definitions n step l)) as Hsteps.
  { intros definitions n. induction n as [|n IH]; intros step l; simpl; [governed_auto|].
    apply keeps_bind; [apply governed_run_step|]. intros [l'|l' err]; [apply IH|governed_auto]. }
  unfold RunMessages. governed_auto.
Qed.
End loop.

Lemma governed_execute (rt : @Runtime R) id :
  tools rt = agentTools → keeps I (executePersistentRun rt id).
Proof.
  intros Ht. unfold executePersistentRun. apply keeps_bind; [governed_auto|]. intros [run|]; [|governed_auto].
  case_decide; [governed_auto|]. destruct (unmarshal_messages _); [|governed_auto].
  apply keeps_bind; [governed_auto|]. intros [|]; [|governed_auto]. apply keeps_bind.
  - apply governed_run_messages; try (intros f [= <-]; intros).
    + intros name tool ctx raw. rewrite Ht. apply governed_tools.
    + unfold on_model, set_metrics. governed_auto.
    + unfold on_assistant, persist. governed_auto.
    + unfold on_tool_call. governed_auto.
    + unfold on_tool_result, persist. governed_auto.
    + unfold on_tool_complete, set_metrics. governed_auto.
  - intros [[res runErr] s]. unfold persist, set_metrics. governed_auto.
Qed.

Lemma governed_agent_run (rt : @Runtime R) user req :
  tools rt = agentTools → keeps I (handleAgentRun rt user req).
Proof.
  intros Ht. pose proof (λ id, governed_execute rt id Ht) as He.
  assert (∀ convID events, keeps I (store_events convID events)) as Hs.
  { intros convID events. induction events; simpl; unfold store_message; governed_auto. }
  unfold handleAgentRun, handleAgentRunStream, run_agent, open_conversation, createPersistentRun,
    store_answer, audit_run, store_message. governed_auto.
Qed.

Lemma governed_get_run method path after : keeps I (handleGetAgentRun method path after).
Proof. unfold handleGetAgentRun, handleAgentRunActions, handleAgentEventsSSE. governed_auto. Qed.
#[local] Hint Resolve governed_agent_run governed_get_run governed_users : governed.

(** ** A request *)
Context `{CY : ConfigYAML} `{D : RequestJSON} {U : Type} `{US : UserStore U} `{B : Bcrypt} `{CJ : ClaimsJSON}.
Variables (cfg : Config) (host : Host) (rt : @Runtime R).

Lemma governed_users_json at_ req user (s : Auth.Service U) : keeps I (users (R:=R) at_ req user s).2.
Proof.
  unfold users, json. pose proof (governed_users req user s) as Hk.
  destruct (Users.handle req user s). simpl in *. governed_auto.
Qed.
#[local] Hint Resolve governed_users_json : governed.

Lemma governed_handle at_ ep user req (s : Auth.Service U) :
  tools rt = agentTools → ep ≠ ManagedConfigActions →
  keeps I (handle cfg host rt at_ ep user req s).2.
Proof.
  intros Ht Hep. unfold handle, json. destruct ep; try done; try solve [governed_auto]; simpl.
  all: unfold Dashboard.handleMetrics, Dashboard.handleDashboardSummary, handleListJobs, handleListWorkers,
    handleRegisterWorker, handleListConversations, handleCreateConversation, handleListPendingApprovalJobs,
    handleListAuditLogs, handleListIncidentCases, handleSuggestIncidentCases, handleAddWorkerLog.
  all: governed_auto.
Qed.

End handlers.

(** ** The route table *)
Definition public_endpoints : list endpoint := [DashboardPage; StaticAssets; Healthz; Metrics; Login].
Definition user_endpoints : list endpoint := [ListUsers; CreateUser; DeleteUser; ChangePassword].
Definition admitted_by (g : guard) (ep : endpoint) : Prop :=
  (g = Public → ep ∈ public_endpoints) ∧ (ep = ManagedConfigActions → g = AdminAuth) ∧
  (ep ∈ user_endpoints → g = UserAuth).
#[local] Instance admitted_by_dec g ep : Decision (admitted_by g ep).
Proof. unfold admitted_by. apply _. Defined.

Lemma routes_guarded : Forall (λ '(_, g, ep), admitted_by g ep) routes.
Proof. repeat (constructor; [by apply (bool_decide_unpack _); vm_compute|]). constructor. Qed.

Lemma found_guarded method path r :
  findHandler server_mux method path = Found r → admitted_by (Mux.handler r).1 (Mux.handler r).2.
Proof.
  intros [Hr _]%findHandler_found. unfold server_mux in Hr.
  apply list_elem_of_fmap in Hr as ([[pattern g] ep] & -> & Hin).
  pose proof routes_guarded as Hall. rewrite Forall_forall in Hall. specialize (Hall _ Hin).
  unfold HandleFunc. by destruct (parse_pattern pattern).
Qed.

(** ** Requests and what they are authenticated with *)
Section requests.
Context {R : Type} `{RR : Repository R} `{O : Oracle} `{TT : TextTemplate} `{Y : YAML}
  `{P : Printable} `{J : JSON} `{C : LLM} `{CY : ConfigYAML} `{D : RequestJSON}.
Context {U : Type} `{US : UserStore U} `{B : Bcrypt} `{CJ : ClaimsJSON}.
Variables (cfg : Config) (host : Host) (rt : @Runtime R).
Implicit Types (s : Auth.Service U) (w : World.t R).

(** The user whose valid token the request carries. *)
Definition user_of (at_ : Moment) s (req : request) : option User.t :=
  let token := bearerToken (Authorization req) in
  if decide (token = "") then None
  else match Auth.ParseToken s (now at_) token with Ok user => Some user | Err _ => None end.

(** The request carries the token of the workers, which is set. *)
Definition from_worker (req : request) : Prop :=
  WorkerSharedToken cfg ≠ "" ∧ XWorkerToken req = WorkerSharedToken cfg.

Definition admission (at_ : Moment) s (req : request) (g : guard) (user : User.t) : Prop :=
  match g with
  | Public => True
  | UserAuth => user_of at_ s req = Some user
  | AdminAuth => user_of at_ s req = Some user ∧ User.Role user = "admin"
  | WorkerAuth => from_worker req
  end.

Lemma guarded_spec at_ g ep req s :
  (∃ resp, guarded cfg host rt at_ g ep req s = refuse s resp) ∨
  (∃ user, guarded cfg host rt at_ g ep req s = handle cfg host rt at_ ep user req s ∧
           admission at_ s req g user).
Proof.
  unfold guarded, admission, user_of, Users.withAdminAuth, Users.withUserAuth.
  destruct g; [by right; exists no_user| | |].
  - case_decide; [by left; eexists|]. destruct (Auth.ParseToken _ _ _) as [user|]; [|by left; eexists].
    right. by exists user.
  - case_decide; [by left; eexists|]. destruct (Auth.ParseToken _ _ _) as [user|]; [|by left; eexists].
    case_decide as Hr; [by left; eexists|]. right. exists user. split; [done|]. split; [done|].
    destruct (decide (User.Role user = "admin")); [done|]. by destruct Hr.
  - case_decide as Hw; [by left; eexists|]. right. exists no_user. split; [done|]. unfold from_worker.
    simpl in Hw. destruct (decide (XWorkerToken req = WorkerSharedToken cfg)) as [Heq|]; [|naive_solver].
    split; [|done]. rewrite <- Heq. naive_solver.
Qed.

Lemma serve_spec at_ req s :
  (∃ rep, serve cfg host rt at_ req s = (s, mret rep)) ∨
  (∃ g ep user, serve cfg host rt at_ req s = handle cfg host rt at_ ep user req s ∧
     admission at_ s req g user ∧ admitted_by g ep).
Proof.
  unfold serve, plain. destruct (findHandler _ _ _) as [r| | |] eqn:Hf; try (left; by eexists).
  apply found_guarded in Hf. destruct (Mux.handler r) as [g ep].
  destruct (guarded_spec at_ g ep req s) as [[resp Hresp]|[user [Hh Ha]]]; [left|right].
  - unfold refuse in Hresp. by eexists.
  - by exists g, ep, user.
Qed.

(** Computations that read the server and change nothing but the number of
    readings. *)
Definition only_reads {A} (m : M R A) : Prop := ∀ w, ∃ a n, m w = (Some a, w <| ticks := n |>).

Lemma only_reads_ret {A} (a : A) : only_reads (mret a).
Proof. intros w. exists a, (ticks w). by destruct w. Qed.
Lemma only_reads_query {A} (f : Reading → R → result A) : only_reads (query f).
Proof. intros w. by eexists _, _. Qed.
Lemma only_reads_read : only_reads read.
Proof. intros w. by eexists _, _. Qed.
Lemma only_reads_gets {A} (f : World.t R → A) : only_reads (gets f).
Proof. intros w. exists (f w), (ticks w). by destruct w. Qed.
Lemma only_reads_bind {A A'} (m : M R A) (k : A → M R A') :
  only_reads m → (∀ a, only_reads (k a)) → only_reads (m ≫= k).
Proof.
  intros Hm Hk w. destruct (Hm w) as (a & n & Heq). destruct (Hk a (w <| ticks := n |>)) as (b & n' & Heq').
  exists b, n'. rewrite run_bind. by rewrite Heq, Heq'.
Qed.

Lemma only_reads_metrics rem : only_reads (Dashboard.handleMetrics rem).
Proof.
  unfold Dashboard.handleMetrics.
  repeat (apply only_reads_bind; [eauto using only_reads_query, only_reads_read, only_reads_gets|intros ?]).
  apply only_reads_ret.
Qed.

(** C29: a request with neither a valid user token nor the token of the workers
    changes nothing: not the users, and of the rest of the server only the
    number of readings of the clock. *)
Theorem unauthenticated_harmless (at_ : Moment) (req : request) s w :
  user_of at_ s req = None → ¬ from_worker req →
  (serve cfg host rt at_ req s).1 = s ∧
  ∃ rep n, (serve cfg host rt at_ req s).2 w = (Some rep, w <| ticks := n |>).
Proof.
  intros Hu Hw. destruct (serve_spec at_ req s) as [[rep ->]|(g & ep & user & -> & Ha & Hg & _)].
  { split; [done|]. apply only_reads_ret. }
  destruct g; simpl in Ha; [|congruence|destruct Ha; congruence|done].
  specialize (Hg eq_refl). unfold public_endpoints in Hg. rewrite !elem_of_cons, elem_of_nil in Hg.
  destruct Hg as [->|[->|[->|[->|[->|[]]]]]]; (split; [done|]); try apply only_reads_ret.
  apply only_reads_bind; [apply only_reads_metrics|]. intros l. apply only_reads_ret.
Qed.

(** C30: the users change only by a request with a valid user token; the policy,
    the modules and the templates only by a request with the token of an
    administrator, whatever the handlers and the agent do. *)
Theorem privileged_changes (at_ : Moment) (req : request) s w :
  tools rt = agentTools →
  let served := serve cfg host rt at_ req s in
  (served.1 ≠ s → is_Some (user_of at_ s req)) ∧
  (governance (served.2 w).2 ≠ governance w →
   ∃ user, user_of at_ s req = Some user ∧ User.Role user = "admin").
Proof.
  intros Ht. simpl. destruct (serve_spec at_ req s) as [[rep ->]|(g & ep & user & -> & Ha & _ & Hc & Hu)]; [done|].
  split.
  - intros Hs. destruct (decide (ep ∈ user_endpoints)) as [Hin|Hn].
    + specialize (Hu Hin). subst g. by eexists.
    + destruct Hs. unfold user_endpoints in Hn. by destruct ep; try done; destruct Hn; set_solver.
  - intros Hgov. destruct (decide (ep = ManagedConfigActions)) as [->|Hep].
    + specialize (Hc eq_refl). subst g. by exists user.
    + destruct Hgov. pose proof (governed_handle (governance w) cfg host rt at_ ep user req s Ht Hep w eq_refl) as Hk.
      by destruct ((handle cfg host rt at_ ep user req s).2 w) as [[rep|] w'].
Qed.
End requests.

End RoutesFacts.
