(* ===== verification/HttpGate.v ===== *)
(** * The approval gate at the HTTP interface

    Requests as they arrive, routed and authenticated, interleaved with the
    streams of workers and the tool calls of agents. *)
From S2P Require Import Prelude.
From S2P Require Import GoStrings.
From S2P Require Import Fmt.
From S2P Require Import Model.
From S2P Require Import Policy.
From S2P Require Import Modules.
From S2P Require Import Repository.
From S2P Require Import MemoryRepo.
From S2P Require Import MemoryRepoFacts.
From S2P Require Import Hub.
From S2P Require Import World.
From S2P Require Import Spec.
From S2P Require Import StreamService.
From S2P Require Import Server.
From S2P Require Import ServerFacts.
From S2P Require Import ServerWorkers.
From S2P Require Import Auth.
From S2P Require Import AuthFacts.
From S2P Require Import Config.
From S2P Require Import ConfigFacts.
From S2P Require Import AgentTools.
From S2P Require Import AgentToolsFacts.
From S2P Require Import AgentRuntime.
From S2P Require Import AgentRuns.
From S2P Require Import System.
From S2P Require Import Dashboard.
From S2P Require Import Mux.
From S2P Require Import Routes.
From S2P Require Import RoutesFacts.

Import Repository World Spec.Refine Server.Server Workers AgentTools.AgentTools AgentRuntime.AgentRuntime
  AgentRuns.AgentRuns Fmt.Fmt.

Module HttpGate.
Import Mux Routes RoutesFacts.RoutesFacts.

Section gate.
Context {R : Type} `{L : JobLaws R} `{O : Oracle} `{TT : TextTemplate} `{Y : YAML}
  `{P : Printable} `{J : JSON} `{C : LLM} `{CY : ConfigYAML} `{D : RequestJSON}.
Context {U : Type} `{US : UserStore U} `{B : Bcrypt} `{CJ : ClaimsJSON}.
Variables (cfg : Config) (host : Host) (rt : @Runtime R).
Implicit Types (s : Auth.Service U) (w : World.t R).

Import ServerFacts.ServerFacts WorkersFacts AgentToolsFacts.AgentToolsFacts System.System.

(** A request to run an agent is not one step: its tool calls and bookkeeping
    are steps of [System] of their own. *)
Inductive http_step : Auth.Service U * World.t R → Auth.Service U * World.t R → Prop :=
  | http_request at_ req s w :
      (∀ r, findHandler server_mux (Method req) (EscapedPath req) = Found r → (Mux.handler r).2 ≠ AgentRun) →
      http_step (s, w) ((serve cfg host rt at_ req s).1, ((serve cfg host rt at_ req s).2 w).2)
  | http_other s w w' : System.System.step fresh_call w w' → http_step (s, w) (s, w').

Lemma neutral_json (m : M R Response) : neutral m → neutral (json m).
Proof. intros Hm. apply neutral_bind; [done|]. intros. apply neutral_ret. Qed.

Lemma handler_json (m : M R Response) :
  System.System.handler _ m → neutral (json m) ∨ ∃ m', starts_jobs _ m' ∧ json m = json m'.
Proof. intros [Hm|Hm]%handler_neutral; [left; by apply neutral_json|right; by exists m]. Qed.

(** A request is neutral, or creates or starts jobs. *)
Lemma handle_neutral at_ ep user req s :
  ep ≠ AgentRun →
  neutral (handle cfg host rt at_ ep user req s).2 ∨
  ∃ m, starts_jobs _ m ∧ (handle cfg host rt at_ ep user req s).2 = json m.
Proof.
  intros Hep.
  assert (∀ ureq, neutral (users (R:=R) at_ ureq user s).2) as Hu.
  { intros ureq. unfold users. pose proof (neutral_users_handle (R:=R) ureq user s) as Hk.
    destruct (Users.handle _ _ _). by apply neutral_json. }
  destruct ep; try done; cbn [handle plain snd]; try (left; apply neutral_ret); try (left; apply Hu);
    try (apply handler_json; by constructor); left.
  - unfold Dashboard.handleMetrics. neutral_auto.
  - unfold Dashboard.handleDashboardSummary. neutral_auto.
  - apply neutral_json, neutral_handleRegisterWorker.
  - apply neutral_json, neutral_handleWorkerActions.
Qed.

Lemma serve_neutral at_ req s :
  (∀ r, findHandler server_mux (Method req) (EscapedPath req) = Found r → (Mux.handler r).2 ≠ AgentRun) →
  neutral (serve cfg host rt at_ req s).2 ∨
  ∃ m, starts_jobs _ m ∧ (serve cfg host rt at_ req s).2 = json m.
Proof.
  intros Hr. unfold serve, plain.
  destruct (findHandler _ _ _) as [r| | |]; try (left; apply neutral_ret).
  specialize (Hr r eq_refl). destruct (Mux.handler r) as [g ep]. simpl in Hr.
  destruct (guarded_spec cfg host rt at_ g ep req s) as [[resp ->]|(user & -> & _)];
    [left; apply neutral_ret|by apply handle_neutral].
Qed.

Lemma keeps_serve base at_ req s :
  (∀ r, findHandler server_mux (Method req) (EscapedPath req) = Found r → (Mux.handler r).2 ≠ AgentRun) →
  keeps (safe base) (serve cfg host rt at_ req s).2.
Proof.
  intros [Hm|(m & Hm & ->)]%(serve_neutral at_ req s); [by apply neutral_keeps|].
  apply keeps_bind; [|intros; apply keeps_ret].
  destruct Hm; auto using keeps_handleCreateJob, keeps_handleJobActions,
    keeps_handleCreateJobFromYAML, keeps_handleApproveJob.
Qed.

Lemma http_step_safe base x y : safe base x.2 → http_step x y → safe base y.2.
Proof.
  intros Hx. destruct 1 as [at_ req s w Hr|s w w' Hs]; simpl in *; [|by eapply step_safe].
  pose proof (keeps_serve base at_ req s Hr w Hx) as Hk.
  by destruct ((serve cfg host rt at_ req s).2 w) as [[rep|] w'].
Qed.

Lemma http_steps_gate s w s' w' :
  Spec.inv (abs w) → rtc http_step (s, w) (s', w') →
  (∀ k j, jobs_of (repo w') !! k = Some j → Job.ID j = k ∧ gate j) ∧ Hub.wf (hub w').
Proof.
  intros Hi Hs.
  assert (∀ x y, safe (abs w) x.2 → rtc http_step x y → safe (abs w) y.2) as Hsafe.
  { intros x y Hx Hxy. revert Hx. induction Hxy; eauto using http_step_safe. }
  destruct (safe_inv _ w' (Hsafe (s, w) (s', w') (safe_self w Hi) Hs)) as [Hg Hh].
  split; [|done]. intros k j Hjk. destruct (Hg k j Hjk) as (? & ? & _). done.
Qed.

(** Whatever requests arrive at a server that started on an empty
    repository, from whomever, and whatever its workers and agents do, a job
    that requires approval and is ready or running was approved. *)
Theorem http_gate (r : R) (s s' : Auth.Service U) (w : World.t R) :
  jobs_of r = ∅ → keys_of r = ∅ → rtc http_step (s, init r) (s', w) →
  (∀ k j, jobs_of (repo w) !! k = Some j → Job.ID j = k ∧ gate j) ∧ Hub.wf (hub w).
Proof. intros Hj Hk. by apply http_steps_gate, init_inv. Qed.
End gate.


(** ** A server with requests *)
Section demo.
Import MemoryRepo.MemoryRepo MemoryRepoFacts.MemoryRepoFacts AgentToolsFacts.AgentToolsFacts System.System.
Import Auth.Auth AuthFacts.AuthFacts.
#[local] Existing Instances demo_oracle demo_template demo_yaml demo_config_yaml demo_printable demo_json.
#[local] Existing Instances demo_bcrypt demo_claims demo_store.
#[local] Instance demo_llm : LLM := λ _ _ _, Err (new_error "no model").
Definition no_body {A} : string → result A := λ _, Err (new_error "EOF").
#[local] Instance demo_requests : RequestJSON := {|
  decode_login := no_body; decode_create_user := no_body; decode_password := no_body;
  decode_create_job := λ _, Ok demo_job; decode_dispatch := no_body; decode_yaml := no_body;
  decode_worker := no_body; decode_heartbeat := λ _, None; decode_complete := no_body;
  decode_host_info := no_body; decode_agent_run := no_body; decode_title := λ _, "";
  decode_approve := no_body; decode_config := no_body; decode_worker_log := no_body;
|}.

Definition demo_cfg : Config :=
  Routes.mkConfig ":8080" "root" "rootpw" "0123456789abcdef" "worker-token" "" "" "" 20 float_zero float_zero "" "".
Definition demo_host : Host := mkHost "" (Err (new_error "executable")) [].
Definition demo_rt : @Runtime MemoryRepository := New false agentTools 20 0.
Definition demo_moment : Moment := mkMoment 0 1 iter_default Dashboard.no_remains.
Definition token_of (user : User.t) : string := (generateToken demo_service 0 user).1.
Definition demo_request (method path authorization worker_token : string) : request :=
  Routes.mkRequest method path path (λ _, "") authorization worker_token "".
Definition as_user (user : User.t) (method path : string) : request :=
  demo_request method path ("Bearer " +:+ token_of user) "".
Definition demo_serve (req : request) (w : World.t MemoryRepository) : option reply * World.t MemoryRepository :=
  (serve demo_cfg demo_host demo_rt demo_moment req demo_service).2 w.
Definition reply_code (r : option reply) : option Z :=
  match r with Some (Json resp) => Some (code resp) | _ => None end.
Definition demo_root : User.t := User.mk "root" "admin".

(** The routes of the server tell these requests apart. *)
Example demo_replies :
  reply_code (demo_serve (as_user demo_alice "POST" "/api/v1/jobs") demo_connected).1 = Some 201%Z ∧
  reply_code (demo_serve (demo_request "POST" "/api/v1/jobs" "" "worker-token") demo_connected).1 = Some 401%Z ∧
  reply_code (demo_serve (as_user demo_alice "PUT" "/api/v1/configs/policies") demo_connected).1 = Some 403%Z ∧
  (demo_serve (demo_request "PUT" "/api/v1/jobs" "" "") demo_connected).1 = Some MuxMethodNotAllowed ∧
  (demo_serve (demo_request "GET" "/api/v1/configs" "" "") demo_connected).1 = Some MuxRedirect ∧
  (demo_serve (demo_request "GET" "/api/v1/nothing" "" "") demo_connected).1 = Some PageNotFound ∧
  (demo_serve (demo_request "GET" "/workers" "" "") demo_connected).1 = Some (Page "workers.html").
Proof. vm_compute. done. Qed.

(** The route that stops a worker asks for a user token. With a slash behind it
    the same path is a route of the workers, and their token stops any
    worker. *)
Definition stops (path : string) : option Z * list Hub.ServerEnvelope :=
  let '(rep, w) := demo_serve (demo_request "POST" path "" "worker-token") demo_connected in
  (reply_code rep, Hub.messages_of (hub w) 0).
Example worker_token_stops_worker :
  stops "/api/v1/workers/worker-000001/stop" = (Some 401%Z, []) ∧
  stops "/api/v1/workers/worker-000001/stop/" =
    (Some 202%Z, [Hub.ServerEnvelope_Command "stop"]).
Proof. vm_compute. done. Qed.

(** *** Witnesses *)
Lemma unauthenticated_harmless_witness :
  let req := demo_request "POST" "/api/v1/jobs" "" "guess" in
  ∃ rep n, demo_serve req demo_connected = (Some rep, demo_connected <| ticks := n |>).
Proof.
  intros req. apply (unauthenticated_harmless demo_cfg demo_host demo_rt demo_moment req demo_service demo_connected).
  - reflexivity.
  - intros [_ H]. discriminate H.
Defined.

Definition demo_sync : request := as_user demo_root "GET" "/api/v1/configs/sync".
Lemma privileged_changes_witness :
  ∃ user, user_of demo_moment demo_service demo_sync = Some user ∧ User.Role user = "admin".
Proof.
  apply (privileged_changes demo_cfg demo_host demo_rt demo_moment demo_sync demo_service demo_configured).
  - reflexivity.
  - intros H. apply (f_equal (λ g, size g.1.2)) in H. revert H. vm_compute. discriminate.
Defined.

Definition demo_served : Auth.Service unit * M MemoryRepository reply :=
  serve demo_cfg demo_host demo_rt demo_moment (as_user demo_alice "POST" "/api/v1/jobs") demo_service.
Definition demo_created : World.t MemoryRepository := (demo_served.2 demo_connected).2.
Lemma demo_served_step : http_step demo_cfg demo_host demo_rt (demo_service, demo_connected) (demo_served.1, demo_created).
Proof.
  unfold demo_created, demo_served. apply http_request.
  intros r Hr. assert (findHandler server_mux "POST" "/api/v1/jobs" = Found (HandleFunc "POST /api/v1/jobs" (UserAuth, CreateJob)))
    as Hf by (vm_compute; reflexivity).
  cbn [Method EscapedPath as_user demo_request] in Hr. rewrite Hf in Hr. injection Hr as <-. discriminate.
Qed.

Lemma http_gate_witness :
  size (jobs_of (repo demo_created)) = 1 ∧
  (∀ k j, jobs_of (repo demo_created) !! k = Some j → Job.ID j = k ∧ gate j) ∧ Hub.wf (hub demo_created).
Proof.
  split; [vm_compute; reflexivity|].
  apply (http_gate demo_cfg demo_host demo_rt NewMemoryRepository demo_service demo_served.1 demo_created);
    [reflexivity..|].
  apply (rtc_l _ _ (demo_service, demo_connected)); [apply http_other, step_handler, (h_open_stream "" None)|].
  apply rtc_once, demo_served_step.
Defined.
End demo.

End HttpGate.
