(* ===== verification/Database.v ===== *)
(** * The database ([internal/infrastructure/db/schema.sql], [database/sql])

    The tables of the schema as maps from primary keys to rows, and the
    statements that read and write them. PostgreSQL itself is a parameter: how
    it rounds times, what it keeps of JSON, how it collates texts and matches
    patterns, and which statements it refuses. A statement is atomic, and one
    that returns an error has had no effect: that the connection is lost after
    the commit and before the answer is not represented. *)
From S2P Require Import Prelude.
From S2P Require Import GoStrings.
From S2P Require Import Model.
From S2P Require Import Repository.

Import Repository.

(** ** Tables *)
Module Database.

Record user_row := mkUser {
  username : string; password : string; role : string; created_at : time; updated_at : time;
}.
#[global] Instance user_row_eta : Eta user_row := λ u,
  mkUser (username u) (password u) (role u) (created_at u) (updated_at u).

(** [jobs_by_key] is the unique index of the idempotency keys that are not
    empty; the sequences number worker logs, messages and events. *)
Record t := mk {
  users : gmap string user_row;
  workers : gmap string Worker.t;
  jobs : gmap string Job.t;
  jobs_by_key : gmap string string;
  diagnosis_plans : gmap string DiagnosisPlan.t;
  audit_logs : gmap string AuditLog.t;
  incident_cases : gmap string IncidentCase.t;
  job_yamls : gmap string JobYAML.t;
  worker_logs : gmap Z WorkerLog.t;
  managed_configs : gmap (string * string) ManagedConfig.t;
  conversations : gmap string Conversation.t;
  conversation_messages : gmap Z ConversationMessage.t;
  agent_runs : gmap string AgentRun.t;
  agent_events : gmap Z AgentEvent.t;
  agent_tool_calls : gmap string AgentToolCall.t;
  worker_logs_seq : Z;
  messages_seq : Z;
  events_seq : Z;
}.
#[global] Instance t_eta : Eta t := λ d,
  mk (users d) (workers d) (jobs d) (jobs_by_key d) (diagnosis_plans d) (audit_logs d)
    (incident_cases d) (job_yamls d) (worker_logs d) (managed_configs d) (conversations d)
    (conversation_messages d) (agent_runs d) (agent_events d) (agent_tool_calls d)
    (worker_logs_seq d) (messages_seq d) (events_seq d).
Definition empty : t := mk ∅ ∅ ∅ ∅ ∅ ∅ ∅ ∅ ∅ ∅ ∅ ∅ ∅ ∅ ∅ 0 0 0.

(** ** Changes of a table *)
Definition unique_violation (constraint : string) : error :=
  Errorf "pq: duplicate key value violates unique constraint %q" [AStr constraint].
Definition foreign_key_violation (table constraint : string) : error :=
  Errorf "pq: insert or update on table %q violates foreign key constraint %q"
    [AStr table; AStr constraint].

Section table.
Context {K A : Type} `{Countable K}.
Implicit Types m : gmap K A.

(** [INSERT] of a row under a primary key. *)
Definition insert_row (pkey : string) (k : K) (row : A) m : result (gmap K A) :=
  match m !! k with
  | Some _ => Err (unique_violation pkey)
  | None => Ok (<[k := row]> m)
  end.

(** [UPDATE ... WHERE key = k AND P], with the number of rows changed. *)
Definition update_row (k : K) (P : A → bool) (f : A → A) m : Z * gmap K A :=
  match m !! k with
  | Some row => if P row then (1, <[k := f row]> m)%Z else (0, m)%Z
  | None => (0, m)%Z
  end.

(** [DELETE ... WHERE key = k]. *)
Definition delete_row (k : K) m : Z * gmap K A :=
  match m !! k with Some _ => (1, delete k m)%Z | None => (0, m)%Z end.

Definition rows m : list A := (map_to_list m).*2.
End table.

(** The order in which rows come that [ORDER BY] does not tell apart is
    unspecified, as the order of Go's maps is. *)
Definition visit {A} (it : MapIter) (l : list A) : list A :=
  range_values it (list_to_map (zip (pretty <$> seq 0 (length l)) l)).

Lemma visit_perm {A} (it : MapIter) (l : list A) : visit it l ≡ₚ l.
Proof.
  unfold visit, range_values. rewrite range_map_perm.
  assert (length (pretty <$> seq 0 (length l)) = length l) as Hlen by by rewrite length_fmap, length_seq.
  rewrite map_to_list_to_map; [rewrite snd_zip; [done|lia]|].
  rewrite fst_zip by lia. apply NoDup_fmap; [apply _|]. apply NoDup_seq.
Qed.

Lemma elem_of_visit {A} it (l : list A) x : x ∈ visit it l ↔ x ∈ l.
Proof. by rewrite visit_perm. Qed.

Lemma elem_of_rows `{Countable K} {A} (m : gmap K A) x : x ∈ rows m ↔ ∃ k, m !! k = Some x.
Proof.
  unfold rows. rewrite list_elem_of_fmap. split.
  - intros ([k y] & -> & Hk). exists k. by apply elem_of_map_to_list.
  - intros [k Hk]. exists (k, x). by rewrite elem_of_map_to_list.
Qed.

End Database.

(** ** Statements *)

(** The arguments of a statement. *)
Inductive value :=
  | VText (s : string)
  | VInteger (z : Z)
  | VBoolean (b : bool)
  | VTime (x : time)
  | VNull
  | VDouble (f : float64)
  | VTexts (l : list string)
  | VJsonMap (m : gmap string string)
  | VJsonAny (m : any_map)
  | VJsonSteps (l : list DiagnosisStep.t)
  | VJson (b : bytes).
Definition opt_time (x : option time) : value := match x with Some x => VTime x | None => VNull end.

(** PostgreSQL and its driver. [refuses] and [interrupts] are the errors of a
    statement, and of the iteration over its rows after some of them: a lost
    connection, a value that is too long or not valid UTF-8. *)
Class Postgres := {
  pg_time : time → time;
  jsonb_strings : gmap string string → result (gmap string string);
  jsonb_any : any_map → result any_map;
  jsonb_steps : list DiagnosisStep.t → result (list DiagnosisStep.t);
  jsonb_bytes : bytes → result bytes;
  ilike : string → string → bool;
  text_before : string → string → bool;
  avg_epoch : list Z → float64;
  nextval : Z → Z;
  refuses : Database.t → string → list value → option error;
  interrupts : Database.t → string → list value → option (nat * error);
}.

(** Sequences increase. *)
Class PostgresLaw `{Postgres} := nextval_increases n : (n < nextval n)%Z.

(** [PostgresRepository] of [postgres.go]: the connection and the counter. *)
Record PostgresRepository := mkPostgres { db : Database.t; nextID : Z }.
#[global] Instance PostgresRepository_eta : Eta PostgresRepository := λ r,
  mkPostgres (db r) (nextID r).

Section statements.
Context `{PG : Postgres}.
Implicit Types r : PostgresRepository.

(** [db.Exec]: the number of rows affected. *)
Definition exec (sql : string) (args : list value) (run : Database.t → result (Z * Database.t))
    : Op PostgresRepository Z := λ r,
  match refuses (db r) sql args with
  | Some err => (Err err, r)
  | None =>
      match run (db r) with
      | Err err => (Err err, r)
      | Ok (n, d) => (Ok n, r <| db := d |>)
      end
  end.

(** [db.QueryRow(...).Scan(...)]: the first row, or [sql.ErrNoRows]. *)
Definition query_row {A} (sql : string) (args : list value) (select : Database.t → option A) r
    : result (option A) :=
  match refuses (db r) sql args with
  | Some err => Err err
  | None => Ok (select (db r))
  end.

(** [db.Query] and the loop over its rows; [wrap] is what the error of the query
    itself becomes. *)
Definition query_rows {A} (wrap : error → error) (sql : string) (args : list value)
    (select : Database.t → list A) r : result (list A) :=
  match refuses (db r) sql args with
  | Some err => Err (wrap err)
  | None =>
      match interrupts (db r) sql args with
      | Some (_, err) => Err err
      | None => Ok (select (db r))
      end
  end.

Definition wrapped (text : string) (err : error) : error := Errorf (text +:+ ": %w") [AErr err].

(** An error of [Exec] is returned, rows or not. *)
Definition exec_error (sql : string) (args : list value)
    (run : Database.t → result (Z * Database.t)) : Op PostgresRepository unit := λ r,
  let '(res, r) := exec sql args run r in
  (match res with Err err => Err err | Ok _ => Ok tt end, r).

(** The error is ignored. *)
Definition exec_ignored (sql : string) (args : list value)
    (run : Database.t → result (Z * Database.t)) r : PostgresRepository := (exec sql args run r).2.

(** The filters of a query: the conditions that apply are numbered from [$1]. *)
Fixpoint conditions (n : Z) (l : list (bool * string * value)) : string * list value :=
  match l with
  | [] => ("", [])
  | (true, condition, v) :: l =>
      let '(sql, args) := conditions (n + 1) l in
      (" AND " +:+ condition +:+ pretty n +:+ sql, v :: args)
  | (false, _, _) :: l => conditions n l
  end.

(** [LIMIT], when it is positive. *)
Definition limited {A} (n : Z) (l : list A) : list A :=
  if (0 <? n)%Z then take (Z.to_nat n) l else l.

End statements.
