(* ===== verification/PostgresRepo.v ===== *)
(** * The PostgreSQL repository ([internal/infrastructure/db/postgres.go])

    One definition per method, with its statements in their order. The text of
    a statement stands for the one of the source; its arguments are those of
    the source. *)
From Stdlib Require Import Ascii.
From S2P Require Import Prelude.
From S2P Require Import GoStrings.
From S2P Require Import Model.
From S2P Require Import Repository.
From S2P Require Import Auth.
From S2P Require Import Database.

Import Repository.

Module PostgresRepo.
Import Database.
Abbreviation DB := Database.t.

Definition WorkerOnlineThreshold : Z := 30 * second.

Section repo.
Context `{PG : Postgres}.
Implicit Types r : PostgresRepository.

(** ** Identifiers *)

(** [SUBSTRING(id FROM '[0-9]+$')], cast to a number. *)
Fixpoint leading_digits (s : string) : string :=
  match s with
  | EmptyString => ""
  | String c s' => if is_digit c then String c (leading_digits s') else ""
  end.
Definition trailing_digits (id : string) : string := string_rev (leading_digits (string_rev id)).
Definition numeric_suffix (id : string) : option Z :=
  let digits := trailing_digits id in
  if decide (digits = "") then None else Some (decimal 0 digits).

(** [COALESCE(MAX(CAST(... AS BIGINT)), 0)]: a number that is no [BIGINT] is an
    error of the whole query. *)
Definition max_suffix (ids : list string) : result Z :=
  let values := omap numeric_suffix ids in
  if forallb (λ v, (v <=? int64_max)%Z) values then Ok (foldr Z.max 0%Z values)
  else Err (new_error "pq: value out of range for type bigint").

(** The identifiers of a table that the counter is seeded from. *)
Definition seeded_tables : list (string * (DB → list string)) :=
  [("workers", λ d, (map_to_list (workers d)).*1);
   ("jobs", λ d, (map_to_list (jobs d)).*1);
   ("audit_logs", λ d, (map_to_list (audit_logs d)).*1);
   ("incident_cases", λ d, (map_to_list (incident_cases d)).*1);
   ("diagnosis_plans", λ d, (map_to_list (diagnosis_plans d)).*1);
   ("job_yamls", λ d, (map_to_list (job_yamls d)).*1);
   ("managed_configs", λ d, (map_to_list (managed_configs d)).*1.*2);
   ("conversations", λ d, (map_to_list (conversations d)).*1);
   ("agent_runs", λ d, (map_to_list (agent_runs d)).*1)].

(** A table whose query fails is skipped. *)
Definition table_suffix (table : string) (ids : DB → list string) r : result Z :=
  match refuses (db r) ("SELECT COALESCE(MAX(suffix), 0) FROM " +:+ table) [] with
  | Some err => Err err
  | None => max_suffix (ids (db r))
  end.
Definition seedCounter r : PostgresRepository :=
  let maxVal := foldl (λ maxVal '(table, ids),
    match table_suffix table ids r with
    | Ok suffix => if (maxVal <? suffix)%Z then suffix else maxVal
    | Err _ => maxVal
    end) 0%Z seeded_tables in
  if (0 <? maxVal)%Z then r <| nextID := maxVal |> else r.

(** The connection, the migrations, which leave an existing database as it is,
    and the seed of the counter. *)
Definition NewPostgresRepository (d : DB) : result PostgresRepository :=
  match refuses d "PING" [] with
  | Some err => Err (wrapped "ping database" err)
  | None =>
      match refuses d "SCHEMA" [] with
      | Some err => Err (wrapped "migrate" err)
      | None => Ok (seedCounter (mkPostgres d 0))
      end
  end.

Definition make_id (prefix : string) (n : Z) : string := prefix +:+ "-" +:+ pad6 n.
Definition genID (prefix : string) r : string * PostgresRepository :=
  let value := u64_add (nextID r) 1 in
  (make_id prefix value, r <| nextID := value |>).

(** ** Users *)
Definition pg_CreateUser (e : Reading) (username passwordHash role : string)
    : Op PostgresRepository User.t := λ r,
  let now := now e in
  let '(res, r) := exec "INSERT INTO users"
    [VText username; VText passwordHash; VText role; VTime now; VTime now]
    (λ d,
      users' ← insert_row "users_pkey" username
        (mkUser username passwordHash role (pg_time now) (pg_time now)) (users d);
      Ok (1%Z, d <| users := users' |>)) r in
  match res with
  | Err err => (Err (wrapped "create user" err), r)
  | Ok _ => (Ok (User.mk username role), r)
  end.

Definition pg_GetUser (username : string) r : result (option (string * User.t)) :=
  match query_row "SELECT users WHERE username" [VText username] (λ d, users d !! username) r with
  | Err err => Err (wrapped "get user" err)
  | Ok None => Ok None
  | Ok (Some u) => Ok (Some (password u, User.mk (Database.username u) (role u)))
  end.

Definition user_before (x y : User.t) : bool :=
  text_before (User.Username x) (User.Username y).
Definition pg_ListUsers r : result (list User.t) :=
  query_rows (wrapped "list users") "SELECT users ORDER BY username" []
    (λ d, sort_slice user_before
            ((λ u, User.mk (Database.username u) (role u)) <$> rows (users d))) r.

Definition user_not_found (username : string) : error :=
  Errorf "user not found: %s" [AStr username].

(** The result of a statement that has to change a row. *)
Definition affected {A} (res : result Z) (wrap : error → error) (missing : error) (x : A) : result A :=
  match res with
  | Err err => Err (wrap err)
  | Ok n => if (n =? 0)%Z then Err missing else Ok x
  end.

Definition pg_DeleteUser (username : string) : Op PostgresRepository unit := λ r,
  let '(res, r) := exec "DELETE FROM users WHERE username" [VText username]
    (λ d, let '(n, users') := delete_row username (users d) in Ok (n, d <| users := users' |>)) r in
  (affected res (wrapped "delete user") (user_not_found username) tt, r).

Definition pg_UpdatePassword (e : Reading) (username newHash : string)
    : Op PostgresRepository unit := λ r,
  let '(res, r) := exec "UPDATE users SET password WHERE username"
    [VText newHash; VTime (now e); VText username]
    (λ d,
      let '(n, users') := update_row username (λ _, true)
        (λ u, u <| password := newHash |> <| updated_at := pg_time (now e) |>) (users d) in
      Ok (n, d <| users := users' |>)) r in
  (affected res (wrapped "update password") (user_not_found username) tt, r).

#[global] Instance postgres_user_store (e : Reading) : UserStore PostgresRepository := {|
  store_CreateUser := pg_CreateUser e;
  store_GetUser := pg_GetUser;
  store_ListUsers := pg_ListUsers;
  store_DeleteUser := pg_DeleteUser;
  store_UpdatePassword := pg_UpdatePassword e;
|}.

(** ** Workers *)

(** What a row holds of the times of a worker. *)
Definition worker_row (w : Worker.t) : Worker.t :=
  w <| Worker.LastHeartbeatAt := pg_time (Worker.LastHeartbeatAt w) |>
    <| Worker.CreatedAt := pg_time (Worker.CreatedAt w) |>
    <| Worker.UpdatedAt := pg_time (Worker.UpdatedAt w) |>.

Definition same_worker (name workerType : string) (w : Worker.t) : Prop :=
  Worker.Name w = name ∧ Worker.WorkerType w = workerType.
#[global] Instance same_worker_dec n t w : Decision (same_worker n t w).
Proof. unfold same_worker. apply _. Defined.

Definition touch_worker (now : time) (w : Worker.t) : Worker.t :=
  w <| Worker.Status := WorkerStatusOnline |> <| Worker.LastHeartbeatAt := now |>
    <| Worker.UpdatedAt := now |>.

(** Any error of the lookup is taken for an unknown worker. *)
Definition pg_RegisterWorker (e : Reading) (name workerType : string)
    : Op PostgresRepository Worker.t := λ r,
  let now := now e in
  match query_row "SELECT workers WHERE name AND worker_type" [VText name; VText workerType]
          (λ d, head (filter (same_worker name workerType) (visit (order e) (rows (workers d))))) r with
  | Ok (Some existing) =>
      let id := Worker.ID existing in
      let r := exec_ignored "UPDATE workers SET status, last_heartbeat_at, updated_at WHERE id"
        [VText WorkerStatusOnline; VTime now; VTime now; VText id]
        (λ d, let '(n, ws) := update_row id (λ _, true) (touch_worker (pg_time now)) (workers d) in
              Ok (n, d <| workers := ws |>)) r in
      (Ok (touch_worker now existing), r)
  | _ =>
      let '(id, r) := genID "worker" r in
      let worker := Worker.mk id name workerType WorkerStatusOnline HostInfo.zero now now now in
      let '(res, r) := exec "INSERT INTO workers"
        [VText id; VText name; VText workerType; VText WorkerStatusOnline; VTime now; VTime now; VTime now]
        (λ d, ws ← insert_row "workers_pkey" id (worker_row worker) (workers d);
              Ok (1%Z, d <| workers := ws |>)) r in
      match res with
      | Err err => (Err (wrapped "register worker" err), r)
      | Ok _ => (Ok worker, r)
      end
  end.

Definition worker_not_found (id : string) : error := Errorf "worker not found: %s" [AStr id].

Definition stale (now : time) (w : Worker.t) : bool :=
  (WorkerOnlineThreshold <? time_sub now (Worker.LastHeartbeatAt w))%Z.

(** The status is that of the last heartbeat, not the stored one. *)
Definition get_worker (now : time) (id : string) r : result Worker.t :=
  match query_row "SELECT workers WHERE id" [VText id] (λ d, workers d !! id) r with
  | Err err => Err (wrapped "get worker" err)
  | Ok None => Err (worker_not_found id)
  | Ok (Some w) =>
      Ok (w <| Worker.Status := if stale now w then WorkerStatusOffline else WorkerStatusOnline |>)
  end.
Definition pg_GetWorker (e : Reading) : string → PostgresRepository → result Worker.t :=
  get_worker (now e).

Definition pg_HeartbeatWorker (e : Reading) (id : string) (info : option HostInfo.t)
    : Op PostgresRepository Worker.t := λ r,
  let now := now e in
  let '(sql, args) :=
    match info with
    | Some info =>
        (", hostname, ip_address, cpu_usage, storage_usage WHERE id",
         [VText (HostInfo.Hostname info); VText (HostInfo.IPAddress info);
          VDouble (HostInfo.CPUUsage info); VDouble (HostInfo.StorageUsage info); VText id])
    | None => (" WHERE id", [VText id])
    end in
  let '(res, r) := exec ("UPDATE workers SET last_heartbeat_at, status, updated_at" +:+ sql)
    ([VTime now; VText WorkerStatusOnline; VTime now] ++ args)
    (λ d,
      let '(n, ws) := update_row id (λ _, true)
        (λ w, match info with
              | Some info => (touch_worker (pg_time now) w) <| Worker.HostInfo := info |>
              | None => touch_worker (pg_time now) w
              end) (workers d) in
      Ok (n, d <| workers := ws |>)) r in
  match affected res (wrapped "heartbeat worker") (worker_not_found id) tt with
  | Err err => (Err err, r)
  | Ok _ => (get_worker (later e) id r, r)
  end.

(** A stored status other than [online] stays. *)
Definition refresh_status (now : time) (w : Worker.t) : Worker.t :=
  if decide (Worker.Status w = WorkerStatusOnline ∧ stale now w = true)
  then w <| Worker.Status := WorkerStatusOffline |> else w.
Definition worker_newer (x y : Worker.t) : bool :=
  bool_decide (Worker.CreatedAt y < Worker.CreatedAt x)%Z.
Definition pg_ListWorkers (e : Reading) r : result (list Worker.t) :=
  query_rows (wrapped "list workers") "SELECT workers ORDER BY created_at DESC" []
    (λ d, refresh_status (now e) <$> sort_slice worker_newer (visit (order e) (rows (workers d)))) r.

Definition pg_UpdateWorkerStatus (e : Reading) (id : string) (status : WorkerStatus)
    : Op PostgresRepository unit :=
  exec_error "UPDATE workers SET status, updated_at WHERE id" [VText status; VTime (now e); VText id]
    (λ d,
      let '(n, ws) := update_row id (λ _, true)
        (λ w, w <| Worker.Status := status |> <| Worker.UpdatedAt := pg_time (now e) |>) (workers d) in
      Ok (n, d <| workers := ws |>)).

Definition pg_DeleteWorker (e : Reading) (id : string) : Op PostgresRepository unit :=
  exec_error "DELETE FROM workers WHERE id" [VText id]
    (λ d, let '(n, ws) := delete_row id (workers d) in Ok (n, d <| workers := ws |>)).

(** ** Jobs *)

(** [SELECT id FROM jobs WHERE idempotency_key = $1]. *)
Definition find_key (key : string) r : result (option string) :=
  query_row "SELECT id FROM jobs WHERE idempotency_key" [VText key] (λ d, jobs_by_key d !! key) r.

(** The job as it is inserted: the identifier and what creation fills in. *)
Definition fill_job (now : time) (id : string) (job : Job.t) : Job.t :=
  job <| Job.ID := id |> <| Job.CreatedAt := now |> <| Job.UpdatedAt := now |>
      <| Job.Status := if decide (Job.Status job = "") then JobStatusPending else Job.Status job |>
      <| Job.ApprovalStatus :=
           if decide (Job.ApprovalStatus job = "") then
             if Job.ApprovalRequired job then ApprovalStatusPending else ApprovalStatusNotRequired
           else Job.ApprovalStatus job |>.

(** What its row holds. *)
Definition job_row (params : gmap string string) (job : Job.t) : Job.t :=
  job <| Job.Parameters := Some params |>
      <| Job.CreatedAt := pg_time (Job.CreatedAt job) |>
      <| Job.UpdatedAt := pg_time (Job.UpdatedAt job) |>
      <| Job.ApprovedAt := pg_time <$> Job.ApprovedAt job |>
      <| Job.RejectedAt := pg_time <$> Job.RejectedAt job |>
      <| Job.StartedAt := pg_time <$> Job.StartedAt job |>
      <| Job.FinishedAt := pg_time <$> Job.FinishedAt job |>.

Definition job_args (job : Job.t) : list value :=
  [VText (Job.ID job); VText (Job.Name job); VText (Job.WorkerType job); VText (Job.Command job);
   VText (Job.Status job); VText (Job.RiskLevel job);
   VBoolean (Job.ApprovalRequired job); VText (Job.ApprovalStatus job); VText (Job.ApprovalComment job);
   VText (Job.ApprovedBy job); opt_time (Job.ApprovedAt job);
   VText (Job.RejectedBy job); opt_time (Job.RejectedAt job);
   VText (Job.TemplateCode job); VJsonMap (smap_entries (Job.Parameters job));
   VText (Job.SourceType job); VText (Job.SourceID job); VText (Job.IdempotencyKey job);
   VText (Job.AssignedWorkerID job); VText (Job.Output job);
   VTime (Job.CreatedAt job); VTime (Job.UpdatedAt job);
   opt_time (Job.StartedAt job); opt_time (Job.FinishedAt job)].

(** The row has to fit the primary key and the index of the keys. *)
Definition insert_job_row (job : Job.t) (d : DB) : result (Z * DB) :=
  params ← jsonb_strings (smap_entries (Job.Parameters job));
  jobs' ← insert_row "jobs_pkey" (Job.ID job) (job_row params job) (jobs d);
  if decide (Job.IdempotencyKey job = "") then Ok (1%Z, d <| jobs := jobs' |>)
  else
    keys ← insert_row "idx_jobs_idempotency_key" (Job.IdempotencyKey job) (Job.ID job) (jobs_by_key d);
    Ok (1%Z, d <| jobs := jobs' |> <| jobs_by_key := keys |>).
Definition insert_job (job : Job.t) : Op PostgresRepository Z :=
  exec "INSERT INTO jobs" (job_args job) (insert_job_row job).

(** The columns that are read leave out the idempotency key. *)
Definition scan_job (row : Job.t) : Job.t := row <| Job.IdempotencyKey := "" |>.

Definition job_not_found (id : string) : error := Errorf "job not found: %s" [AStr id].
Definition pg_GetJob (id : string) r : result Job.t :=
  match query_row "SELECT jobs WHERE id" [VText id] (λ d, jobs d !! id) r with
  | Err err => Err (wrapped "get job" err)
  | Ok None => Err (job_not_found id)
  | Ok (Some row) => Ok (scan_job row)
  end.

Definition create_new_job (now : time) (job : Job.t) : Op PostgresRepository Job.t := λ r,
  let '(id, r) := genID "job" r in
  let job := fill_job now id job in
  let '(res, r) := insert_job job r in
  match res with
  | Ok _ => (Ok job, r)
  | Err err =>
      let failed := (Err (wrapped "create job" err), r) in
      if decide (Job.IdempotencyKey job = "") then failed
      else match find_key (Job.IdempotencyKey job) r with
      | Ok (Some existingID) => (pg_GetJob existingID r, r)
      | _ => failed
      end
  end.

Definition pg_CreateJob (e : Reading) (job : Job.t) : Op PostgresRepository Job.t := λ r,
  if decide (Job.IdempotencyKey job = "") then create_new_job (now e) job r
  else match find_key (Job.IdempotencyKey job) r with
  | Ok (Some existingID) => (pg_GetJob existingID r, r)
  | Err err => (Err (wrapped "find idempotent job" err), r)
  | Ok None => create_new_job (now e) job r
  end.

Definition job_newer (x y : Job.t) : bool := bool_decide (Job.CreatedAt y < Job.CreatedAt x)%Z.
Definition job_matches (filter : JobFilter) (j : Job.t) : Prop :=
  (SourceType filter = "" ∨ Job.SourceType j = SourceType filter) ∧
  (WorkerType filter = "" ∨ Job.WorkerType j = WorkerType filter) ∧
  (Status filter = "" ∨ Job.Status j = Status filter).
#[global] Instance job_matches_dec f j : Decision (job_matches f j).
Proof. unfold job_matches. apply _. Defined.

(** The text of a listing and its arguments: the filters, then the limit. *)
Definition listing (table : string) (l : list (bool * string * value)) (order : string) (limit : Z)
    : string * list value :=
  let '(sql, args) := conditions 1 l in
  ("SELECT " +:+ table +:+ " WHERE 1=1" +:+ sql +:+ " ORDER BY " +:+ order,
   args ++ if (0 <? limit)%Z then [VInteger limit] else []).

Definition pg_ListJobs (e : Reading) (filter : JobFilter) r : result (list Job.t) :=
  let '(sql, args) := listing "jobs"
    [(bool_decide (SourceType filter ≠ ""), "source_type = $", VText (SourceType filter));
     (bool_decide (WorkerType filter ≠ ""), "worker_type = $", VText (WorkerType filter));
     (bool_decide (Status filter ≠ ""), "status = $", VText (Status filter))]
    "created_at DESC" (Limit filter) in
  query_rows (wrapped "list jobs") sql args
    (λ d, scan_job <$> limited (Limit filter)
            (sort_slice job_newer
              (base.filter (job_matches filter) (visit (order e) (rows (jobs d)))))) r.

Definition job_earlier (x y : string * Job.t) : bool :=
  bool_decide (Job.CreatedAt x.2 < Job.CreatedAt y.2)%Z ||
  (bool_decide (Job.CreatedAt x.2 = Job.CreatedAt y.2) && text_before x.1 y.1).
Definition waits_for (workerType : string) (j : Job.t) : Prop :=
  (Job.Status j = JobStatusQueued ∨ Job.Status j = JobStatusPending) ∧
  (NormalizeWorkerType workerType = "shell" ∨ Job.WorkerType j = workerType).
#[global] Instance waits_for_dec t j : Decision (waits_for t j).
Proof. unfold waits_for. apply _. Defined.

(** The job is selected by one statement and started by another one. *)
Definition next_job (it : MapIter) (workerType : string) (d : DB) : option string :=
  fst <$> head (sort_slice job_earlier
    (filter (λ kj, waits_for workerType kj.2) (visit it (map_to_list (jobs d))))).
Definition start_row (now : time) (workerID : string) (j : Job.t) : Job.t :=
  j <| Job.Status := JobStatusRunning |> <| Job.AssignedWorkerID := workerID |>
    <| Job.StartedAt := Some (pg_time now) |> <| Job.UpdatedAt := pg_time now |>.
Definition start_job (now : time) (workerID jobID : string) : Op PostgresRepository Z :=
  exec "UPDATE jobs SET status, assigned_worker_id, started_at, updated_at WHERE id"
    [VText JobStatusRunning; VText workerID; VTime now; VTime now; VText jobID]
    (λ d, let '(n, js) := update_row jobID (λ _, true) (start_row now workerID) (jobs d) in
          Ok (n, d <| jobs := js |>)).

Definition no_queued_jobs (workerType : string) : error :=
  Errorf "no queued jobs for worker type %s" [AStr workerType].
Definition pg_AssignNextJob (e : Reading) (workerID : string) : Op PostgresRepository Job.t := λ r,
  match get_worker (now e) workerID r with
  | Err err => (Err err, r)
  | Ok worker =>
      let workerType := Worker.WorkerType worker in
      let typed := bool_decide (NormalizeWorkerType workerType ≠ "shell") in
      match query_row
              ("SELECT id FROM jobs WHERE status IN" +:+ (if typed then " AND worker_type" else ""))
              ([VText JobStatusQueued; VText JobStatusPending] ++ (if typed then [VText workerType] else []))
              (next_job (order e) workerType) r with
      | Err err => (Err (wrapped "assign next job" err), r)
      | Ok None => (Err (no_queued_jobs workerType), r)
      | Ok (Some jobID) =>
          let '(res, r) := start_job (later e) workerID jobID r in
          match res with
          | Err err => (Err (wrapped "assign next job update" err), r)
          | Ok _ => (pg_GetJob jobID r, r)
          end
      end
  end.

Definition cannot_run (wid workerType jobType : string) : error :=
  Errorf "worker %s type %s cannot run job type %s" [AStr wid; AStr workerType; AStr jobType].

(** The loop over the workers, with the job as it was before. *)
Fixpoint assign_to (e : Reading) (job : Job.t) (jobID : string) (workerIDs : list string) r
    : result unit * PostgresRepository :=
  match workerIDs with
  | [] => (Ok tt, r)
  | wid :: workerIDs =>
      match get_worker (later e) wid r with
      | Err err => (Err err, r)
      | Ok worker =>
          if negb (WorkerCanRunType (Worker.WorkerType worker) (Job.WorkerType job)) then
            (Err (cannot_run wid (Worker.WorkerType worker) (Job.WorkerType job)), r)
          else
            let '(res, r) := start_job (now e) wid jobID r in
            match res with
            | Err err => (Err (Errorf "assign job %s to worker %s: %w" [AStr jobID; AStr wid; AErr err]), r)
            | Ok _ => assign_to e job jobID workerIDs r
            end
      end
  end.
Definition pg_AssignJobToWorkers (e : Reading) (jobID : string) (workerIDs : list string)
    : Op PostgresRepository unit := λ r,
  match pg_GetJob jobID r with
  | Err err => (Err err, r)
  | Ok job => assign_to e job jobID workerIDs r
  end.

(** A guarded update of a job: the statement with its arguments, the rows it
    changes and how, and the errors of the operation. *)
Record JobUpdate := mkUpdate {
  update_sql : string;
  update_args : list value;
  update_guard : Job.t → bool;
  update_change : Job.t → Job.t;
  update_wrap : string;
  update_missing : error;
}.
Definition run_update (u : JobUpdate) (jobID : string) : Op PostgresRepository Z :=
  exec (update_sql u) (update_args u)
    (λ d, let '(n, js) := update_row jobID (update_guard u) (update_change u) (jobs d) in
          Ok (n, d <| jobs := js |>)).
(** The update, after which the job is read back. *)
Definition update_job (u : JobUpdate) (jobID : string) : Op PostgresRepository Job.t := λ r,
  let '(res, r) := run_update u jobID r in
  match affected res (wrapped (update_wrap u)) (update_missing u) tt with
  | Err err => (Err err, r)
  | Ok _ => (pg_GetJob jobID r, r)
  end.

Definition complete_update (now : time) (workerID jobID output : string) (success : bool) : JobUpdate :=
  let status := if success then JobStatusSuccess else JobStatusFailed in
  mkUpdate
    "UPDATE jobs SET status, output, finished_at, updated_at WHERE id AND assigned_worker_id AND status"
    [VText status; VText output; VTime now; VTime now; VText jobID; VText workerID; VText JobStatusRunning]
    (λ j, bool_decide (Job.AssignedWorkerID j = workerID) && bool_decide (Job.Status j = JobStatusRunning))
    (λ j, j <| Job.Status := status |> <| Job.Output := output |>
            <| Job.FinishedAt := Some (pg_time now) |> <| Job.UpdatedAt := pg_time now |>)
    "complete job" (new_error "job not found or not assigned to worker").
Definition pg_CompleteJob (e : Reading) (workerID jobID output : string) (success : bool)
    : Op PostgresRepository Job.t :=
  update_job (complete_update (now e) workerID jobID output success) jobID.

Definition cannot_delete (status : string) : error :=
  Errorf "cannot delete job with status %s" [AStr status].
(** The index loses the entry of the row. *)
Definition remove_job (id : string) : Op PostgresRepository unit :=
  exec_error "DELETE FROM jobs WHERE id" [VText id]
    (λ d, let '(n, js) := delete_row id (jobs d) in
          Ok (n, d <| jobs := js |>
                   <| jobs_by_key := filter (λ kv, kv.2 ≠ id) (jobs_by_key d) |>)).
Definition pg_DeleteJob (e : Reading) (id : string) : Op PostgresRepository unit := λ r,
  match pg_GetJob id r with
  | Err err => (Err err, r)
  | Ok job =>
      if decide (Job.Status job ∈ [JobStatusPending; JobStatusQueued; JobStatusWaitingApproval]) then remove_job id r
      else (Err (cannot_delete (Job.Status job)), r)
  end.

Definition pg_ListPendingApprovalJobs (e : Reading) r : result (list Job.t) :=
  pg_ListJobs e (mkFilter "" "" JobStatusWaitingApproval 0) r.

Definition not_waiting : error := new_error "job not found or not waiting for approval".
Definition is_waiting (j : Job.t) : bool := bool_decide (Job.Status j = JobStatusWaitingApproval).

Definition approve_update (now : time) (jobID approvedBy comment : string) : JobUpdate :=
  mkUpdate
    "UPDATE jobs SET status, approval_status, approved_by, approved_at, approval_comment, updated_at WHERE id AND status"
    [VText JobStatusPending; VText ApprovalStatusApproved; VText approvedBy; VTime now; VText comment;
     VTime now; VText jobID; VText JobStatusWaitingApproval]
    is_waiting
    (λ j, j <| Job.Status := JobStatusPending |> <| Job.ApprovalStatus := ApprovalStatusApproved |>
            <| Job.ApprovedBy := approvedBy |> <| Job.ApprovedAt := Some (pg_time now) |>
            <| Job.ApprovalComment := comment |> <| Job.UpdatedAt := pg_time now |>)
    "approve job" not_waiting.
Definition pg_ApproveJob (e : Reading) (jobID approvedBy comment : string)
    : Op PostgresRepository Job.t :=
  update_job (approve_update (now e) jobID approvedBy comment) jobID.

Definition reject_update (now : time) (jobID rejectedBy reason : string) : JobUpdate :=
  mkUpdate
    "UPDATE jobs SET status, approval_status, rejected_by, rejected_at, approval_comment, updated_at WHERE id AND status"
    [VText JobStatusCancelled; VText ApprovalStatusRejected; VText rejectedBy; VTime now; VText reason;
     VTime now; VText jobID; VText JobStatusWaitingApproval]
    is_waiting
    (λ j, j <| Job.Status := JobStatusCancelled |> <| Job.ApprovalStatus := ApprovalStatusRejected |>
            <| Job.RejectedBy := rejectedBy |> <| Job.RejectedAt := Some (pg_time now) |>
            <| Job.ApprovalComment := reason |> <| Job.UpdatedAt := pg_time now |>)
    "reject job" not_waiting.
Definition pg_RejectJob (e : Reading) (jobID rejectedBy reason : string)
    : Op PostgresRepository Job.t :=
  update_job (reject_update (now e) jobID rejectedBy reason) jobID.

(** ** Diagnosis plans *)
Definition plan_args (steps : list DiagnosisStep.t) (plan : DiagnosisPlan.t) : list value :=
  [VText (DiagnosisPlan.Title plan); VText (DiagnosisPlan.Description plan);
   VText (DiagnosisPlan.TriggerType plan); VJsonSteps steps; VText (DiagnosisPlan.Status plan)].
Definition plan_not_found (id : string) : error := Errorf "plan not found: %s" [AStr id].

Definition pg_CreatePlan (e : Reading) (plan : DiagnosisPlan.t) : Op PostgresRepository unit :=
  let id := DiagnosisPlan.ID plan in
  exec_error "INSERT INTO diagnosis_plans"
    (VText id :: plan_args (DiagnosisPlan.Steps plan) plan ++ [VTime (now e); VTime (now e)])
    (λ d,
      steps ← jsonb_steps (DiagnosisPlan.Steps plan);
      plans ← insert_row "diagnosis_plans_pkey" id
        (plan <| DiagnosisPlan.Steps := steps |> <| DiagnosisPlan.CreatedAt := pg_time (now e) |>
              <| DiagnosisPlan.UpdatedAt := pg_time (now e) |>) (diagnosis_plans d);
      Ok (1%Z, d <| diagnosis_plans := plans |>)).

Definition pg_GetPlan (id : string) r : result DiagnosisPlan.t :=
  match query_row "SELECT diagnosis_plans WHERE id" [VText id] (λ d, diagnosis_plans d !! id) r with
  | Err err => Err (wrapped "get plan" err)
  | Ok None => Err (plan_not_found id)
  | Ok (Some plan) => Ok plan
  end.

(** A plan that is not there is no error. *)
Definition pg_UpdatePlan (e : Reading) (id : string) (plan : DiagnosisPlan.t)
    : Op PostgresRepository unit :=
  exec_error "UPDATE diagnosis_plans WHERE id"
    (plan_args (DiagnosisPlan.Steps plan) plan ++ [VTime (now e); VText id])
    (λ d,
      steps ← jsonb_steps (DiagnosisPlan.Steps plan);
      let '(n, plans) := update_row id (λ _, true)
        (λ old, plan <| DiagnosisPlan.ID := DiagnosisPlan.ID old |> <| DiagnosisPlan.Steps := steps |>
                     <| DiagnosisPlan.CreatedAt := DiagnosisPlan.CreatedAt old |>
                     <| DiagnosisPlan.UpdatedAt := pg_time (now e) |>) (diagnosis_plans d) in
      Ok (n, d <| diagnosis_plans := plans |>)).

(** ** Audit logs *)
Definition pg_AddAuditLog (e : Reading) (entry : AuditLog.t) : Op PostgresRepository unit := λ r,
  let '(id, r) := genID "audit" r in
  let entry := entry <| AuditLog.ID := id |> in
  exec_error "INSERT INTO audit_logs"
    [VText id; VText (AuditLog.ActorType entry); VText (AuditLog.ActorID entry);
     VText (AuditLog.Action entry); VText (AuditLog.ResourceType entry);
     VText (AuditLog.ResourceID entry); VJsonAny (AuditLog.Details entry); VTime (now e)]
    (λ d,
      details ← jsonb_any (AuditLog.Details entry);
      logs ← insert_row "audit_logs_pkey" id
        (entry <| AuditLog.Details := details |> <| AuditLog.CreatedAt := pg_time (now e) |>) (audit_logs d);
      Ok (1%Z, d <| audit_logs := logs |>)) r.

Definition audit_matches (resourceType resourceID : string) (l : AuditLog.t) : Prop :=
  (resourceType = "" ∨ AuditLog.ResourceType l = resourceType) ∧
  (resourceID = "" ∨ AuditLog.ResourceID l = resourceID).
#[global] Instance audit_matches_dec rt rid l : Decision (audit_matches rt rid l).
Proof. unfold audit_matches. apply _. Defined.
Definition audit_newer (x y : AuditLog.t) : bool :=
  bool_decide (AuditLog.CreatedAt y < AuditLog.CreatedAt x)%Z.
Definition pg_ListAuditLogs (e : Reading) (resourceType resourceID : string) r
    : result (list AuditLog.t) :=
  let '(sql, args) := listing "audit_logs"
    [(bool_decide (resourceType ≠ ""), "resource_type = $", VText resourceType);
     (bool_decide (resourceID ≠ ""), "resource_id = $", VText resourceID)] "created_at DESC" 0 in
  query_rows (wrapped "list audit logs") sql args
    (λ d, sort_slice audit_newer
            (filter (audit_matches resourceType resourceID) (visit (order e) (rows (audit_logs d))))) r.

(** ** Incident cases *)
Definition case_texts (c : IncidentCase.t) : list value :=
  [VText (IncidentCase.Title c); VText (IncidentCase.TriggerType c); VText (IncidentCase.FaultType c);
   VText (IncidentCase.Summary c); VTexts (IncidentCase.PossibleCauses c);
   VTexts (IncidentCase.Suggestions c); VDouble (IncidentCase.Confidence c)].
Definition case_knowledge (c : IncidentCase.t) : list value :=
  [VText (IncidentCase.AlertSymptoms c); VTexts (IncidentCase.EnvironmentTags c);
   VText (IncidentCase.EvidenceSummary c); VText (IncidentCase.RootCause c);
   VTexts (IncidentCase.ResolutionSteps c); VText (IncidentCase.ResolutionResult c)].

(** Any error of the lookup is taken for a new plan. A nil slice, which the
    update stores as NULL, is not told from an empty one: that such an update
    fails is one of the refusals. *)
Definition pg_UpsertIncidentCase (e : Reading) (planID : string) (c : IncidentCase.t)
    : Op PostgresRepository IncidentCase.t := λ r,
  let now := now e in
  match query_row "SELECT id FROM incident_cases WHERE source_plan_id" [VText planID]
          (λ d, head (filter (λ c, IncidentCase.SourcePlanID c = planID)
                        (visit (order e) (rows (incident_cases d))))) r with
  | Ok (Some existing) =>
      let id := IncidentCase.ID existing in
      let c := c <| IncidentCase.ID := id |> <| IncidentCase.UpdatedAt := now |> in
      let '(res, r) := exec "UPDATE incident_cases WHERE id"
        (case_texts c ++ case_knowledge c ++ [VTime now; VText id])
        (λ d,
          let '(n, cases) := update_row id (λ _, true)
            (λ old, c <| IncidentCase.SourcePlanID := IncidentCase.SourcePlanID old |>
                      <| IncidentCase.CreatedAt := IncidentCase.CreatedAt old |>
                      <| IncidentCase.UpdatedAt := pg_time now |>) (incident_cases d) in
          Ok (n, d <| incident_cases := cases |>)) r in
      match res with
      | Err err => (Err (wrapped "update incident case" err), r)
      | Ok _ => (Ok c, r)
      end
  | _ =>
      let '(id, r) := genID "case" r in
      let c := c <| IncidentCase.ID := id |> <| IncidentCase.CreatedAt := now |>
                 <| IncidentCase.UpdatedAt := now |> <| IncidentCase.SourcePlanID := planID |> in
      let '(res, r) := exec "INSERT INTO incident_cases"
        (VText id :: case_texts c ++ VText planID :: case_knowledge c ++ [VTime now; VTime now])
        (λ d,
          cases ← insert_row "incident_cases_pkey" id
            (c <| IncidentCase.CreatedAt := pg_time now |> <| IncidentCase.UpdatedAt := pg_time now |>)
            (incident_cases d);
          Ok (1%Z, d <| incident_cases := cases |>)) r in
      match res with
      | Err err => (Err (wrapped "insert incident case" err), r)
      | Ok _ => (Ok c, r)
      end
  end.

(** The text that a query is searched in. *)
Definition case_document (c : IncidentCase.t) : string :=
  join [IncidentCase.Title c; IncidentCase.TriggerType c; IncidentCase.FaultType c;
        IncidentCase.Summary c; IncidentCase.AlertSymptoms c; IncidentCase.EvidenceSummary c;
        IncidentCase.RootCause c; IncidentCase.ResolutionResult c;
        join (IncidentCase.EnvironmentTags c) " "; join (IncidentCase.ResolutionSteps c) " ";
        join (IncidentCase.PossibleCauses c) " "; join (IncidentCase.Suggestions c) " "] " ".
Definition case_pattern (query : string) : string := "%" +:+ query +:+ "%".
Definition case_matches (filter : IncidentCaseFilter.t) (c : IncidentCase.t) : bool :=
  (bool_decide (IncidentCaseFilter.TriggerType filter = "") ||
   bool_decide (IncidentCase.TriggerType c = IncidentCaseFilter.TriggerType filter)) &&
  (bool_decide (IncidentCaseFilter.FaultType filter = "") ||
   bool_decide (IncidentCase.FaultType c = IncidentCaseFilter.FaultType filter)) &&
  forallb (λ tag, bool_decide (tag ∈ IncidentCase.EnvironmentTags c))
    (IncidentCaseFilter.EnvironmentTags filter) &&
  (bool_decide (IncidentCaseFilter.Query filter = "") ||
   ilike (case_document c) (case_pattern (IncidentCaseFilter.Query filter))).
Definition case_newer (x y : IncidentCase.t) : bool :=
  bool_decide (IncidentCase.UpdatedAt y < IncidentCase.UpdatedAt x)%Z.

Definition pg_ListIncidentCases (e : Reading) (filter : IncidentCaseFilter.t) r
    : result (list IncidentCase.t) :=
  let '(sql, args) := listing "incident_cases"
    [(bool_decide (IncidentCaseFilter.TriggerType filter ≠ ""), "trigger_type = $",
      VText (IncidentCaseFilter.TriggerType filter));
     (bool_decide (IncidentCaseFilter.FaultType filter ≠ ""), "fault_type = $",
      VText (IncidentCaseFilter.FaultType filter));
     (bool_decide (IncidentCaseFilter.EnvironmentTags filter ≠ []), "environment_tags @> $",
      VTexts (IncidentCaseFilter.EnvironmentTags filter));
     (bool_decide (IncidentCaseFilter.Query filter ≠ ""), "concat_ws(' ', ...) ILIKE $",
      VText (case_pattern (IncidentCaseFilter.Query filter)))]
    "updated_at DESC" (IncidentCaseFilter.Limit filter) in
  query_rows (wrapped "list incident cases") sql args
    (λ d, limited (IncidentCaseFilter.Limit filter)
            (sort_slice case_newer
              (base.filter (λ c, case_matches filter c = true)
                (visit (order e) (rows (incident_cases d)))))) r.

Definition pg_FindSimilarIncidentCases (e : Reading) (description triggerType faultType : string)
    (limit : Z) r : result (list IncidentCase.t) :=
  pg_ListIncidentCases e (IncidentCaseFilter.mk description triggerType faultType [] limit) r.

(** ** Job YAMLs *)
Definition pg_SaveJobYAML (e : Reading) (jy : JobYAML.t) : Op PostgresRepository JobYAML.t := λ r,
  let now := now e in
  let '(jy, r) :=
    if decide (JobYAML.ID jy = "") then
      let '(id, r) := genID "yaml" r in (jy <| JobYAML.ID := id |>, r)
    else (jy, r) in
  let jy := jy <| JobYAML.CreatedAt := now |> <| JobYAML.UpdatedAt := now |> in
  let '(res, r) := exec "INSERT INTO job_yamls ON CONFLICT (id) DO UPDATE"
    [VText (JobYAML.ID jy); VText (JobYAML.Name jy); VText (JobYAML.Description jy);
     VText (JobYAML.YAMLContent jy); VText (JobYAML.Source jy); VTime now; VTime now]
    (λ d,
      let created := match job_yamls d !! JobYAML.ID jy with
                     | Some old => JobYAML.CreatedAt old | None => pg_time now end in
      let row := jy <| JobYAML.CreatedAt := created |> <| JobYAML.UpdatedAt := pg_time now |> in
      Ok (1%Z, d <| job_yamls := <[JobYAML.ID jy := row]> (job_yamls d) |>)) r in
  match res with
  | Err err => (Err (wrapped "save job yaml" err), r)
  | Ok _ => (Ok jy, r)
  end.
Definition yaml_newer (x y : JobYAML.t) : bool :=
  bool_decide (JobYAML.UpdatedAt y < JobYAML.UpdatedAt x)%Z.
(** A listing that is interrupted ends without an error, with the rows read so
    far. *)
Definition pg_ListJobYAMLs (e : Reading) r : result (list JobYAML.t) :=
  let sql := "SELECT job_yamls ORDER BY updated_at DESC" in
  match refuses (db r) sql [] with
  | Some err => Err err
  | None =>
      let l := sort_slice yaml_newer (visit (order e) (rows (job_yamls (db r)))) in
      Ok (match interrupts (db r) sql [] with Some (n, _) => take n l | None => l end)
  end.
Definition ErrNoRows : error := new_error "sql: no rows in result set".
Definition pg_GetJobYAML (id : string) r : result JobYAML.t :=
  match query_row "SELECT job_yamls WHERE id" [VText id] (λ d, job_yamls d !! id) r with
  | Err err => Err err
  | Ok None => Err ErrNoRows
  | Ok (Some jy) => Ok jy
  end.
Definition pg_DeleteJobYAML (e : Reading) (id : string) : Op PostgresRepository unit :=
  exec_error "DELETE FROM job_yamls WHERE id" [VText id]
    (λ d, let '(n, yamls) := delete_row id (job_yamls d) in Ok (n, d <| job_yamls := yamls |>)).

(** ** Worker logs *)
Definition pg_AddWorkerLog (e : Reading) (entry : WorkerLog.t) : Op PostgresRepository unit :=
  exec_error "INSERT INTO worker_logs"
    [VText (WorkerLog.WorkerID entry); VText (WorkerLog.JobID entry); VText (WorkerLog.Command entry);
     VText (WorkerLog.Progress entry); VText (WorkerLog.Result entry);
     VBoolean (WorkerLog.Success entry); VTime (now e)]
    (λ d,
      let id := nextval (worker_logs_seq d) in
      let row := entry <| WorkerLog.ID := id |> <| WorkerLog.CreatedAt := pg_time (now e) |> in
      Ok (1%Z, d <| worker_logs_seq := id |> <| worker_logs := <[id := row]> (worker_logs d) |>)).

Definition log_matches (workerID jobID : string) (l : WorkerLog.t) : Prop :=
  (workerID = "" ∨ WorkerLog.WorkerID l = workerID) ∧ (jobID = "" ∨ WorkerLog.JobID l = jobID).
#[global] Instance log_matches_dec w j l : Decision (log_matches w j l).
Proof. unfold log_matches. apply _. Defined.
Definition log_newer (x y : WorkerLog.t) : bool :=
  bool_decide (WorkerLog.CreatedAt y < WorkerLog.CreatedAt x)%Z.
Definition pg_ListWorkerLogs (e : Reading) (workerID jobID : string) (limit : Z) r
    : result (list WorkerLog.t) :=
  let '(sql, args) := listing "worker_logs"
    [(bool_decide (workerID ≠ ""), "worker_id = $", VText workerID);
     (bool_decide (jobID ≠ ""), "job_id = $", VText jobID)] "created_at DESC" limit in
  query_rows (wrapped "list worker logs") sql args
    (λ d, limited limit (sort_slice log_newer
            (filter (log_matches workerID jobID) (visit (order e) (rows (worker_logs d)))))) r.

(** ** Managed configurations *)
Definition pg_SaveManagedConfig (e : Reading) (config : ManagedConfig.t)
    : Op PostgresRepository ManagedConfig.t := λ r,
  let now := now e in
  let '(config, r) :=
    if decide (ManagedConfig.ID config = "") then
      let '(id, r) := genID "cfg" r in (config <| ManagedConfig.ID := id |>, r)
    else (config, r) in
  let config := if decide (ManagedConfig.CreatedAt config = time_zero)
                then config <| ManagedConfig.CreatedAt := now |> else config in
  let config := config <| ManagedConfig.UpdatedAt := now |> in
  let key := (ManagedConfig.Kind config, ManagedConfig.ID config) in
  let '(res, r) := exec "INSERT INTO managed_configs ON CONFLICT (kind, id) DO UPDATE"
    [VText (ManagedConfig.ID config); VText (ManagedConfig.Kind config); VText (ManagedConfig.Name config);
     VText (ManagedConfig.YAMLContent config); VBoolean (ManagedConfig.Active config);
     VTime (ManagedConfig.CreatedAt config); VTime now]
    (λ d,
      let created := match managed_configs d !! key with
                     | Some old => ManagedConfig.CreatedAt old
                     | None => pg_time (ManagedConfig.CreatedAt config) end in
      let row := config <| ManagedConfig.CreatedAt := created |>
                        <| ManagedConfig.UpdatedAt := pg_time now |> in
      Ok (1%Z, d <| managed_configs := <[key := row]> (managed_configs d) |>)) r in
  match res with
  | Err err => (Err (wrapped "save managed config" err), r)
  | Ok _ => (Ok config, r)
  end.

Definition config_before (x y : ManagedConfig.t) : bool :=
  text_before (ManagedConfig.Kind x) (ManagedConfig.Kind y) ||
  (bool_decide (ManagedConfig.Kind x = ManagedConfig.Kind y) &&
   bool_decide (ManagedConfig.UpdatedAt y < ManagedConfig.UpdatedAt x)%Z).
Definition pg_ListManagedConfigs (e : Reading) (kind : string) r : result (list ManagedConfig.t) :=
  let '(sql, args) := listing "managed_configs"
    [(bool_decide (kind ≠ ""), "kind = $", VText kind)] "kind ASC, updated_at DESC" 0 in
  query_rows (wrapped "list managed configs") sql args
    (λ d, sort_slice config_before
            (filter (λ cfg, kind = "" ∨ ManagedConfig.Kind cfg = kind)
              (visit (order e) (rows (managed_configs d))))) r.

Definition config_not_found (kind id : string) : error :=
  Errorf "managed config not found: %s/%s" [AStr kind; AStr id].
Definition pg_GetManagedConfig (kind id : string) r : result ManagedConfig.t :=
  match query_row "SELECT managed_configs WHERE kind AND id" [VText kind; VText id]
          (λ d, managed_configs d !! (kind, id)) r with
  | Err err => Err (wrapped "get managed config" err)
  | Ok None => Err (config_not_found kind id)
  | Ok (Some cfg) => Ok cfg
  end.
Definition pg_DeleteManagedConfig (e : Reading) (kind id : string) : Op PostgresRepository unit := λ r,
  let '(res, r) := exec "DELETE FROM managed_configs WHERE kind AND id" [VText kind; VText id]
    (λ d, let '(n, cfgs) := delete_row (kind, id) (managed_configs d) in
          Ok (n, d <| managed_configs := cfgs |>)) r in
  (affected res (wrapped "delete managed config") (config_not_found kind id) tt, r).

(** ** Metrics *)
Definition count_rows {A} (what sql : string) (args : list value) (table : DB → list A)
    (P : A → bool) r : result Z :=
  match query_row ("SELECT COUNT(*) FROM " +:+ sql) args
          (λ d, Some (Z.of_nat (length (filter (λ x, P x = true) (table d))))) r with
  | Ok (Some n) => Ok n
  | Ok None => Err (wrapped what ErrNoRows)
  | Err err => Err (wrapped what err)
  end.
Definition has_status (status : JobStatus) (j : Job.t) : bool := bool_decide (Job.Status j = status).
Definition latencies (js : list Job.t) : list Z :=
  omap (λ j, (λ s, (s - Job.CreatedAt j)%Z) <$> Job.StartedAt j) js.

Definition pg_MetricsSnapshot (e : Reading) r : result MetricsSnapshot.t :=
  let count_jobs what status :=
    count_rows what "jobs WHERE status" [VText status] (λ d, rows (jobs d)) (has_status status) r in
  total ← count_rows "count jobs" "jobs" [] (λ d, rows (jobs d)) (λ _, true) r;
  success ← count_jobs "count successful jobs" JobStatusSuccess;
  failed ← count_jobs "count failed jobs" JobStatusFailed;
  waiting ← count_jobs "count waiting approval jobs" JobStatusWaitingApproval;
  let threshold := (now e - WorkerOnlineThreshold)%Z in
  online ← count_rows "count online workers" "workers WHERE last_heartbeat_at >=" [VTime threshold]
    (λ d, rows (workers d)) (λ w, (pg_time threshold <=? Worker.LastHeartbeatAt w)%Z) r;
  cases ← count_rows "count incident cases" "incident_cases" [] (λ d, rows (incident_cases d)) (λ _, true) r;
  let completed := (success + failed)%Z in
  let rate n := if (0 <? completed)%Z
                then float_div (float_of_Z n) (float_of_Z completed) else float_zero in
  match query_row "SELECT AVG(EXTRACT(EPOCH FROM started_at - created_at))" []
          (λ d, Some (latencies (rows (jobs d)))) r with
  | Err err => Err (wrapped "average schedule latency" err)
  | Ok l =>
      let l := default [] l in
      Ok (MetricsSnapshot.mk total success failed waiting online cases (rate success) (rate failed)
            (if decide (l = []) then float_zero else avg_epoch l))
  end.

(** ** Conversations *)
Definition conversation_not_found (id : string) : error :=
  Errorf "conversation not found: %s" [AStr id].

Definition pg_CreateConversation (e : Reading) (title : string)
    : Op PostgresRepository Conversation.t := λ r,
  let '(id, r) := genID "conv" r in
  let now := now e in
  let '(res, r) := exec "INSERT INTO conversations" [VText id; VText title; VTime now; VTime now]
    (λ d,
      cs ← insert_row "conversations_pkey" id
        (Conversation.mk id title (pg_time now) (pg_time now)) (conversations d);
      Ok (1%Z, d <| conversations := cs |>)) r in
  match res with
  | Err err => (Err (wrapped "create conversation" err), r)
  | Ok _ => (Ok (Conversation.mk id title now now), r)
  end.

Definition pg_GetConversation (id : string) r : result Conversation.t :=
  match query_row "SELECT conversations WHERE id" [VText id] (λ d, conversations d !! id) r with
  | Err err => Err (wrapped "get conversation" err)
  | Ok None => Err (conversation_not_found id)
  | Ok (Some c) => Ok c
  end.

Definition conversation_newer (x y : Conversation.t) : bool :=
  bool_decide (Conversation.UpdatedAt y < Conversation.UpdatedAt x)%Z.
Definition pg_ListConversations (e : Reading) r : result (list Conversation.t) :=
  query_rows (wrapped "list conversations") "SELECT conversations ORDER BY updated_at DESC" []
    (λ d, sort_slice conversation_newer (visit (order e) (rows (conversations d)))) r.

(** Its messages are deleted with it. *)
Definition pg_DeleteConversation (e : Reading) (id : string) : Op PostgresRepository unit := λ r,
  let '(res, r) := exec "DELETE FROM conversations WHERE id" [VText id]
    (λ d,
      let '(n, cs) := delete_row id (conversations d) in
      Ok (n, d <| conversations := cs |>
               <| conversation_messages :=
                    filter (λ m, ConversationMessage.ConversationID m.2 ≠ id)
                      (conversation_messages d) |>)) r in
  (affected res (wrapped "delete conversation") (conversation_not_found id) tt, r).

(** The clock of the database stamps the message; touching the conversation may
    fail unnoticed. *)
Definition pg_AddConversationMessage (e : Reading) (msg : ConversationMessage.t)
    : Op PostgresRepository unit := λ r,
  let id := ConversationMessage.ConversationID msg in
  let '(res, r) := exec "INSERT INTO conversation_messages"
    [VText id; VText (ConversationMessage.Role msg); VText (ConversationMessage.Content msg);
     VText (ConversationMessage.ToolName msg); VJsonAny (ConversationMessage.ToolData msg);
     VInteger (ConversationMessage.Step msg)]
    (λ d,
      data ← jsonb_any (ConversationMessage.ToolData msg);
      if decide (conversations d !! id = None) then
        Err (foreign_key_violation "conversation_messages" "conversation_messages_conversation_id_fkey")
      else
        let n := nextval (messages_seq d) in
        let row := msg <| ConversationMessage.ID := n |> <| ConversationMessage.ToolData := data |>
                       <| ConversationMessage.CreatedAt := pg_time (now e) |> in
        Ok (1%Z, d <| messages_seq := n |>
                   <| conversation_messages := <[n := row]> (conversation_messages d) |>)) r in
  match res with
  | Err err => (Err (wrapped "add conversation message" err), r)
  | Ok _ =>
      (Ok tt, exec_ignored "UPDATE conversations SET updated_at WHERE id" [VTime (later e); VText id]
        (λ d,
          let '(k, cs) := update_row id (λ _, true)
            (λ c, c <| Conversation.UpdatedAt := pg_time (later e) |>) (conversations d) in
          Ok (k, d <| conversations := cs |>)) r)
  end.

(** The rows under ascending identifiers. *)
Definition by_id {A} (m : gmap Z A) : list A :=
  (sort_slice (λ x y, bool_decide (x.1 < y.1)%Z) (map_to_list m)).*2.

Definition pg_ListConversationMessages (conversationID : string) r
    : result (list ConversationMessage.t) :=
  query_rows (wrapped "list conversation messages")
    "SELECT conversation_messages WHERE conversation_id ORDER BY id" [VText conversationID]
    (λ d, filter (λ m, ConversationMessage.ConversationID m = conversationID)
            (by_id (conversation_messages d))) r.

(** ** Agent runs *)
Definition run_not_found (id : string) : error := Errorf "agent run not found: %s" [AStr id].
Definition default_json (value b : bytes) : bytes := if decide (b = "") then value else b.

Definition pg_CreateAgentRun (e : Reading) (run : AgentRun.t) : Op PostgresRepository AgentRun.t := λ r,
  let '(run, r) :=
    if decide (AgentRun.ID run = "") then
      let '(id, r) := genID "run" r in (run <| AgentRun.ID := id |>, r)
    else (run, r) in
  let now := now e in
  let run := run <| AgentRun.CreatedAt := now |> <| AgentRun.UpdatedAt := now |>
                 <| AgentRun.Status := if decide (AgentRun.Status run = "")
                                       then AgentRunStatusQueued else AgentRun.Status run |>
                 <| AgentRun.Transcript := default_json "[]" (AgentRun.Transcript run) |> in
  let '(res, r) := exec "INSERT INTO agent_runs"
    [VText (AgentRun.ID run); VText (AgentRun.Input run); VText (AgentRun.ConversationID run);
     VText (AgentRun.Status run); VText (AgentRun.TraceID run); VText (AgentRun.PolicyVersion run);
     VText (AgentRun.PromptVersion run); VJson (AgentRun.Transcript run); VInteger (AgentRun.NextStep run);
     VText (AgentRun.Answer run); VText (AgentRun.Error run); VTime now; VTime now]
    (λ d,
      transcript ← jsonb_bytes (AgentRun.Transcript run);
      rs ← insert_row "agent_runs_pkey" (AgentRun.ID run)
        (run <| AgentRun.Transcript := transcript |> <| AgentRun.CreatedAt := pg_time now |>
             <| AgentRun.UpdatedAt := pg_time now |>) (agent_runs d);
      Ok (1%Z, d <| agent_runs := rs |>)) r in
  match res with
  | Err err => (Err (wrapped "create agent run" err), r)
  | Ok _ => (Ok run, r)
  end.

Definition pg_GetAgentRun (id : string) r : result AgentRun.t :=
  match query_row "SELECT agent_runs WHERE id" [VText id] (λ d, agent_runs d !! id) r with
  | Err err => Err (wrapped "get agent run" err)
  | Ok None => Err (run_not_found id)
  | Ok (Some run) => Ok run
  end.

Definition run_older (x y : AgentRun.t) : bool :=
  bool_decide (AgentRun.CreatedAt x < AgentRun.CreatedAt y)%Z.
Definition pg_ListAgentRunsByStatus (e : Reading) (statuses : list AgentRunStatus) r
    : result (list AgentRun.t) :=
  match statuses with
  | [] => Ok []
  | _ =>
      query_rows (wrapped "list agent runs") "SELECT agent_runs WHERE status IN ORDER BY created_at"
        (VText <$> statuses)
        (λ d, sort_slice run_older
                (filter (λ run, AgentRun.Status run ∈ statuses) (visit (order e) (rows (agent_runs d))))) r
  end.

Definition pg_UpdateAgentRun (e : Reading) (run : AgentRun.t) : Op PostgresRepository unit := λ r,
  let now := now e in
  let transcript := default_json "[]" (AgentRun.Transcript run) in
  let '(res, r) := exec "UPDATE agent_runs WHERE id"
    [VText (AgentRun.Status run); VJson transcript; VInteger (AgentRun.NextStep run);
     VText (AgentRun.Answer run); VText (AgentRun.Error run); VTime now; VText (AgentRun.ID run)]
    (λ d,
      transcript ← jsonb_bytes transcript;
      let '(n, rs) := update_row (AgentRun.ID run) (λ _, true)
        (λ old, old <| AgentRun.Status := AgentRun.Status run |> <| AgentRun.Transcript := transcript |>
                    <| AgentRun.NextStep := AgentRun.NextStep run |>
                    <| AgentRun.Answer := AgentRun.Answer run |> <| AgentRun.Error := AgentRun.Error run |>
                    <| AgentRun.UpdatedAt := pg_time now |>) (agent_runs d) in
      Ok (n, d <| agent_runs := rs |>)) r in
  (affected res (wrapped "update agent run") (run_not_found (AgentRun.ID run)) tt, r).

(** The statement returns the identifier it drew from the sequence. *)
Definition pg_AddAgentEvent (e : Reading) (event : AgentEvent.t)
    : Op PostgresRepository AgentEvent.t := λ r,
  let now := now e in
  let '(res, r) := exec "INSERT INTO agent_events RETURNING id"
    [VText (AgentEvent.RunID event); VInteger (AgentEvent.Step event); VText (AgentEvent.Type_ event);
     VText (AgentEvent.Name event); VJsonAny (AgentEvent.Data event); VTime now]
    (λ d,
      data ← jsonb_any (AgentEvent.Data event);
      if decide (agent_runs d !! AgentEvent.RunID event = None) then
        Err (foreign_key_violation "agent_events" "agent_events_run_id_fkey")
      else
        let n := nextval (events_seq d) in
        let row := event <| AgentEvent.ID := n |> <| AgentEvent.Data := data |>
                         <| AgentEvent.CreatedAt := pg_time now |> in
        Ok (n, d <| events_seq := n |> <| agent_events := <[n := row]> (agent_events d) |>)) r in
  match res with
  | Err err => (Err (wrapped "add agent event" err), r)
  | Ok n => (Ok (event <| AgentEvent.ID := n |> <| AgentEvent.CreatedAt := now |>), r)
  end.

Definition pg_ListAgentEvents (runID : string) (afterID : Z) r : result (list AgentEvent.t) :=
  query_rows (wrapped "list agent events") "SELECT agent_events WHERE run_id AND id > ORDER BY id"
    [VText runID; VInteger afterID]
    (λ d, filter (λ ev, AgentEvent.RunID ev = runID ∧ afterID < AgentEvent.ID ev)%Z
            (by_id (agent_events d))) r.

Definition pg_CreateAgentToolCall (e : Reading) (call : AgentToolCall.t)
    : Op PostgresRepository unit := λ r,
  let id := AgentToolCall.ID call in
  if decide (id = "") then (Err (new_error "tool call id is required"), r)
  else
    let arguments := default_json "{}" (AgentToolCall.Arguments call) in
    exec_error "INSERT INTO agent_tool_calls ON CONFLICT (id) DO NOTHING"
      [VText id; VText (AgentToolCall.RunID call); VInteger (AgentToolCall.Step call);
       VText (AgentToolCall.ToolName call); VJson arguments; VText (AgentToolCall.Status call);
       VTime (now e)]
      (λ d,
        arguments ← jsonb_bytes arguments;
        if decide (agent_tool_calls d !! id = None) then
          if decide (agent_runs d !! AgentToolCall.RunID call = None) then
            Err (foreign_key_violation "agent_tool_calls" "agent_tool_calls_run_id_fkey")
          else
            let row := AgentToolCall.mk id (AgentToolCall.RunID call) (AgentToolCall.Step call)
              (AgentToolCall.ToolName call) arguments "{}" "" (AgentToolCall.Status call)
              (pg_time (now e)) None in
            Ok (1%Z, d <| agent_tool_calls := <[id := row]> (agent_tool_calls d) |>)
        else Ok (0%Z, d)) r.

(** A call that is not there is no error. *)
Definition pg_CompleteAgentToolCall (e : Reading) (call : AgentToolCall.t)
    : Op PostgresRepository unit :=
  let id := AgentToolCall.ID call in
  let data := default_json "{}" (AgentToolCall.Result call) in
  exec_error "UPDATE agent_tool_calls WHERE id"
    [VJson data; VText (AgentToolCall.Error call); VText (AgentToolCall.Status call);
     VTime (now e); VText id]
    (λ d,
      data ← jsonb_bytes data;
      let '(n, calls) := update_row id (λ _, true)
        (λ old, old <| AgentToolCall.Result := data |> <| AgentToolCall.Error := AgentToolCall.Error call |>
                    <| AgentToolCall.Status := AgentToolCall.Status call |>
                    <| AgentToolCall.CompletedAt := Some (pg_time (now e)) |>) (agent_tool_calls d) in
      Ok (n, d <| agent_tool_calls := calls |>)).

(** ** The implementation of the interface *)
#[global] Instance postgres_repository : Repository PostgresRepository := {|
  RegisterWorker := pg_RegisterWorker;
  HeartbeatWorker := pg_HeartbeatWorker;
  GetWorker := pg_GetWorker;
  ListWorkers := pg_ListWorkers;
  UpdateWorkerStatus := pg_UpdateWorkerStatus;
  DeleteWorker := pg_DeleteWorker;
  CreateJob := pg_CreateJob;
  GetJob := pg_GetJob;
  ListJobs := pg_ListJobs;
  AssignNextJob := pg_AssignNextJob;
  AssignJobToWorkers := pg_AssignJobToWorkers;
  CompleteJob := pg_CompleteJob;
  DeleteJob := pg_DeleteJob;
  ListPendingApprovalJobs := pg_ListPendingApprovalJobs;
  ApproveJob := pg_ApproveJob;
  RejectJob := pg_RejectJob;
  AddAuditLog := pg_AddAuditLog;
  ListAuditLogs := pg_ListAuditLogs;
  UpsertIncidentCase := pg_UpsertIncidentCase;
  ListIncidentCases := pg_ListIncidentCases;
  FindSimilarIncidentCases := pg_FindSimilarIncidentCases;
  AddWorkerLog := pg_AddWorkerLog;
  SaveManagedConfig := pg_SaveManagedConfig;
  ListManagedConfigs := pg_ListManagedConfigs;
  GetManagedConfig := pg_GetManagedConfig;
  DeleteManagedConfig := pg_DeleteManagedConfig;
  CreateConversation := pg_CreateConversation;
  GetConversation := pg_GetConversation;
  ListConversations := pg_ListConversations;
  DeleteConversation := pg_DeleteConversation;
  AddConversationMessage := pg_AddConversationMessage;
  ListConversationMessages := pg_ListConversationMessages;
  CreateAgentRun := pg_CreateAgentRun;
  GetAgentRun := pg_GetAgentRun;
  ListAgentRunsByStatus := pg_ListAgentRunsByStatus;
  UpdateAgentRun := pg_UpdateAgentRun;
  AddAgentEvent := pg_AddAgentEvent;
  ListAgentEvents := pg_ListAgentEvents;
  CreateAgentToolCall := pg_CreateAgentToolCall;
  CompleteAgentToolCall := pg_CompleteAgentToolCall;
  GetMetrics := pg_MetricsSnapshot;
  CreatePlan := pg_CreatePlan;
  GetPlan := pg_GetPlan;
  UpdatePlan := pg_UpdatePlan;
  SaveJobYAML := pg_SaveJobYAML;
  ListJobYAMLs := pg_ListJobYAMLs;
  GetJobYAML := pg_GetJobYAML;
  DeleteJobYAML := pg_DeleteJobYAML;
  ListWorkerLogs := pg_ListWorkerLogs;
|}.

End repo.
End PostgresRepo.
