(* ===== verification/PostgresFacts.v ===== *)
(** * Properties of the PostgreSQL repository

    It satisfies the laws of the interface about jobs, so the server keeps its
    approval gate on a database too. *)
From S2P Require Import Prelude.
From S2P Require Import GoStrings.
From S2P Require Import Model.
From S2P Require Import Repository.
From S2P Require Import AuthFacts.
From S2P Require Import Database.
From S2P Require Import PostgresRepo.

Import Repository.

Module PostgresFacts.
Import Database PostgresRepo.

Section laws.
Context `{PG : Postgres}.
Implicit Types r : PostgresRepository.

(** ** Statements *)

(** A statement is refused, or it has its effect. *)
Lemma exec_inv sql args run r res r' :
  exec sql args run r = (res, r') →
  (is_ok res = false ∧ r' = r) ∨ ∃ n d, run (db r) = Ok (n, d) ∧ res = Ok n ∧ r' = r <| db := d |>.
Proof.
  unfold exec. destruct (refuses _ _ _); [intros [= <- <-]; by left|].
  destruct (run (db r)) as [[n d]|] eqn:Hrun; intros [= <- <-]; [right; eauto|by left].
Qed.

Lemma exec_ind (P : PostgresRepository → Prop) sql args run r :
  P r → (∀ n d, run (db r) = Ok (n, d) → P (r <| db := d |>)) → P (exec sql args run r).2.
Proof.
  intros H0 H1. destruct (exec sql args run r) as [res r'] eqn:He.
  destruct (exec_inv _ _ _ _ _ _ He) as [[_ ->]|(n & d & Hr & _ & ->)]; eauto.
Qed.

Lemma exec_error_ind (P : PostgresRepository → Prop) sql args run r :
  P r → (∀ n d, run (db r) = Ok (n, d) → P (r <| db := d |>)) → P (exec_error sql args run r).2.
Proof.
  intros H0 H1. unfold exec_error. pose proof (exec_ind P sql args run r H0 H1) as He.
  by destruct (exec sql args run r).
Qed.

(** ** Users

    The update of a password changes one row, and of it the hash and the time of
    the update only. *)
Definition user_rows r : gmap string (string * User.t) :=
  (λ u, (password u, User.mk (username u) (role u))) <$> users (db r).

Lemma update_password_row e name hash r :
  AuthFacts.same_but name snd (user_rows r) (user_rows (pg_UpdatePassword e name hash r).2).
Proof.
  intros k. unfold pg_UpdatePassword.
  match goal with |- context [exec ?sql ?args ?run r] => pose proof (exec_ind (λ r',
    if decide (k = name) then snd <$> user_rows r' !! k = snd <$> user_rows r !! k
    else user_rows r' !! k = user_rows r !! k) sql args run r) as Hind;
    destruct (exec sql args run r) as [res r1] end.
  apply Hind; [by case_decide|]. clear Hind. intros n d Hrun.
  unfold update_row in Hrun. destruct (users (db r) !! name) as [u|] eqn:Hu;
    injection Hrun as _ <-; [|by case_decide].
  unfold user_rows. simpl. rewrite !lookup_fmap. case_decide as Hk.
  - subst k. by rewrite lookup_insert_eq, Hu.
  - by rewrite lookup_insert_ne.
Qed.

#[global] Program Instance postgres_user_laws (e : Reading) :
  AuthFacts.UserStoreLaws PostgresRepository (H:=postgres_user_store e) :=
  { store_rows := user_rows; store_update_row := update_password_row e }.
Next Obligation.
  intros e name r row. simpl. unfold pg_GetUser, query_row. destruct (refuses _ _ _); [done|].
  unfold user_rows. rewrite lookup_fmap. destruct (users (db r) !! name); by intros [= <-].
Qed.

(** ** Jobs *)
Definition pg_jobs r : gmap string Job.t := scan_job <$> jobs (db r).
Definition pg_keys r : gmap string string := jobs_by_key (db r).

(** The statement changes no job. *)
Definition same_jobs (r r' : PostgresRepository) : Prop :=
  pg_jobs r' = pg_jobs r ∧ pg_keys r' = pg_keys r.

Lemma same_jobs_refl r : same_jobs r r.
Proof. done. Qed.
Lemma same_jobs_trans r1 r2 r3 : same_jobs r1 r2 → same_jobs r2 r3 → same_jobs r1 r3.
Proof. unfold same_jobs. intros [-> ->] [-> ->]. done. Qed.

Lemma pg_GetJob_jobs id r j : pg_GetJob id r = Ok j → pg_jobs r !! id = Some j.
Proof.
  unfold pg_GetJob, query_row, pg_jobs. destruct (refuses _ _ _); [done|].
  rewrite lookup_fmap. destruct (jobs (db r) !! id); [|done]. simpl. congruence.
Qed.

Lemma evolves_update f k (P : Job.t → bool) (g : Job.t → Job.t) r n js :
  update_row k P g (jobs (db r)) = (n, js) →
  (∀ j, Job.ID (g j) = Job.ID j) →
  (∀ j, jobs (db r) !! k = Some j → P j = true → f k (scan_job j) (scan_job (g j))) →
  evolves f (pg_jobs r) (scan_job <$> js).
Proof.
  unfold update_row, pg_jobs. intros Hu Hid Hf. destruct (jobs (db r) !! k) as [j|] eqn:Hj;
    [|simplify_eq; apply evolves_refl].
  destruct (P j) eqn:HP; simplify_eq; [|apply evolves_refl].
  intros k'. rewrite !lookup_fmap. destruct (decide (k = k')) as [<-|Hne].
  - right. rewrite lookup_insert_eq, Hj. simpl. eexists _, _.
    split; [done|]. split; [done|]. split; [exact (Hid j)|]. split; [done|]. by apply Hf.
  - left. by rewrite lookup_insert_ne.
Qed.

Lemma run_update_law f u id :
  (∀ j, Job.ID (update_change u j) = Job.ID j) →
  (∀ j, update_guard u j = true → f id (scan_job j) (scan_job (update_change u j))) →
  ∀ r, evolves f (pg_jobs r) (pg_jobs (run_update u id r).2) ∧ pg_keys (run_update u id r).2 = pg_keys r.
Proof.
  intros Hid Hf r. unfold run_update.
  apply (exec_ind (λ r', evolves f (pg_jobs r) (pg_jobs r') ∧ pg_keys r' = pg_keys r));
    [split; [apply evolves_refl|done]|].
  intros n d Hrun. destruct (update_row id _ _ (jobs (db r))) as [k js] eqn:Hu. simplify_eq.
  split; [|done]. by eapply evolves_update; eauto.
Qed.

Lemma update_job_state u id r : (update_job u id r).2 = (run_update u id r).2.
Proof. unfold update_job. destruct (run_update u id r) as [res r']. by destruct (affected _ _ _ _). Qed.

Lemma update_job_law f u id :
  (∀ j, Job.ID (update_change u j) = Job.ID j) →
  (∀ j, update_guard u j = true → f id (scan_job j) (scan_job (update_change u j))) →
  ∀ r, evolves f (pg_jobs r) (pg_jobs (update_job u id r).2) ∧ pg_keys (update_job u id r).2 = pg_keys r.
Proof. intros Hid Hf r. rewrite update_job_state. by apply run_update_law. Qed.

Lemma run_update_result u id r n r' :
  run_update u id r = (Ok n, r') → n ≠ 0%Z →
  ∃ j, jobs (db r) !! id = Some j ∧ update_guard u j = true ∧
    jobs (db r') = <[id := update_change u j]> (jobs (db r)).
Proof.
  intros He Hn. destruct (exec_inv _ _ _ _ _ _ He) as [[Hok _]|(m & d & Hrun & [= ->] & ->)]; [done|].
  unfold update_row in Hrun. destruct (jobs (db r) !! id) as [j|]; [|by injection Hrun as <- <-].
  destruct (update_guard u j) eqn:HP; injection Hrun as <- <-; [|done]. by exists j.
Qed.

Lemma update_job_result u id r j r' :
  update_job u id r = (Ok j, r') →
  pg_jobs r' !! id = Some j ∧ ∃ j0, update_guard u j0 = true ∧ j = scan_job (update_change u j0).
Proof.
  unfold update_job. destruct (run_update u id r) as [[n|err] r1] eqn:Hu; [|done].
  unfold affected. destruct (Z.eqb_spec n 0) as [|Hn]; [done|]. intros [= Hget <-].
  destruct (run_update_result _ _ _ _ _ Hu Hn) as (j0 & _ & HP & Hj).
  split; [by apply pg_GetJob_jobs|]. exists j0. split; [done|].
  apply pg_GetJob_jobs in Hget. unfold pg_jobs in Hget.
  rewrite lookup_fmap, Hj, lookup_insert_eq in Hget. by injection Hget as <-.
Qed.

(** *** Starting *)
Lemma start_job_evolves now w id r :
  evolves (started id) (pg_jobs r) (pg_jobs (start_job now w id r).2) ∧
  pg_keys (start_job now w id r).2 = pg_keys r.
Proof.
  unfold start_job. apply exec_ind; [split; [apply evolves_refl|done]|]. intros n d Hrun.
  destruct (update_row _ _ _ _) as [k js] eqn:Hu. simplify_eq. split; [|done].
  by eapply evolves_update; eauto.
Qed.

Lemma evolves_impl (f g : string → Job.t → Job.t → Prop) js js' :
  (∀ k j j', js !! k = Some j → f k j j' → g k j j') → evolves f js js' → evolves g js js'.
Proof. intros Hfg He k. destruct (He k) as [?|(j & j' & ?)]; [by left|right]. naive_solver. Qed.

Lemma next_job_waits it wt d id :
  next_job it wt d = Some id →
  ∃ j, jobs d !! id = Some j ∧ (Job.Status j = JobStatusQueued ∨ Job.Status j = JobStatusPending).
Proof.
  unfold next_job. intros Hh. apply fmap_Some in Hh as ([k j] & Hh & ->).
  assert ((k, j) ∈ filter (λ kj, waits_for wt kj.2) (visit it (map_to_list (jobs d)))) as Hin.
  { rewrite <-(elem_of_sort_slice job_earlier). destruct (sort_slice _ _); [done|].
    injection Hh as ->. by left. }
  apply list_elem_of_filter in Hin as [[Hw _] Hin]. apply elem_of_visit, elem_of_map_to_list in Hin. eauto.
Qed.

Lemma assign_next_law e w r :
  evolves next_started (pg_jobs r) (pg_jobs (pg_AssignNextJob e w r).2) ∧
  pg_keys (pg_AssignNextJob e w r).2 = pg_keys r.
Proof.
  assert (evolves next_started (pg_jobs r) (pg_jobs r) ∧ pg_keys r = pg_keys r) as Hr
    by (split; [apply evolves_refl|done]).
  unfold pg_AssignNextJob. destruct (get_worker _ _ r) as [wk|]; [|done].
  unfold query_row. destruct (refuses _ _ _); [done|].
  destruct (next_job _ _ (db r)) as [id|] eqn:Hn; [|done].
  destruct (next_job_waits _ _ _ _ Hn) as (j & Hj & Hst).
  pose proof (start_job_evolves (later e) w id r) as [He Hk].
  assert (evolves next_started (pg_jobs r) (pg_jobs (start_job (later e) w id r).2)) as He'.
  { eapply evolves_impl; [|exact He]. intros k j1 j2 Hj1 (-> & ? & ?).
    unfold pg_jobs in Hj1. rewrite lookup_fmap, Hj in Hj1. injection Hj1 as <-.
    split; [simpl; tauto|]. by split. }
  destruct (start_job _ _ _ r) as [[n|] r']; by split.
Qed.

Lemma assign_to_law e job id ws r :
  evolves (started id) (pg_jobs r) (pg_jobs (assign_to e job id ws r).2) ∧
  pg_keys (assign_to e job id ws r).2 = pg_keys r.
Proof.
  revert r. induction ws as [|w ws IH]; intros r; simpl; [split; [apply evolves_refl|done]|].
  destruct (get_worker _ _ r) as [wk|]; [|split; [apply evolves_refl|done]].
  destruct (negb _); [split; [apply evolves_refl|done]|].
  pose proof (start_job_evolves (now e) w id r) as [He Hk].
  destruct (start_job _ _ _ r) as [[n|] r']; [|by split]. destruct (IH r') as [He' Hk'].
  simpl in He, Hk. split; [|congruence]. eapply evolves_trans; [|exact He|exact He'].
  unfold started, same_approval. intros k j1 j2 j3 (-> & _ & ? & ?) (_ & ? & ? & ?).
  repeat split; congruence.
Qed.

Lemma assign_result e id w r u r' :
  pg_AssignJobToWorkers e id [w] r = (Ok u, r') →
  ∃ j, pg_jobs r' !! id = Some j ∧ Job.Status j = JobStatusRunning ∧ Job.AssignedWorkerID j = w.
Proof.
  unfold pg_AssignJobToWorkers. destruct (pg_GetJob id r) as [job|] eqn:Hget; [|done]. simpl.
  destruct (get_worker _ _ r) as [wk|]; [|done]. destruct (negb _); [done|]. unfold start_job.
  destruct (exec _ _ _ r) as [res r1] eqn:He.
  destruct (exec_inv _ _ _ _ _ _ He) as [[Hok ->]|(n & d & Hrun & -> & ->)]; [by destruct res|].
  intros [= _ <-]. apply pg_GetJob_jobs in Hget. unfold pg_jobs in Hget |- *.
  rewrite lookup_fmap in Hget. unfold update_row in Hrun.
  destruct (jobs (db r) !! id) as [j|]; [|done]. injection Hrun as <- <-. simpl.
  rewrite lookup_fmap, lookup_insert_eq. by eexists.
Qed.

(** *** Creation *)
Lemma insert_job_row_spec job d n d' :
  insert_job_row job d = Ok (n, d') →
  ∃ params, jobs d !! Job.ID job = None ∧
    (Job.IdempotencyKey job = "" ∨ jobs_by_key d !! Job.IdempotencyKey job = None) ∧
    jobs d' = <[Job.ID job := job_row params job]> (jobs d) ∧
    jobs_by_key d' = (if decide (Job.IdempotencyKey job = "") then jobs_by_key d
                      else <[Job.IdempotencyKey job := Job.ID job]> (jobs_by_key d)).
Proof.
  unfold insert_job_row, insert_row. destruct (jsonb_strings _) as [params|]; [|done].
  simpl. destruct (jobs d !! Job.ID job) eqn:Hj; [done|]. simpl.
  case_decide; [intros [= _ <-]; exists params; auto|].
  destruct (jobs_by_key d !! Job.IdempotencyKey job); [done|]. simpl. intros [= _ <-]. exists params; auto.
Qed.

Lemma created_as_row now id job params :
  created_as job (scan_job (job_row params (fill_job now id job))).
Proof. split_and!; [done|done| |by left]. simpl. intros Hne. by rewrite decide_False. Qed.

Lemma find_key_fresh key r : pg_keys r !! key = None → ∀ id, find_key key r ≠ Ok (Some id).
Proof. unfold find_key, query_row, pg_keys. intros Hk id. destruct (refuses _ _ _); [done|]. congruence. Qed.

Lemma create_new_job_law now j r res r' :
  (Job.IdempotencyKey j = "" ∨ pg_keys r !! Job.IdempotencyKey j = None) →
  create_new_job now j r = (res, r') →
  (is_ok res = false ∧ same_jobs r r') ∨
  ∃ j0 j', res = Ok j0 ∧ Job.ID j' = Job.ID j0 ∧ created_as j j' ∧
    pg_jobs r' = <[Job.ID j' := j']> (pg_jobs r) ∧
    pg_keys r' = if decide (Job.IdempotencyKey j = "") then pg_keys r
                 else <[Job.IdempotencyKey j := Job.ID j']> (pg_keys r).
Proof.
  intros Hfresh. unfold create_new_job, genID. set (id := make_id _ _). set (r0 := r <| nextID := _ |>).
  set (job := fill_job now id j). unfold insert_job.
  destruct (exec _ _ _ r0) as [ires r1] eqn:He.
  destruct (exec_inv _ _ _ _ _ _ He) as [[Hok ->]|(n & d & Hrun & -> & ->)].
  - destruct ires as [|err]; [done|]. intros H. left.
    assert ((res, r') = (Err (wrapped "create job" err), r0) ∨ False) as [Heq|[]]; [|by simplify_eq].
    case_decide; [by left|]. destruct Hfresh as [?|Hk]; [done|]. left.
    pose proof (find_key_fresh (Job.IdempotencyKey job) r0 Hk) as Hf.
    destruct (find_key _ r0) as [[x|]|]; [by destruct (Hf x)|done..].
  - intros [= <- <-]. right. apply insert_job_row_spec in Hrun as (params & _ & _ & Hj & Hk).
    exists job, (scan_job (job_row params job)). split; [done|]. split; [done|].
    split; [apply created_as_row|]. unfold pg_jobs, pg_keys. simpl. rewrite Hj, Hk.
    by rewrite fmap_insert.
Qed.

Lemma create_job_law e j r res r' :
  (Job.IdempotencyKey j = "" ∨ pg_keys r !! Job.IdempotencyKey j = None) →
  pg_CreateJob e j r = (res, r') →
  (is_ok res = false ∧ same_jobs r r') ∨
  ∃ j0 j', res = Ok j0 ∧ Job.ID j' = Job.ID j0 ∧ created_as j j' ∧
    pg_jobs r' = <[Job.ID j' := j']> (pg_jobs r) ∧
    pg_keys r' = if decide (Job.IdempotencyKey j = "") then pg_keys r
                 else <[Job.IdempotencyKey j := Job.ID j']> (pg_keys r).
Proof.
  intros Hfresh. assert (pg_CreateJob e j r = create_new_job (now e) j r ∨
    ∃ err, pg_CreateJob e j r = (Err err, r)) as [-> |[err ->]].
  - unfold pg_CreateJob. case_decide as Hk; [by left|]. destruct Hfresh as [?|Hf]; [done|].
    pose proof (find_key_fresh _ r Hf) as Hnf.
    destruct (find_key _ r) as [[x|]|]; [by destruct (Hnf x)|by left|right; eauto].
  - by apply create_new_job_law.
  - intros [= <- <-]. by left.
Qed.

Lemma create_job_replay e j r id :
  Job.IdempotencyKey j ≠ "" → pg_keys r !! Job.IdempotencyKey j = Some id →
  ∃ res, pg_CreateJob e j r = (res, r) ∧ (res = pg_GetJob id r ∨ is_ok res = false).
Proof.
  intros Hk Hid. unfold pg_CreateJob, find_key, query_row, pg_keys in *. rewrite decide_False by done.
  destruct (refuses _ _ _); [eauto|]. rewrite Hid. eauto.
Qed.

Lemma remove_job_law id r :
  let r' := (remove_job id r).2 in
  same_jobs r r' ∨
  (pg_jobs r' = delete id (pg_jobs r) ∧
   (∀ k v, pg_keys r !! k = Some v → v ≠ id → pg_keys r' !! k = Some v) ∧
   ∀ k v, pg_keys r' !! k = Some v → pg_keys r !! k = Some v).
Proof.
  simpl. unfold remove_job. apply exec_error_ind; [by left|]. intros n d Hrun. right.
  assert (∃ n js, delete_row id (jobs (db r)) = (n, js) ∧ js = delete id (jobs (db r))) as (m & js & Hd & Hjs).
  { unfold delete_row. destruct (jobs (db r) !! id) eqn:Hj; [by eauto|]. eexists _, _. split; [done|].
    by rewrite delete_id. }
  rewrite Hd in Hrun. injection Hrun as <- <-. unfold pg_jobs, pg_keys. simpl.
  split_and!; [by rewrite Hjs, fmap_delete| |].
  - intros k v Hk Hv. by apply map_lookup_filter_Some.
  - intros k v Hk. by apply map_lookup_filter_Some in Hk as [? _].
Qed.

Lemma delete_job_law e id r :
  let r' := (pg_DeleteJob e id r).2 in
  same_jobs r r' ∨
  (pg_jobs r' = delete id (pg_jobs r) ∧
   (∀ k v, pg_keys r !! k = Some v → v ≠ id → pg_keys r' !! k = Some v) ∧
   ∀ k v, pg_keys r' !! k = Some v → pg_keys r !! k = Some v).
Proof.
  simpl. unfold pg_DeleteJob. destruct (pg_GetJob id r) as [job|]; [|by left].
  case_decide; [|by left]. apply remove_job_law.
Qed.

(** *** Operations on other tables *)
Lemma exec_same_jobs sql args run r :
  (∀ n d, run (db r) = Ok (n, d) → jobs d = jobs (db r) ∧ jobs_by_key d = jobs_by_key (db r)) →
  same_jobs r (exec sql args run r).2.
Proof.
  intros Hrun. apply exec_ind; [done|]. intros n d Hd. destruct (Hrun _ _ Hd) as [Hj Hk].
  unfold same_jobs, pg_jobs, pg_keys. simpl. by rewrite Hj, Hk.
Qed.

End laws.

(** Proves that an operation leaves the jobs alone, statement by statement. *)
Ltac run_same_jobs :=
  intros ?n ?d; unfold mbind, result_bind, insert_row, update_row, delete_row;
  repeat (case_match; simpl; try discriminate); intros [= <- <-]; done.
Ltac same_jobs :=
  unfold exec_error;
  repeat first
    [ done
    | solve [eapply same_jobs_trans; eassumption]
    | match goal with
      | |- context [exec ?s ?a ?f ?r] =>
          let H := fresh in
          assert (same_jobs r (exec s a f r).2) as H by (apply exec_same_jobs; simpl; run_same_jobs);
          destruct (exec s a f r) as [?res ?r']; simpl in H
      end
    | match goal with H : (_, _) = (_, _) |- _ => injection H as <- <- end
    | progress simpl
    | case_match ].

#[global] Program Instance postgres_job_laws `{PG : Postgres} : JobLaws PostgresRepository :=
  {| jobs_of := pg_jobs; keys_of := pg_keys |}.
Next Obligation. intros PG id r j. apply pg_GetJob_jobs. Qed.
Next Obligation. intros PG e j r res r' Hf Hc. exact (create_job_law e j r res r' Hf Hc). Qed.
Next Obligation. intros PG e j r id Hk Hid. by apply create_job_replay. Qed.
Next Obligation. intros PG e w r. apply assign_next_law. Qed.
Next Obligation.
  intros PG e id ws r. simpl. unfold pg_AssignJobToWorkers.
  destruct (pg_GetJob id r); [apply assign_to_law|split; [apply evolves_refl|done]].
Qed.
Next Obligation. intros PG e id w r u r'. apply assign_result. Qed.
Next Obligation.
  intros PG e w id out success. unfold pg_CompleteJob. simpl. unfold pg_CompleteJob.
  apply update_job_law; [done|]. intros j _. repeat split. simpl. destruct success; set_solver.
Qed.
Next Obligation. intros PG e id r. apply delete_job_law. Qed.
Next Obligation.
  intros PG e id by_ comment. simpl. unfold pg_ApproveJob.
  apply update_job_law; [done|]. intros j Hj%bool_decide_eq_true. by repeat split.
Qed.
Next Obligation.
  intros PG e id by_ comment r j r' H. simpl in H. unfold pg_ApproveJob in H.
  apply update_job_result in H as (Hj & j0 & _ & ->). by repeat split.
Qed.
Next Obligation.
  intros PG e id by_ reason. simpl. unfold pg_RejectJob.
  apply update_job_law; [done|]. intros j Hj%bool_decide_eq_true. by repeat split.
Qed.
Next Obligation.
  intros PG e name wt r. simpl. unfold pg_RegisterWorker, exec_ignored, genID. same_jobs.
Qed.
Next Obligation. intros PG e id info r. simpl. unfold pg_HeartbeatWorker. same_jobs. Qed.
Next Obligation. intros PG e id st r. simpl. unfold pg_UpdateWorkerStatus. same_jobs. Qed.
Next Obligation. intros PG e id r. simpl. unfold pg_DeleteWorker. same_jobs. Qed.
Next Obligation. intros PG e entry r. simpl. unfold pg_AddAuditLog, genID. same_jobs. Qed.
Next Obligation. intros PG e p c r. simpl. unfold pg_UpsertIncidentCase, genID. same_jobs. Qed.
Next Obligation. intros PG e entry r. simpl. unfold pg_AddWorkerLog. same_jobs. Qed.
Next Obligation. intros PG e c r. simpl. unfold pg_SaveManagedConfig, genID. same_jobs. Qed.
Next Obligation. intros PG e k id r. simpl. unfold pg_DeleteManagedConfig. same_jobs. Qed.
Next Obligation. intros PG e t r. simpl. unfold pg_CreateConversation, genID. same_jobs. Qed.
Next Obligation. intros PG e id r. simpl. unfold pg_DeleteConversation. same_jobs. Qed.
Next Obligation. intros PG e m r. simpl. unfold pg_AddConversationMessage, exec_ignored. same_jobs. Qed.
Next Obligation. intros PG e run r. simpl. unfold pg_CreateAgentRun, genID. same_jobs. Qed.
Next Obligation. intros PG e run r. simpl. unfold pg_UpdateAgentRun. same_jobs. Qed.
Next Obligation. intros PG e ev r. simpl. unfold pg_AddAgentEvent. same_jobs. Qed.
Next Obligation. intros PG e c r. simpl. unfold pg_CreateAgentToolCall. same_jobs. Qed.
Next Obligation. intros PG e c r. simpl. unfold pg_CompleteAgentToolCall. same_jobs. Qed.


(** ** A concrete database

    Times in microseconds, JSON as it is, nothing refused. *)
Definition demo_postgres : Postgres := {|
  pg_time t := (t / 1000 * 1000)%Z;
  jsonb_strings m := Ok m; jsonb_any m := Ok m; jsonb_steps l := Ok l; jsonb_bytes b := Ok b;
  ilike _ _ := false; text_before := str_lt; avg_epoch _ := float_zero; nextval n := (n + 1)%Z;
  refuses _ _ _ := None; interrupts _ _ _ := None;
|}.
Definition demo_law : @PostgresLaw demo_postgres := λ n, Z.lt_succ_diag_r n.
Definition demo_reading : Reading := mkReading 1500 2500 iter_default.

Section demo.
#[local] Existing Instance demo_postgres.

(** The selection of the next job and its start are two statements, and the
    second one does not look at the status: two workers start the same
    job. *)
Example assign_next_race :
  let job := Job.zero <| Job.WorkerType := "shell" |> <| Job.Command := "df" |> in
  let r := (pg_CreateJob demo_reading job (mkPostgres Database.empty 0)).2 in
  next_job iter_default "shell" (db r) = Some "job-000001" ∧
  (let '(res1, r) := start_job 2000 "worker-a" "job-000001" r in
   let '(res2, r) := start_job 3000 "worker-b" "job-000001" r in
   res1 = Ok 1%Z ∧ res2 = Ok 1%Z ∧ Job.AssignedWorkerID <$> jobs (db r) !! "job-000001" = Some "worker-b").
Proof. vm_compute. done. Qed.

(** A table with an identifier whose digits are no [BIGINT] is left out of the
    seed: the next generated identifier is in use, and the row it belongs to
    is overwritten. *)
Example seed_skips_table :
  let cfg id yaml := ManagedConfig.zero <| ManagedConfig.ID := id |> <| ManagedConfig.Kind := "policy" |>
                       <| ManagedConfig.YAMLContent := yaml |> in
  let r := (pg_SaveManagedConfig demo_reading (cfg "" "first") (mkPostgres Database.empty 0)).2 in
  let r := (pg_SaveManagedConfig demo_reading (cfg "day-20240131235959999999" "second") r).2 in
  let r := seedCounter (mkPostgres (db r) 0) in
  let r' := (pg_SaveManagedConfig demo_reading (cfg "" "third") r).2 in
  (ManagedConfig.YAMLContent <$> managed_configs (db r) !! ("policy", "cfg-000001")) = Some "first" ∧
  (ManagedConfig.YAMLContent <$> managed_configs (db r') !! ("policy", "cfg-000001")) = Some "third".
Proof. vm_compute. done. Qed.

(** What creation returns carries the key; what is read back does not. *)
Example key_not_read_back :
  let job := Job.zero <| Job.IdempotencyKey := "k" |> in
  let '(res, r) := pg_CreateJob demo_reading job (mkPostgres Database.empty 0) in
  (match res with Ok j => Job.IdempotencyKey j | Err _ => "" end) = "k" ∧
  (match pg_GetJob "job-000001" r with Ok j => Job.IdempotencyKey j | Err _ => "none" end) = "".
Proof. vm_compute. done. Qed.
End demo.

End PostgresFacts.
