(* ===== verification/PostgresWf.v ===== *)
(** * The integrity of the database

    Every operation of the PostgreSQL repository keeps the tables consistent:
    rows under their primary keys, the index of idempotency keys, references
    between tables, sequences ahead of their rows. *)
From S2P Require Import Prelude.
From S2P Require Import GoStrings.
From S2P Require Import Model.
From S2P Require Import Repository.
From S2P Require Import Database.
From S2P Require Import PostgresRepo.
From S2P Require Import PostgresFacts.

Import Repository.

Module PostgresWf.
Import Database PostgresRepo PostgresFacts.

(** ** Tables *)
Section tables.
Context {K A : Type} `{Countable K}.
Implicit Types m : gmap K A.

(** Rows are stored under their primary keys. *)
Definition keyed (f : A → K) m : Prop := map_Forall (λ k x, f x = k) m.

Lemma keyed_empty f : keyed f ∅.
Proof. apply map_Forall_empty. Qed.
Lemma keyed_insert f k x m : keyed f m → f x = k → keyed f (<[k := x]> m).
Proof. intros. by apply map_Forall_insert_2. Qed.
Lemma keyed_update f k x y m :
  keyed f m → m !! k = Some x → f y = f x → keyed f (<[k := y]> m).
Proof. intros Hm Hk Hg. apply keyed_insert; [done|]. rewrite Hg. by apply Hm. Qed.
Lemma keyed_delete f k m : keyed f m → keyed f (delete k m).
Proof. apply map_Forall_delete. Qed.
Lemma keyed_filter f (P : K * A → Prop) `{!∀ x, Decision (P x)} m : keyed f m → keyed f (filter P m).
Proof. intros Hm k x [Hk _]%map_lookup_filter_Some. by apply Hm. Qed.

(** Rows refer to rows of another table. *)
Definition refers {B} (f : A → string) (target : gmap string B) m : Prop :=
  map_Forall (λ _ x, is_Some (target !! f x)) m.

Lemma refers_empty {B} f (t : gmap string B) : refers f t ∅.
Proof. apply map_Forall_empty. Qed.
Lemma refers_insert {B} f (t : gmap string B) k x m :
  refers f t m → t !! f x ≠ None → refers f t (<[k := x]> m).
Proof. intros Hm Hx. apply map_Forall_insert_2; [|done]. by apply not_eq_None_Some. Qed.
Lemma refers_update {B} f (t : gmap string B) k x y m :
  refers f t m → m !! k = Some x → f y = f x → refers f t (<[k := y]> m).
Proof.
  intros Hm Hk Hg. apply map_Forall_insert_2; [|done]. rewrite Hg. by apply (Hm k).
Qed.
Lemma refers_target {B} f (t : gmap string B) k y m : refers f t m → refers f (<[k := y]> t) m.
Proof.
  intros Hm k' x Hx. destruct (decide (k = f x)) as [->|Hne].
  - rewrite lookup_insert_eq. by eexists.
  - rewrite lookup_insert_ne by done. by apply (Hm k').
Qed.
Lemma refers_delete {B} f (t : gmap string B) k m :
  refers f t m → refers f (delete k t) (filter (λ e, f e.2 ≠ k) m).
Proof.
  intros Hm k' x [Hx Hne]%map_lookup_filter_Some. rewrite lookup_delete_ne by (by intros ->).
  by apply (Hm k').
Qed.
End tables.

(** Numbered rows are behind the sequence of their table. *)
Definition behind {A} (seq : Z) (m : gmap Z A) : Prop := map_Forall (λ n _, (n ≤ seq)%Z) m.
Lemma behind_empty {A} seq : behind (A:=A) seq ∅.
Proof. apply map_Forall_empty. Qed.
Lemma behind_insert {A} `{PostgresLaw} seq (x : A) m :
  behind seq m → behind (nextval seq) (<[nextval seq := x]> m).
Proof.
  intros Hm. pose proof (nextval_increases seq). apply map_Forall_insert_2; [done|].
  intros n y Hy. specialize (Hm n y Hy). simpl in *. lia.
Qed.
Lemma behind_filter {A} (P : Z * A → Prop) `{!∀ x, Decision (P x)} seq m :
  behind seq m → behind seq (filter P m).
Proof. intros Hm k x [Hk _]%map_lookup_filter_Some. by apply (Hm k x). Qed.

(** ** The database *)

(** The index has an entry for each keyed job, and no other one. *)
Definition indexed (js : gmap string Job.t) (ks : gmap string string) : Prop :=
  (∀ id j, js !! id = Some j → Job.IdempotencyKey j ≠ "" → ks !! Job.IdempotencyKey j = Some id) ∧
  (∀ k id, ks !! k = Some id → ∃ j, js !! id = Some j ∧ Job.IdempotencyKey j = k).

Record wf (d : DB) : Prop := {
  wf_users : keyed username (users d);
  wf_workers : keyed Worker.ID (workers d);
  wf_jobs : keyed Job.ID (jobs d);
  wf_index : indexed (jobs d) (jobs_by_key d);
  wf_plans : keyed DiagnosisPlan.ID (diagnosis_plans d);
  wf_audit : keyed AuditLog.ID (audit_logs d);
  wf_cases : keyed IncidentCase.ID (incident_cases d);
  wf_yamls : keyed JobYAML.ID (job_yamls d);
  wf_logs : keyed WorkerLog.ID (worker_logs d) ∧ behind (worker_logs_seq d) (worker_logs d);
  wf_configs : keyed (λ c, (ManagedConfig.Kind c, ManagedConfig.ID c)) (managed_configs d);
  wf_conversations : keyed Conversation.ID (conversations d);
  wf_messages : keyed ConversationMessage.ID (conversation_messages d) ∧
    behind (messages_seq d) (conversation_messages d) ∧
    refers ConversationMessage.ConversationID (conversations d) (conversation_messages d);
  wf_runs : keyed AgentRun.ID (agent_runs d);
  wf_events : keyed AgentEvent.ID (agent_events d) ∧ behind (events_seq d) (agent_events d) ∧
    refers AgentEvent.RunID (agent_runs d) (agent_events d);
  wf_calls : keyed AgentToolCall.ID (agent_tool_calls d) ∧
    refers AgentToolCall.RunID (agent_runs d) (agent_tool_calls d);
}.

Lemma wf_empty : wf Database.empty.
Proof.
  constructor; simpl; split_and?; auto using keyed_empty, refers_empty, behind_empty.
  split; intros ? ?; rewrite lookup_empty; done.
Qed.

(** *** The index *)
Lemma indexed_insert (js : gmap string Job.t) ks id j :
  indexed js ks → js !! id = None → Job.IdempotencyKey j = "" → indexed (<[id := j]> js) ks.
Proof.
  intros [H1 H2] Hid Hk. split.
  - intros id' j' [[-> ->]|[Hne Hj']]%lookup_insert_Some Hn; [done|]. by apply H1.
  - intros k id' Hks. destruct (H2 k id' Hks) as (j' & Hj' & Hk'). exists j'. split; [|done].
    rewrite lookup_insert_ne; [done|]. congruence.
Qed.

Lemma indexed_insert_key (js : gmap string Job.t) ks id j k :
  indexed js ks → js !! id = None → ks !! k = None → Job.IdempotencyKey j = k → k ≠ "" →
  indexed (<[id := j]> js) (<[k := id]> ks).
Proof.
  intros [H1 H2] Hid Hks Hk Hne. split.
  - intros id' j' [[-> ->]|[Hid' Hj']]%lookup_insert_Some Hn; [by rewrite Hk, lookup_insert_eq|].
    rewrite lookup_insert_ne; [by apply H1|]. intros ->. specialize (H1 id' j' Hj' Hn). congruence.
  - intros k' id' [[<- <-]|[Hk' Hk2]]%lookup_insert_Some.
    + exists j. by rewrite lookup_insert_eq.
    + destruct (H2 k' id' Hk2) as (j' & Hj' & ?). exists j'. split; [|done].
      rewrite lookup_insert_ne; [done|]. congruence.
Qed.

Lemma indexed_update (js : gmap string Job.t) ks id j j2 :
  indexed js ks → js !! id = Some j → Job.IdempotencyKey j2 = Job.IdempotencyKey j →
  indexed (<[id := j2]> js) ks.
Proof.
  intros [H1 H2] Hid Hg. split.
  - intros id' j' [[-> <-]|[Hne Hj']]%lookup_insert_Some Hn; [rewrite Hg in *|]; by apply H1.
  - intros k id' Hks. destruct (H2 k id' Hks) as (j' & Hj' & Hk').
    destruct (decide (id = id')) as [<-|Hne].
    + exists j2. rewrite lookup_insert_eq. split; [done|]. congruence.
    + exists j'. by rewrite lookup_insert_ne.
Qed.

Lemma indexed_delete (js : gmap string Job.t) ks id :
  indexed js ks → indexed (delete id js) (filter (λ kv, kv.2 ≠ id) ks).
Proof.
  intros [H1 H2]. split.
  - intros id' j' [Hne Hj']%lookup_delete_Some Hn. apply map_lookup_filter_Some. split; [by apply H1|].
    by simpl.
  - intros k id' [Hks Hne]%map_lookup_filter_Some. destruct (H2 k id' Hks) as (j & Hj & Hk).
    exists j. by rewrite lookup_delete_ne by (by intros ->).
Qed.

(** ** Operations *)
Create HintDb wf.
#[local] Hint Resolve keyed_insert refers_insert refers_delete keyed_delete keyed_filter refers_target behind_insert
  behind_filter indexed_delete : wf.
#[local] Hint Extern 2 (keyed _ (<[_ := _]> _)) => eapply keyed_update; [|eassumption|] : wf.
#[local] Hint Extern 2 (refers _ _ (<[_ := _]> _)) => eapply refers_update; [|eassumption|] : wf.
#[local] Hint Extern 2 (indexed (<[_ := _]> _) _) => eapply indexed_update; [|eassumption|] : wf.

Section operations.
Context `{PG : Postgres} `{!PostgresLaw}.
Implicit Types r : PostgresRepository.

(** The operations that write, as changes of the repository. *)
Inductive mutation : (PostgresRepository → PostgresRepository) → Prop :=
  | mut_CreateUser e u h ro : mutation (λ r, (pg_CreateUser e u h ro r).2)
  | mut_DeleteUser u : mutation (λ r, (pg_DeleteUser u r).2)
  | mut_UpdatePassword e u h : mutation (λ r, (pg_UpdatePassword e u h r).2)
  | mut_RegisterWorker e n t : mutation (λ r, (pg_RegisterWorker e n t r).2)
  | mut_HeartbeatWorker e id i : mutation (λ r, (pg_HeartbeatWorker e id i r).2)
  | mut_UpdateWorkerStatus e id st : mutation (λ r, (pg_UpdateWorkerStatus e id st r).2)
  | mut_DeleteWorker e id : mutation (λ r, (pg_DeleteWorker e id r).2)
  | mut_CreateJob e j : mutation (λ r, (pg_CreateJob e j r).2)
  | mut_AssignNextJob e w : mutation (λ r, (pg_AssignNextJob e w r).2)
  | mut_AssignJobToWorkers e id ws : mutation (λ r, (pg_AssignJobToWorkers e id ws r).2)
  | mut_CompleteJob e w id out ok : mutation (λ r, (pg_CompleteJob e w id out ok r).2)
  | mut_DeleteJob e id : mutation (λ r, (pg_DeleteJob e id r).2)
  | mut_ApproveJob e id u c : mutation (λ r, (pg_ApproveJob e id u c r).2)
  | mut_RejectJob e id u c : mutation (λ r, (pg_RejectJob e id u c r).2)
  | mut_CreatePlan e p : mutation (λ r, (pg_CreatePlan e p r).2)
  | mut_UpdatePlan e id p : mutation (λ r, (pg_UpdatePlan e id p r).2)
  | mut_AddAuditLog e l : mutation (λ r, (pg_AddAuditLog e l r).2)
  | mut_UpsertIncidentCase e p c : mutation (λ r, (pg_UpsertIncidentCase e p c r).2)
  | mut_SaveJobYAML e y : mutation (λ r, (pg_SaveJobYAML e y r).2)
  | mut_DeleteJobYAML e id : mutation (λ r, (pg_DeleteJobYAML e id r).2)
  | mut_AddWorkerLog e l : mutation (λ r, (pg_AddWorkerLog e l r).2)
  | mut_SaveManagedConfig e c : mutation (λ r, (pg_SaveManagedConfig e c r).2)
  | mut_DeleteManagedConfig e k id : mutation (λ r, (pg_DeleteManagedConfig e k id r).2)
  | mut_CreateConversation e t : mutation (λ r, (pg_CreateConversation e t r).2)
  | mut_DeleteConversation e id : mutation (λ r, (pg_DeleteConversation e id r).2)
  | mut_AddConversationMessage e m : mutation (λ r, (pg_AddConversationMessage e m r).2)
  | mut_CreateAgentRun e run : mutation (λ r, (pg_CreateAgentRun e run r).2)
  | mut_UpdateAgentRun e run : mutation (λ r, (pg_UpdateAgentRun e run r).2)
  | mut_AddAgentEvent e ev : mutation (λ r, (pg_AddAgentEvent e ev r).2)
  | mut_CreateAgentToolCall e c : mutation (λ r, (pg_CreateAgentToolCall e c r).2)
  | mut_CompleteAgentToolCall e c : mutation (λ r, (pg_CompleteAgentToolCall e c r).2).

(** A statement that keeps the database consistent. *)
Definition keeps (run : DB → result (Z * DB)) : Prop :=
  ∀ d n d', wf d → run d = Ok (n, d') → wf d'.

(** Follows a statement through its cases; what it leaves of the invariant is
    about the table it changes. *)
Ltac keep_wf :=
  intros ?d ?n ?d' ?Hd; unfold mbind, result_bind, insert_row, update_row, delete_row;
  repeat (case_match; simplify_eq/=; try discriminate); try (intros [= <- <-]); try done;
  destruct Hd; constructor; simpl; destruct_and?; split_and?; eauto with wf.

Lemma exec_wf sql args run r : keeps run → wf (db r) → wf (db (exec sql args run r).2).
Proof. intros Hk Hr. apply exec_ind; [done|]. intros n d Hd. by eapply Hk. Qed.

Lemma delete_row_delete {K A} `{Countable K} (k : K) (m : gmap K A) :
  (delete_row k m).2 = delete k m.
Proof. unfold delete_row. destruct (m !! k) eqn:Hk; [done|]. simpl. by rewrite delete_id. Qed.

Lemma start_job_wf now w id r : wf (db r) → wf (db (start_job now w id r).2).
Proof.
  intros Hr. apply exec_wf; [|done]. keep_wf.
Qed.
(** Follows an operation through its statements. *)
Ltac op_wf :=
  unfold exec_error, exec_ignored, genID;
  repeat first
    [ done
    | match goal with H : (_, _) = (_, _) |- _ => injection H as <- <- end
    | match goal with
      | |- context [exec ?s ?a ?f ?r] =>
          let Hw := fresh "Hwf" in
          assert (wf (db (exec s a f r).2)) as Hw by (apply exec_wf; [keep_wf|assumption]);
          destruct (exec s a f r) as [?res ?r']; simpl in Hw
      end
    | progress simpl
    | case_match ].

Lemma run_update_wf u id r :
  (∀ j, Job.ID (update_change u j) = Job.ID j) →
  (∀ j, Job.IdempotencyKey (update_change u j) = Job.IdempotencyKey j) →
  wf (db r) → wf (db (run_update u id r).2).
Proof. intros Hid Hkey Hr. unfold run_update. op_wf. Qed.

Lemma update_job_wf u id r :
  (∀ j, Job.ID (update_change u j) = Job.ID j) →
  (∀ j, Job.IdempotencyKey (update_change u j) = Job.IdempotencyKey j) →
  wf (db r) → wf (db (update_job u id r).2).
Proof. intros Hid Hkey Hr. rewrite update_job_state. by apply run_update_wf. Qed.

Lemma assign_to_wf e job id ws r : wf (db r) → wf (db (assign_to e job id ws r).2).
Proof.
  revert r. induction ws as [|w ws IH]; intros r Hr; simpl; [done|].
  destruct (get_worker _ _ r); [|done]. destruct (negb _); [done|].
  pose proof (start_job_wf (now e) w id r Hr) as Hst. destruct (start_job _ _ _ r) as [[?|?] r']; [|done].
  by apply IH.
Qed.

Lemma insert_job_wf job r : wf (db r) → wf (db (insert_job job r).2).
Proof.
  intros Hr. apply exec_wf; [|done]. intros d n d' Hd. unfold insert_job_row, insert_row.
  destruct (jsonb_strings _) as [params|]; [|done]. simpl.
  destruct (jobs d !! Job.ID job) eqn:Hj; [done|]. simpl. destruct Hd. case_decide.
  - intros [= <- <-]. constructor; simpl; auto using keyed_insert, indexed_insert.
  - destruct (jobs_by_key d !! _) eqn:Hk; [done|]. simpl. intros [= <- <-].
    constructor; simpl; auto using keyed_insert, indexed_insert_key.
Qed.

Lemma create_new_job_wf now job r : wf (db r) → wf (db (create_new_job now job r).2).
Proof.
  intros Hr. unfold create_new_job, genID. set (id := make_id _ _). set (r0 := r <| nextID := _ |>).
  pose proof (insert_job_wf (fill_job now id job) r0 Hr) as Hi.
  destruct (insert_job _ r0) as [[n|err] r1]; [done|]. simpl in Hi. repeat (case_match; simpl); done.
Qed.

Lemma create_job_wf e job r : wf (db r) → wf (db (pg_CreateJob e job r).2).
Proof.
  intros Hr. unfold pg_CreateJob. case_decide; [by apply create_new_job_wf|].
  destruct (find_key _ r) as [[?|]|]; [done|by apply create_new_job_wf|done].
Qed.

Lemma assign_next_wf e w r : wf (db r) → wf (db (pg_AssignNextJob e w r).2).
Proof.
  intros Hr. unfold pg_AssignNextJob. destruct (get_worker _ _ r); [|done].
  destruct (query_row _ _ _ r) as [[id|]|]; [|done..].
  pose proof (start_job_wf (later e) w id r Hr) as Hi. by destruct (start_job _ _ _ r) as [[?|?] r'].
Qed.

Lemma delete_job_wf e id r : wf (db r) → wf (db (pg_DeleteJob e id r).2).
Proof.
  intros Hr. unfold pg_DeleteJob, remove_job. destruct (pg_GetJob id r); [|done]. case_decide; [|done].
  apply exec_error_ind; [done|]. intros n d. pose proof (delete_row_delete id (jobs (db r))) as Hd.
  destruct (delete_row id (jobs (db r))) as [k js]. simpl in Hd. subst js. intros [= <- <-].
  destruct Hr. constructor; simpl; auto with wf.
Qed.

Lemma delete_conversation_wf e id r : wf (db r) → wf (db (pg_DeleteConversation e id r).2).
Proof.
  intros Hr. unfold pg_DeleteConversation.
  match goal with |- context [exec ?s ?a ?f ?r] =>
    assert (wf (db (exec s a f r).2)) as Hw; [apply exec_wf; [|done]|by destruct (exec s a f r)] end.
  intros d n d' Hd. pose proof (delete_row_delete id (conversations d)) as Hdel.
  destruct (delete_row id (conversations d)) as [k cs]. simpl in Hdel. subst cs. intros [= <- <-].
  destruct Hd. constructor; simpl; destruct_and?; split_and?; auto with wf.
Qed.

Lemma mutation_keeps_wf (f : PostgresRepository → PostgresRepository) (r : PostgresRepository) :
  mutation f → wf (db r) → wf (db (f r)).
Proof.
  destruct 1; intros Hr.
  all: unfold pg_CreateUser, pg_DeleteUser, pg_UpdatePassword, pg_RegisterWorker, pg_HeartbeatWorker,
    pg_UpdateWorkerStatus, pg_DeleteWorker, pg_CreatePlan, pg_UpdatePlan, pg_AddAuditLog,
    pg_UpsertIncidentCase, pg_SaveJobYAML, pg_DeleteJobYAML, pg_AddWorkerLog, pg_SaveManagedConfig,
    pg_DeleteManagedConfig, pg_CreateConversation, pg_AddConversationMessage, pg_CreateAgentRun,
    pg_UpdateAgentRun, pg_AddAgentEvent, pg_CreateAgentToolCall, pg_CompleteAgentToolCall.
  all: try solve [op_wf].
  - by apply create_job_wf.
  - by apply assign_next_wf.
  - unfold pg_AssignJobToWorkers. destruct (pg_GetJob id r); [by apply assign_to_wf|done].
  - by apply update_job_wf.
  - by apply delete_job_wf.
  - by apply update_job_wf.
  - by apply update_job_wf.
  - by apply delete_conversation_wf.
Qed.

(** C40: every operation of the repository, whatever the database refuses, keeps
    the tables consistent: each row is under its primary key, the index of the
    idempotency keys has an entry for exactly the keyed jobs, messages, events
    and tool calls refer to existing conversations and runs, and the
    sequences are ahead of the rows they number. *)
Theorem mutation_wf (f : PostgresRepository → PostgresRepository) (r : PostgresRepository) :
  mutation f → wf (db r) → wf (db (f r)).
Proof. exact (mutation_keeps_wf f r). Qed.
End operations.

Section demo.
#[local] Existing Instance demo_postgres.
#[local] Existing Instance demo_law.

Lemma mutation_wf_witness :
  let r := (pg_CreateConversation demo_reading "incident" (mkPostgres Database.empty 0)).2 in
  let m := ConversationMessage.zero <| ConversationMessage.ConversationID := "conv-000001" |> in
  wf (db (pg_AddConversationMessage demo_reading m r).2) ∧
  size (conversation_messages (db (pg_AddConversationMessage demo_reading m r).2)) = 1.
Proof.
  split; [|vm_compute; reflexivity].
  apply (mutation_wf (λ r, (pg_AddConversationMessage demo_reading _ r).2)); [apply mut_AddConversationMessage|].
  apply (mutation_wf (λ r, (pg_CreateConversation demo_reading "incident" r).2));
    [apply mut_CreateConversation|exact wf_empty].
Defined.
End demo.

End PostgresWf.
