(* ===== verification/PostgresCreate.v ===== *)
(** * Concurrent creations on the database

    [CreateJob] of the PostgreSQL repository statement by statement: several
    calls and other operations interleave between the statements, and a call
    whose insertion meets the index of idempotency keys looks the key up
    again. *)
From S2P Require Import Prelude.
From S2P Require Import GoStrings.
From S2P Require Import Model.
From S2P Require Import Repository.
From S2P Require Import Database.
From S2P Require Import PostgresRepo.
From S2P Require Import PostgresFacts.
From S2P Require Import PostgresWf.

Import Repository.

Module PostgresCreate.
Import Database PostgresRepo PostgresFacts PostgresWf.

Section create.
Context `{PG : Postgres} `{!PostgresLaw}.
Implicit Types r : PostgresRepository.

(** Where a call is: before its first lookup, before it draws an identifier,
    before the insertion, before the second lookup, before it reads the job
    that it found, and at its end. *)
Inductive call :=
  | Lookup (job : Job.t)
  | Draw (job : Job.t)
  | Insert (job : Job.t)
  | Retry (job : Job.t) (err : error)
  | Fetch (key id : string)
  | Done (key : string) (res : result Job.t).

(** One statement of a call, or the draw from the counter. *)
Definition call_step (now : time) (c : call) r : call * PostgresRepository :=
  match c with
  | Lookup job =>
      let key := Job.IdempotencyKey job in
      if decide (key = "") then (Draw job, r)
      else match find_key key r with
      | Ok (Some id) => (Fetch key id, r)
      | Err err => (Done key (Err (wrapped "find idempotent job" err)), r)
      | Ok None => (Draw job, r)
      end
  | Draw job => let '(id, r) := genID "job" r in (Insert (fill_job now id job), r)
  | Insert job =>
      let key := Job.IdempotencyKey job in
      let '(res, r) := insert_job job r in
      match res with
      | Ok _ => (Done key (Ok job), r)
      | Err err =>
          if decide (key = "") then (Done key (Err (wrapped "create job" err)), r) else (Retry job err, r)
      end
  | Retry job err =>
      let key := Job.IdempotencyKey job in
      match find_key key r with
      | Ok (Some id) => (Fetch key id, r)
      | _ => (Done key (Err (wrapped "create job" err)), r)
      end
  | Fetch key id => (Done key (pg_GetJob id r), r)
  | Done _ _ => (c, r)
  end.

Fixpoint call_steps (n : nat) (now : time) (c : call) r : call * PostgresRepository :=
  match n with
  | O => (c, r)
  | S n => let '(c, r) := call_step now c r in call_steps n now c r
  end.

(** Alone, a call does what the operation does, in at most five steps. *)
Lemma call_alone e job r :
  call_steps 5 (now e) (Lookup job) r =
    (Done (Job.IdempotencyKey job) (pg_CreateJob e job r).1, (pg_CreateJob e job r).2).
Proof.
  unfold pg_CreateJob, create_new_job, call_steps, call_step. unfold genID. simpl.
  repeat (case_match; simplify_eq/=; try done).
Qed.

(** ** Interleavings

    The calls of the handlers in flight, and every operation that deletes no
    job. *)
Definition state : Type := list call * PostgresRepository.

Definition deletes_job (f : PostgresRepository → PostgresRepository) : Prop :=
  ∃ e id, f = λ r, (pg_DeleteJob e id r).2.

Inductive step : state → state → Prop :=
  | step_call now i c c' cs r r' :
      cs !! i = Some c → call_step now c r = (c', r') → step (cs, r) (<[i := c']> cs, r')
  | step_start job cs r : step (cs, r) (cs ++ [Lookup job], r)
  | step_other f cs r :
      mutation f → ¬ deletes_job f → step (cs, r) (cs, f r).

(** The index keeps the entries it has. *)
Definition keeps_keys r r' : Prop :=
  ∀ k id, pg_keys r !! k = Some id → pg_keys r' !! k = Some id.

Lemma same_keys r r' : pg_keys r' = pg_keys r → keeps_keys r r'.
Proof. intros Hk k id. by rewrite Hk. Qed.

Lemma insert_job_keys job r res r' :
  insert_job job r = (res, r') →
  keeps_keys r r' ∧ match res with
    | Ok _ => Job.IdempotencyKey job = "" ∨
              pg_keys r' !! Job.IdempotencyKey job = Some (Job.ID job)
    | Err _ => True
    end.
Proof.
  intros He. apply exec_inv in He as [[Hok ->]|(n & d & Hrun & -> & ->)];
    [destruct res; [done|split; [by apply same_keys|done]]|].
  apply insert_job_row_spec in Hrun as (params & _ & Hf & _ & Hk).
  unfold keeps_keys, pg_keys. simpl. rewrite Hk. destruct (decide (Job.IdempotencyKey job = "")) as [H0|H0].
  - split; [done|]. by left.
  - destruct Hf as [?|Hf]; [done|]. split; [|right; apply lookup_insert_eq].
    intros k id Hid. rewrite lookup_insert_ne; [done|]. congruence.
Qed.

Lemma create_job_keys e job r : keeps_keys r (pg_CreateJob e job r).2.
Proof.
  unfold pg_CreateJob, create_new_job, genID. simpl. set (j := fill_job _ _ job).
  set (r0 := r <| nextID := _ |>). destruct (insert_job j r0) as [res r1] eqn:Hi.
  assert (keeps_keys r r1) as Hk by (by apply (insert_job_keys _ _ _ _) in Hi as [Hk _]).
  repeat (case_match; simpl); first [exact Hk|by apply same_keys].
Qed.

Lemma mutation_keys f r : mutation f → ¬ deletes_job f → keeps_keys r (f r).
Proof.
  destruct 1; intros Hd;
    try (exfalso; apply Hd; by eexists _, _); try apply create_job_keys;
    apply same_keys.
  all: try (refine (proj2 (_ : same_jobs r _));
    unfold pg_CreateUser, pg_DeleteUser, pg_UpdatePassword, pg_RegisterWorker, pg_HeartbeatWorker,
      pg_UpdateWorkerStatus, pg_DeleteWorker, pg_CreatePlan, pg_UpdatePlan, pg_AddAuditLog,
      pg_UpsertIncidentCase, pg_SaveJobYAML, pg_DeleteJobYAML, pg_AddWorkerLog, pg_SaveManagedConfig,
      pg_DeleteManagedConfig, pg_CreateConversation, pg_DeleteConversation, pg_AddConversationMessage,
      pg_CreateAgentRun, pg_UpdateAgentRun, pg_AddAgentEvent, pg_CreateAgentToolCall,
      pg_CompleteAgentToolCall, exec_ignored, genID; solve [same_jobs]).
  - apply assign_next_law.
  - exact (proj2 (AssignJobToWorkers_law e id ws r)).
  - exact (proj2 (CompleteJob_law e w id out ok r)).
  - exact (proj2 (ApproveJob_law e id u c r)).
  - exact (proj2 (RejectJob_law e id u c r)).
Qed.

(** ** The invariant *)
Definition call_ok r (c : call) : Prop :=
  match c with
  | Fetch key id => pg_keys r !! key = Some id
  | Done key (Ok j) => key = "" ∨ pg_keys r !! key = Some (Job.ID j)
  | _ => True
  end.
Definition inv (s : state) : Prop := wf (db s.2) ∧ Forall (call_ok s.2) s.1.

Lemma call_ok_mono r r' c : keeps_keys r r' → call_ok r c → call_ok r' c.
Proof. intros Hk. destruct c as [| | | | |key [j|]]; simpl; naive_solver. Qed.

Lemma find_key_index key r id : find_key key r = Ok (Some id) → pg_keys r !! key = Some id.
Proof. unfold find_key, query_row, pg_keys. by destruct (refuses _ _ _); intros; simplify_eq. Qed.

Lemma get_job_id id r j : wf (db r) → pg_GetJob id r = Ok j → Job.ID j = id.
Proof.
  intros Hr. unfold pg_GetJob, query_row. destruct (refuses _ _ _); [done|].
  destruct (jobs (db r) !! id) as [row|] eqn:Hrow; [|done]. intros [= <-]. exact (wf_jobs _ Hr id row Hrow).
Qed.

Lemma call_step_ok now c r c' r' :
  wf (db r) → call_ok r c → call_step now c r = (c', r') →
  wf (db r') ∧ keeps_keys r r' ∧ call_ok r' c'.
Proof.
  intros Hr Hc. destruct c as [job|job|job|job err|key id|key res]; simpl.
  - case_decide; [intros [= <- <-]; by split_and!; [|apply same_keys|]|].
    destruct (find_key _ r) as [[id|]|] eqn:Hf; intros [= <- <-]; split_and!;
      try apply same_keys; try done. by apply find_key_index.
  - intros [= <- <-]. by split_and!; [|apply same_keys|].
  - pose proof (insert_job_wf job r Hr) as Hw. destruct (insert_job job r) as [res r1] eqn:Hi.
    apply insert_job_keys in Hi as [Hk Hres]. simpl in Hw.
    destruct res; [|case_decide]; intros [= <- <-]; by split_and!.
  - destruct (find_key _ r) as [[id|]|] eqn:Hf; intros [= <- <-]; split_and!;
      try apply same_keys; try done. by apply find_key_index.
  - intros [= <- <-]. split_and!; [done|by apply same_keys|]. simpl in Hc |- *.
    destruct (pg_GetJob id r) as [j|] eqn:Hj; [|done]. right. by rewrite (get_job_id _ _ _ Hr Hj).
  - intros [= <- <-]. by split_and!; [|apply same_keys|].
Qed.

Lemma step_inv s s' : inv s → step s s' → inv s'.
Proof.
  intros [Hr Hcs]. destruct 1 as [now i c c' cs r r' Hi Hc|job cs r|f cs r Hf Hd]; simpl in *.
  - pose proof (Forall_lookup_1 _ _ _ _ Hcs Hi) as Hok.
    destruct (call_step_ok _ _ _ _ _ Hr Hok Hc) as (Hr' & Hk & Hok'). split; [done|]. simpl.
    apply Forall_insert; [|done]. eapply Forall_impl; [exact Hcs|]. intros x. by apply call_ok_mono.
  - split; [done|]. apply Forall_app. by repeat constructor.
  - split; [by apply mutation_keeps_wf|]. eapply Forall_impl; [exact Hcs|]. intros x.
    by apply call_ok_mono, mutation_keys.
Qed.

Lemma steps_inv s s' : inv s → rtc step s s' → inv s'.
Proof. intros Hi Hs. revert Hi. induction Hs; eauto using step_inv. Qed.

(** C35: from well-formed tables, whatever the interleaving of their statements
    with each other and with every other operation but [DeleteJob], and whatever
    the database refuses, concurrent calls of [CreateJob] under one idempotency
    key that succeed return the same job, and it is the only stored job with that
    key. (A [DeleteJob] in between frees the key.) *)
Theorem concurrent_create_once (r : PostgresRepository) (cs : list call) (r' : PostgresRepository)
    (key : string) (j1 j2 : Job.t) :
  wf (db r) → rtc step ([], r) (cs, r') → key ≠ "" →
  Done key (Ok j1) ∈ cs → Done key (Ok j2) ∈ cs →
  Job.ID j1 = Job.ID j2 ∧
  (∃ row, jobs (db r') !! Job.ID j1 = Some row ∧ Job.IdempotencyKey row = key) ∧
  (∀ id row, jobs (db r') !! id = Some row → Job.IdempotencyKey row = key → id = Job.ID j1).
Proof.
  intros Hr Hs Hkey H1 H2. destruct (steps_inv _ _ (conj Hr (Forall_nil_2 _) : inv ([], r)) Hs) as [Hw Hcs].
  rewrite Forall_forall in Hcs. destruct (Hcs _ H1) as [?|Hi1]; [done|].
  destruct (Hcs _ H2) as [?|Hi2]; [done|]. destruct (wf_index _ Hw) as [Hj Hk]. simpl in *.
  split; [congruence|]. split; [by apply Hk|]. intros id row Hrow Hrk.
  specialize (Hj id row Hrow). rewrite Hrk in Hj. specialize (Hj Hkey). unfold pg_keys in Hi1. congruence.
Qed.

(** The interleaving that takes the next statement of the given calls. *)
Fixpoint schedule (l : list nat) (s : state) : state :=
  match l with
  | [] => s
  | i :: l =>
      match s.1 !! i with
      | Some c => let '(c', r') := call_step 0 c s.2 in schedule l (<[i := c']> s.1, r')
      | None => schedule l s
      end
  end.

Lemma schedule_steps l s : rtc step s (schedule l s).
Proof.
  revert s. induction l as [|i l IH]; intros [cs r]; simpl; [apply rtc_refl|].
  destruct (cs !! i) as [c|] eqn:Hi; [|apply IH]. destruct (call_step 0 c r) as [c' r'] eqn:Hc.
  eapply rtc_l; [by eapply step_call|apply IH].
Defined.

End create.

Section demo.
#[local] Existing Instance demo_postgres.
#[local] Existing Instance demo_law.

Definition demo_job (command : string) : Job.t :=
  Job.zero <| Job.Command := command |> <| Job.IdempotencyKey := "run-1/call-1" |>.
(** Both calls find no job and draw an identifier; the second insertion meets
    the index. *)
Definition demo_end : state :=
  schedule [0; 1; 0; 1; 0; 1; 1; 1]
    ([Lookup (demo_job "df"); Lookup (demo_job "df")], mkPostgres Database.empty 0).

Lemma demo_start :
  rtc step ([], mkPostgres Database.empty 0)
    ([Lookup (demo_job "df"); Lookup (demo_job "df")], mkPostgres Database.empty 0).
Proof.
  eapply rtc_l; [apply step_start|]. eapply rtc_l; [apply step_start|]. apply rtc_refl.
Defined.

Lemma concurrent_create_once_witness :
  ∃ j1 j2, demo_end.1 = [Done "run-1/call-1" (Ok j1); Done "run-1/call-1" (Ok j2)] ∧
    Job.ID j1 = "job-000001" ∧ Job.ID j2 = "job-000001" ∧ nextID demo_end.2 = 2%Z.
Proof.
  assert (∃ j1 j2, demo_end.1 = [Done "run-1/call-1" (Ok j1); Done "run-1/call-1" (Ok j2)] ∧
    Job.ID j1 = "job-000001") as (j1 & j2 & He & H1).
  { eexists _, _. split; vm_compute; reflexivity. }
  exists j1, j2. split; [exact He|]. split; [exact H1|]. split; [|vm_compute; reflexivity].
  rewrite <-H1. symmetry.
  apply (concurrent_create_once (mkPostgres Database.empty 0) demo_end.1 demo_end.2 "run-1/call-1" j1 j2).
  - exact wf_empty.
  - etrans; [apply demo_start|]. rewrite <-surjective_pairing.
    apply schedule_steps.
  - discriminate.
  - rewrite He. apply list_elem_of_here.
  - rewrite He. apply list_elem_of_further, list_elem_of_here.
Defined.
End demo.
End PostgresCreate.
