(* ===== verification/PostgresRestart.v ===== *)
(** * Restarts of a server on a database

    The counter of a new process starts above the identifiers of the database,
    and the approval gate holds across restarts. *)
From Stdlib Require Import Ascii.
From S2P Require Import Prelude.
From S2P Require Import GoStrings.
From S2P Require Import Fmt.
From S2P Require Import Model.
From S2P Require Import Modules.
From S2P Require Import Repository.
From S2P Require Import Hub.
From S2P Require Import World.
From S2P Require Import Spec.
From S2P Require Import Server.
From S2P Require Import Config.
From S2P Require Import AgentTools.
From S2P Require Import AgentToolsFacts.
From S2P Require Import AgentRuntime.
From S2P Require Import AgentRuns.
From S2P Require Import System.
From S2P Require Import Database.
From S2P Require Import PostgresRepo.
From S2P Require Import PostgresFacts.
From S2P Require Import PostgresWf.

Import Repository.

Module PostgresRestart.
Import Database PostgresRepo PostgresFacts Fmt.Fmt System.System.

(** ** The digits of an identifier *)
Lemma leading_digits_app s c t :
  all_chars is_digit s = true → is_digit c = false → leading_digits (s +:+ String c t) = s.
Proof.
  intros Hs Hc. induction s as [|x s IH]; simpl in *; [by rewrite Hc|].
  apply andb_prop in Hs as [Hx Hs]. by rewrite Hx, IH.
Qed.

Lemma all_chars_rev P s : all_chars P (string_rev s) = all_chars P s.
Proof.
  induction s as [|c s IH]; [done|]. rewrite string_rev_cons, all_chars_app, IH. simpl.
  by rewrite andb_true_r, andb_comm.
Qed.

Lemma numeric_suffix_make_id prefix n : (0 ≤ n)%Z → numeric_suffix (make_id prefix n) = Some n.
Proof.
  intros Hn. unfold numeric_suffix, trailing_digits, make_id.
  assert (string_rev (prefix +:+ "-" +:+ pad6 n) =
          string_rev (pad6 n) +:+ String "-" (string_rev prefix)) as ->.
  { change ("-" +:+ pad6 n) with (String "-" (pad6 n)).
    rewrite string_rev_app_distr, string_rev_cons, string_app_assoc. done. }
  rewrite leading_digits_app, string_rev_involutive by (rewrite ?all_chars_rev; auto using all_chars_pad6).
  rewrite decimal_pad6 by done. case_decide as Hd; [|done].
  exfalso. assert (String.length (pad6 n) = 0) as Hl by (by rewrite Hd).
  unfold pad6 in Hl. rewrite string_length_app in Hl.
  assert (∀ k, String.length (zeros k) = k) as Hz by (induction k; simpl; congruence).
  rewrite Hz in Hl. lia.
Qed.

(** The next value of a counter that does not wrap around is greater. *)
Lemma u64_next n : (n ≤ u64_add n 1)%Z → (n < u64_add n 1)%Z.
Proof.
  unfold u64_add, u64_modulus. intros Hle. destruct (Z.eq_dec n ((n + 1) mod 2 ^ 64)) as [Heq|]; [|lia].
  pose proof (Z.mod_eq (n + 1) (2 ^ 64) ltac:(done)). lia.
Qed.

Lemma make_id_number prefix n :
  (n ≤ u64_add n 1)%Z →
  ∃ m, numeric_suffix (make_id prefix (u64_add n 1)) = Some m ∧
    (n < m ≤ u64_add n 1)%Z.
Proof.
  intros Hle. exists (u64_add n 1). split; [|split; [by apply u64_next|lia]].
  apply numeric_suffix_make_id. apply u64_add_range.
Qed.

Section seed.
Context `{PG : Postgres}.

Lemma max_suffix_bound ids v id n :
  max_suffix ids = Ok v → id ∈ ids → numeric_suffix id = Some n → (n ≤ v)%Z.
Proof.
  unfold max_suffix. destruct (forallb _ _); [|done]. intros [= <-] Hid Hn.
  assert (n ∈ omap numeric_suffix ids) as Hin by (apply list_elem_of_omap; eauto).
  induction (omap numeric_suffix ids) as [|x l IH]; [by apply elem_of_nil in Hin|].
  simpl. apply elem_of_cons in Hin as [->|Hin]; [lia|]. specialize (IH Hin). lia.
Qed.

Lemma seed_bound r (tables : list (string * (DB → list string))) acc :
  let seed := foldl (λ maxVal '(table, ids),
    match table_suffix table ids r with
    | Ok suffix => if (maxVal <? suffix)%Z then suffix else maxVal
    | Err _ => maxVal
    end) acc tables in
  (acc ≤ seed)%Z ∧
  ∀ table ids v, (table, ids) ∈ tables → table_suffix table ids r = Ok v → (v ≤ seed)%Z.
Proof.
  revert acc. induction tables as [|[t f] tables IH]; intros acc; simpl.
  - split; [lia|]. intros ? ? ? Hin. by apply elem_of_nil in Hin.
  - set (acc' := match table_suffix t f r with Ok _ => _ | Err _ => _ end).
    destruct (IH acc') as [H1 H2]. assert (acc ≤ acc')%Z.
    { unfold acc'. destruct (table_suffix t f r); [|lia]. destruct (Z.ltb_spec acc a); lia. }
    split; [lia|]. intros table ids v [[= -> ->]|Hin]%elem_of_cons Hv; [|by eapply H2].
    assert (v ≤ acc')%Z; [|lia]. unfold acc'. rewrite Hv. destruct (Z.ltb_spec acc v); lia.
Qed.

(** C39: when a server starts on a database and its query for the largest number
    succeeds on every table, no identifier with a number above the counter, which
    are those it draws until the counter wraps around, for any kind of object, is
    in use in any table. A table whose query fails is skipped:
    [PostgresFacts.seed_skips_table]. *)
Theorem restart_ids_fresh (d : DB) (r : PostgresRepository) (prefix : string) (n : Z)
    (table : string) (ids : DB → list string) :
  NewPostgresRepository d = Ok r →
  Forall (λ '(table, ids), is_ok (table_suffix table ids (mkPostgres d 0)) = true) seeded_tables →
  (nextID r < n)%Z → (table, ids) ∈ seeded_tables →
  make_id prefix n ∉ ids d.
Proof.
  intros Hnew Hok Hn Hin Hid. unfold NewPostgresRepository in Hnew.
  destruct (refuses d "PING" []); [done|]. destruct (refuses d "SCHEMA" []); [done|].
  injection Hnew as <-. unfold seedCounter in Hn. pose proof (seed_bound (mkPostgres d 0) seeded_tables 0) as [H0 H1].
  rewrite Forall_forall in Hok. specialize (Hok _ Hin). simpl in Hok. destruct (table_suffix table ids (mkPostgres d 0)) as [v|] eqn:Hv; [|done].
  specialize (H1 _ _ _ Hin Hv).
  match type of H1 with (_ ≤ ?s)%Z => set (seed := s) in * end.
  assert (seed < n)%Z as Hlt by (destruct (Z.ltb_spec 0 seed); simpl in Hn; lia).
  unfold table_suffix in Hv. destruct (refuses _ _ _); [done|].
  pose proof (max_suffix_bound _ _ _ n Hv Hid (numeric_suffix_make_id prefix n ltac:(lia))). lia.
Qed.

End seed.

(** ** The approval gate

    The lives of servers on one database: each starts on what the previous one
    left. *)
Section gate.
Context `{PG : Postgres} `{O : Oracle} `{TT : TextTemplate} `{Y : YAML}
  `{P : Printable} `{J : JSON} `{CY : ConfigYAML}.

Inductive lives (d : DB) : DB → Prop :=
  | lives_refl : lives d d
  | lives_next d1 r (w : World.World.t PostgresRepository) :
      lives d d1 → NewPostgresRepository d1 = Ok r →
      rtc (step AgentToolsFacts.fresh_call) (init r) w → lives d (db (World.repo w)).

Definition gated_rows (d : DB) : Prop := map_Forall (λ id j, Job.ID j = id ∧ gate j) (jobs d).

Lemma gated_rows_gated d n : gated_rows d ↔ gated (pg_jobs (mkPostgres d n)) (pg_keys (mkPostgres d n)).
Proof.
  unfold pg_jobs. simpl. split.
  - intros Hd k j. rewrite lookup_fmap. destruct (jobs d !! k) as [row|] eqn:Hrow; [|done].
    simpl. intros [= <-]. destruct (Hd k row Hrow) as [Hid Hg]. by split_and!.
  - intros Hg k row Hrow. destruct (Hg k (scan_job row)) as (Hid & Hgate & _); [|done].
    by rewrite lookup_fmap, Hrow.
Qed.

Lemma seed_db r : db (seedCounter r) = db r.
Proof. unfold seedCounter. by destruct (_ <? _)%Z. Qed.

Lemma new_repository d r : NewPostgresRepository d = Ok r → db r = d.
Proof.
  unfold NewPostgresRepository. do 2 (destruct (refuses _ _ _); [done|]). intros [= <-]. apply seed_db.
Qed.

(** C38: the approval gate holds on a database across any number of restarts of
    the server, whatever statements the database refuses on the way: if every
    stored job that requires approval and is ready or running was approved
    before, that is so after every life of handlers, each as a whole, in which
    the tool calls of the agent come with call identifiers not used before. *)
Theorem gate_survives_restarts (d d' : DB) : gated_rows d → lives d d' → gated_rows d'.
Proof.
  intros Hd Hl. induction Hl as [|d1 r w _ IH Hnew Hs]; [done|].
  apply new_repository in Hnew as Hdb. destruct r as [d0 n]. simpl in Hdb. subst d0.
  assert (Spec.inv (Spec.Refine.abs (init (mkPostgres d1 n)))) as Hi.
  { split; [by apply gated_rows_gated|apply Hub.wf_NewHub]. }
  destruct (Spec.Refine.safe_inv _ w (steps_safe _ _ _ (safe_self _ Hi) Hs)) as [Hg _].
  destruct w as [[d2 n2] ? ? ? ? ? ? ?]. by apply (gated_rows_gated d2 n2).
Qed.

End gate.

Section demo.
#[local] Existing Instance demo_postgres.
#[local] Existing Instances demo_oracle demo_template demo_yaml demo_config_yaml demo_printable demo_json.

Definition demo_db : DB :=
  let job := Job.zero <| Job.ApprovalRequired := true |> <| Job.Status := JobStatusWaitingApproval |> in
  db (pg_CreateJob demo_reading job (mkPostgres Database.empty 41)).2.

Definition demo_row : Job.t := default Job.zero (jobs demo_db !! "job-000042").

Lemma demo_db_gated : gated_rows demo_db.
Proof.
  assert (jobs demo_db = {["job-000042" := demo_row]}) as Hrows by (vm_compute; reflexivity).
  intros id j Hj. rewrite Hrows in Hj. apply lookup_singleton_Some in Hj as [<- <-].
  split; [reflexivity|]. intros _ Hst. exfalso. revert Hst.
  apply (bool_decide_unpack (¬ _)). vm_compute. exact I.
Qed.

Lemma restart_ids_fresh_witness :
  ∃ r, NewPostgresRepository demo_db = Ok r ∧ nextID r = 42%Z ∧
    make_id "job" 43 ∉ (map_to_list (jobs demo_db)).*1.
Proof.
  assert (NewPostgresRepository demo_db = Ok (mkPostgres demo_db 42)) as Hnew by (vm_compute; reflexivity).
  exists (mkPostgres demo_db 42). split; [exact Hnew|]. split; [reflexivity|].
  apply (restart_ids_fresh demo_db _ "job" 43 "jobs" (λ d, (map_to_list (jobs d)).*1) Hnew).
  - repeat (apply Forall_cons_2; [vm_compute; reflexivity|]). apply Forall_nil_2.
  - done.
  - apply list_elem_of_further, list_elem_of_here.
Defined.

Definition demo_server : World.World.t PostgresRepository := init (mkPostgres demo_db 42).
Definition demo_served : World.World.t PostgresRepository :=
  (World.run (Server.handleApproveJob demo_user "/api/v1/approvals/jobs/job-000042"
     (Ok (Server.mkApprove (Some true) "fine"))) demo_server).2.

Lemma gate_survives_restarts_witness :
  gated_rows (db (World.repo demo_served)) ∧
  (λ j, (Job.Status j, Job.ApprovalStatus j)) <$> jobs (db (World.repo demo_served)) !! "job-000042"
    = Some (JobStatusPending, ApprovalStatusApproved).
Proof.
  split; [|vm_compute; reflexivity]. apply (gate_survives_restarts demo_db).
  - exact demo_db_gated.
  - apply (lives_next _ demo_db (mkPostgres demo_db 42) demo_served).
    + apply lives_refl.
    + vm_compute. reflexivity.
    + eapply rtc_l; [apply step_handler, h_approve|]. apply rtc_refl.
Defined.
End demo.

End PostgresRestart.
