(* ===== verification/LlmClient.v ===== *)
(** * The client of the language model ([internal/infrastructure/llm/client.go])

    One request to an OpenAI-compatible endpoint, answered in one piece
    ([Complete]) or as a stream of server-sent events ([CompleteStream]). HTTP
    and [encoding/json] are parameters; the assembly of a streamed message is
    the code's. *)
From S2P Require Import Prelude.
From S2P Require Import GoStrings.
From S2P Require Import Fmt.
From S2P Require Import Model.
From S2P Require Import World.
From S2P Require Import AgentTools.

Import Fmt.

Module LlmClient.

(** ** Requests *)
Record ToolDefinition := mkTool { Name : string; Description : string; Parameters : any_map }.
Record CompletionRequest := mkCompletionRequest {
  Messages : list Llm.Message; Tools : list ToolDefinition;
}.

Record HTTPClient := mkClient { baseURL : string; apiKey : string; model : string }.

(** [strings.TrimRight(s, "/")]. *)
Fixpoint drop_slashes (s : string) : string :=
  match s with
  | String c s' => if decide (c = of_byte 47) then drop_slashes s' else s
  | EmptyString => ""
  end.
Definition NewHTTPClient (baseURL apiKey model : string) : HTTPClient :=
  mkClient (string_rev (drop_slashes (string_rev baseURL))) apiKey model.

(** What goes over the wire. A tool call carries an index in the streamed
    form only, where [I] is [Z]; otherwise it is [unit]. *)
Record wireTool := mkWireTool { ToolType : string; Function : ToolDefinition }.
Record wireCall (I : Type) := mkWireCall {
  Index : I; ID : string; Type_ : string; FunctionName : string; FunctionArguments : string;
}.
Arguments mkWireCall {I}.
Arguments Index {I}.
Arguments ID {I}.
Arguments Type_ {I}.
Arguments FunctionName {I}.
Arguments FunctionArguments {I}.
Record wireMessage (I : Type) := mkWireMessage {
  Role : string; Content : string; ToolCallID : string; ToolCalls : list (wireCall I);
}.
Arguments mkWireMessage {I}.
Arguments Role {I}.
Arguments Content {I}.
Arguments ToolCallID {I}.
Arguments ToolCalls {I}.

(** [Stream] is a field of the streamed form only. *)
Record wireRequest (I : Type) := mkWireRequest {
  Model : string; WireMessages : list (wireMessage I); WireTools : list wireTool; Stream : option bool;
}.
Arguments mkWireRequest {I}.

Definition wire_message {I} (index : nat → I) (m : Llm.Message) : wireMessage I :=
  mkWireMessage (Llm.Role m) (Llm.Content m) (Llm.ToolCallID m)
    (imap (λ i call, mkWireCall (index i) (Llm.ID call) "function" (Llm.Name call) (Llm.Arguments call))
       (Llm.ToolCalls m)).
Definition wire_request {I} (index : nat → I) (stream : option bool) (c : HTTPClient)
    (req : CompletionRequest) : wireRequest I :=
  mkWireRequest (model c) (wire_message index <$> Messages req) (mkWireTool "function" <$> Tools req)
    stream.

(** ** Answers *)
Record payload := mkPayload { Choices : list (wireMessage unit); PayloadUsage : AgentMetrics.Usage }.
Record delta := mkDelta { DeltaContent : string; DeltaCalls : list (wireCall Z) }.
Record chunk := mkChunk { Deltas : list delta; ChunkUsage : AgentMetrics.Usage }.

(** [encoding/json]: [decode_payload] reads the first value of a body that ends
    with the given error, if any. *)
Class ChatJSON := {
  marshal_completion : wireRequest unit → result bytes;
  marshal_streaming : wireRequest Z → result bytes;
  decode_payload : string → option error → result payload;
  unmarshal_chunk : string → result chunk;
  valid : string → bool;
}.

Record Request := mkRequest {
  Method : string; URL : string; Header : list (string * string); RequestBody : bytes;
}.
Record Response := mkResponse {
  StatusCode : Z; Status : string; Body : string; BodyErr : option error;
}.
(** [net/http]: [new_request] is the error of a URL, [round_trip] sends a
    request. *)
Class Transport := {
  new_request : string → option error;
  round_trip : Request → result Response;
}.

Section client.
Context `{JS : ChatJSON} `{T : Transport}.
Implicit Types c : HTTPClient.

Definition failed (what : string) (err : error) : error := Errorf (what +:+ ": %w") [AErr err].

Definition authorization c : list (string * string) :=
  if decide (apiKey c = "") then [] else [("Authorization", "Bearer " +:+ apiKey c)].

(** The steps both forms share: the body is posted and the status is checked. *)
Definition post c (kind verb : string) (accept : list (string * string)) (body : result bytes)
    : result Response :=
  match body with
  | Err err => Err (failed ("marshal " +:+ kind) err)
  | Ok body =>
      let url := baseURL c +:+ "/chat/completions" in
      match new_request url with
      | Some err => Err (failed ("create " +:+ kind +:+ " request") err)
      | None =>
          match round_trip (mkRequest "POST" url
                  ([("Content-Type", "application/json")] ++ accept ++ authorization c) body) with
          | Err err => Err (failed verb err)
          | Ok resp =>
              if decide (StatusCode resp < 200 ∨ 300 ≤ StatusCode resp)%Z then
                Err (Errorf (kind +:+ " API returned %s") [AStr (Status resp)])
              else Ok resp
          end
      end
  end.

(** ** One piece *)
Fixpoint answer_calls {I} (calls : list (wireCall I)) : result (list Llm.ToolCall) :=
  match calls with
  | [] => Ok []
  | call :: calls =>
      if negb (valid (FunctionArguments call)) then
        Err (Errorf "tool %q returned invalid JSON arguments" [AStr (FunctionName call)])
      else
        l ← answer_calls calls;
        Ok (Llm.mkCall (ID call) (FunctionName call) (FunctionArguments call) :: l)
  end.

Definition completion_of (p : payload) : result Llm.Completion :=
  match Choices p with
  | [] => Err (new_error "completion returned no choices")
  | m :: _ =>
      calls ← answer_calls (ToolCalls m);
      Ok (Llm.mkCompletion (Llm.mkMessage "assistant" (Content m) "" calls) (PayloadUsage p))
  end.

Definition Complete c (req : CompletionRequest) : result Llm.Completion :=
  resp ← post c "completion" "complete" [] (marshal_completion (wire_request (λ _, tt) None c req));
  match decode_payload (Body resp) (BodyErr resp) with
  | Err err => Err (failed "decode completion" err)
  | Ok p => completion_of p
  end.

(** ** A stream *)
Record assembledCall := mkAssembled { id : string; name : string; arguments : string }.
Record state := mkState {
  content : string; calls : gmap Z assembledCall; usage : AgentMetrics.Usage;
}.
Definition start : state := mkState "" ∅ (AgentMetrics.mkUsage 0 0 0).
#[local] Instance state_eta : Eta state := λ s, mkState (content s) (calls s) (usage s).

(** A value that is set replaces the one before. *)
Definition override (new old : string) : string := if decide (new = "") then old else new.

Definition merge (call : assembledCall) (d : wireCall Z) : assembledCall :=
  mkAssembled (override (ID d) (id call)) (override (FunctionName d) (name call))
    (arguments call +:+ FunctionArguments d).
Definition on_call (m : gmap Z assembledCall) (d : wireCall Z) : gmap Z assembledCall :=
  <[Index d := merge (default (mkAssembled "" "" "") (m !! Index d)) d]> m.

Definition on_usage (new old : AgentMetrics.Usage) : AgentMetrics.Usage :=
  if decide (AgentMetrics.TotalTokens new = 0%Z) then old else new.

(** The callback of the caller, with the caller's state. *)
Context {D : Type} (onDelta : option (string → D → option error * D)).

Definition emit (text : string) (d : D) : option error * D :=
  match onDelta with None => (None, d) | Some f => f text d end.

Definition on_choice (choice : delta) (s : state) (d : D) : result state * D :=
  let text := DeltaContent choice in
  let s' := s <| calls := foldl on_call (calls s) (DeltaCalls choice) |> in
  if decide (text = "") then (Ok s', d)
  else match emit text d with
  | (Some err, d) => (Err err, d)
  | (None, d) => (Ok (s' <| content := content s +:+ text |>), d)
  end.

Fixpoint on_choices (choices : list delta) (s : state) (d : D) : result state * D :=
  match choices with
  | [] => (Ok s, d)
  | choice :: choices =>
      match on_choice choice s d with
      | (Ok s, d) => on_choices choices s d
      | (Err err, d) => (Err err, d)
      end
  end.

Definition on_chunk (k : chunk) (s : state) (d : D) : result state * D :=
  on_choices (Deltas k) (s <| usage := on_usage (ChunkUsage k) (usage s) |>) d.

(** The data of a line of the stream; lines of another form are skipped. *)
Definition line_data (line : string) : option string :=
  let line := trim_space line in
  if has_prefix line "data:" then Some (trim_space (trim_prefix line "data:")) else None.

(** One line: whether the stream is done, and the state. *)
Definition on_line (line : string) (s : state) (d : D) : result (bool * state) * D :=
  match line_data line with
  | None => (Ok (false, s), d)
  | Some data =>
      if decide (data = "[DONE]") then (Ok (true, s), d)
      else match unmarshal_chunk data with
      | Err err => (Err (failed "decode completion stream" err), d)
      | Ok k =>
          match on_chunk k s d with
          | (Ok s, d) => (Ok (false, s), d)
          | (Err err, d) => (Err err, d)
          end
      end
  end.

(** The loop over the lines of the body. The last piece has no line end: the
    reader returns it together with the error the body ends with. *)
Fixpoint read_lines (lines : list string) (readErr : option error) (s : state) (d : D)
    : result state * D :=
  match lines with
  | [] => (Ok s, d)
  | line :: lines =>
      match (match lines with [] => readErr | _ => None end) with
      | Some err => (Err (failed "read completion stream" err), d)
      | None =>
          match on_line line s d with
          | (Err err, d) => (Err err, d)
          | (Ok (true, s), d) => (Ok s, d)
          | (Ok (false, s), d) => read_lines lines readErr s d
          end
      end
  end.

Definition newline : string := String (of_byte 10) "".

(** The calls with the indices 0, 1, ... up to the first index without a call;
    a map with n entries has such an index among the first n + 1. *)
Fixpoint collect (fuel : nat) (index : Z) (m : gmap Z assembledCall) : result (list Llm.ToolCall) :=
  match fuel with
  | O => Ok []
  | S fuel =>
      match m !! index with
      | None => Ok []
      | Some call =>
          if decide (id call = "" ∨ name call = "" ∨ valid (arguments call) = false) then
            Err (Errorf "stream returned invalid tool call at index %d" [AInt index])
          else
            l ← collect fuel (index + 1) m;
            Ok (Llm.mkCall (id call) (name call) (arguments call) :: l)
      end
  end.

Definition finish (s : state) : result Llm.Completion :=
  l ← collect (S (size (calls s))) 0 (calls s);
  Ok (Llm.mkCompletion (Llm.mkMessage "assistant" (content s) "" l) (usage s)).

Definition CompleteStream c (req : CompletionRequest) (d : D) : result Llm.Completion * D :=
  match post c "streaming completion" "stream completion" [("Accept", "text/event-stream")]
          (marshal_streaming (wire_request Z.of_nat (Some true) c req)) with
  | Err err => (Err err, d)
  | Ok resp =>
      match read_lines (split (Body resp) newline) (BodyErr resp) start d with
      | (Err err, d) => (Err err, d)
      | (Ok s, d) => (finish s, d)
      end
  end.

End client.
End LlmClient.
