(* ===== verification/LlmClientFacts.v ===== *)
(** * Properties of the client of the language model

    A streamed answer is the answer in one piece, whatever the server splits it
    into; and what a successful stream returns is well formed. *)
From S2P Require Import Prelude.
From S2P Require Import GoStrings.
From S2P Require Import Model.
From S2P Require Import World.
From S2P Require Import AgentTools.
From S2P Require Import LlmClient.

Module LlmClientFacts.
Import LlmClient.

(** ** Reference definitions *)

(** The texts of a sequence of chunks that reach the callback, and the
    fragments of its tool calls. *)
Definition texts (ks : list chunk) : list string :=
  filter (λ text, text ≠ "") (DeltaContent <$> (ks ≫= Deltas)).
Definition fragments (ks : list chunk) : list (wireCall Z) := (ks ≫= Deltas) ≫= DeltaCalls.
Definition last_usage (ks : list chunk) : AgentMetrics.Usage :=
  foldl (λ u k, on_usage (ChunkUsage k) u) (AgentMetrics.mkUsage 0 0 0) ks.
Definition call_at (i : Z) (fs : list (wireCall Z)) : assembledCall :=
  foldl merge (mkAssembled "" "" "") (filter (λ f, Index f = i) fs).

(** The data of a stream ends at the mark [[DONE]]. *)
Fixpoint until_done (l : list string) : list string :=
  match l with
  | [] => []
  | data :: l => if decide (data = "[DONE]") then [] else data :: until_done l
  end.
Fixpoint decode_all `{ChatJSON} (l : list string) : result (list chunk) :=
  match l with
  | [] => Ok []
  | data :: l => k ← unmarshal_chunk data; ks ← decode_all l; Ok (k :: ks)
  end.
Definition chunks_of `{ChatJSON} (body : string) : result (list chunk) :=
  decode_all (until_done (omap line_data (split body newline))).

Definition to_option {A} (res : result A) : option A := match res with Ok a => Some a | Err _ => None end.

(** ** The assembly of chunks *)
Definition assemble (ks : list chunk) (s : state) : state :=
  mkState (content s +:+ concat_strings (texts ks)) (foldl on_call (calls s) (fragments ks))
    (foldl (λ u k, on_usage (ChunkUsage k) u) (usage s) ks).

Lemma concat_strings_app l l' : concat_strings (l ++ l') = concat_strings l +:+ concat_strings l'.
Proof. induction l as [|s l IH]; [done|]. simpl. by rewrite IH, string_app_assoc. Qed.

Section reading.
Context `{JS : ChatJSON} {D : Type} (onDelta : option (string → D → option error * D)).
Variable g : string → D → D.
Hypothesis accepts : ∀ text d, emit onDelta text d = (None, g text d).

Definition deliver (l : list string) (d : D) : D := foldl (λ d text, g text d) d l.

Lemma on_choices_accepted choices s d :
  let l := filter (λ text, text ≠ "") (DeltaContent <$> choices) in
  on_choices onDelta choices s d =
    (Ok (mkState (content s +:+ concat_strings l) (foldl on_call (calls s) (choices ≫= DeltaCalls)) (usage s)),
     deliver l d).
Proof.
  revert s d. induction choices as [|[text fs] choices IH]; intros s d; simpl.
  { destruct s. by rewrite string_app_nil_r. }
  unfold on_choice. simpl. rewrite foldl_app. destruct (decide (text = "")) as [->|Hne].
  - rewrite IH. simpl. by rewrite filter_cons_False by auto.
  - rewrite accepts, IH. rewrite filter_cons_True by done. simpl. by rewrite string_app_assoc.
Qed.

Lemma on_chunk_accepted k s d :
  on_chunk onDelta k s d = (Ok (assemble [k] s), deliver (texts [k]) d).
Proof.
  unfold on_chunk. rewrite on_choices_accepted. unfold assemble, texts, fragments. simpl.
  by rewrite !app_nil_r.
Qed.

Lemma assemble_cons k ks s : assemble ks (assemble [k] s) = assemble (k :: ks) s.
Proof.
  unfold assemble, texts, fragments. simpl.
  by rewrite !app_nil_r, fmap_app, filter_app, concat_strings_app, bind_app, foldl_app, string_app_assoc.
Qed.

Lemma deliver_cons k ks d : deliver (texts ks) (deliver (texts [k]) d) = deliver (texts (k :: ks)) d.
Proof.
  unfold deliver, texts. simpl. by rewrite app_nil_r, fmap_app, filter_app, foldl_app.
Qed.

(** A stream that decodes is read to its assembly. *)
Lemma read_lines_accepted lines s d ks :
  decode_all (until_done (omap line_data lines)) = Ok ks →
  read_lines onDelta lines None s d = (Ok (assemble ks s), deliver (texts ks) d).
Proof.
  revert s d ks. induction lines as [|line lines IH]; intros s d ks; simpl.
  { intros [= <-]. destruct s. unfold assemble, deliver. simpl. by rewrite string_app_nil_r. }
  intros Hd. assert ((match lines with [] => None | _ => @None error end) = None) as -> by by destruct lines.
  unfold on_line. destruct (line_data line) as [data|]; [|by apply IH].
  simpl in Hd. destruct (decide (data = "[DONE]")) as [->|Hdata].
  { simpl in Hd. injection Hd as <-. destruct s. unfold assemble, deliver. simpl. by rewrite string_app_nil_r. }
  simpl in Hd. destruct (unmarshal_chunk data) as [k|]; [|done]. simpl in Hd.
  destruct (decode_all _) as [ks'|] eqn:Hks; [|done]. injection Hd as <-.
  rewrite on_chunk_accepted. rewrite (IH _ _ ks') by done. by rewrite assemble_cons, deliver_cons.
Qed.
End reading.

(** ** The tool calls of a stream *)
Lemma lookup_on_calls fs (m : gmap Z assembledCall) i :
  foldl on_call m fs !! i =
    match filter (λ f, Index f = i) fs with
    | [] => m !! i
    | fi => Some (foldl merge (default (mkAssembled "" "" "") (m !! i)) fi)
    end.
Proof.
  revert m. induction fs as [|f fs IH]; intros m; [done|]. simpl. rewrite IH. unfold on_call.
  destruct (decide (Index f = i)) as [<-|Hi].
  - rewrite lookup_insert_eq, filter_cons_True by done. by destruct (filter _ fs).
  - by rewrite lookup_insert_ne, filter_cons_False by done.
Qed.

Lemma lookup_fragments fs i :
  foldl on_call ∅ fs !! i =
    match filter (λ f, Index f = i) fs with [] => None | _ => Some (call_at i fs) end.
Proof. rewrite lookup_on_calls, lookup_empty. unfold call_at. by destruct (filter _ fs). Qed.

Section collecting.
Context `{JS : ChatJSON}.

Definition well_formed (call : Llm.ToolCall) : Prop :=
  Llm.ID call ≠ "" ∧ Llm.Name call ≠ "" ∧ valid (Llm.Arguments call) = true.

Lemma collect_well_formed fuel i m l : collect fuel i m = Ok l → Forall well_formed l.
Proof.
  revert i l. induction fuel as [|fuel IH]; intros i l; simpl; [by intros [= <-]|].
  destruct (m !! i) as [call|]; [|by intros [= <-]]. case_decide as Hok; [done|].
  rewrite result_bind_Ok. intros (l' & Hl & [= <-]). constructor; [|by eapply IH].
  unfold well_formed. simpl. split_and!; [naive_solver..|]. destruct (valid _); naive_solver.
Qed.

(** A map with the indices from 0 up to [n] has at least [n] entries, so the
    fuel of [finish] is not used up. *)
Lemma size_indices {A} (m : gmap Z A) n :
  (∀ k, (k < n)%nat → is_Some (m !! Z.of_nat k)) → (n ≤ size m)%nat.
Proof.
  intros Hm. rewrite <- (size_dom m). transitivity (length (Z.of_nat <$> seq 0 n)).
  { by rewrite length_fmap, length_seq. }
  unfold size, set_size. simpl. apply submseteq_length, NoDup_submseteq.
  - apply NoDup_fmap; [intros ???; lia|apply NoDup_seq].
  - intros i (k & -> & Hk%elem_of_seq)%list_elem_of_fmap. apply elem_of_elements, elem_of_dom, Hm. lia.
Qed.

(** The calls that a message in one piece has and a stream assembles. *)
Definition assembled {I} (call : wireCall I) : assembledCall :=
  mkAssembled (ID call) (FunctionName call) (FunctionArguments call).
Definition named {I} (call : wireCall I) : Prop := ID call ≠ "" ∧ FunctionName call ≠ "".

Lemma collect_answer {I} (l : list (wireCall I)) fuel i m :
  (length l < fuel)%nat → Forall named l →
  (∀ k call, l !! k = Some call → m !! (i + Z.of_nat k)%Z = Some (assembled call)) →
  m !! (i + Z.of_nat (length l))%Z = None →
  to_option (collect fuel i m) = to_option (answer_calls l).
Proof.
  revert fuel i. induction l as [|call l IH]; intros [|fuel] i Hf Hn Hm Hend; simpl in *; try lia.
  { by rewrite Z.add_0_r in Hend; rewrite Hend. }
  apply Forall_cons in Hn as [[Hid Hname] Hn].
  pose proof (Hm 0%nat call eq_refl) as H0. rewrite Z.add_0_r in H0. rewrite H0. simpl.
  assert (to_option (collect fuel (i + 1) m) = to_option (answer_calls l)) as Hrec.
  { apply IH; [lia|done| |].
    - intros k call' Hk. rewrite <- (Hm (S k) call' Hk). f_equal. lia.
    - rewrite <- Hend. f_equal. lia. }
  destruct (valid (FunctionArguments call)) eqn:Hv; simpl.
  - rewrite decide_False by naive_solver.
    destruct (collect fuel (i + 1) m), (answer_calls l); simpl in *; congruence.
  - by rewrite decide_True by auto.
Qed.

(** A message in one piece and chunks of it: the texts concatenate to the
    content, and the fragments of every tool call to the call. *)
Record streamed (m : wireMessage unit) (ks : list chunk) : Prop := {
  streamed_content : concat_strings (texts ks) = Content m;
  streamed_named : Forall named (ToolCalls m);
  streamed_indices : Forall (λ f, 0 ≤ Index f < Z.of_nat (length (ToolCalls m)))%Z (fragments ks);
  streamed_calls k call : ToolCalls m !! k = Some call →
    call_at (Z.of_nat k) (fragments ks) = assembled call;
}.

Lemma finish_streamed m ms ks :
  streamed m ks → to_option (finish (assemble ks start)) = to_option (completion_of (mkPayload (m :: ms) (last_usage ks))).
Proof.
  intros [Hc Hn Hi Hk]. unfold completion_of, finish, assemble. cbn [content calls usage Choices ToolCalls].
  fold (last_usage ks). rewrite Hc.
  change (calls start) with (∅ : gmap Z assembledCall).
  set (calls := foldl on_call ∅ (fragments ks)).
  assert (∀ k call, ToolCalls m !! k = Some call → calls !! Z.of_nat k = Some (assembled call)) as Hcalls.
  { intros k call Hcall. unfold calls. rewrite lookup_fragments. specialize (Hk k call Hcall).
    pose proof (Forall_lookup_1 _ _ _ _ Hn Hcall) as [Hid _].
    destruct (filter _ _) eqn:Hfs; [|by rewrite Hk].
    unfold call_at in Hk. rewrite Hfs in Hk.
    destruct Hid. change (id (assembled call) = ""). by rewrite <- Hk. }
  assert (to_option (collect (S (size calls)) 0 calls) = to_option (answer_calls (ToolCalls m))) as Hl.
  { apply collect_answer; [|done|by intros k call; apply Hcalls|].
    - assert (length (ToolCalls m) ≤ size calls); [|lia]. apply size_indices. intros k Hlt.
      apply lookup_lt_is_Some_2 in Hlt as [call Hcall]. eexists. by apply Hcalls.
    - unfold calls. rewrite lookup_fragments.
      destruct (filter _ (fragments ks)) as [|f fs] eqn:Hfs; [done|].
      assert (f ∈ filter (λ f, Index f = (0 + Z.of_nat (length (ToolCalls m)))%Z) (fragments ks)) as Hin.
      { rewrite Hfs. by left. }
      apply list_elem_of_filter in Hin as [Hf Hin]. rewrite Forall_forall in Hi. specialize (Hi f Hin). lia. }
  by destruct (collect _ _ _), (answer_calls _); simplify_eq/=.
Qed.

(** ** A stream is the answer in one piece *)
Context `{T : Transport} {D : Type} (onDelta : option (string → D → option error * D)).

(** C31: when the server answers a request in one piece and as a stream, and the
    chunks of the stream are the message split up in any way, with the
    fragments of its tool calls in any order among each other, both forms return
    the same completion, or both fail because the arguments of a tool call
    are no JSON; and the callback has received the content piece by
    piece. *)
Theorem stream_equals_complete (c : HTTPClient) (req : CompletionRequest) (whole parts : Response)
    (p : payload) (m : wireMessage unit) (ks : list chunk) (g : string → D → D) (d : D) :
  post c "completion" "complete" [] (marshal_completion (wire_request (λ _, tt) None c req)) = Ok whole →
  decode_payload (Body whole) (BodyErr whole) = Ok p → head (Choices p) = Some m →
  post c "streaming completion" "stream completion" [("Accept", "text/event-stream")]
    (marshal_streaming (wire_request Z.of_nat (Some true) c req)) = Ok parts →
  BodyErr parts = None → chunks_of (Body parts) = Ok ks →
  streamed m ks → last_usage ks = PayloadUsage p →
  (∀ text d, emit onDelta text d = (None, g text d)) →
  to_option (CompleteStream onDelta c req d).1 = to_option (Complete c req) ∧
  (CompleteStream onDelta c req d).2 = deliver g (texts ks) d ∧
  concat_strings (texts ks) = Content m.
Proof.
  intros Hwhole Hp Hm Hparts Herr Hks Hst Hu Hg.
  assert (CompleteStream onDelta c req d = (finish (assemble ks start), deliver g (texts ks) d)) as ->.
  { unfold CompleteStream. by rewrite Hparts, Herr, (read_lines_accepted onDelta g Hg _ _ _ ks). }
  split; [|split; [done|by apply Hst]].
  unfold Complete. rewrite Hwhole. simpl. rewrite Hp. destruct p as [[|m' ms] u]; [done|].
  injection Hm as ->. simpl in Hu. subst u. by apply finish_streamed.
Qed.
End collecting.

(** ** What a successful stream returns *)
Section sound.
Context `{JS : ChatJSON} `{T : Transport} {D : Type} (onDelta : option (string → D → option error * D)).

(** The callback with a log of the texts it receives. *)
Definition logged : option (string → D * list string → option error * (D * list string)) :=
  Some (λ text '(d, log), let '(err, d) := emit onDelta text d in (err, (d, log ++ [text]))).

Definition log_ok (s : state) (d : D * list string) : Prop :=
  concat_strings d.2 = content s ∧ Forall (λ text, text ≠ "") d.2.

Lemma on_choices_log choices s d s' d' :
  log_ok s d → on_choices logged choices s d = (Ok s', d') → log_ok s' d'.
Proof.
  revert s d. induction choices as [|[text fs] choices IH]; intros s d Hd; simpl; [by intros [= <- <-]|].
  unfold on_choice. simpl. case_decide as Hne; [by apply IH|].
  destruct d as [d log]. destruct (emit onDelta text d) as [[err|] d1]; [done|]. apply IH.
  destruct Hd as [Hlog Hall]. unfold log_ok in *. simpl in *. split.
  - by rewrite concat_strings_app, Hlog; simpl; rewrite string_app_nil_r.
  - apply Forall_app. by repeat constructor.
Qed.

Lemma on_line_log line s d b s' d' :
  log_ok s d → on_line logged line s d = (Ok (b, s'), d') → log_ok s' d'.
Proof.
  intros Hd. unfold on_line. destruct (line_data line); [|by intros [= <- <- <-]].
  case_decide; [by intros [= <- <- <-]|]. destruct (unmarshal_chunk _) as [k|]; [|done].
  unfold on_chunk. destruct (on_choices _ _ _ _) as [[s1|] d1] eqn:Hc; [|done]. intros [= <- <- <-].
  by eapply on_choices_log, Hc.
Qed.

Lemma read_lines_log lines readErr s d s' d' :
  log_ok s d → read_lines logged lines readErr s d = (Ok s', d') → log_ok s' d'.
Proof.
  revert s d. induction lines as [|line lines IH]; intros s d Hd; simpl; [by intros [= <- <-]|].
  destruct (match lines with [] => readErr | _ => None end); [done|].
  destruct (on_line _ _ _ _) as [[[[] s1]|] d1] eqn:Hl; [|by apply IH; eapply on_line_log|done].
  intros [= <- <-]. by eapply on_line_log.
Qed.

(** Whatever the server sends, when a stream succeeds the pieces that the
    callback received are not empty and concatenate to the content, and every
    tool call has an identifier, a name and arguments that are JSON. *)
Theorem stream_sound (c : HTTPClient) (req : CompletionRequest) (d d' : D) (log : list string)
    (res : Llm.Completion) :
  CompleteStream logged c req (d, []) = (Ok res, (d', log)) →
  concat_strings log = Llm.Content (Llm.Message_ res) ∧ Forall (λ text, text ≠ "") log ∧
  Llm.Role (Llm.Message_ res) = "assistant" ∧ Forall well_formed (Llm.ToolCalls (Llm.Message_ res)).
Proof.
  unfold CompleteStream. destruct (post _ _ _ _ _) as [resp|]; [|done].
  destruct (read_lines _ _ _ _ _) as [[s|] d1] eqn:Hr; [|done]. intros [= Hf ->].
  apply read_lines_log in Hr as [Hlog Hall]; [|by split].
  unfold finish in Hf. rewrite result_bind_Ok in Hf. destruct Hf as (l & Hl & [= <-]).
  split_and!; [done..|]. by eapply collect_well_formed.
Qed.
End sound.

(** ** A concrete server *)
Section demo.
Definition demo_call : wireCall unit := mkWireCall tt "call-1" "function" "list_workers" "{}".
Definition demo_message : wireMessage unit := mkWireMessage "assistant" "Hello" "" [demo_call].
Definition demo_usage : AgentMetrics.Usage := AgentMetrics.mkUsage 3 4 7.
Definition no_usage : AgentMetrics.Usage := AgentMetrics.mkUsage 0 0 0.
Definition fragment (i : Z) (id name arguments : string) : wireCall Z :=
  mkWireCall i id "function" name arguments.
Definition demo_chunks : list (string * chunk) :=
  [("1", mkChunk [mkDelta "Hel" []] no_usage);
   ("2", mkChunk [mkDelta "" [fragment 0 "call-1" "list_workers" "{"]] no_usage);
   ("3", mkChunk [mkDelta "lo" [fragment 0 "" "" "}"]] no_usage);
   ("4", mkChunk [] demo_usage);
   ("gap", mkChunk [mkDelta "" [fragment 1 "call-2" "get_worker_facts" "{}"]] no_usage)].
Definition demo_chat : ChatJSON := {|
  marshal_completion _ := Ok ""; marshal_streaming _ := Ok "";
  decode_payload _ _ := Ok (mkPayload [demo_message] demo_usage);
  unmarshal_chunk data :=
    match (list_to_map demo_chunks : gmap string chunk) !! data with
    | Some k => Ok k
    | None => Err (new_error "invalid character")
    end;
  valid s := has_prefix s "{" && has_suffix s "}";
|}.
Definition lines_of (l : list string) : string := join l newline.
Definition demo_transport (stream : list string) : Transport := {|
  new_request _ := None;
  round_trip req := Ok (mkResponse 200 "200 OK" (lines_of stream) None);
|}.
Definition demo_client : HTTPClient := NewHTTPClient "https://llm.example/v1//" "key" "chat".
Definition collecting_callback : option (string → list string → option error * list string) :=
  Some (λ text log, (None, log ++ [text])).
#[local] Existing Instance demo_chat.
Abbreviation run stream := (@CompleteStream demo_chat (demo_transport stream) (list string)
  collecting_callback demo_client (mkCompletionRequest [] []) []).

Example base_url_trimmed : baseURL demo_client = "https://llm.example/v1".
Proof. vm_compute. done. Qed.

(** A stream that the server closes before the mark [[DONE]] counts as the whole
    answer. *)
Example truncated_stream_accepted :
  to_option (run ["data: 1"; ""]).1 =
    Some (Llm.mkCompletion (Llm.mkMessage "assistant" "Hel" "" []) no_usage).
Proof. vm_compute. done. Qed.

(** Tool calls behind a missing index are dropped without an error. *)
Example calls_behind_gap_dropped :
  to_option (run ["data: gap"; "data: [DONE]"; ""]).1 =
    Some (Llm.mkCompletion (Llm.mkMessage "assistant" "" "" []) no_usage).
Proof. vm_compute. done. Qed.

Definition demo_stream : list string :=
  [": keep-alive"; ""; "data: 1"; "data:2"; ""; "data: 3"; "data: 4"; "data: [DONE]"; "ignored"].

Lemma stream_equals_complete_witness :
  let T := demo_transport demo_stream in
  to_option (run demo_stream).1 =
    to_option (@Complete demo_chat T demo_client (mkCompletionRequest [] [])) ∧
  (run demo_stream).2 = ["Hel"; "lo"].
Proof.
  intros T.
  destruct (@stream_equals_complete demo_chat T (list string) collecting_callback demo_client
    (mkCompletionRequest [] []) (mkResponse 200 "200 OK" (lines_of demo_stream) None)
    (mkResponse 200 "200 OK" (lines_of demo_stream) None) (mkPayload [demo_message] demo_usage) demo_message
    (take 4 demo_chunks.*2) (λ text log, log ++ [text]) []) as (H1 & H2 & _).
  1-6, 8-9: reflexivity.
  - split; [reflexivity|by repeat constructor|repeat constructor; vm_compute; done|].
    intros [|k] call; simpl; [by intros [= <-]|done].
  - split; [exact H1|]. etransitivity; [exact H2|]. vm_compute. reflexivity.
Defined.

Lemma stream_sound_witness :
  concat_strings ["Hel"; "lo"] = "Hello" ∧
  Forall (@well_formed demo_chat) [Llm.mkCall "call-1" "list_workers" "{}"].
Proof.
  destruct (@stream_sound demo_chat (demo_transport demo_stream) (list string) collecting_callback demo_client
    (mkCompletionRequest [] []) [] ["Hel"; "lo"] ["Hel"; "lo"]
    (Llm.mkCompletion (Llm.mkMessage "assistant" "Hello" "" [Llm.mkCall "call-1" "list_workers" "{}"]) demo_usage))
    as (H1 & _ & _ & H2); [vm_compute; reflexivity|]. by split.
Defined.
End demo.

End LlmClientFacts.
