(* ===== verification/Catalog.v ===== *)
(** * Service profiles of a worker ([internal/config/services.go])

    The configuration file of a worker's services: its sections and properties,
    read line by line, and the lookup of a profile. *)
From Stdlib Require Import Ascii.
From S2P Require Import Prelude.
From S2P Require Import GoStrings.
From S2P Require Import Fmt.
From S2P Require Import Sensitive.

(** ** Files

    [os.Stat] and [os.Open] of the host. A file that opens yields its content,
    and the error that ended reading it before the end. *)
Record FileInfo := mkInfo { IsRegular : bool; Perm : Z }.
Class Files := {
  os_stat : string → result FileInfo;
  os_open : string → result (string * option error);
}.

(** [os.ReadFile]. *)
Definition os_ReadFile `{Files} (path : string) : result string :=
  match os_open path with
  | Err err => Err err
  | Ok (content, None) => Ok content
  | Ok (_, Some err) => Err err
  end.

(** ** [bufio.Scanner] with lines of at most 64 kB *)
Module Scanner.

Definition newline : ascii := of_byte 10.
Definition carriage_return : ascii := of_byte 13.
Definition MaxScanTokenSize : Z := 64 * 1024.
Definition too_long (s : string) : bool := (MaxScanTokenSize <=? Z.of_nat (String.length s))%Z.
Definition ErrTooLong : error := new_error "bufio.Scanner: token too long".

(** The lines of a text, the empty rest after the last line end not being
    one. *)
Definition pieces (content : string) : list string :=
  let l := split content (String newline "") in
  if decide (List.last l "" = "") then removelast l else l.

(** The tokens, and the error of the scanner after them. *)
Fixpoint scan (l : list string) (readErr : option error) : list string * option error :=
  match l with
  | [] => ([], readErr)
  | s :: l =>
      if too_long s then ([], Some ErrTooLong)
      else let '(tokens, err) := scan l readErr in
           (trim_suffix s (String carriage_return "") :: tokens, err)
  end.

End Scanner.

Module Catalog.

Definition DefaultServicesConfigPath : string := "/etc/adp/services.cnf".

Record Profile := mkProfile {
  Name : string; Type_ : string; Host : string; Port : string; User : string; Password : string;
  URL : string; Process : string; Unit : string; LogFile : string; ConfigFile : string;
}.
#[global] Instance Profile_eta : Eta Profile := λ p,
  mkProfile (Name p) (Type_ p) (Host p) (Port p) (User p) (Password p) (URL p) (Process p) (Unit p)
    (LogFile p) (ConfigFile p).

Abbreviation ServiceCatalog := (gmap string Profile).

Definition add (profile : Profile) (c : ServiceCatalog) : result ServiceCatalog :=
  if decide (Type_ profile = "" ∨ Host profile = "") then
    Err (Errorf "service profile %q requires type and host" [AStr (Name profile)])
  else match c !! Name profile with
       | Some _ => Err (Errorf "duplicate service profile %q" [AStr (Name profile)])
       | None => Ok (<[Name profile := profile]> c)
       end.

(** The profile that is being read is added when the next one starts, and at
    the end. *)
Definition add_current (current : option Profile) (c : ServiceCatalog) : result ServiceCatalog :=
  match current with None => Ok c | Some p => add p c end.

(** A property, by its trimmed lower-case key. *)
Definition set_property (key value : string) (p : Profile) : option Profile :=
  let v := trim_space value in
  if decide (key = "type") then Some (p <| Type_ := to_lower v |>)
  else if decide (key = "host") then Some (p <| Host := v |>)
  else if decide (key = "port") then Some (p <| Port := v |>)
  else if decide (key = "user") then Some (p <| User := v |>)
  else if decide (key = "password") then Some (p <| Password := v |>)
  else if decide (key = "url") then Some (p <| URL := v |>)
  else if decide (key = "process") then Some (p <| Process := v |>)
  else if decide (key = "unit") then Some (p <| Unit := v |>)
  else if decide (key = "log_file") then Some (p <| LogFile := v |>)
  else if decide (key = "config_file") then Some (p <| ConfigFile := v |>)
  else None.

(** [line[1 : len(line)-1]]. *)
Definition inner (line : string) : string := take_bytes (String.length line - 2) (drop_bytes 1 line).

Definition process_line (lineNo : Z) (text : string) (c : ServiceCatalog) (current : option Profile)
    : result (ServiceCatalog * option Profile) :=
  let line := trim_space text in
  if bool_decide (line = "") || has_prefix line "#" || has_prefix line ";" then Ok (c, current)
  else if has_prefix line "[" && has_suffix line "]" then
    c ← add_current current c;
    let name := trim_space (inner line) in
    if negb (Sensitive.serviceProfilePattern name) then
      Err (Errorf "invalid service profile name at line %d" [AInt lineNo])
    else Ok (c, Some (mkProfile name "" "" "" "" "" "" "" "" "" ""))
  else
    match current with
    | None => Err (Errorf "service property outside a profile at line %d" [AInt lineNo])
    | Some p =>
        match cut line "=" with
        | None => Err (Errorf "invalid service property at line %d" [AInt lineNo])
        | Some (key, value) =>
            match set_property (trim_space (to_lower key)) value p with
            | Some p => Ok (c, Some p)
            | None => Err (Errorf "unsupported service property %q at line %d"
                             [AStr (trim_space key); AInt lineNo])
            end
        end
    end.

Fixpoint process_lines (lineNo : Z) (lines : list string) (c : ServiceCatalog)
    (current : option Profile) : result (ServiceCatalog * option Profile) :=
  match lines with
  | [] => Ok (c, current)
  | text :: lines =>
      st ← process_line lineNo text c current;
      process_lines (lineNo + 1) lines st.1 st.2
  end.

(** The catalog in the content of a file. *)
Definition read_catalog (content : string) (readErr : option error) : result ServiceCatalog :=
  let '(lines, err) := Scanner.scan (Scanner.pieces content) readErr in
  st ← process_lines 1 lines ∅ None;
  match err with
  | Some err => Err (Errorf "read services config: %w" [AErr err])
  | None => add_current st.2 st.1
  end.

Definition LoadServiceCatalog `{Files} (path : string) : result ServiceCatalog :=
  let path := if decide (trim_space path = "") then DefaultServicesConfigPath else path in
  match os_stat path with
  | Err err => Err (Errorf "stat services config: %w" [AErr err])
  | Ok info =>
      if negb (IsRegular info) || negb (Z.land (Perm info) 18 =? 0)%Z then
        Err (Errorf "services config must be a regular file not writable by group or others: %s"
               [AStr path])
      else match os_open path with
      | Err err => Err (Errorf "open services config: %w" [AErr err])
      | Ok (content, readErr) => read_catalog content readErr
      end
  end.

Definition Resolve (c : ServiceCatalog) (name serviceType : string) : result Profile :=
  if negb (Sensitive.serviceProfilePattern name) then Err (new_error "invalid service profile")
  else match c !! name with
  | None => Err (Errorf "service profile %q not found" [AStr name])
  | Some profile =>
      if decide (Type_ profile ≠ serviceType) then
        Err (Errorf "service profile %q has type %q, expected %q"
               [AStr name; AStr (Type_ profile); AStr serviceType])
      else Ok profile
  end.

End Catalog.
