(* ===== verification/CatalogFacts.v ===== *)
(** * Properties of service profiles

    What a loaded catalog holds, and that reading a printed catalog gives it
    back. *)
From Stdlib Require Import Ascii.
From S2P Require Import Prelude.
From S2P Require Import GoStrings.
From S2P Require Import Fmt.
From S2P Require Import Sensitive.
From S2P Require Import Catalog.

Import Catalog.

Module CatalogFacts.

(** ** Trimming *)
Lemma trim_with_keep width n s : width s = 0 → trim_with width n s = s.
Proof. intros Hw. destruct n; simpl; [done|]. by rewrite Hw. Qed.

Definition untrimmed (s : string) : Prop :=
  space_width s = 0 ∧ space_width_rev (string_rev s) = 0.

Lemma trim_space_keep s : untrimmed s → trim_space s = s.
Proof.
  intros [Hl Hr]. unfold trim_space, trim_left_space, trim_right_space.
  rewrite (trim_with_keep space_width) by done.
  rewrite trim_with_keep by done. apply string_rev_involutive.
Qed.

(** A byte below 128 is part of no longer white space. *)
Lemma space_width_ascii c s :
  (byte_of c < 128)%Z → is_ascii_space c = false → space_width (String c s) = 0.
Proof.
  intros Hc Ha. simpl. rewrite Ha. destruct s as [|c1 s]; [done|].
  unfold space2, space3. rewrite (proj2 (Z.eqb_neq (byte_of c) 194)) by lia. simpl.
  destruct s as [|c2 s]; [done|].
  by rewrite (proj2 (Z.eqb_neq (byte_of c) 225)), (proj2 (Z.eqb_neq (byte_of c) 226)),
    (proj2 (Z.eqb_neq (byte_of c) 227)) by lia.
Qed.

Lemma space3_ascii b0 b1 b2 : (b2 < 128)%Z → space3 b0 b1 b2 = false.
Proof.
  intros Hb. unfold space3, in_range.
  rewrite (proj2 (Z.eqb_neq b2 128)), (proj2 (Z.eqb_neq b2 168)), (proj2 (Z.eqb_neq b2 169)),
    (proj2 (Z.eqb_neq b2 175)), (proj2 (Z.eqb_neq b2 159)), (proj2 (Z.leb_gt 128 b2)) by lia.
  by rewrite !andb_false_r.
Qed.

Lemma space_width_rev_ascii c s :
  (byte_of c < 128)%Z → is_ascii_space c = false → space_width_rev (String c s) = 0.
Proof.
  intros Hc Ha. simpl. rewrite Ha. destruct s as [|c1 s]; [done|].
  unfold space2. rewrite (proj2 (Z.eqb_neq (byte_of c) 133)), (proj2 (Z.eqb_neq (byte_of c) 160)) by lia.
  simpl. rewrite andb_false_r. destruct s as [|c2 s]; [done|]. by rewrite space3_ascii.
Qed.

(** The bytes before an ASCII byte do not matter for the end of a text. *)
Lemma space_width_rev_app r c s :
  (byte_of c < 128)%Z → is_ascii_space c = false →
  (match s with String d _ => (byte_of d < 128)%Z | EmptyString => True end) →
  space_width_rev r = 0 → space_width_rev (r +:+ String c s) = 0.
Proof.
  intros Hc Ha Hs Hr. destruct r as [|x [|y [|z r]]].
  - change ("" +:+ String c s) with (String c s). by apply space_width_rev_ascii.
  - change (String x "" +:+ String c s) with (String x (String c s)). simpl in *.
    destruct (is_ascii_space x); [done|]. unfold space2, space3.
    rewrite (proj2 (Z.eqb_neq (byte_of c) 194)) by lia. simpl.
    destruct s as [|d s]; [done|].
    by rewrite (proj2 (Z.eqb_neq (byte_of d) 225)), (proj2 (Z.eqb_neq (byte_of d) 226)),
      (proj2 (Z.eqb_neq (byte_of d) 227)) by lia.
  - change (String x (String y "") +:+ String c s) with (String x (String y (String c s))). simpl in *.
    destruct (is_ascii_space x); [done|]. destruct (space2 _ _); [done|]. unfold space3.
    by rewrite (proj2 (Z.eqb_neq (byte_of c) 225)), (proj2 (Z.eqb_neq (byte_of c) 226)),
      (proj2 (Z.eqb_neq (byte_of c) 227)) by lia.
  - exact Hr.
Qed.

(** ** Soundness *)
Definition good_name (name : string) : Prop := Sensitive.serviceProfilePattern name = true.
Definition good_profile (name : string) (p : Profile) : Prop :=
  Name p = name ∧ good_name name ∧ Type_ p ≠ "" ∧ Host p ≠ "".
Definition good_current (current : option Profile) : Prop :=
  match current with None => True | Some p => good_name (Name p) end.

Lemma add_current_good current c c' :
  good_current current → map_Forall good_profile c → add_current current c = Ok c' →
  map_Forall good_profile c'.
Proof.
  destruct current as [p|]; [|by intros _ ? [= <-]]. simpl. unfold add. intros Hp Hc.
  case_decide as Hd; [done|]. destruct (c !! Name p); [done|]. intros [= <-].
  apply map_Forall_insert_2; [|done]. split_and!; [done|done|tauto|tauto].
Qed.

Lemma set_property_name key value p p' : set_property key value p = Some p' → Name p' = Name p.
Proof. unfold set_property. intros H. repeat case_decide; by simplify_eq. Qed.

Lemma process_line_good n text c current st :
  good_current current → map_Forall good_profile c → process_line n text c current = Ok st →
  map_Forall good_profile st.1 ∧ good_current st.2.
Proof.
  intros Hp Hc. unfold process_line. destruct (_ || _ || _); [by intros [= <-]|]. destruct (_ && _).
  - intros (c' & Hadd & Hst)%result_bind_Ok. destruct (negb _) eqn:Hn; [done|]. injection Hst as <-.
    split; [by eapply add_current_good|]. simpl. by apply negb_false_iff.
  - destruct current as [p|]; [|done]. destruct (cut _ _) as [[key value]|]; [|done].
    destruct (set_property _ _ p) as [p'|] eqn:Hs; [|done]. intros [= <-]. split; [done|].
    simpl in *. by rewrite (set_property_name _ _ _ _ Hs).
Qed.

Lemma process_lines_good lines n c current st :
  good_current current → map_Forall good_profile c → process_lines n lines c current = Ok st →
  map_Forall good_profile st.1 ∧ good_current st.2.
Proof.
  revert n c current. induction lines as [|text lines IH]; intros n c current Hp Hc; simpl.
  - by intros [= <-].
  - intros (st1 & H1 & H2)%result_bind_Ok. destruct (process_line_good _ _ _ _ _ Hp Hc H1) as [? ?].
    by eapply IH.
Qed.

Lemma scan_complete l readErr lines : Scanner.scan l readErr = (lines, None) → readErr = None.
Proof.
  revert lines. induction l as [|x l IH]; intros lines; simpl; [by intros [= _ ->]|].
  repeat case_match; intros [= <-]; subst; by eauto.
Qed.

Lemma read_catalog_good content err c :
  read_catalog content err = Ok c → err = None ∧ map_Forall good_profile c.
Proof.
  unfold read_catalog. destruct (Scanner.scan _ _) as [lines err'] eqn:Hscan.
  intros (st & Hst & Hadd)%result_bind_Ok. destruct err' as [?|]; [done|].
  split; [by eapply scan_complete|].
  destruct (process_lines_good lines 1 ∅ None st I (map_Forall_empty _) Hst) as [? ?].
  by eapply add_current_good.
Qed.

(** C27: a catalog is loaded only when the file the path names (the default file
    when the path is blank) is a regular file that neither its group nor others
    can write at the time it is looked at, and that same path then opens, is read
    to its end and parses; every profile in the catalog is stored under its own
    valid name, with a type and a host, and is what a lookup by its name and type
    returns. The file is looked at and opened by its path: the code does not rule
    out that it is replaced between the two. *)
Theorem load_sound `{Files} (path : string) (c : ServiceCatalog) :
  LoadServiceCatalog path = Ok c →
  let file := if decide (trim_space path = "") then DefaultServicesConfigPath else path in
  (∃ info content, os_stat file = Ok info ∧ IsRegular info = true ∧
     Z.testbit (Perm info) 4 = false ∧ Z.testbit (Perm info) 1 = false ∧
     os_open file = Ok (content, None) ∧ read_catalog content None = Ok c) ∧
  ∀ name p, c !! name = Some p →
    good_profile name p ∧ Resolve c name (Type_ p) = Ok p ∧
    ∀ t, t ≠ Type_ p → is_ok (Resolve c name t) = false.
Proof.
  unfold LoadServiceCatalog. set (file := if decide _ then _ else path). intros Hload.
  cbv beta zeta in Hload |- *. destruct (os_stat file) as [info|] eqn:Hstat; [|done].
  destruct (negb _ || negb _) eqn:Hperm; [done|].
  apply orb_false_iff in Hperm as [Hreg Hw]. apply negb_false_iff in Hreg, Hw.
  destruct (os_open file) as [[content err]|] eqn:Hopen; [|done].
  destruct (read_catalog_good _ _ _ Hload) as [-> Hc]. split.
  - exists info, content. apply Z.eqb_eq in Hw.
    assert (∀ i, Z.testbit (Z.land (Perm info) 18) i = false) as Hbit
      by (intros i; rewrite Hw; apply Z.bits_0).
    pose proof (Hbit 4%Z) as H4. pose proof (Hbit 1%Z) as H1.
    rewrite Z.land_spec, andb_true_r in H4, H1. by split_and!.
  - intros name p Hp. pose proof (Hc name p Hp) as (Hn & Hgood & Ht & Hh). split; [done|].
    unfold Resolve. rewrite Hgood, Hp. simpl. rewrite decide_False by (by intros ?).
    split; [done|]. intros t Hne. by rewrite decide_True by congruence.
Qed.

(** ** Printing a catalog *)
Definition equals : ascii := "="%char.
Definition property_line (key value : string) : string := key +:+ String equals value.
Definition properties (p : Profile) : list (string * string) :=
  [("type", Type_ p); ("host", Host p); ("port", Port p); ("user", User p); ("password", Password p);
   ("url", URL p); ("process", Process p); ("unit", Unit p); ("log_file", LogFile p);
   ("config_file", ConfigFile p)].
Definition header (p : Profile) : string := "[" +:+ Name p +:+ "]".
Definition print_profile (p : Profile) : list string :=
  header p :: ((λ '(key, value), property_line key value) <$> properties p).
Definition print_catalog (ps : list Profile) : string :=
  join (concat (print_profile <$> ps) ++ [""]) (String Scanner.newline "").

(** A value that reads back: no white space around it, no line end in it, and
    its line is not too long. *)
Definition printable_value (key value : string) : Prop :=
  untrimmed value ∧ free Scanner.newline value ∧ Scanner.too_long (property_line key value) = false.
Definition printable_profile (p : Profile) : Prop :=
  good_profile (Name p) p ∧ to_lower (Type_ p) = Type_ p ∧
  Forall (λ '(key, value), printable_value key value) (properties p).

(** *** Lines *)
Lemma good_name_chars name :
  good_name name → all_chars Sensitive.is_profile_char name = true ∧ String.length name ≤ 64.
Proof.
  unfold good_name, Sensitive.serviceProfilePattern. destruct name as [|c s]; [done|].
  intros [[Hc Hs]%andb_prop Hl]%andb_prop. simpl. apply bool_decide_eq_true in Hl.
  unfold Sensitive.is_profile_char at 1. rewrite Hc. split; [done|lia].
Qed.

(** Characters of texts that are never trimmed. *)
Definition solid (c : ascii) : bool := (byte_of c <? 128)%Z && negb (is_ascii_space c).

Lemma profile_char_solid c :
  Sensitive.is_profile_char c = true → solid c = true ∧ c ≠ Scanner.newline.
Proof.
  intros H. assert (45 ≤ byte_of c < 123)%Z as Hb.
  { revert H. unfold Sensitive.is_profile_char, Sensitive.is_profile_start, Sensitive.is_dash,
      Sensitive.is_char, in_range. rewrite !orb_true_iff, !andb_true_iff, !Z.leb_le, !Z.eqb_eq. lia. }
  unfold solid, is_ascii_space, in_range. split.
  - rewrite (proj2 (Z.ltb_lt _ _)), (proj2 (Z.leb_gt (byte_of c) 13)), (proj2 (Z.eqb_neq _ 32)) by lia.
    by rewrite andb_false_r.
  - intros ->. vm_compute in Hb. by destruct Hb.
Qed.

Lemma solid_spec c : solid c = true → (byte_of c < 128)%Z ∧ is_ascii_space c = false.
Proof. unfold solid. rewrite andb_true_iff, Z.ltb_lt, negb_true_iff. done. Qed.

(** A text between two solid characters is not trimmed. *)
Lemma untrimmed_ends c s d :
  solid c = true → solid d = true → untrimmed (String c (s +:+ String d "")).
Proof.
  intros [? ?]%solid_spec [? ?]%solid_spec. split; [by apply space_width_ascii|].
  rewrite string_rev_cons, string_rev_app_distr. change (string_rev (String d "")) with (String d "").
  rewrite string_app_assoc. by apply space_width_rev_ascii.
Qed.

Lemma string_snoc c s : ∃ t d, String c s = t +:+ String d "" ∧ (t = "" → s = "" ∧ d = c).
Proof.
  revert c. induction s as [|c' s IH]; intros c; [by exists "", c|].
  destruct (IH c') as (t & d & Heq & _). exists (String c t), d. by rewrite string_app_cons, Heq.
Qed.

Lemma untrimmed_solid s : all_chars solid s = true → untrimmed s.
Proof.
  destruct s as [|c s]; [by split|]. intros Hs. destruct (string_snoc c s) as (t & d & Heq & Ht).
  rewrite Heq in Hs |- *. rewrite all_chars_app in Hs. simpl in Hs.
  apply andb_prop in Hs as [Hts [Hd _]%andb_prop]. destruct t as [|c' t].
  - apply solid_spec in Hd as [? ?]. split; [by apply space_width_ascii|].
    by apply space_width_rev_ascii.
  - rewrite string_app_cons. simpl in Hts. apply andb_prop in Hts as [? _]. by apply untrimmed_ends.
Qed.

Lemma name_untrimmed name : good_name name → untrimmed name.
Proof.
  intros [Hn _]%good_name_chars. apply untrimmed_solid. revert Hn. apply all_chars_impl.
  intros c Hc. by apply profile_char_solid.
Qed.

Lemma header_untrimmed p : untrimmed (header p).
Proof. by apply (untrimmed_ends "["%char (Name p) "]"%char). Qed.

Lemma property_untrimmed k c d value :
  let key := String k (c +:+ String d "") in
  solid k = true → solid d = true → untrimmed value →
  untrimmed (property_line key value).
Proof.
  intros key [? ?]%solid_spec [? ?]%solid_spec [_ Hv]. unfold property_line, key.
  split; [rewrite string_app_cons; by apply space_width_ascii|].
  rewrite string_rev_app_distr, (string_rev_cons equals), string_app_assoc.
  change (String equals "" +:+ ?x) with (String equals x).
  rewrite string_rev_cons, string_rev_app_distr. by apply space_width_rev_app.
Qed.

Lemma take_bytes_app s t : take_bytes (String.length s) (s +:+ t) = s.
Proof. induction s as [|c s IH]; [by destruct t|]. rewrite string_app_cons. simpl. by rewrite IH. Qed.

Lemma inner_header p : inner (header p) = Name p.
Proof.
  unfold inner, header. rewrite !string_length_app. cbn [String.length].
  change (drop_bytes 1 ("[" +:+ Name p +:+ "]")) with (Name p +:+ "]").
  replace (1 + (String.length (Name p) + 1) - 2) with (String.length (Name p)) by lia.
  apply take_bytes_app.
Qed.

Lemma prefix_app s t : String.prefix s (s +:+ t) = true.
Proof.
  induction s as [|c s IH]; [by destruct t|]. rewrite string_app_cons. cbn [String.prefix].
  by destruct (Ascii.ascii_dec c c).
Qed.

(** A section starts the profile of its name. *)
Lemma process_header n p c current :
  good_name (Name p) →
  process_line n (header p) c current =
    (c ← add_current current c; Ok (c, Some (mkProfile (Name p) "" "" "" "" "" "" "" "" "" ""))).
Proof.
  intros Hn. unfold process_line. rewrite (trim_space_keep _ (header_untrimmed p)).
  rewrite bool_decide_eq_false_2 by done.
  change (has_prefix (header p) "#") with false. change (has_prefix (header p) ";") with false.
  assert (has_suffix (header p) "]" = true) as ->.
  { unfold has_suffix, header. rewrite <-string_app_assoc, string_rev_app_distr. apply prefix_app. }
  assert (has_prefix (header p) "[" = true) as -> by apply prefix_app.
  simpl. destruct (add_current current c); [|done]. simpl.
  rewrite inner_header, (trim_space_keep _ (name_untrimmed _ Hn)).
  unfold good_name in Hn. by rewrite Hn.
Qed.

(** The keys of properties, as a decidable condition. *)
Definition key_ok (key : string) : bool :=
  match key with
  | String k (String _ _) =>
      negb (existsb (Ascii.eqb k) ["#"%char; ";"%char; "["%char]) && all_chars solid key
      && all_chars (λ c, negb (Ascii.eqb c equals)) key
  | _ => false
  end.

Lemma key_untrimmed key value :
  key_ok key = true → untrimmed value → untrimmed (property_line key value).
Proof.
  destruct key as [|k [|x s]]; [done..|]. destruct (string_snoc x s) as (t & d & Heq & _).
  unfold key_ok. rewrite Heq. intros [[_ Hs]%andb_prop _]%andb_prop. simpl in Hs.
  apply andb_prop in Hs as [Hk Hs]. rewrite all_chars_app in Hs. simpl in Hs.
  apply andb_prop in Hs as [_ [Hd _]%andb_prop]. by apply property_untrimmed.
Qed.

Lemma process_key n key value cat p p' :
  key_ok key = true → untrimmed value → set_property (trim_space (to_lower key)) value p = Some p' →
  process_line n (property_line key value) cat (Some p) = Ok (cat, Some p').
Proof.
  intros Hkey Hv Hset. unfold process_line. rewrite trim_space_keep by (by apply key_untrimmed).
  destruct key as [|k [|x s]]; [done..|]. unfold key_ok in Hkey.
  apply andb_prop in Hkey as [[Hk _]%andb_prop Hf]. apply negb_true_iff in Hk. simpl in Hk.
  rewrite !orb_false_iff, !Ascii.eqb_neq in Hk. destruct Hk as (H1 & H2 & H3 & _).
  rewrite bool_decide_eq_false_2 by done.
  assert (∀ c, k ≠ c → has_prefix (property_line (String k (String x s)) value) (String c "") = false) as Hp.
  { intros c Hc. unfold has_prefix, property_line. rewrite string_app_cons. cbn [String.prefix].
    by destruct (Ascii.ascii_dec c k). }
  rewrite !Hp by done. cbn [orb andb]. unfold property_line.
  change "=" with (String equals ""). rewrite cut_app by exact Hf. by rewrite Hset.
Qed.

(** The lines of a profile read back as the profile. *)
Lemma process_profile n p rest c current :
  printable_profile p →
  process_lines n (print_profile p ++ rest) c current =
    (c ← add_current current c; process_lines (n + 11) rest c (Some p)).
Proof.
  intros ((_ & Hn & _) & Hlow & Hv). unfold print_profile, properties in *.
  cbn [fmap list_fmap app process_lines].
  rewrite process_header by done. destruct (add_current current c) as [c'|]; [|done].
  cbn [mbind result_bind fst snd].
  repeat (apply Forall_cons in Hv as [(? & ? & _) Hv]).
  repeat match goal with
  | H : untrimmed ?v |- context [process_line ?m (property_line ?key ?v) ?cat (Some ?q)] =>
      rewrite (process_key m key v cat q _ eq_refl H eq_refl); cbn [mbind result_bind fst snd]
  end.
  rewrite !trim_space_keep by done. rewrite Hlow.
  replace (n + 1 + 1 + 1 + 1 + 1 + 1 + 1 + 1 + 1 + 1 + 1)%Z with (n + 11)%Z by lia.
  by destruct p.
Qed.

(** All profiles are added, in order. *)
Fixpoint add_all (c : ServiceCatalog) (ps : list Profile) : result ServiceCatalog :=
  match ps with
  | [] => Ok c
  | p :: ps => c ← add p c; add_all c ps
  end.

Lemma process_profiles n ps c p :
  Forall printable_profile ps →
  (st ← process_lines n (concat (print_profile <$> ps)) c (Some p); add_current st.2 st.1) =
  add_all c (p :: ps).
Proof.
  intros Hps. revert n c p. induction Hps as [|q ps Hq Hps IH]; intros n c p.
  - simpl. by destruct (add p c).
  - cbn [fmap list_fmap concat]. rewrite process_profile by done. simpl.
    destruct (add p c) as [c'|]; [|done]. simpl. rewrite IH. done.
Qed.

Lemma add_all_spec ps c :
  Forall printable_profile ps → NoDup (Name <$> ps) → (∀ p, p ∈ ps → c !! Name p = None) →
  ∃ c', add_all c ps = Ok c' ∧
    ∀ name q, c' !! name = Some q ↔ c !! name = Some q ∨ (q ∈ ps ∧ Name q = name).
Proof.
  intros Hps. revert c. induction Hps as [|p ps Hp Hps IH]; intros c Hnd Hfresh.
  - exists c. split; [done|]. intros name q. split; [by left|]. by intros [?|[?%elem_of_nil _]].
  - destruct Hp as ((_ & _ & Ht & Hh) & _). cbn [fmap list_fmap] in Hnd.
    apply NoDup_cons in Hnd as [Hnin Hnd]. simpl. unfold add.
    rewrite decide_False by tauto. rewrite Hfresh by (by left). simpl.
    destruct (IH (<[Name p := p]> c) Hnd) as (c' & Heq & Hc').
    { intros q Hq. rewrite lookup_insert_ne; [apply Hfresh; by right|]. intros Hn. apply Hnin.
      rewrite Hn. by apply list_elem_of_fmap_2. }
    exists c'. split; [done|]. intros name q. rewrite Hc', lookup_insert_Some, elem_of_cons.
    split; [naive_solver|]. intros [Hcq|[[->|Hq] Hn]]; [|naive_solver..].
    left. right. split; [|done]. intros Hn. rewrite <-Hn, Hfresh in Hcq; [done|by left].
Qed.

(** *** The scanner *)
Definition plain_line (s : string) : Prop :=
  untrimmed s ∧ free Scanner.newline s ∧ Scanner.too_long s = false.

Lemma scan_plain l : Forall plain_line l → Scanner.scan l None = (l, None).
Proof.
  induction 1 as [|s l ([_ Hr] & _ & Hs) _ IH]; [done|]. simpl. rewrite Hs, IH.
  unfold trim_suffix. assert (has_suffix s (String Scanner.carriage_return "") = false) as ->; [|done].
  unfold has_suffix. change (string_rev (String Scanner.carriage_return ""))
    with (String Scanner.carriage_return "").
  destruct (string_rev s) as [|c t]; [done|]. cbn [String.prefix].
  by destruct (Ascii.ascii_dec Scanner.carriage_return c) as [<-|].
Qed.

Lemma pieces_join l :
  Forall (free Scanner.newline) l → Scanner.pieces (join (l ++ [""]) (String Scanner.newline "")) = l.
Proof.
  intros Hl. unfold Scanner.pieces. rewrite split_join; [|by destruct l|].
  - rewrite List.last_last, decide_True by done. apply removelast_last.
  - apply Forall_app. split; [done|]. by repeat constructor.
Qed.

Lemma free_all_chars c s : (∀ d, Sensitive.is_profile_char d = true → d ≠ c) →
  all_chars Sensitive.is_profile_char s = true → free c s.
Proof.
  intros Hc. apply all_chars_impl. intros d Hd. apply negb_true_iff, Ascii.eqb_neq. by apply Hc.
Qed.

Lemma profile_lines_plain p : printable_profile p → Forall plain_line (print_profile p).
Proof.
  intros ((_ & Hn & _) & _ & Hv). unfold print_profile. constructor.
  - destruct (good_name_chars _ Hn) as [Hc Hlen]. split; [apply header_untrimmed|]. split.
    + unfold header. change ("[" +:+ ?x) with (String "[" x). apply free_cons. split; [done|].
      apply free_app. split; [|done]. revert Hc. apply free_all_chars.
      intros d Hd. by apply profile_char_solid.
    + unfold Scanner.too_long, Scanner.MaxScanTokenSize, header. rewrite !string_length_app.
      apply Z.leb_gt. cbn [String.length]. lia.
  - apply Forall_fmap. unfold properties in *. repeat (apply Forall_cons in Hv as [(? & ? & ?) Hv]).
    assert (∀ key v, key_ok key = true → free Scanner.newline key → untrimmed v →
      free Scanner.newline v → Scanner.too_long (property_line key v) = false →
      plain_line (property_line key v)) as Hline.
    { intros key v ? ? ? ? ?. split; [by apply key_untrimmed|]. split; [|done].
      unfold property_line. apply free_app. split; [done|]. by apply free_cons. }
    repeat (apply Forall_cons; split; [by apply Hline|]). done.
Qed.

(** C28: reading a printed list of profiles with distinct names gives exactly
    these profiles, each under its name. *)
Theorem catalog_roundtrip (ps : list Profile) :
  Forall printable_profile ps → NoDup (Name <$> ps) →
  ∃ c, read_catalog (print_catalog ps) None = Ok c ∧
    ∀ name p, c !! name = Some p ↔ p ∈ ps ∧ Name p = name.
Proof.
  intros Hps Hnd. assert (Forall plain_line (concat (print_profile <$> ps))) as Hlines.
  { apply Forall_concat, Forall_fmap. apply (Forall_impl _ _ _ Hps). apply profile_lines_plain. }
  unfold read_catalog, print_catalog.
  rewrite pieces_join by (apply (Forall_impl _ _ _ Hlines); by intros s (_ & ? & _)).
  rewrite scan_plain by done. destruct Hps as [|p ps Hp Hps].
  { exists ∅. split; [done|]. intros name p. rewrite lookup_empty. split; [done|].
    by intros [?%elem_of_nil _]. }
  cbn [fmap list_fmap concat]. rewrite process_profile by done. simpl.
  rewrite process_profiles by done.
  destruct (add_all_spec (p :: ps) ∅) as (c & Heq & Hc); [by constructor|done|done|].
  exists c. split; [done|]. intros name q. rewrite Hc, lookup_empty. naive_solver.
Qed.

(** *** Concrete files *)
Definition w_profile : Profile :=
  mkProfile "orders" "mysql" "db.internal" "3306" "ops" "s=[cret]" "" "" "mysqld.service" "/var/log/my sql.log" "".
Definition w_profiles : list Profile := [w_profile; w_profile <| Name := "cache" |> <| Type_ := "redis" |>].
#[local] Instance w_files : Files := {
  os_stat p := if decide (p = DefaultServicesConfigPath)
               then Ok {| IsRegular := true; Perm := 416 |} else Err (new_error "no such file");
  os_open _ := Ok (print_catalog w_profiles, None);
}.

Lemma w_profiles_printable : Forall printable_profile w_profiles.
Proof.
  repeat constructor; try (vm_compute; reflexivity); try (intros H; vm_compute in H; discriminate H).
Defined.

Lemma catalog_roundtrip_witness :
  ∃ c, read_catalog (print_catalog w_profiles) None = Ok c ∧
    ∀ name p, c !! name = Some p ↔ p ∈ w_profiles ∧ Name p = name.
Proof. apply (catalog_roundtrip w_profiles); [exact w_profiles_printable|apply (bool_decide_unpack _); vm_compute; exact I]. Defined.

Lemma load_sound_witness :
  ∃ c, LoadServiceCatalog " " = Ok c ∧ c !! "orders" = Some w_profile ∧
    Resolve c "orders" "mysql" = Ok w_profile.
Proof.
  assert (match LoadServiceCatalog " " with Ok c => c !! "orders" | Err _ => None end = Some w_profile)
    as Hp by (vm_compute; reflexivity).
  destruct (LoadServiceCatalog " ") as [c|] eqn:Hc; [|discriminate Hp]. exists c. split; [reflexivity|].
  split; [done|]. destruct (load_sound " " c Hc) as [_ Hl]. apply (Hl "orders" w_profile Hp).
Defined.

End CatalogFacts.
