(* ===== verification/Runner.v ===== *)
(** * The worker process ([internal/infrastructure/worker])

    The runner ([runner.go]) authorizes a job locally, fills in the values of a
    service profile and hands the command to the shell. The agent ([client.go])
    keeps the stream: it starts a goroutine for every job it receives and obeys
    commands. The host — its files, its shell — is a parameter. *)
From Stdlib Require Import Ascii.
From S2P Require Import Prelude.
From S2P Require Import GoStrings.
From S2P Require Import Fmt.
From S2P Require Import Model.
From S2P Require Import Hub.
From S2P Require Import Catalog.

Import Fmt Catalog.

(** ** [time.Duration.String] *)
Module Duration.

Definition digit (d : Z) : ascii := of_byte (48 + d).

(** The fraction [v / 10^prec] without trailing zeros, after [acc], and the
    integer part. *)
Fixpoint fmt_frac (prec : nat) (v : Z) (acc : string) : string * Z :=
  match prec with
  | O => (if decide (acc = "") then "" else "." +:+ acc, v)
  | S prec =>
      let d := (v mod 10)%Z in
      fmt_frac prec (v / 10)%Z
        (if decide (acc = "" ∧ d = 0%Z) then "" else String (digit d) acc)
  end.

Definition to_string (d : Z) : string :=
  let u := Z.abs d in
  let text :=
    if (u =? 0)%Z then "0s"
    else if (u <? 1000)%Z then pretty u +:+ "ns"
    else if (u <? 1000000)%Z then let '(frac, v) := fmt_frac 3 u "" in pretty v +:+ frac +:+ "µs"
    else if (u <? second)%Z then let '(frac, v) := fmt_frac 6 u "" in pretty v +:+ frac +:+ "ms"
    else
      let '(frac, v) := fmt_frac 9 u "" in
      let m := (v / 60)%Z in
      let h := (m / 60)%Z in
      (if (0 <? h)%Z then pretty h +:+ "h" else "")
      +:+ (if (0 <? m)%Z then pretty (m mod 60)%Z +:+ "m" else "")
      +:+ pretty (v mod 60)%Z +:+ frac +:+ "s" in
  if (d <? 0)%Z then "-" +:+ text else text.

Example duration_strings :
  to_string (30 * second) = "30s" ∧ to_string (90 * minute + 1500000000) = "1h30m1.5s" ∧
  to_string 1500 = "1.5µs" ∧ to_string 0 = "0s".
Proof. vm_compute. done. Qed.

End Duration.

(** ** The shell of the host

    [sh -c command]: it fails to start, it ends with the error of [Wait], an exit
    code and its output, or the time runs out. *)
Inductive shell_outcome :=
  | StartFailed (e : error)
  | Exited (waitErr : option error) (exitCode : Z) (output : string)
  | TimedOut.
Class Shell := run_shell : string → Z → shell_outcome.

(** ** The runner *)
Module Runner.

Record t := mk {
  workerType : string;
  execTimeout : Z;
  serviceConfigPath : string;
  serviceCatalog : option ServiceCatalog;
  blockedTools : gmap string bool;
}.
#[global] Instance t_eta : Eta t := λ r,
  mk (workerType r) (execTimeout r) (serviceConfigPath r) (serviceCatalog r) (blockedTools r).

Definition defaultBlockedTools : gmap string bool :=
  list_to_map ((λ tool, (tool, true)) <$>
    ["rm"; "dd"; "mkfs"; "fdisk"; "shutdown"; "reboot"; "halt"; "poweroff"; "kill"; "killall"; "pkill";
     "chmod"; "chown"; "passwd"; "useradd"; "userdel"; "groupadd"; "iptables"; "ip6tables"]).

Definition NewRunner (workerType : string) : t :=
  mk workerType (30 * second) DefaultServicesConfigPath None defaultBlockedTools.
Definition SetExecTimeout (d : Z) (r : t) : t := r <| execTimeout := d |>.
Definition SetServicesConfigPath (path : string) (r : t) : t :=
  if decide (trim_space path = "") then r else r <| serviceConfigPath := path |>.
(** A nil map changes nothing. *)
Definition SetBlockedTools (blocked : option (gmap string bool)) (r : t) : t :=
  match blocked with None => r | Some b => r <| blockedTools := b |> end.

Definition Load `{Files} (r : t) : result t :=
  match LoadServiceCatalog (serviceConfigPath r) with
  | Err err => Err (Errorf "load services config: %w" [AErr err])
  | Ok catalog => Ok (r <| serviceCatalog := Some catalog |>)
  end.

Definition trusted_sources : list string :=
  ["agent"; "template"; "yaml_job"; "manual_job"; "manual_dispatch"].

Definition Authorize (r : t) (job : Job.t) : result unit :=
  if negb (WorkerCanRunType (NormalizeWorkerType (workerType r)) (Job.WorkerType job)) then
    Err (Errorf "worker type %q cannot run job type %q" [AStr (workerType r); AStr (Job.WorkerType job)])
  else if decide (trim_space (Job.Command job) = "") then Err (new_error "job has no command to execute")
  else if decide (Job.SourceType job ∈ trusted_sources) then Ok tt
  else if decide (Job.SourceType job = "agent_shell") then
    let tool := split_first (trim_space (Job.Command job)) " " in
    guard_err (default false (blockedTools r !! tool)) (Errorf "blocked tool: %s" [AStr tool])
  else Err (Errorf "unknown job source type: %s" [AStr (Job.SourceType job)]).

(** An entry that the profile pins, unless it is empty. *)
Definition pin (key value : string) (p : gmap string string) : gmap string string :=
  if decide (value = "") then p else <[key := value]> p.

Definition pin_profile (profile : Profile) (p : gmap string string) : gmap string string :=
  pin "Unit" (Unit profile) (pin "LogFile" (LogFile profile)
    (pin "ProcessName" (Process profile) (pin "Process" (Process profile)
      (pin "URL" (URL profile) (pin "User" (User profile)
        (pin "Port" (Port profile) (pin "Host" (Host profile) p))))))).

Definition resolveServiceProfile (r : t) (params : StringMap)
    : result (gmap string string * option Profile) :=
  let p := smap_entries params in
  let name := trim_space (default "" (p !! "ServiceProfile")) in
  if decide (name = "") then Ok (p, None)
  else match serviceCatalog r with
  | None => Err (new_error "services config is not loaded")
  | Some catalog =>
      let serviceType := to_lower (trim_space (default "" (p !! "ServiceType"))) in
      if decide (serviceType = "") then
        Err (new_error "ServiceType is required when ServiceProfile is set")
      else
        profile ← Resolve catalog name serviceType;
        Ok (pin_profile profile p, Some profile)
  end.

Definition placeholder (k : string) : string := "{{." +:+ k +:+ "}}".
(** The loop over the map visits the parameters in the order [it]. *)
Definition substituteParams (it : MapIter) (cmd : string) (params : gmap string string) : string :=
  foldl (λ cmd '(k, v), replace_all cmd (placeholder k) v) cmd (range_map it params).

Section execute.
Context `{P : Printable} `{S : Shell}.

Definition executeShellCommand (r : t) (cmd : string) : bool * string :=
  match run_shell cmd (execTimeout r) with
  | StartFailed err => (false, error_text err)
  | Exited (Some _) _ output => (false, output)
  | Exited None exitCode output => ((exitCode =? 0)%Z, output)
  | TimedOut => (false, "command timed out after " +:+ Duration.to_string (execTimeout r))
  end.

(** The command that runs for a job, if any, or the output without running
    one. *)
Definition prepare (r : t) (it : MapIter) (job : Job.t) : string + string :=
  match Authorize r job with
  | Err err => inl ("authorization denied: " +:+ error_text err)
  | Ok _ =>
      let cmd := trim_space (Job.Command job) in
      if decide (cmd = "") then inl "job has no command to execute"
      else match resolveServiceProfile r (Job.Parameters job) with
      | Err err => inl ("service profile: " +:+ error_text err)
      | Ok (params, _) => inr (substituteParams it cmd params)
      end
  end.
Definition Execute (r : t) (it : MapIter) (job : Job.t) : bool * string :=
  match prepare r it job with
  | inl output => (false, output)
  | inr cmd => executeShellCommand r cmd
  end.
End execute.
End Runner.

(** ** The agent *)
Module Agent.

Record t := mk {
  serverURL : string; grpcServerAddr : string; workerToken : string; name : string; workerType : string;
  registeredID : string; execTimeout : Z; hostCollectInterval : Z; logToDB : bool;
  serviceConfigPath : string; runner : Runner.t;
}.
#[global] Instance t_eta : Eta t := λ c,
  mk (serverURL c) (grpcServerAddr c) (workerToken c) (name c) (workerType c) (registeredID c)
    (execTimeout c) (hostCollectInterval c) (logToDB c) (serviceConfigPath c) (runner c).

(** [strings.TrimRight(s, "/")]. *)
Fixpoint drop_slashes (s : string) : string :=
  match s with
  | EmptyString => ""
  | String c s' => if decide (c = "/"%char) then drop_slashes s' else s
  end.
Definition trim_right_slashes (s : string) : string := string_rev (drop_slashes (string_rev s)).

Definition NewClient (serverURL workerToken name workerType : string) : t :=
  mk (trim_right_slashes serverURL) "127.0.0.1:9090" workerToken name workerType "" (30 * second)
    (60 * second) false DefaultServicesConfigPath (Runner.NewRunner workerType).
Definition SetExecTimeout (d : Z) (c : t) : t :=
  c <| execTimeout := d |> <| runner := Runner.SetExecTimeout d (runner c) |>.
Definition SetGRPCServerAddr (addr : string) (c : t) : t :=
  let addr := trim_space addr in
  if decide (addr = "") then c else c <| grpcServerAddr := addr |>.
Definition SetHostCollectInterval (d : Z) (c : t) : t := c <| hostCollectInterval := d |>.
Definition SetLogToDB (enabled : bool) (c : t) : t := c <| logToDB := enabled |>.
Definition SetServicesConfigPath (path : string) (c : t) : t :=
  if decide (trim_space path = "") then c
  else c <| serviceConfigPath := path |> <| runner := Runner.SetServicesConfigPath path (runner c) |>.

(** What the worker sends on its stream. *)
Inductive envelope :=
  | Register (name workerType : string)
  | Heartbeat (workerID : string) (info : HostInfo.t)
  | JobResult (workerID jobID command : string) (success : bool) (output : string) (logToDB : bool)
  | CommandAck (workerID command : string) (success : bool).

Definition cloneStringMap (m : StringMap) : StringMap := Some (smap_entries m).

Definition protoJobToModel (job : option Hub.ProtoJob.t) : Job.t :=
  match job with
  | None => Job.zero
  | Some p =>
      Job.zero <| Job.ID := Hub.ProtoJob.Id p |>
               <| Job.Name := Hub.ProtoJob.Name p |>
               <| Job.WorkerType := Hub.ProtoJob.WorkerType p |>
               <| Job.Command := Hub.ProtoJob.Command p |>
               <| Job.TemplateCode := Hub.ProtoJob.TemplateCode p |>
               <| Job.Parameters := cloneStringMap (Hub.ProtoJob.Parameters p) |>
               <| Job.SourceType := Hub.ProtoJob.SourceType p |>
  end.

(** A fresh runner for the same configuration; the old one stays when its
    profiles cannot be loaded. *)
Definition restartRunner `{Files} (c : t) : option error * t :=
  let fresh := Runner.SetServicesConfigPath (serviceConfigPath c)
                  (Runner.SetExecTimeout (execTimeout c) (Runner.NewRunner (workerType c))) in
  match Runner.Load fresh with
  | Err err => (Some err, c)
  | Ok r => (None, c <| runner := r |>)
  end.

(** What becomes of the stream: it goes on, [runGRPCStream] returns, the process
    exits. *)
Inductive verdict := Continue | Return (err : option error) | Exit (status : Z).

Definition handleCommand `{Files} (command : string) (c : t) : t * list envelope * verdict :=
  let ack := CommandAck (registeredID c) command in
  if decide (command = "stop") then (c, [ack true], Return None)
  else if decide (command = "restart") then
    match restartRunner c with
    | (Some _, c) => (c, [ack false], Continue)
    | (None, c) => (c, [ack true], Continue)
    end
  else if decide (command = "force_stop") then (c, [ack true], Exit 1)
  else (c, [], Continue).

(** What the stream delivers after the registration. *)
Inductive inbound :=
  | InJob (job : option Hub.ProtoJob.t)
  | InCommand (command : string)
  | InError (message : string)
  | InOther.

(** The agent with its goroutines: [waiting] ones have not taken a runner yet,
    [executing] ones run their job under the runner they took. [sent] is what
    the stream accepted, and [ended] is set when the loop is left. *)
Record state := mkState {
  client : t;
  waiting : list Job.t;
  executing : list (Runner.t * Job.t);
  sent : list envelope;
  ended : option verdict;
}.
#[global] Instance state_eta : Eta state := λ s,
  mkState (client s) (waiting s) (executing s) (sent s) (ended s).

Section run.
Context `{P : Printable} `{S : Shell} `{F : Files}.

(** One message of the loop of [runGRPCStream]. *)
Definition receive (m : inbound) (s : state) : state :=
  match m with
  | InJob p => s <| waiting := waiting s ++ [protoJobToModel p] |>
  | InCommand command =>
      let '(c, acks, v) := handleCommand command (client s) in
      s <| client := c |> <| sent := sent s ++ acks |>
        <| ended := match v with Continue => ended s | _ => Some v end |>
  | InError _ | InOther => s
  end.

(** The result of a job that ran under [r]. *)
Definition result_of (c : t) (r : Runner.t) (it : MapIter) (job : Job.t) : envelope :=
  let '(success, output) := Runner.Execute r it job in
  JobResult (registeredID c) (Job.ID job) (Job.Command job) success output (logToDB c).

(** The steps of one stream. Leaving the loop closes the connection: what is in
    work goes on but cannot be reported any more; an exit ends everything. A
    result that cannot be sent is dropped. A step is what a goroutine does between
    two points where others matter; the locks and the waiting in it are in
    [AgentLocks]. *)
Inductive step (s : state) : option inbound → state → Prop :=
  | step_receive m : ended s = None → step s (Some m) (receive m s)
  | step_disconnected err : ended s = None → step s None (s <| ended := Some (Return (Some err)) |>)
  | step_heartbeat info :
      ended s = None →
      step s None (s <| sent := sent s ++ [Heartbeat (registeredID (client s)) info] |>)
  | step_start ws job ws' :
      ended s ≠ Some (Exit 1) → waiting s = ws ++ job :: ws' →
      step s None (s <| waiting := ws ++ ws' |>
                     <| executing := (runner (client s), job) :: executing s |>)
  | step_finish es r job es' it :
      ended s = None → executing s = es ++ (r, job) :: es' →
      step s None (s <| executing := es ++ es' |>
                     <| sent := sent s ++ [result_of (client s) r it job] |>)
  | step_lost es r job es' :
      ended s ≠ Some (Exit 1) → executing s = es ++ (r, job) :: es' →
      step s None (s <| executing := es ++ es' |>).

(** Executions, with the messages received. *)
Inductive runs (s : state) : list inbound → state → Prop :=
  | runs_refl : runs s [] s
  | runs_step ms s1 m s2 :
      runs s ms s1 → step s1 m s2 →
      runs s (match m with Some m => ms ++ [m] | None => ms end) s2.

(** The agent after the registration was answered with its identifier. *)
Definition registered (c : t) (id : string) : state :=
  mkState (c <| registeredID := id |>) [] [] [Register (name c) (workerType c)] None.
End run.
End Agent.
