(* ===== verification/RunnerFacts.v ===== *)
(** * Properties of the worker process

    Results are of delivered jobs that passed the local authorization, secrets
    of profiles stay out of commands. That nothing keeps a worker from answering
    is shown in [AgentLocksFacts], where its locks are. *)
From Stdlib Require Import Ascii.
From S2P Require Import Prelude.
From S2P Require Import GoStrings.
From S2P Require Import Fmt.
From S2P Require Import Model.
From S2P Require Import Hub.
From S2P Require Import Catalog.
From S2P Require Import Runner.

Import Fmt Catalog Runner.

Module RunnerFacts.

(** ** Authorization *)

(** A job is authorized exactly when its type runs on this worker, it has a
    command, and its source is trusted, or it is a command of the agent whose
    tool is not blocked. *)
Theorem authorize_iff (r : t) (job : Job.t) :
  Authorize r job = Ok tt ↔
  WorkerCanRunType (NormalizeWorkerType (workerType r)) (Job.WorkerType job) = true ∧
  trim_space (Job.Command job) ≠ "" ∧
  (Job.SourceType job ∈ trusted_sources ∨
   Job.SourceType job = "agent_shell" ∧
   blockedTools r !! split_first (trim_space (Job.Command job)) " " ≠ Some true).
Proof.
  unfold Authorize. destruct (WorkerCanRunType _ _); simpl; [|naive_solver].
  case_decide as Hc; [naive_solver|]. case_decide as Ht; [naive_solver|].
  case_decide as Ha.
  - rewrite guard_err_Ok. destruct (blockedTools r !! _) as [[]|]; simpl; naive_solver.
  - naive_solver.
Qed.

(** ** Commands without placeholders *)
Lemma has_prefix_app_l s p q : has_prefix s (p +:+ q) = true → has_prefix s p = true.
Proof.
  unfold has_prefix. revert s. induction p as [|c p IH]; intros s; [by intros _; destruct s|].
  rewrite string_app_cons. destruct s as [|d s]; [done|]. cbn [String.prefix].
  destruct (Ascii.ascii_dec c d); [|done]. apply IH.
Qed.

Lemma contains_prefix s p q : contains s (p +:+ q) = true → contains s p = true.
Proof.
  induction s as [|c s IH]; cbn [contains].
  - rewrite !orb_false_r. apply has_prefix_app_l.
  - intros [H|H]%orb_prop; apply orb_true_intro; [left; by eapply has_prefix_app_l|right; auto].
Qed.

Lemma cut_contains s sep : contains s sep = false → cut s sep = None.
Proof.
  induction s as [|c s IH]; simpl; intros [Hp Hs]%orb_false_iff; rewrite Hp; [done|]. by rewrite IH.
Qed.

Lemma replace_absent s old new : contains s old = false → GoStrings.replace_all s old new = s.
Proof.
  intros H. unfold GoStrings.replace_all, split. destruct (String.length s); simpl; [done|].
  by rewrite cut_contains.
Qed.

Lemma substitute_absent it cmd params :
  contains cmd "{{." = false → substituteParams it cmd params = cmd.
Proof.
  intros Hc. unfold substituteParams. induction (range_map it params) as [|[k v] l IH]; [done|].
  simpl. rewrite replace_absent; [done|]. destruct (contains cmd (placeholder k)) eqn:Hp; [|done].
  unfold placeholder in Hp. apply contains_prefix in Hp. congruence.
Qed.

(** A command without a placeholder runs as it was sent: whatever the
    service profile pins, a value that was rendered into the command before
    is not replaced. *)
Theorem rendered_command_unchanged `{Printable} (r : t) (it : MapIter) (job : Job.t) (cmd : string) :
  prepare r it job = inr cmd → contains (trim_space (Job.Command job)) "{{." = false →
  cmd = trim_space (Job.Command job) ∧ Authorize r job = Ok tt.
Proof.
  unfold prepare. destruct (Authorize r job) as [[]|]; [|done]. case_decide; [done|].
  destruct (resolveServiceProfile r (Job.Parameters job)) as [[params p]|]; [|done].
  intros [= <-] Hc. split; [|done]. by apply substitute_absent.
Qed.

(** ** Secrets of profiles *)

(** What a command may depend on. *)
Definition public (p : Profile) : Profile := p <| Password := "" |> <| ConfigFile := "" |>.
Definition public_catalog (c : option ServiceCatalog) : option ServiceCatalog :=
  match c with None => None | Some profiles => Some (public <$> profiles) end.
Definition same_public (r r' : t) : Prop :=
  workerType r = workerType r' ∧ execTimeout r = execTimeout r' ∧ blockedTools r = blockedTools r' ∧
  public_catalog (serviceCatalog r) = public_catalog (serviceCatalog r').

Lemma pin_public p params : pin_profile (public p) params = pin_profile p params.
Proof. done. Qed.

Lemma resolve_public c name st :
  Resolve (public <$> c) name st =
    match Resolve c name st with Ok p => Ok (public p) | Err e => Err e end.
Proof.
  unfold Resolve. destruct (negb _); [done|]. rewrite lookup_fmap.
  destruct (c !! name) as [p|]; [|done]. simpl. by case_decide.
Qed.

Lemma resolve_profile_public r r' params :
  public_catalog (serviceCatalog r) = public_catalog (serviceCatalog r') →
  match resolveServiceProfile r params, resolveServiceProfile r' params with
  | Ok (p, _), Ok (p', _) => p = p'
  | Err e, Err e' => e = e'
  | _, _ => False
  end.
Proof.
  intros Hc. unfold resolveServiceProfile. case_decide; [done|].
  destruct (serviceCatalog r) as [c|], (serviceCatalog r') as [c'|]; try done.
  injection Hc as Hc. case_decide; [done|]. set (n := trim_space _). set (st := to_lower _).
  pose proof (resolve_public c n st) as H1. pose proof (resolve_public c' n st) as H2.
  rewrite Hc in H1. rewrite H1 in H2. destruct (Resolve c n st) as [p|e], (Resolve c' n st) as [p'|e'];
    simplify_eq; simpl; try done.
  unfold pin_profile. congruence.
Qed.

(** C26: passwords and configuration files of service profiles have no influence
    on what a worker runs and reports: two runners whose profiles differ only
    there execute every job alike. *)
Theorem profile_secrets_stay `{Printable} `{Shell} (r r' : t) (it : MapIter) (job : Job.t) :
  same_public r r' → prepare r it job = prepare r' it job ∧ Execute r it job = Execute r' it job.
Proof.
  intros (Hw & Ht & Hb & Hc). assert (Authorize r job = Authorize r' job) as Ha
    by (unfold Authorize; by rewrite Hw, Hb).
  assert (prepare r it job = prepare r' it job) as Hp.
  { unfold prepare. rewrite Ha. destruct (Authorize r' job); [|done]. case_decide; [done|].
    pose proof (resolve_profile_public r r' (Job.Parameters job) Hc) as Hr.
    destruct (resolveServiceProfile r _) as [[? ?]|], (resolveServiceProfile r' _) as [[? ?]|];
      naive_solver. }
  split; [done|]. unfold Execute. rewrite Hp. unfold executeShellCommand. by rewrite Ht.
Qed.

(** ** The agent and its goroutines *)
Section agent.
Import Agent.
Context `{P : Printable} `{S : Shell} `{F : Files}.

Definition job_of (m : inbound) : list Job.t :=
  match m with InJob p => [protoJobToModel p] | _ => [] end.
Definition jobs_received (ms : list inbound) : list Job.t := concat (job_of <$> ms).
Definition result_ids (l : list envelope) : list string :=
  concat ((λ m, match m with JobResult _ id _ _ _ _ => [id] | _ => [] end) <$> l).
(** The jobs in work. *)
Definition in_work (s : state) : list Job.t := waiting s ++ (executing s).*2.

(** A result that the job would have under some runner of this worker. *)
Definition genuine (wid wtype : string) (jobs : list Job.t) (m : envelope) : Prop :=
  match m with
  | JobResult w id command success output _ =>
      ∃ job r it, job ∈ jobs ∧ w = wid ∧ id = Job.ID job ∧ command = Job.Command job ∧
        Runner.workerType r = wtype ∧ Execute r it job = (success, output)
  | _ => True
  end.

Record process_inv (c : t) (id : string) (ms : list inbound) (s : state) : Prop := {
  inv_client : registeredID (client s) = id ∧ workerType (client s) = workerType c ∧
    Runner.workerType (runner (client s)) = workerType c;
  inv_executing : Forall (λ e, Runner.workerType e.1 = workerType c) (executing s);
  inv_work : ∀ job, job ∈ in_work s → job ∈ jobs_received ms;
  inv_once : result_ids (sent s) ++ (Job.ID <$> in_work s) ⊆+ Job.ID <$> jobs_received ms;
  inv_genuine : Forall (genuine id (workerType c) (jobs_received ms)) (sent s);
}.

Lemma result_ids_app l k : result_ids (l ++ k) = result_ids l ++ result_ids k.
Proof. unfold result_ids. by rewrite fmap_app, concat_app. Qed.
Lemma jobs_received_snoc ms m : jobs_received (ms ++ [m]) = jobs_received ms ++ job_of m.
Proof. unfold jobs_received. rewrite fmap_app, concat_app; simpl; by rewrite app_nil_r. Qed.

Lemma genuine_mono wid wt jobs jobs' m :
  (∀ j, j ∈ jobs → j ∈ jobs') → genuine wid wt jobs m → genuine wid wt jobs' m.
Proof. intros Hsub. destruct m; simpl; naive_solver. Qed.

Lemma restart_client c :
  registeredID (restartRunner c).2 = registeredID c ∧ workerType (restartRunner c).2 = workerType c ∧
  (Runner.workerType (runner c) = workerType c →
   Runner.workerType (runner (restartRunner c).2) = workerType c).
Proof.
  unfold restartRunner, Runner.Load. set (fresh := Runner.SetServicesConfigPath _ _).
  assert (Runner.workerType fresh = workerType c) as Hf
    by (unfold fresh, Runner.SetServicesConfigPath; by case_decide).
  by destruct (LoadServiceCatalog _).
Qed.

Lemma command_client command c :
  let '(c', acks, v) := handleCommand command c in
  registeredID c' = registeredID c ∧ workerType c' = workerType c ∧
  (Runner.workerType (runner c) = workerType c → Runner.workerType (runner c') = workerType c) ∧
  result_ids acks = [] ∧ ∀ wid wt jobs, Forall (genuine wid wt jobs) acks.
Proof.
  unfold handleCommand. case_decide; [by repeat constructor|]. case_decide.
  - pose proof (restart_client c) as (? & ? & ?). destruct (restartRunner c) as [[e|] c'];
      simpl in *; by repeat constructor.
  - case_decide; by repeat constructor.
Qed.

Lemma in_work_start (s : state) ws job ws' r :
  waiting s = ws ++ job :: ws' →
  in_work s ≡ₚ (ws ++ ws') ++ ((r, job) :: executing s).*2.
Proof. intros Hw. unfold in_work. rewrite Hw. simpl. solve_Permutation. Qed.
Lemma in_work_finish (s : state) es r job es' :
  executing s = es ++ (r, job) :: es' → in_work s ≡ₚ job :: waiting s ++ (es ++ es').*2.
Proof. intros He. unfold in_work. rewrite He, !fmap_app. simpl. solve_Permutation. Qed.

Lemma process_inv_receive c id ms s m :
  process_inv c id ms s → process_inv c id (ms ++ [m]) (receive m s).
Proof.
  intros [(Hid & Ht & Hr) He Hw Ho Hg]. pose proof (jobs_received_snoc ms m) as Hj.
  destruct m as [p|command|e|]; simpl in *; rewrite ?app_nil_r in Hj.
  - constructor; simpl; rewrite ?Hj; auto.
    + intros job. unfold in_work in *. simpl. set_solver.
    + unfold in_work in *. simpl. rewrite !fmap_app in *. simpl.
      transitivity ((result_ids (sent s) ++ (Job.ID <$> waiting s) ++ (Job.ID <$> (executing s).*2)) ++
                    [Job.ID (protoJobToModel p)]).
      { apply Permutation_submseteq. solve_Permutation. }
      by apply submseteq_app.
    + eapply Forall_impl; [done|]. intros m. apply genuine_mono. set_solver.
  - pose proof (command_client command (client s)) as Hc.
    destruct (handleCommand command (client s)) as [[c' acks] v].
    destruct Hc as (H1 & H2 & H3 & H4 & H5). constructor; simpl; rewrite ?Hj; auto.
    + rewrite H1, H2, Ht in *. repeat split; auto.
    + by rewrite result_ids_app, H4, app_nil_r.
    + by apply Forall_app.
  - by constructor; simpl; rewrite ?Hj.
  - by constructor; simpl; rewrite ?Hj.
Qed.

Lemma process_inv_step c id ms s m s' :
  process_inv c id ms s → step s m s' →
  process_inv c id (match m with Some m => ms ++ [m] | None => ms end) s'.
Proof.
  intros Hi Hs. destruct Hs as [m _|err _|info _|ws job ws' _ Hw|es r job es' it _ He|es r job es' _ He].
  - by apply process_inv_receive.
  - by destruct Hi.
  - destruct Hi as [Hc He Hw Ho Hg]. constructor; simpl; auto.
    + by rewrite result_ids_app; simpl; rewrite app_nil_r.
    + apply Forall_app. split; [done|by repeat constructor].
  - destruct Hi as [(? & ? & Hr) He Hw' Ho Hg].
    pose proof (in_work_start s ws job ws' (runner (client s)) Hw) as Hp.
    constructor; simpl; auto.
    + intros j Hj. apply Hw'. unfold in_work at 1 in Hj. simpl in Hj. by rewrite Hp.
    + by rewrite Hp in Ho.
  - destruct Hi as [(Hid & Ht & Hr) He' Hw Ho Hg]. pose proof (in_work_finish s es r job es' He) as Hp.
    rewrite He in He'. apply Forall_app in He' as [? [Hrt ?]%Forall_cons].
    constructor; simpl; auto.
    + by apply Forall_app.
    + intros j Hj. apply Hw. rewrite Hp. by right.
    + rewrite Hp in Ho. unfold result_of. destruct (Execute r it job).
      rewrite result_ids_app, <-(assoc_L (++)). exact Ho.
    + apply Forall_app. split; [done|]. constructor; [|constructor].
      unfold result_of. destruct (Execute r it job) as [b out] eqn:Hx. exists job, r, it.
      repeat split; auto. apply Hw. rewrite Hp. by left.
  - destruct Hi as [Hc He' Hw Ho Hg]. pose proof (in_work_finish s es r job es' He) as Hp.
    rewrite He in He'. apply Forall_app in He' as [? [? ?]%Forall_cons].
    constructor; simpl; auto.
    + by apply Forall_app.
    + intros j Hj. apply Hw. rewrite Hp. by right.
    + rewrite Hp in Ho. etrans; [|exact Ho]. apply submseteq_app; [done|]. by apply submseteq_cons.
Qed.

Lemma process_inv_runs c id ms s :
  Runner.workerType (runner c) = workerType c → runs (registered c id) ms s → process_inv c id ms s.
Proof.
  intros Hr Hruns. induction Hruns as [|ms s1 m s2 _ IH Hs]; [|by eapply process_inv_step].
  constructor; simpl; auto. by repeat constructor.
Qed.

Lemma success_authorized (r : Runner.t) it job output :
  Execute r it job = (true, output) → Authorize r job = Ok tt.
Proof. unfold Execute, prepare. by destruct (Authorize r job) as [[]|]. Qed.

Lemma authorized_type (r : Runner.t) job :
  Authorize r job = Ok tt →
  WorkerCanRunType (NormalizeWorkerType (Runner.workerType r)) (Job.WorkerType job) = true ∧
  trim_space (Job.Command job) ≠ "".
Proof.
  unfold Authorize. destruct (WorkerCanRunType _ _); simpl; [|done]. by case_decide.
Qed.

(** Whatever the stream delivers, and however the goroutines of the jobs, the
    restarts of the runner and lost sends interleave: a worker answers every
    delivery of a job at most once, every result carries what an execution of a
    delivered job produced, and a success is reported only for a job whose type
    this worker runs. *)
Theorem worker_results (c : t) (id : string) (ms : list inbound) (s : state) :
  Runner.workerType (runner c) = workerType c → runs (registered c id) ms s →
  result_ids (sent s) ++ (Job.ID <$> in_work s) ⊆+ Job.ID <$> jobs_received ms ∧
  Forall (genuine id (workerType c) (jobs_received ms)) (sent s) ∧
  (∀ w jobID command output logToDB, JobResult w jobID command true output logToDB ∈ sent s →
    ∃ job, job ∈ jobs_received ms ∧ Job.ID job = jobID ∧
      WorkerCanRunType (NormalizeWorkerType (workerType c)) (Job.WorkerType job) = true).
Proof.
  intros Hr Hruns. destruct (process_inv_runs _ _ _ _ Hr Hruns) as [_ _ _ Ho Hg].
  split; [done|]. split; [done|]. intros w jobID command output log Hin.
  rewrite Forall_forall in Hg. apply Hg in Hin as (job & r & it & Hj & _ & -> & _ & Ht & Hx).
  exists job. split; [done|]. split; [done|]. rewrite <-Ht.
  by apply authorized_type, (success_authorized r it job output).
Qed.

(** ** Answers

    Without further messages the agent gets done with its work. *)
Lemma runs_trans s1 ms1 s2 ms2 s3 : runs s1 ms1 s2 → runs s2 ms2 s3 → runs s1 (ms1 ++ ms2) s3.
Proof.
  intros H1 H2. induction H2 as [|ms2 s2' m s3 _ IH Hs]; [by rewrite app_nil_r|].
  pose proof (runs_step _ _ _ m _ IH Hs) as Hr. destruct m; [|done]. by rewrite (assoc_L (++)).
Qed.

Lemma finish_all (s : state) :
  ended s = None → waiting s = [] →
  ∃ s', runs s [] s' ∧ ended s' = None ∧ in_work s' = [] ∧
    result_ids (sent s') = result_ids (sent s) ++ (Job.ID <$> (executing s).*2).
Proof.
  remember (executing s) as es eqn:He. revert s He. induction es as [|[r job] es IH]; intros s He Hn Hw.
  - exists s. split; [apply runs_refl|]. unfold in_work. rewrite Hw, <-He. simpl. rewrite app_nil_r. done.
  - set (s1 := s <| executing := es |>
                 <| sent := sent s ++ [result_of (client s) r iter_default job] |>).
    destruct (IH s1) as (s' & Hr & Hn' & Hi & Hs); [done..|]. exists s'.
    split; [|split; [done|split; [done|]]].
    + apply (runs_trans s [] s1 [] s'); [|done].
      apply (runs_step _ [] s None); [apply runs_refl|]. by apply (step_finish s [] r job es).
    + rewrite Hs. unfold s1, result_of. simpl. destruct (Execute r iter_default job).
      rewrite result_ids_app. simpl. by rewrite <-(assoc_L (++)).
Qed.

Lemma start_all (s : state) :
  ended s = None →
  ∃ s', runs s [] s' ∧ ended s' = None ∧ waiting s' = [] ∧ sent s' = sent s ∧
    (executing s').*2 ≡ₚ in_work s.
Proof.
  remember (waiting s) as ws eqn:Hw. revert s Hw. induction ws as [|job ws IH]; intros s Hw Hn.
  - exists s. unfold in_work. rewrite <-Hw. repeat split; auto. apply runs_refl.
  - set (s1 := s <| waiting := ws |> <| executing := (runner (client s), job) :: executing s |>).
    destruct (IH s1) as (s' & Hr & Hn' & Hw' & Hs & Hp); [done..|]. exists s'.
    split; [|split; [done|split; [done|split; [done|]]]].
    + apply (runs_trans s [] s1 [] s'); [|done].
      apply (runs_step _ [] s None); [apply runs_refl|].
      apply (step_start s [] job ws); [by rewrite Hn|done].
    + rewrite Hp. unfold in_work. simpl. rewrite <-Hw. solve_Permutation.
Qed.

(** In this model, where a goroutine takes a runner and reports its job in one
    step each, an agent whose stream is open can answer every job in work exactly
    once without any further message. That the locks, the stream and the processes
    let it get there is shown in [AgentLocksFacts]. *)
Theorem worker_drains (s : state) :
  ended s = None →
  ∃ s', runs s [] s' ∧ in_work s' = [] ∧
    result_ids (sent s') ≡ₚ result_ids (sent s) ++ (Job.ID <$> in_work s).
Proof.
  intros Hn. destruct (start_all s Hn) as (s1 & Hr1 & Hn1 & Hw1 & Hs1 & Hp).
  destruct (finish_all s1 Hn1 Hw1) as (s2 & Hr2 & _ & Hi & Hs). exists s2.
  split; [exact (runs_trans s [] s1 [] s2 Hr1 Hr2)|]. split; [done|].
  by rewrite Hs, Hs1, Hp.
Qed.
End agent.

(** ** A concrete worker *)
#[local] Instance w_wide : Printable := λ _, true.
#[local] Instance w_shell : Shell := λ cmd d, Exited None 0 ("ran " +:+ cmd).
#[local] Instance w_host : Files := {
  os_stat _ := Err (new_error "no such file"); os_open _ := Err (new_error "no such file");
}.

Definition w_pinned (password : string) : Profile :=
  mkProfile "orders" "mysql" "db.internal" "3306" "ops" password "" "" "" "" "".
Definition w_runner (password : string) : Runner.t :=
  (Runner.NewRunner "mysql") <| serviceCatalog := Some (<["orders" := w_pinned password]> ∅) |>.
Definition w_job (command : string) : Job.t :=
  Job.zero <| Job.ID := "job-1" |> <| Job.WorkerType := "mysql" |> <| Job.Command := command |>
    <| Job.SourceType := "manual_job" |>
    <| Job.Parameters := Some {["ServiceProfile" := "orders"; "ServiceType" := "MySQL"; "Host" := "evil"]} |>.

Lemma rendered_command_unchanged_witness :
  prepare (w_runner "s3cret") iter_default (w_job " mysql -h evil ") = inr "mysql -h evil" ∧
  Authorize (w_runner "s3cret") (w_job " mysql -h evil ") = Ok tt ∧
  prepare (w_runner "s3cret") iter_default (w_job "mysql -h {{.Host}}") = inr "mysql -h db.internal".
Proof.
  assert (prepare (w_runner "s3cret") iter_default (w_job " mysql -h evil ") = inr "mysql -h evil") as Hp
    by (vm_compute; reflexivity).
  split; [exact Hp|]. split; [|vm_compute; reflexivity].
  apply (rendered_command_unchanged (w_runner "s3cret") iter_default (w_job " mysql -h evil ") _ Hp).
  vm_compute. reflexivity.
Defined.

Lemma profile_secrets_stay_witness :
  Execute (w_runner "s3cret") iter_default (w_job "mysql -h {{.Host}} -p{{.Password}}")
  = Execute (w_runner "other") iter_default (w_job "mysql -h {{.Host}} -p{{.Password}}") ∧
  Execute (w_runner "other") iter_default (w_job "mysql -h {{.Host}} -p{{.Password}}")
  = (true, "ran mysql -h db.internal -p{{.Password}}").
Proof.
  split; [|vm_compute; reflexivity].
  apply (profile_secrets_stay (w_runner "s3cret") (w_runner "other")).
  split; [reflexivity|]. split; [reflexivity|]. split; [reflexivity|]. vm_compute. reflexivity.
Defined.

(** The worker receives a job, starts it, is restarted without success, and
    reports the job. *)
Definition w_client : Agent.t := Agent.NewClient "http://server/" "token" "db-1" "mysql".
Definition w_proto : Hub.ProtoJob.t :=
  Hub.ProtoJob.mk "job-1" "check" "mysql" "uptime" "" None "manual_job".
Definition w_started : Agent.state :=
  Agent.receive (Agent.InJob (Some w_proto)) (Agent.registered w_client "worker-1").

Lemma w_started_runs :
  Agent.runs (Agent.registered w_client "worker-1") [Agent.InJob (Some w_proto)] w_started.
Proof.
  apply (Agent.runs_step _ [] (Agent.registered w_client "worker-1") (Some (Agent.InJob (Some w_proto)))); [apply Agent.runs_refl|].
  by apply Agent.step_receive.
Defined.

Lemma worker_results_witness :
  ["job-1"] ⊆+ ["job-1"] ∧ in_work w_started = [Agent.protoJobToModel (Some w_proto)].
Proof.
  split; [|reflexivity].
  exact (proj1 (worker_results w_client "worker-1" _ w_started eq_refl w_started_runs)).
Defined.

Lemma worker_drains_witness :
  ∃ s', Agent.runs w_started [] s' ∧ in_work s' = [] ∧ result_ids (Agent.sent s') ≡ₚ ["job-1"].
Proof. exact (worker_drains w_started eq_refl). Defined.

(** The values that a profile pins replace those of the job only where the
    command still has placeholders, and the order of the replacements
    shows. *)
Example substitution_order :
  substituteParams iter_default "{{.A}}" {["A" := "{{.B}}"; "B" := "b"]}
  ≠ substituteParams iter_reverse "{{.A}}" {["A" := "{{.B}}"; "B" := "b"]}.
Proof. vm_compute. discriminate. Qed.

(** A job that is delivered twice runs twice. *)
Example redelivery_runs_twice :
  in_work (Agent.receive (Agent.InJob (Some w_proto)) w_started)
  = [Agent.protoJobToModel (Some w_proto); Agent.protoJobToModel (Some w_proto)].
Proof. reflexivity. Qed.

(** A raw command line runs on a worker of any type, with a blocked tool behind
    another source than [agent_shell]. *)
Example raw_commands_authorized :
  Authorize (w_runner "") (w_job "rm -rf / | mysql") = Ok tt.
Proof. vm_compute. reflexivity. Qed.
End RunnerFacts.
