(* ===== verification/AgentLocks.v ===== *)
(** * The goroutines of a worker ([internal/infrastructure/worker/client.go])

    What [Agent.step] takes as one step, a goroutine does operation by operation
    here: the receive loop, the heartbeats and one goroutine for every delivered
    job. They share the mutex [sendMu] around the stream, the reader-writer lock
    [runnerMu] around the runner, and the stream itself, whose [Send] waits while
    the server has not read enough. A process may never end; what ends the wait
    for it is the timer of [executeShellCommand]. *)
From S2P Require Import Prelude.
From S2P Require Import GoStrings.
From S2P Require Import Fmt.
From S2P Require Import Model.
From S2P Require Import Hub.
From S2P Require Import Catalog.
From S2P Require Import Runner.

Import Fmt Catalog Agent.

Module AgentLocks.

(** ** Goroutines *)

(** An operation that a goroutine does next, with the values it has in its local
    variables. [Lock] of a [sync.RWMutex] first keeps new readers out and then
    waits for those that are in. *)
Inductive op :=
  (* executeJobLocally *)
  | RLockRunner | TakeRunner (job : Job.t) | RUnlockRunner
  (* Runner.Execute: the start of the process, and the select on its end *)
  | ExecuteJob (r : Runner.t) (job : Job.t)
  | AwaitProcess (r : Runner.t) (cmd : string) (job : Job.t)
  (* restartRunner *)
  | LockRunner | AwaitReaders | SetRunner (r : Runner.t) | UnlockRunner
  (* send *)
  | LockSend | StreamSend (e : envelope) | UnlockSend
  (* what follows a send in the loops *)
  | ReturnOnError | ReportError | Leave (v : verdict).

Inductive role := MainLoop | Heartbeats | JobRunner (job : Job.t).

(** [failed]: the send returned an error. [exited] and [timer] are the two
    channels of the select of [executeShellCommand]. *)
Record goroutine := mkGoroutine {
  runs_as : role;
  todo : list op;
  failed : bool;
  exited : option shell_outcome;
  timer : bool;
}.
#[global] Instance goroutine_eta : Eta goroutine := λ t,
  mkGoroutine (runs_as t) (todo t) (failed t) (exited t) (timer t).
Definition go (r : role) (l : list op) : goroutine := mkGoroutine r l false None false.

(** The writer of [runnerMu]: none, one that waits for the readers, or one that
    holds the lock. *)
Inductive writer_state := NoWriter | Announced | Writing.
#[global] Instance writer_state_eq_dec : EqDecision writer_state.
Proof. solve_decision. Defined.

(** [quota]: how much the stream still accepts before the server reads;
    [flight]: what it has accepted and the server has not read. [tick] is the
    channel of the ticker and [done_] the channel [done]; [broken] is set when
    the connection is lost or closed by the server, [ended] when the loop is
    left. *)
Record state := mkState {
  client : Agent.t;
  goroutines : list goroutine;
  sendMu : bool;
  readers : nat;
  writer : writer_state;
  quota : nat;
  flight : nat;
  accepted : list envelope;
  tick : bool;
  done_ : bool;
  broken : bool;
  ended : option verdict;
}.
#[global] Instance state_eta : Eta state := λ s,
  mkState (client s) (goroutines s) (sendMu s) (readers s) (writer s) (quota s) (flight s)
    (accepted s) (tick s) (done_ s) (broken s) (ended s).

(** The connection is closed with the stream. *)
Definition closed (s : state) : bool := broken s || bool_decide (is_Some (ended s)).

(** *** The bodies *)
Definition send (e : envelope) : list op := [LockSend; StreamSend e; UnlockSend].

Definition heartbeatEnvelope (c : Agent.t) (info : HostInfo.t) : envelope :=
  Heartbeat (registeredID c) info.
Definition jobResult (c : Agent.t) (job : Job.t) (r : bool * string) : envelope :=
  JobResult (registeredID c) (Job.ID job) (Job.Command job) r.1 r.2 (logToDB c).

Definition job_body (job : Job.t) : list op := [RLockRunner; TakeRunner job].

(** [handleCommand]; the profiles of a restarted runner are loaded first. *)
Definition command_body `{Files} (command : string) (c : Agent.t) : list op :=
  let ack success := send (CommandAck (registeredID c) command success) in
  if decide (command = "stop") then ack true ++ [Leave (Return None)]
  else if decide (command = "restart") then
    match restartRunner c with
    | (Some _, _) => ack false
    | (None, c') => [LockRunner; AwaitReaders; SetRunner (runner c'); UnlockRunner] ++ ack true
    end
  else if decide (command = "force_stop") then ack true ++ [Leave (Exit 1)]
  else [].

(** What a goroutine does not decide itself: the order of a map, whether the
    process starts, and which of two ready channels a select takes. *)
Record choice := mkChoice {
  order : MapIter; start_error : option error; takes_exit : bool;
}.

(** The channel the select takes, if one is ready. *)
Definition selected (ch : choice) (t : goroutine) : option shell_outcome :=
  match exited t, timer t with
  | Some o, false => Some o
  | Some o, true => Some (if takes_exit ch then o else TimedOut)
  | None, true => Some TimedOut
  | None, false => None
  end.

(** One operation of a goroutine: the state, the goroutine before the rest of
    its body, and what it has to do instead of the operation. [None] when the
    operation waits. *)
Definition run_op `{Printable} (ch : choice) (o : op) (t : goroutine) (s : state)
    : option (state * goroutine * list op) :=
  match o with
  | RLockRunner =>
      if decide (writer s = NoWriter) then Some (s <| readers := S (readers s) |>, t, []) else None
  | TakeRunner job => Some (s, t, [RUnlockRunner; ExecuteJob (runner (client s)) job])
  | RUnlockRunner => Some (s <| readers := pred (readers s) |>, t, [])
  | ExecuteJob r job =>
      match Runner.prepare r (order ch) job with
      | inl output => Some (s, t, send (jobResult (client s) job (false, output)))
      | inr cmd =>
          match start_error ch with
          | Some err => Some (s, t, send (jobResult (client s) job (false, error_text err)))
          | None => Some (s, t <| exited := None |> <| timer := false |>, [AwaitProcess r cmd job])
          end
      end
  | AwaitProcess r cmd job =>
      match selected ch t with
      | Some o =>
          let result := Runner.executeShellCommand (S := λ _ _, o) r cmd in
          Some (s, t, send (jobResult (client s) job result))
      | None => None
      end
  | LockRunner =>
      if decide (writer s = NoWriter) then Some (s <| writer := Announced |>, t, []) else None
  | AwaitReaders =>
      if decide (readers s = 0) then Some (s <| writer := Writing |>, t, []) else None
  | SetRunner r => Some (s <| client := (client s) <| Agent.runner := r |> |>, t, [])
  | UnlockRunner => Some (s <| writer := NoWriter |>, t, [])
  | LockSend => if sendMu s then None else Some (s <| sendMu := true |>, t, [])
  | StreamSend e =>
      if closed s then Some (s, t <| failed := true |>, [])
      else match quota s with
      | 0 => None
      | S n => Some (s <| quota := n |> <| flight := S (flight s) |> <| accepted := accepted s ++ [e] |>, t, [])
      end
  | UnlockSend => Some (s <| sendMu := false |>, t, [])
  | ReturnOnError =>
      Some (if failed t then s <| ended := Some (Return (Some (new_error "send initial heartbeat"))) |> else s, t, [])
  | ReportError => Some (if failed t then s <| done_ := true |> else s, t, [])
  | Leave v => Some (s <| ended := Some v |>, t, [])
  end.

(** ** Steps *)
Definition set_goroutine (i : nat) (t : goroutine) (s : state) : state :=
  s <| goroutines := <[i := t]> (goroutines s) |>.

(** The main loop is at the select and the [Recv] of its loop. *)
Definition receiving (s : state) : Prop :=
  ended s = None ∧ ∃ t, goroutines s !! 0 = Some t ∧ todo t = [].

(** What happens by itself: the operations of the goroutines, the timers and the
    server that reads its end of the stream. *)
Inductive internal `{Printable} (s : state) : state → Prop :=
  | step_op i t o rest ch s1 t1 l :
      ended s ≠ Some (Exit 1) → goroutines s !! i = Some t → todo t = o :: rest →
      run_op ch o t s = Some (s1, t1, l) →
      internal s (set_goroutine i (t1 <| todo := l ++ rest |>) s1)
  (* for range heartbeatTicker.C *)
  | step_beat i t info :
      ended s ≠ Some (Exit 1) → goroutines s !! i = Some t → runs_as t = Heartbeats → todo t = [] →
      failed t = false → tick s = true →
      internal s (set_goroutine i
        (t <| todo := send (heartbeatEnvelope (client s) info) ++ [ReportError] |>)
        (s <| tick := false |>))
  (* the error of done, or of Recv *)
  | step_leave err :
      receiving s → broken s || done_ s = true →
      internal s (s <| ended := Some (Return (Some err)) |>)
  | step_timer i t r cmd job rest :
      ended s ≠ Some (Exit 1) → goroutines s !! i = Some t → todo t = AwaitProcess r cmd job :: rest →
      timer t = false → internal s (set_goroutine i (t <| timer := true |>) s)
  | step_server_reads n :
      closed s = false → flight s = S n →
      internal s (s <| flight := n |> <| quota := S (quota s) |>).

(** The message that [Recv] returns, with the files of the host at that time. *)
Definition handle `{Files} (m : inbound) (t : goroutine) (s : state) : state :=
  match m with
  | InJob p =>
      let job := protoJobToModel p in
      s <| goroutines := goroutines s ++ [go (JobRunner job) (job_body job)] |>
  | InCommand command => set_goroutine 0 (t <| todo := command_body command (client s) |>) s
  | InError _ | InOther => s
  end.

(** What happens only if the world does it. *)
Inductive external (s : state) : state → Prop :=
  | step_receive (files : Files) m t :
      ended s = None → goroutines s !! 0 = Some t → todo t = [] → external s (handle m t s)
  | step_process_ends i t r cmd job rest waitErr exitCode output :
      goroutines s !! i = Some t → todo t = AwaitProcess r cmd job :: rest → exited t = None →
      external s (set_goroutine i (t <| exited := Some (Exited waitErr exitCode output) |>) s)
  | step_tick : ended s = None → external s (s <| tick := true |>)
  | step_break : ended s = None → external s (s <| broken := true |>).

Definition step `{Printable} (s s' : state) : Prop := internal s s' ∨ external s s'.

(** The worker after the answer to its registration: the goroutine of the
    heartbeats is started, and the loop begins with the first heartbeat. The
    stream takes [window] messages that the server has not read. *)
Definition started (c : Agent.t) (info : HostInfo.t) (window : nat) : state :=
  mkState c
    [go MainLoop (send (heartbeatEnvelope c info) ++ [ReturnOnError]); go Heartbeats []]
    false 0 NoWriter window 0 [Register (name c) (workerType c)] false false false None.

Definition reachable `{Printable} (window : nat) (s : state) : Prop :=
  ∃ c info, rtc step (started c info window) s.

(** ** Accounting *)
Definition job_in (t : goroutine) : option Job.t :=
  match runs_as t with JobRunner job => Some job | _ => None end.
(** The jobs delivered on this stream. *)
Definition delivered (s : state) : list Job.t := omap job_in (goroutines s).

End AgentLocks.
