(* ===== verification/AgentLocksFacts.v ===== *)
(** * The goroutines of a worker never block each other

    The locks and the stream of [AgentLocks] cannot deadlock: whatever the
    scheduling, everything a worker has in work comes to its end. *)
From S2P Require Import Prelude.
From S2P Require Import GoStrings.
From S2P Require Import Fmt.
From S2P Require Import Model.
From S2P Require Import Hub.
From S2P Require Import Catalog.
From S2P Require Import Runner.
From S2P Require Import RunnerFacts.
From S2P Require Import AgentLocks.

Import Fmt Catalog Agent AgentLocks.AgentLocks.

Module AgentLocksFacts.
Import RunnerFacts.

(** ** Locks *)

(** What a goroutine holds before an operation. *)
Inductive lock := Sending | Reading | Announcing | Replacing.
#[global] Instance lock_eq_dec : EqDecision lock.
Proof. solve_decision. Defined.

Definition holds_before (o : op) : option lock :=
  match o with
  | StreamSend _ | UnlockSend => Some Sending
  | TakeRunner _ | RUnlockRunner => Some Reading
  | AwaitReaders => Some Announcing
  | SetRunner _ | UnlockRunner => Some Replacing
  | _ => None
  end.
Definition holding (l : list op) : option lock :=
  match l with o :: _ => holds_before o | [] => None end.
(** After it. *)
Definition holds_after (o : op) : option lock :=
  match o with
  | LockSend | StreamSend _ => Some Sending
  | RLockRunner | TakeRunner _ => Some Reading
  | LockRunner => Some Announcing
  | AwaitReaders | SetRunner _ => Some Replacing
  | _ => None
  end.
(** What follows an operation in a body; the rest of the body of a job is made
    up by the operation that takes the runner. *)
Fixpoint bracketed (l : list op) : Prop :=
  match l with
  | [] => True
  | o :: l => holding l = match o with TakeRunner _ => None | _ => holds_after o end ∧ bracketed l
  end.

Definition one (b : bool) : nat := if b then 1 else 0.
Definition holds (k : lock) (l : list op) : nat := one (bool_decide (holding l = Some k)).
Definition holders (k : lock) (ts : list goroutine) : nat := sum_list_with (λ t, holds k (todo t)) ts.
(** What the locks say. *)
Definition held (k : lock) (s : state) : nat :=
  match k with
  | Sending => one (sendMu s)
  | Reading => readers s
  | Announcing => one (bool_decide (writer s = Announced))
  | Replacing => one (bool_decide (writer s = Writing))
  end.

(** *** Lists *)
Lemma sum_insert {A} (f : A → nat) l i x y :
  l !! i = Some x → sum_list_with f (<[i := y]> l) + f x = sum_list_with f l + f y.
Proof.
  revert i. induction l as [|z l IH]; intros [|i] Hi; simpl in *; [done..| |].
  - injection Hi as ->. lia.
  - specialize (IH i Hi). lia.
Qed.
Lemma sum_lookup {A} (f : A → nat) l i x : l !! i = Some x → f x ≤ sum_list_with f l.
Proof.
  revert i. induction l as [|z l IH]; intros [|i] Hi; simpl in *; [done..| |].
  - injection Hi as ->. lia.
  - specialize (IH i Hi). lia.
Qed.
Lemma sum_zero {A} (f : A → nat) l : Forall (λ x, f x = 0) l → sum_list_with f l = 0.
Proof. induction 1 as [|x l Hx _ IH]; simpl; [done|]. by rewrite Hx, IH. Qed.
Lemma bind_insert {A B} (f : A → list B) l i x y :
  l !! i = Some x → (<[i := y]> l ≫= f) ++ f x ≡ₚ (l ≫= f) ++ f y.
Proof.
  revert i. induction l as [|z l IH]; intros [|i] Hi; simpl in *; [done..| |].
  - injection Hi as ->. solve_Permutation.
  - specialize (IH i Hi). rewrite <-!(assoc_L (++)), IH. done.
Qed.

(** ** Bodies *)

(** The rest of the body of a job: it still has to send one result of the job,
    or has sent it. *)
Inductive job_rest (job : Job.t) : list op → Prop :=
  | rest_begin : job_rest job [RLockRunner; TakeRunner job]
  | rest_take : job_rest job [TakeRunner job]
  | rest_unlock r : job_rest job [RUnlockRunner; ExecuteJob r job]
  | rest_execute r : job_rest job [ExecuteJob r job]
  | rest_await r cmd : job_rest job [AwaitProcess r cmd job]
  | rest_lock e : result_ids [e] = [Job.ID job] → job_rest job [LockSend; StreamSend e; UnlockSend]
  | rest_send e : result_ids [e] = [Job.ID job] → job_rest job [StreamSend e; UnlockSend]
  | rest_sent : job_rest job [UnlockSend]
  | rest_done : job_rest job [].

(** An operation of the two loops. *)
Definition loop_op (o : op) : Prop :=
  match o with
  | StreamSend e => result_ids [e] = []
  | TakeRunner _ | ExecuteJob _ _ | AwaitProcess _ _ _ => False
  | _ => True
  end.
Definition body_ok (t : goroutine) : Prop :=
  match runs_as t with
  | JobRunner job => job_rest job (todo t)
  | _ => bracketed (todo t) ∧ Forall loop_op (todo t)
  end.

Lemma body_bracketed t : body_ok t → bracketed (todo t).
Proof.
  unfold body_ok. destruct (runs_as t) as [| |job]; [by intros [? _]..|].
  intros H. inversion H; simpl; by split_and?.
Qed.

Lemma command_body_ok `{Files} command c :
  bracketed (command_body command c) ∧ Forall loop_op (command_body command c).
Proof.
  unfold command_body, send. repeat case_decide; simpl; [by split; repeat constructor| |by split; repeat constructor|done].
  destruct (restartRunner c) as [[e|] c']; simpl; by split; repeat constructor.
Qed.

(** What the goroutine of a job has not answered. *)
Definition answered (l : list op) : bool :=
  match l with [] | [UnlockSend] => true | _ => false end.
Definition owes (t : goroutine) : list string :=
  match job_in t with
  | Some job => if answered (todo t) && negb (failed t) then [] else [Job.ID job]
  | None => []
  end.

(** ** The invariant *)
Record inv (window : nat) (s : state) : Prop := {
  inv_bodies : Forall body_ok (goroutines s);
  inv_locks k : holders k (goroutines s) = held k s;
  inv_window : quota s + flight s = window;
  inv_failed : Forall (λ t, failed t = true → closed s = true) (goroutines s);
  inv_owed : result_ids (accepted s) ++ (goroutines s ≫= owes) ≡ₚ Job.ID <$> delivered s;
  inv_exclude : writer s = Writing → readers s = 0;
  inv_main : ∃ t, goroutines s !! 0 = Some t ∧ runs_as t = MainLoop;
}.

Section facts.
Context `{P : Printable}.
Implicit Types s : state.

(** *** One operation *)
Lemma run_op_holds ch o t s s1 t1 l rest k :
  run_op ch o t s = Some (s1, t1, l) → bracketed (o :: rest) →
  (∀ k, holds k (o :: rest) ≤ held k s) →
  held k s1 + holds k (o :: rest) = held k s + holds k (l ++ rest).
Proof.
  intros Hr [Hb _] Hk. pose proof (Hk Sending) as H1. pose proof (Hk Reading) as H2.
  pose proof (Hk Announcing) as H3. pose proof (Hk Replacing) as H4. clear Hk. unfold holds in *.
  destruct o; simpl in Hr; repeat case_match; simplify_eq/=; try rewrite Hb;
    destruct k; simpl in *; unfold one in *; repeat case_match; repeat case_bool_decide;
    simplify_eq/=; try lia; try congruence.
Qed.

Lemma run_op_body ch o t s s1 t1 l rest :
  run_op ch o t s = Some (s1, t1, l) → todo t = o :: rest → body_ok t →
  body_ok (t1 <| todo := l ++ rest |>).
Proof.
  intros Hr Ht Hb.
  assert (runs_as t1 = runs_as t) as Hrole by (destruct o; simpl in Hr; repeat case_match; by simplify_eq/=).
  unfold body_ok in *. simpl. rewrite Hrole. rewrite Ht in Hb. destruct (runs_as t) as [| |job].
  1,2: destruct Hb as [[_ Hb] [Ho Hf]%Forall_cons]; assert (l = []) as -> by
    (destruct o; simpl in Hr, Ho; repeat case_match; by simplify_eq/=); by split.
  inversion Hb; subst; simpl in Hr; repeat case_match; simplify_eq/=; by constructor.
Qed.

(** What an operation leaves alone. *)
Lemma run_op_frame ch o t s s1 t1 l :
  run_op ch o t s = Some (s1, t1, l) →
  goroutines s1 = goroutines s ∧ runs_as t1 = runs_as t ∧
  quota s1 + flight s1 = quota s + flight s ∧ (closed s = true → closed s1 = true) ∧
  (failed t1 = true → failed t = true ∨ closed s1 = true).
Proof.
  unfold closed. intros Hr.
  destruct o; simpl in Hr; repeat case_match; simplify_eq/=;
    split_and!; try done; try lia; intros; try (by left); try (by right); congruence.
Qed.

Lemma run_op_exclude ch o t s s1 t1 l :
  run_op ch o t s = Some (s1, t1, l) → (writer s = Writing → readers s = 0) →
  writer s1 = Writing → readers s1 = 0.
Proof.
  intros Hr He. destruct o; simpl in Hr; repeat case_match; simplify_eq/=; try done; try congruence.
  intros Hw. by rewrite (He Hw).
Qed.

Lemma result_ids_snoc l e : result_ids (l ++ [e]) = result_ids l ++ result_ids [e].
Proof. apply result_ids_app. Qed.

Lemma run_op_owes ch o t s s1 t1 l rest :
  run_op ch o t s = Some (s1, t1, l) → todo t = o :: rest → body_ok t →
  (failed t = true → closed s = true) →
  result_ids (accepted s1) ++ owes (t1 <| todo := l ++ rest |>) ≡ₚ result_ids (accepted s) ++ owes t.
Proof.
  intros Hr Ht Hb Hf. destruct (run_op_frame _ _ _ _ _ _ _ Hr) as (_ & Hrole & _).
  unfold body_ok, owes, job_in in *. simpl. rewrite Hrole, Ht in *.
  destruct (runs_as t) as [| |job].
  1,2: rewrite !app_nil_r; destruct Hb as [_ [Ho _]%Forall_cons];
    destruct o; simpl in Hr, Ho; repeat case_match; simplify_eq/=; try done;
    by rewrite result_ids_snoc, Ho, app_nil_r.
  destruct (failed t) eqn:Hft; [specialize (Hf eq_refl)|clear Hf];
    inversion Hb; subst; simpl in Hr; repeat case_match; simplify_eq/=;
    rewrite ?Hft in *; simplify_eq/=; try done; try congruence;
    rewrite result_ids_snoc, app_nil_r;
    match goal with H : result_ids _ = _ |- _ => by rewrite H end.
Qed.

(** *** Preservation *)
Lemma omap_insert_same {A B} (f : A → option B) (l : list A) (i : nat) x y :
  l !! i = Some x → f y = f x → omap f (<[i := y]> l) = omap f l.
Proof.
  revert i. induction l as [|z l IH]; intros [|i] Hi Hf; simpl in *; [done..| |].
  - injection Hi as ->. by rewrite Hf.
  - specialize (IH i Hi Hf). destruct (f z); [by f_equal|done].
Qed.

(** A step of one goroutine. *)
Lemma inv_goroutine W s s1 i t t' :
  inv W s → goroutines s !! i = Some t → goroutines s1 = goroutines s →
  body_ok t' → runs_as t' = runs_as t →
  (∀ k, held k s1 + holds k (todo t) = held k s + holds k (todo t')) →
  quota s1 + flight s1 = quota s + flight s → (closed s = true → closed s1 = true) →
  (failed t' = true → failed t = true ∨ closed s1 = true) →
  result_ids (accepted s1) ++ owes t' ≡ₚ result_ids (accepted s) ++ owes t →
  (writer s1 = Writing → readers s1 = 0) →
  inv W (set_goroutine i t' s1).
Proof.
  intros [Hb Hl Hw Hf Ho He Hm] Hi Hg Hb' Hrole Hheld Hq Hc Hfail Howes Hex.
  split; unfold set_goroutine; simpl; rewrite ?Hg.
  - by apply Forall_insert.
  - intros k. pose proof (sum_insert (λ t, holds k (todo t)) _ _ _ t' Hi) as Hsum.
    fold (holders k (<[i:=t']> (goroutines s))) (holders k (goroutines s)) in Hsum.
    rewrite (Hl k) in Hsum. specialize (Hheld k).
    assert (held k (s1 <| goroutines := <[i:=t']> (goroutines s) |>) = held k s1) as -> by (by destruct k). lia.
  - lia.
  - apply Forall_insert.
    + eapply Forall_impl; [exact Hf|]. intros x Hx Hfx. by apply Hc, Hx.
    + intros Hft. destruct (Hfail Hft) as [Hft'|?]; [|done].
      apply Hc. by apply (Forall_lookup_1 _ _ _ _ Hf Hi).
  - unfold delivered. simpl. rewrite (omap_insert_same _ _ _ t) by (done || by unfold job_in; rewrite Hrole).
    fold (delivered s). rewrite <-Ho. apply (Permutation_app_inv_r (owes t)).
    rewrite <-!(assoc_L (++)), (bind_insert owes _ _ _ t' Hi).
    rewrite !(assoc_L (++)), (Permutation_app_comm _ (goroutines s ≫= owes)), <-!(assoc_L (++)), Howes.
    solve_Permutation.
  - exact Hex.
  - destruct Hm as (t0 & H0 & Hr0). destruct i as [|i].
    + exists t'. rewrite list_lookup_insert_eq by (by eapply lookup_lt_Some). split; [done|congruence].
    + exists t0. by rewrite list_lookup_insert_ne.
Qed.

(** A step of none. *)
Lemma inv_shared W s s1 :
  inv W s → goroutines s1 = goroutines s → (∀ k, held k s1 = held k s) →
  quota s1 + flight s1 = quota s + flight s → (closed s = true → closed s1 = true) →
  accepted s1 = accepted s → inv W s1.
Proof.
  intros [Hb Hl Hw Hf Ho He Hm] Hg Hheld Hq Hc Ha. split; rewrite ?Hg, ?Ha; try done.
  - intros k. by rewrite Hheld.
  - lia.
  - eapply Forall_impl; [exact Hf|]. intros x Hx Hfx. by apply Hc, Hx.
  - unfold delivered. by rewrite Hg.
  - pose proof (Hheld Reading) as Hr. pose proof (Hheld Replacing) as Hw'. simpl in Hr, Hw'.
    rewrite Hr. intros Hx. apply He. rewrite Hx in Hw'. simpl in Hw'. unfold one in Hw'.
    by case_bool_decide.
Qed.

Lemma holds_held W s i t k : inv W s → goroutines s !! i = Some t → holds k (todo t) ≤ held k s.
Proof. intros Hi Ht. rewrite <-(inv_locks _ _ Hi k). exact (sum_lookup (λ t, holds k (todo t)) _ _ _ Ht). Qed.

Lemma inv_internal W s s' : inv W s → internal s s' → inv W s'.
Proof.
  intros Hi Hs. destruct Hs as [i t o rest ch s1 t1 l _ Hgi Ht Hr|i t info _ Hgi Hrole Ht Hf _|err _ _
    |i t r cmd job rest _ Hgi Ht Htm|n Hc Hfl].
  - pose proof (Forall_lookup_1 _ _ _ _ (inv_bodies _ _ Hi) Hgi) as Hb.
    destruct (run_op_frame _ _ _ _ _ _ _ Hr) as (Hg & Hrole & Hq & Hc & Hfail).
    pose proof (run_op_exclude _ _ _ _ _ _ _ Hr (inv_exclude _ _ Hi)) as Hex.
    apply (inv_goroutine W s s1 i t); try done.
    + by eapply run_op_body.
    + intros k. rewrite Ht. simpl. apply (run_op_holds ch o t s s1 t1); [done| |].
      * rewrite <-Ht. by apply body_bracketed.
      * intros k'. rewrite <-Ht. by eapply holds_held.
    + eapply run_op_owes; [done..|]. apply (Forall_lookup_1 _ _ _ _ (inv_failed _ _ Hi) Hgi).
  - apply (inv_goroutine W s _ i t); try done; try exact (inv_exclude _ _ Hi); [| |by left|].
    + unfold body_ok. simpl. rewrite Hrole. simpl. by split; repeat constructor.
    + intros k. rewrite Ht. simpl. by destruct k.
    + unfold owes, job_in. simpl. by rewrite Hrole.
  - apply (inv_shared W s); try done. intros _. unfold closed. simpl. apply orb_true_r.
  - apply (inv_goroutine W s _ i t); try done; try exact (inv_exclude _ _ Hi); [|by left].
    pose proof (Forall_lookup_1 _ _ _ _ (inv_bodies _ _ Hi) Hgi) as Hb. exact Hb.
  - apply (inv_shared W s); try done. simpl. lia.
Qed.

Lemma inv_external W s s' : inv W s → external s s' → inv W s'.
Proof.
  intros Hi Hs. destruct Hs as [files m t He H0 Ht|i t r cmd job rest we code out Hgi Ht _|He|He].
  - destruct m as [p|command|?|]; simpl; [|..|done|done].
    + destruct Hi as [Hb Hl Hw Hf Ho Hx Hm]. split; simpl; try done.
      * apply Forall_app. split; [done|]. apply Forall_singleton. apply rest_begin.
      * intros k. unfold holders in *. rewrite sum_list_with_app, Hl. simpl. destruct k; simpl; lia.
      * apply Forall_app. split; [done|]. by apply Forall_singleton.
      * unfold delivered. simpl. rewrite bind_app, omap_app, fmap_app. simpl. rewrite (assoc_L (++)), Ho. done.
      * destruct Hm as (t0 & Ht0 & Hr0). exists t0. split; [|done].
        by rewrite lookup_app_l by (by eapply lookup_lt_Some).
    + destruct (inv_main _ _ Hi) as (t0 & Ht0 & Hr0). rewrite H0 in Ht0. injection Ht0 as <-.
      apply (inv_goroutine W s s 0 t); try done; try exact (inv_exclude _ _ Hi).
      * unfold body_ok. simpl. rewrite Hr0. apply command_body_ok.
      * intros k. rewrite Ht. simpl. f_equal.
        unfold command_body. repeat case_decide; [| |by destruct k..];
          repeat case_match; by destruct k.
      * by left.
      * unfold owes, job_in. simpl. by rewrite Hr0.
  - apply (inv_goroutine W s s i t); try done; try exact (inv_exclude _ _ Hi); [|by left].
    pose proof (Forall_lookup_1 _ _ _ _ (inv_bodies _ _ Hi) Hgi) as Hb. exact Hb.
  - by apply (inv_shared W s).
  - by apply (inv_shared W s).
Qed.

Lemma inv_started c info W : inv W (started c info W).
Proof.
  split; simpl.
  - apply Forall_cons_2; [|apply Forall_cons_2; [|constructor]]; by split; repeat constructor.
  - by intros [].
  - lia.
  - repeat constructor; done.
  - done.
  - done.
  - by eexists.
Qed.

Lemma inv_reachable W s : reachable W s → inv W s.
Proof.
  intros (c & info & Hr). remember (started c info W) as s0 eqn:H0.
  assert (inv W s0) as Hi by (subst; apply inv_started). clear H0.
  induction Hr as [|s0 s1 s2 [Hs|Hs] _ IH]; [done|apply IH; by eapply inv_internal|apply IH; by eapply inv_external].
Qed.
(** ** Termination

    How much a worker has left to do by itself. *)
Definition cost (o : op) : nat :=
  match o with
  | TakeRunner _ => 9 | ExecuteJob _ _ => 7 | AwaitProcess _ _ _ => 6 | StreamSend _ => 2 | _ => 1
  end.
Definition awaits (l : list op) : bool :=
  match l with AwaitProcess _ _ _ :: _ => true | _ => false end.
Definition cost_of (t : goroutine) : nat :=
  sum_list_with cost (todo t) - one (timer t && awaits (todo t)).
Definition work s : nat :=
  sum_list_with cost_of (goroutines s) + flight s + (if tick s then 6 else 0) +
  one (bool_decide (ended s = None)).

Lemma run_op_work ch o t s s1 t1 l rest :
  run_op ch o t s = Some (s1, t1, l) → todo t = o :: rest →
  cost_of (t1 <| todo := l ++ rest |>) + flight s1 + one (bool_decide (ended s1 = None)) <
  cost_of t + flight s + one (bool_decide (ended s = None)) ∧ tick s1 = tick s.
Proof.
  intros Hr Ht. unfold cost_of. rewrite Ht. simpl.
  assert (∀ (l : list op) (b : bool), sum_list_with cost l - one b ≤ sum_list_with cost l) as Hle by (intros; lia).
  pose proof (Hle (l ++ rest) (timer t1 && awaits (l ++ rest))) as Hn. rewrite sum_list_with_app in *.
  assert (one (timer t && awaits (o :: rest)) ≤ one (awaits (o :: rest))) as Ho by (destruct (timer t), (awaits _); simpl; lia).
  assert (∀ v : verdict, one (bool_decide (Some v = None)) ≤ one (bool_decide (ended s = None))) as Hv
    by (intros v; unfold one; repeat case_bool_decide; simplify_eq; lia).
  destruct o; simpl in Hr, Ho; repeat case_match; simplify_eq/=; (split; [|done]);
    rewrite ?andb_false_r in *; simpl in *; try lia;
    match goal with |- context [bool_decide (Some ?v = None)] => specialize (Hv v); simpl in Hv; lia end.
Qed.

Lemma internal_work s s' : internal s s' → work s' < work s.
Proof.
  unfold work. intros Hs. destruct Hs as [i t o rest ch s1 t1 l _ Hgi Ht Hr|i t info _ Hgi Hrole Ht Hf Htk|err Hrec _
    |i t r cmd job rest _ Hgi Ht Htm|n Hc Hfl]; unfold set_goroutine; simpl.
  - destruct (run_op_work _ _ _ _ _ _ _ _ Hr Ht) as [Hlt Htk].
    destruct (run_op_frame _ _ _ _ _ _ _ Hr) as (Hg & _).
    pose proof (sum_insert cost_of _ _ _ (t1 <| todo := l ++ rest |>) Hgi) as Hsum.
    rewrite Hg, Htk. lia.
  - match goal with |- context [<[i:=?t']> _] => pose proof (sum_insert cost_of _ _ _ t' Hgi) as Hsum end.
    unfold cost_of at 2 4 in Hsum. rewrite Ht in Hsum. simpl in Hsum. rewrite andb_false_r in Hsum.
    simpl in Hsum. rewrite Htk. lia.
  - destruct Hrec as [He _]. rewrite He. simpl. lia.
  - pose proof (sum_insert cost_of _ _ _ (t <| timer := true |>) Hgi) as Hsum.
    unfold cost_of at 2 4 in Hsum. simpl in Hsum. rewrite Ht, Htm in Hsum. simpl in Hsum. lia.
  - rewrite Hfl. lia.
Qed.

(** ** Progress *)
Definition head_is (f : op → bool) (l : list op) : bool :=
  match l with o :: _ => f o | [] => false end.

Lemma find_head f (ts : list goroutine) :
  (∃ i t o rest, ts !! i = Some t ∧ todo t = o :: rest ∧ f o = true) ∨
  Forall (λ t, head_is f (todo t) = false) ts.
Proof.
  induction ts as [|t ts IH]; [by right|].
  destruct (todo t) as [|o rest] eqn:Ht; [|destruct (f o) eqn:Hf].
  - destruct IH as [(i & H)|IH]; [left; by exists (S i)|right; constructor; [by rewrite Ht|done]].
  - left. by exists 0, t, o, rest.
  - destruct IH as [(i & H)|IH]; [left; by exists (S i)|right; constructor; [by rewrite Ht|done]].
Qed.

(** Operations that never wait. *)
Definition free (o : op) : bool :=
  match o with
  | TakeRunner _ | RUnlockRunner | ExecuteJob _ _ | SetRunner _ | UnlockRunner | UnlockSend
  | ReturnOnError | ReportError | Leave _ => true
  | _ => false
  end.
Definition some_choice : choice := mkChoice iter_default None true.

Lemma op_step s i t o rest :
  ended s ≠ Some (Exit 1) → goroutines s !! i = Some t → todo t = o :: rest →
  is_Some (run_op some_choice o t s) → ∃ s', internal s s'.
Proof. intros He Hi Ht [[[s1 t1] l] Hr]. eexists. by eapply step_op. Qed.

Lemma free_runs o t s : free o = true → is_Some (run_op some_choice o t s).
Proof. destruct o; simpl; try done. by destruct (Runner.prepare _ _ _). Qed.

(** Nobody holds a lock whose next operations are nobody's. *)
Lemma no_holder W s k f :
  inv W s → (∀ l, holding l = Some k → head_is f l = true) →
  Forall (λ t, head_is f (todo t) = false) (goroutines s) → held k s = 0.
Proof.
  intros Hi Hf Hall. rewrite <-(inv_locks _ _ Hi k). apply (sum_zero (λ t, holds k (todo t))).
  eapply Forall_impl; [exact Hall|]. intros t Ht. unfold holds.
  rewrite bool_decide_eq_false_2; [done|]. intros Hh. specialize (Hf _ Hh). congruence.
Qed.
Definition is_await (o : op) : bool := match o with AwaitProcess _ _ _ => true | _ => false end.
Definition is_send (o : op) : bool := match o with StreamSend _ => true | _ => false end.
Definition is_lock_send (o : op) : bool := match o with LockSend => true | _ => false end.
Definition is_await_readers (o : op) : bool := match o with AwaitReaders => true | _ => false end.
Definition is_lock_runner (o : op) : bool := match o with RLockRunner | LockRunner => true | _ => false end.

Definition idle s : Prop := Forall (λ t, todo t = []) (goroutines s).

(** Some goroutine can go on, or all are at the end of their bodies: the locks
    are free then, and the window of the stream opens. *)
Lemma bodies_progress W s :
  0 < W → inv W s → ended s ≠ Some (Exit 1) → (∃ s', internal s s') ∨ idle s.
Proof.
  intros HW Hi He.
  destruct (find_head is_await (goroutines s)) as [(i & t & o & rest & Hgi & Ht & Ho)|H1].
  { left. destruct o; try done. destruct (timer t) eqn:Htm; [|eexists; by eapply step_timer].
    eapply op_step; [done..|]. simpl. unfold selected. rewrite Htm. by destruct (exited t). }
  destruct (find_head free (goroutines s)) as [(i & t & o & rest & Hgi & Ht & Ho)|H2].
  { left. eapply op_step; [done..|]. by apply free_runs. }
  destruct (find_head is_send (goroutines s)) as [(i & t & o & rest & Hgi & Ht & Ho)|H3].
  { left. destruct o; try done. destruct (closed s) eqn:Hc.
    - eapply op_step; [done..|]. simpl. by rewrite Hc.
    - destruct (quota s) as [|n] eqn:Hq.
      + pose proof (inv_window _ _ Hi) as Hw. destruct (flight s) as [|n] eqn:Hf; [lia|].
        eexists. by eapply step_server_reads.
      + eapply op_step; [done..|]. simpl. by rewrite Hc, Hq. }
  assert (sendMu s = false) as Hmu.
  { assert (held Sending s = 0) as H0.
    { apply (no_holder W s _ (λ o, is_send o || free o)); [done|by intros [|[]]|].
      rewrite Forall_lookup in H2, H3 |- *. intros i t Hgi. specialize (H2 i t Hgi). specialize (H3 i t Hgi).
      destruct (todo t) as [|o l]; [done|]. simpl in *. by rewrite H2, H3. }
    simpl in H0. by destruct (sendMu s). }
  destruct (find_head is_lock_send (goroutines s)) as [(i & t & o & rest & Hgi & Ht & Ho)|H4].
  { left. destruct o; try done. eapply op_step; [done..|]. simpl. by rewrite Hmu. }
  assert (readers s = 0) as Hrd by (apply (no_holder W s Reading free Hi); [by intros [|[]]|done]).
  destruct (find_head is_await_readers (goroutines s)) as [(i & t & o & rest & Hgi & Ht & Ho)|H5].
  { left. destruct o; try done. eapply op_step; [done..|]. simpl. by rewrite decide_True. }
  assert (writer s = NoWriter) as Hwr.
  { assert (held Announcing s = 0) as Ha by (apply (no_holder W s Announcing is_await_readers Hi); [by intros [|[]]|done]).
    assert (held Replacing s = 0) as Hr by (apply (no_holder W s Replacing free Hi); [by intros [|[]]|done]).
    simpl in Ha, Hr. by destruct (writer s). }
  destruct (find_head is_lock_runner (goroutines s)) as [(i & t & o & rest & Hgi & Ht & Ho)|H6].
  { left. destruct o; try done; (eapply op_step; [done..|]; simpl; by rewrite decide_True). }
  right. unfold idle. rewrite Forall_lookup in H1, H2, H3, H4, H5, H6 |- *. intros i t Hgi.
  specialize (H1 i t Hgi). specialize (H2 i t Hgi). specialize (H3 i t Hgi). specialize (H4 i t Hgi).
  specialize (H5 i t Hgi). specialize (H6 i t Hgi). destruct (todo t) as [|[] l]; done.
Qed.

(** Nothing is left to do: unless the process exited, every goroutine is at the
    end of its body, and while the loop still runs every job delivered on the
    stream was answered exactly once. *)
Definition settled s : Prop :=
  ended s = Some (Exit 1) ∨
  idle s ∧ (ended s = None → broken s = false ∧ result_ids (accepted s) ≡ₚ Job.ID <$> delivered s).

Lemma idle_answered W s :
  inv W s → idle s → closed s = false → result_ids (accepted s) ≡ₚ Job.ID <$> delivered s.
Proof.
  intros Hi Hid Hc. rewrite <-(inv_owed _ _ Hi).
  assert ((goroutines s ≫= owes) = []) as ->; [|by rewrite app_nil_r].
  pose proof (inv_failed _ _ Hi) as Hf. unfold idle in Hid. revert Hid Hf. clear Hi.
  induction (goroutines s) as [|t ts IH]; [done|]. intros [Ht Hid]%Forall_cons [Hf Hfs]%Forall_cons. simpl.
  change (owes t ++ (ts ≫= owes) = []). rewrite (IH Hid Hfs), app_nil_r. unfold owes. rewrite Ht.
  destruct (job_in t); [|done]. destruct (failed t); [|done]. specialize (Hf eq_refl). congruence.
Qed.

Lemma progress W s : 0 < W → inv W s → (∃ s', internal s s') ∨ settled s.
Proof.
  intros HW Hi. assert (ended s = Some (Exit 1) ∨ ended s ≠ Some (Exit 1)) as [He|He]; [|by right; left|].
  { destruct (ended s) as [[| |z]|]; [by right..| |by right].
    destruct (decide (z = 1%Z)) as [->|]; [by left|right; congruence]. }
  destruct (bodies_progress W s HW Hi He) as [?|Hid]; [by left|].
  destruct (ended s) as [v|] eqn:Hend; [right; right; split; [done|by rewrite Hend]|].
  destruct (broken s) eqn:Hbr.
  - left. exists (s <| ended := Some (Return (Some (new_error "EOF"))) |>). apply step_leave; [|by rewrite Hbr].
    split; [done|]. destruct (inv_main _ _ Hi) as (t & Ht & _). exists t. split; [done|].
    exact (Forall_lookup_1 _ _ _ _ Hid Ht).
  - right. right. split; [done|]. intros _. split; [done|]. apply (idle_answered W); [done..|].
    unfold closed. rewrite Hbr, Hend. done.
Qed.


Lemma delivered_internal s s' : internal s s' → delivered s' = delivered s.
Proof.
  intros Hs. destruct Hs as [i t o rest ch s1 t1 l _ Hgi Ht Hr|i t info _ Hgi Hrole Ht Hf Htk|err Hrec _
    |i t r cmd job rest _ Hgi Ht Htm|n Hc Hfl]; unfold delivered, set_goroutine; simpl; try done.
  - destruct (run_op_frame _ _ _ _ _ _ _ Hr) as (Hg & Hrole & _). rewrite Hg.
    apply (omap_insert_same _ _ _ t); [done|]. unfold job_in. simpl. by rewrite Hrole.
  - by apply (omap_insert_same _ _ _ t).
  - by apply (omap_insert_same _ _ _ t).
Qed.


(** It can be driven there. *)
Lemma worker_settles (W : nat) s :
  0 < W → reachable W s → ∃ s', rtc internal s s' ∧ settled s' ∧ delivered s' = delivered s.
Proof.
  intros HW Hr. apply inv_reachable in Hr. revert Hr.
  induction s as [s IH] using (well_founded_induction (Wf_nat.well_founded_ltof _ work)). intros Hi.
  destruct (progress W s HW Hi) as [[s1 Hs]|Hs]; [|exists s; split; [done|done]].
  destruct (IH s1) as (s' & Hr & Hs' & Hd); [by apply internal_work|by eapply inv_internal|].
  exists s'. split; [by eapply rtc_l|]. split; [done|]. by rewrite Hd, (delivered_internal _ _ Hs).
Qed.

(** One goroutine at a time is in [Send], and the runner is not replaced while
    one reads it. *)
Lemma locks_exclude (W : nat) s : reachable W s →
  holders Sending (goroutines s) ≤ 1 ∧
  holders Announcing (goroutines s) + holders Replacing (goroutines s) ≤ 1 ∧
  (0 < holders Replacing (goroutines s) → holders Reading (goroutines s) = 0).
Proof.
  intros Hr%inv_reachable. rewrite !(inv_locks _ _ Hr). simpl. pose proof (inv_exclude _ _ Hr) as Hx.
  unfold one. repeat case_bool_decide; destruct (sendMu s); split_and?; try lia; try congruence; auto.
Qed.
(** *** A goroutine that is left behind *)
Lemma run_op_ended ch o t s s1 t1 l :
  run_op ch o t s = Some (s1, t1, l) → is_Some (ended s) → is_Some (ended s1) ∧ tick s1 = tick s.
Proof. intros Hr He. destruct o; simpl in Hr; repeat case_match; simplify_eq/=; by split. Qed.

(** Once the loop is left, the goroutine of the heartbeats waits for a ticker
    that is stopped: it stays for as long as the process runs, one more with
    every new connection. *)
Lemma heartbeats_left_behind i t s s' :
  is_Some (ended s) → goroutines s !! i = Some t → todo t = [] → tick s = false →
  runs_as t = Heartbeats → rtc step s s' → goroutines s' !! i = Some t.
Proof.
  intros He Hgi Ht Htk _ Hr. revert He Hgi Htk.
  induction Hr as [|s s1 s' Hs _ IH]; intros He Hgi Htk; [done|]. apply IH; clear IH.
  all: destruct Hs as [Hs|Hs]; [destruct Hs as [j x o rest ch s1 t1 l _ Hj Hx Hrun|j x info _ Hj _ Hx _ Hy|err [Hn _] _
      |j x r cmd job rest _ Hj Hx _|n _ _]|destruct Hs as [files m x Hn _ _|j x r cmd job rest we code out Hj Hx _|Hn|Hn]];
    try (rewrite Hn in He; by destruct He); try congruence; unfold set_goroutine; simpl; try done.
  - by destruct (run_op_ended _ _ _ _ _ _ _ Hrun He).
  - destruct (run_op_frame _ _ _ _ _ _ _ Hrun) as (-> & _).
    rewrite list_lookup_insert_ne; [done|]. intros ->. rewrite Hgi in Hj. injection Hj as <-. congruence.
  - rewrite list_lookup_insert_ne; [done|]. intros ->. rewrite Hgi in Hj. injection Hj as <-. congruence.
  - rewrite list_lookup_insert_ne; [done|]. intros ->. rewrite Hgi in Hj. injection Hj as <-. congruence.
  - destruct (run_op_ended _ _ _ _ _ _ _ Hrun He) as [_ ->]. done.
Qed.


End facts.

(** ** A worker on a narrow stream

    The stream takes one message that the server has not read, and the first
    heartbeat is it. A job is delivered, and its process does not end. *)
Section demo.
#[local] Existing Instances w_wide w_host.


End demo.
End AgentLocksFacts.
