(* ===== verification/Builtin.v ===== *)
(** * The built-in modules ([internal/module/builtin])

    The modules of [host.go] with the commands that they run, and the shell
    command of a template module with its timeout. No code registers the
    modules of [host.go]; they are modelled as they would run. *)
From S2P Require Import Prelude.
From S2P Require Import GoStrings.
From S2P Require Import Fmt.
From S2P Require Import Model.
From S2P Require Import Modules.
From S2P Require Import Catalog.
From S2P Require Import Runner.

Module Builtin.
Import Module_ Fmt.Fmt.

Definition newline : string := String (of_byte 10) "".

(** ** Running a command ([os/exec])

    [exec.CommandContext(...).CombinedOutput()]: the output and the error of a
    command line. *)
Class Exec := CombinedOutput : list string → bytes * option error.

(** [module.ExecContext] *)
Record ExecContext := mkContext {
  Params : StringMap;
  WorkerInfo : HostInfo.t;
  Timeout : Z;
  Service : option Catalog.Profile;
}.

(** The [Module] interface. An execution also gives the command lines that it
    ran, in their order. *)
Record Module := mkModule {
  Code : string;
  Name_ : string;
  Description_ : string;
  ToolType : string;
  RiskLevel_ : RiskLevel;
  Profile : RiskProfile;
  Parameters : list ParamDef;
  Check : ExecContext → CheckResult * option error;
  Execute : ∀ `{Exec}, ExecContext → list (list string) * (Result * option error);
  DryRun : ExecContext → Result * option error;
}.

Section modules.
Context `{P : Printable}.

(** ** [HostDiagnostics] *)
Definition diagnostic_commands : list (list string) := [["uptime"]; ["free"; "-m"]; ["df"; "-h"]].

(** The loop, with the parts that it has so far. *)
Fixpoint diagnose `{Exec} (commands : list (list string)) (parts : list string)
    : list (list string) * (Result * option error) :=
  match commands with
  | [] =>
      ([], (mkResult true (join parts newline) false
              (Some {[ "host_diagnostics" := "collected" ]}), None))
  | command :: commands =>
      match CombinedOutput command with
      | (out, Some _) =>
          ([command], (mkResult false
             (sprintf "%s: %s" [PText (hd "" command); PText out]) false None, None))
      | (out, None) =>
          let '(ran, res) :=
            diagnose commands (parts ++ ["$ " +:+ join command " " +:+ newline +:+ out]) in
          (command :: ran, res)
      end
  end.

Definition HostDiagnostics : Module := {|
  Code := "host_diagnostics";
  Name_ := "宿主机健康快照";
  Description_ := "采集宿主机负载、内存和磁盘使用情况";
  ToolType := "shell";
  RiskLevel_ := RiskLevelLow;
  Profile := mkRisk RiskLevelLow true "single_host" false 0;
  Parameters := [];
  Check := λ _, (mkCheck true "will collect host diagnostics", None);
  Execute := λ _ _, diagnose diagnostic_commands [];
  DryRun := λ _, (mkResult true "would collect uptime, memory and disk usage" false None, None);
|}.

(** ** [RestartService] *)
Definition no_unit : error :=
  new_error "restart_service requires a Worker-local ServiceProfile with unit".

Definition restart `{Exec} (ctx : ExecContext) : list (list string) * (Result * option error) :=
  match Service ctx with
  | None => ([], (mkResult false "" false None, Some no_unit))
  | Some service =>
      if decide (trim_space (Catalog.Unit service) = "") then
        ([], (mkResult false "" false None, Some no_unit))
      else
        let command := ["systemctl"; "restart"; Catalog.Unit service] in
        ([command],
         match CombinedOutput command with
         | (out, Some _) => (mkResult false out false None, None)
         | (_, None) => (mkResult true (sprintf "restarted %s" [PText (Catalog.Unit service)]) true None, None)
         end)
  end.

Definition dry_restart (ctx : ExecContext) : Result * option error :=
  match Service ctx with
  | None => (mkResult false "" false None, Some no_unit)
  | Some service =>
      if decide (Catalog.Unit service = "") then (mkResult false "" false None, Some no_unit)
      else (mkResult true (sprintf "would restart %s" [PText (Catalog.Unit service)]) true None, None)
  end.

Definition RestartService : Module := {|
  Code := "restart_service";
  Name_ := "重启受管服务";
  Description_ := "重启 Worker 本地 ServiceProfile 中固定的 systemd unit";
  ToolType := "shell";
  RiskLevel_ := RiskLevelMedium;
  Profile := mkRisk RiskLevelMedium true "single_host" true 0;
  Parameters :=
    [mkParam "ServiceProfile" "Worker-local profile with a systemd unit" true "";
     mkParam "ServiceType" "Service type of the local profile" true ""];
  Check := λ _, (mkCheck true "restart requires explicit approval", None);
  Execute := λ _, restart;
  DryRun := dry_restart;
|}.

(** ** [runShellCommand]

    What becomes of [sh -c cmd]: it does not start, it ends after some time with
    what [Wait] returns and its exit code, or it goes on. *)
Inductive shell_process :=
  | NotStarted (err : error)
  | Ended (after : Z) (output : string) (wait : option error) (exitCode : Z)
  | Running.

Definition runShellCommand (sh : string → shell_process) (cmd : string)
    (timeout : Z) : Result * option error :=
  let timeout := if (timeout <=? 0)%Z then (30 * second)%Z else timeout in
  let timed_out :=
    (mkResult false "command timed out" false None,
     Some (Errorf "command timed out after %s" [AStr (Duration.to_string timeout)])) in
  match sh cmd with
  | NotStarted err => (mkResult false (error_text err) false None, Some err)
  | Ended after output wait exitCode =>
      if (after <? timeout)%Z then
        match wait with
        | Some _ => (mkResult false output false None, None)
        | None => (mkResult (exitCode =? 0)%Z output true None, None)
        end
      else timed_out
  | Running => timed_out
  end.

End modules.

(** ** Properties *)
Section properties.
Context `{P : Printable} `{E : Exec}.

Definition succeeds (command : list string) : Prop := (CombinedOutput command).2 = None.

Lemma diagnose_spec commands parts :
  let '(ran, (res, err)) := diagnose commands parts in
  err = None ∧ Changed res = false ∧ ran `prefix_of` commands ∧
  (Success res = true ↔ Forall succeeds commands) ∧ (Success res = true → ran = commands).
Proof.
  revert parts. induction commands as [|c cs IH]; intros parts; simpl.
  { by split_and!. }
  unfold succeeds in *. destruct (CombinedOutput c) as [out [err|]] eqn:Hc.
  - split_and!; try done; [by exists cs|]. split; [done|]. intros [Hs _]%Forall_cons. by rewrite Hc in Hs.
  - specialize (IH (parts ++ ["$ " +:+ join c " " +:+ newline +:+ out])).
    destruct (diagnose cs _) as [ran [res err]]. destruct IH as (He & Hch & [l Hp] & Hs & Hr).
    split_and!; [done|done|exists l; by rewrite Hp| |intros H; by rewrite Hr].
    rewrite Forall_cons, Hs, Hc. naive_solver.
Qed.

(** The diagnostics run only commands of the fixed list, in its order, whatever
    the server sends; they succeed exactly when all three commands do. *)
Theorem diagnostics_fixed (ctx : ExecContext) :
  let '(ran, (res, err)) := Execute HostDiagnostics ctx in
  ran `prefix_of` diagnostic_commands ∧ err = None ∧ Changed res = false ∧
  (Success res = true ↔ Forall succeeds diagnostic_commands).
Proof.
  change (Execute HostDiagnostics ctx) with (diagnose diagnostic_commands []).
  pose proof (diagnose_spec diagnostic_commands []) as H.
  destruct (diagnose _ _) as [ran [res err]]. naive_solver.
Qed.

(** A restart runs nothing or the one command with the unit of the local
    profile; the parameters of the job have no influence on it. *)
Theorem restart_only_unit (ctx : ExecContext) :
  let '(ran, (res, err)) := Execute RestartService ctx in
  (ran = [] ∧ err = Some no_unit ∧ Success res = false) ∨
  ∃ service, Service ctx = Some service ∧ trim_space (Catalog.Unit service) ≠ "" ∧
    ran = [["systemctl"; "restart"; Catalog.Unit service]] ∧ err = None ∧
    (Success res = true ↔ succeeds ["systemctl"; "restart"; Catalog.Unit service]).
Proof.
  simpl. unfold restart, succeeds. destruct (Service ctx) as [service|]; [|by left].
  case_decide as Hu; [by left|].
  destruct (CombinedOutput _) as [out [err|]] eqn:Hc; right; exists service; rewrite Hc; by split_and!.
Qed.
End properties.

(** A blank unit passes the simulation, which does not trim it, and fails the
    execution, which does. *)
Example blank_unit_dry_run `{Printable, Exec} (p : Catalog.Profile) (ctx : ExecContext) :
  Catalog.Unit p = " " → Service ctx = Some p →
  Success (DryRun RestartService ctx).1 = true ∧ (Execute RestartService ctx).2.2 = Some no_unit.
Proof. intros Hu Hs. simpl. unfold dry_restart, restart. rewrite Hs, Hu. by split. Qed.

(** A shell command is reported as a success exactly when it ended within the
    timeout, thirty seconds if none is set, with exit code 0. *)
Theorem shell_command_success `{Printable} (sh : string → shell_process) (cmd : string)
    (timeout : Z) :
  Success (runShellCommand sh cmd timeout).1 = true ↔
  ∃ after output, sh cmd = Ended after output None 0 ∧
    (after < (if (timeout <=? 0)%Z then 30 * second else timeout))%Z.
Proof.
  unfold runShellCommand. set (limit := if (timeout <=? 0)%Z then _ else _).
  destruct (sh cmd) as [err|after output wait code|]; simpl; [by split; [|intros (? & ? & ? & _)]| |
    by split; [|intros (? & ? & ? & _)]].
  destruct (Z.ltb_spec after limit) as [Hlt|Hge]; simpl.
  - destruct wait as [err|]; simpl; [by split; [|intros (? & ? & ? & _)]|].
    rewrite Z.eqb_eq. split; [intros ->; by exists after, output|]. by intros (? & ? & [= <- <- ->] & _).
  - split; [done|]. intros (? & ? & [= <- <- _ _] & ?). lia.
Qed.

End Builtin.
