(* ===== verification/AgentHost.v ===== *)
(** * What a worker reads of its host, and its calls over HTTP
    ([internal/infrastructure/worker/client.go], [runner.go])

    The facts of a heartbeat, computed from [/proc/stat] and [statfs]; and the
    delivery of a result over HTTP, which the stream has replaced and which no
    command uses any more. *)
From S2P Require Import Prelude.
From S2P Require Import GoStrings.
From S2P Require Import Fmt.
From S2P Require Import Model.
From S2P Require Import Hub.
From S2P Require Import Catalog.
From S2P Require Import Runner.

Module AgentHost.
Import Runner.Agent Fmt.Fmt.

(** ** Host facts *)

(** [syscall.Statfs_t]: uint64 counts of blocks, and the int64 size of one. *)
Record Statfs_t := mkStatfs { Blocks : Z; Bfree : Z; Bsize : Z }.

(** The host: its name, the local address of a UDP socket to the internet if
    there is one, and the state of the root file system. *)
Class HostOS := {
  os_Hostname : result string;
  udp_local_ip : option string;
  syscall_Statfs : string → result Statfs_t;
  scan_float : string → option float64;       (* [fmt.Sscanf(f, "%f", &v)] *)
}.

Definition u64 (z : Z) : Z := z mod u64_modulus.
Definition u64_mul (a b : Z) : Z := u64 (a * b).
Definition u64_sub (a b : Z) : Z := u64 (a - b).
Definition float_sub : float64 → float64 → float64 := SFsub float_prec float_emax.
Definition float_pos (f : float64) : bool := SFltb float_zero f.
Definition newline : string := String (of_byte 10) "".

Section host.
Context `{H : HostOS} `{F : Files}.

(** The loop over the fields: the total and the idle time; [i] counts from 0. *)
Fixpoint sum_fields (i : nat) (fs : list string) (total idle : float64)
    : option (float64 * float64) :=
  match fs with
  | [] => Some (total, idle)
  | f :: fs =>
      match scan_float f with
      | None => None
      | Some v => sum_fields (S i) fs (float_add total v) (if decide (i = 3) then v else idle)
      end
  end.

Definition cpu_of_line (line : string) : option float64 :=
  let fs := fields line in
  if decide (length fs < 5) then Some float_zero
  else match sum_fields 0 (tail fs) float_zero float_zero with
       | None => Some float_zero
       | Some (total, idle) =>
           if float_pos total then
             Some (float_mul (float_sub (float_of_Z 1) (float_div idle total)) (float_of_Z 100))
           else None                                 (* the loop over the lines goes on *)
       end.

Fixpoint cpu_of_lines (lines : list string) : float64 :=
  match lines with
  | [] => float_zero
  | line :: lines =>
      if negb (has_prefix line "cpu ") then cpu_of_lines lines
      else match cpu_of_line line with
           | Some usage => usage
           | None => cpu_of_lines lines
           end
  end.

Definition readCPUUsage : float64 :=
  match os_ReadFile "/proc/stat" with
  | Err _ => float_zero
  | Ok data => cpu_of_lines (split data newline)
  end.

(** The bytes of the file system and the ones in use. *)
Definition disk_total (stat : Statfs_t) : Z := u64_mul (Blocks stat) (u64 (Bsize stat)).
Definition disk_used (stat : Statfs_t) : Z :=
  u64_sub (disk_total stat) (u64_mul (Bfree stat) (u64 (Bsize stat))).

Definition readDiskUsage : float64 :=
  match syscall_Statfs "/" with
  | Err _ => float_zero
  | Ok stat =>
      if (0 <? disk_total stat)%Z then
        float_mul (float_div (float_of_Z (disk_used stat)) (float_of_Z (disk_total stat)))
          (float_of_Z 100)
      else float_zero
  end.

Definition CollectHostInfo : HostInfo.t :=
  HostInfo.mk (match os_Hostname with Ok name => name | Err _ => "" end)
    (default "" udp_local_ip) readCPUUsage readDiskUsage.

Definition heartbeatEnvelope (c : Agent.t) : envelope := Heartbeat (registeredID c) CollectHostInfo.
End host.

(** The counters of [/proc/stat] run since the host started, and so does the
    usage: a host that was idle half of the time before and is busy ever since
    reports two thirds. *)
Definition demo_host : HostOS := {|
  os_Hostname := Ok "node"; udp_local_ip := None; syscall_Statfs _ := Err (new_error "statfs");
  scan_float f := float_of_Z <$> atoi f;
|}.
Example cpu_since_boot :
  cpu_of_lines (H := demo_host) ["cpu  100 0 0 100"] = float_of_Z 50 ∧
  SFltb (cpu_of_lines (H := demo_host) ["cpu  200 0 0 100"]) (float_of_Z 67) = true.
Proof. vm_compute. done. Qed.

(** ** Bounds of the disk usage

    If the free blocks are among the blocks of the file system and its size in
    bytes is a uint64, nothing wraps around: the bytes in use are those of the
    blocks that are not free, and no more than all. *)
Theorem disk_used_bounds (stat : Statfs_t) :
  (0 ≤ Bfree stat ≤ Blocks stat)%Z → (0 ≤ Bsize stat)%Z →
  (Blocks stat * Bsize stat < u64_modulus)%Z → (Bsize stat < u64_modulus)%Z →
  disk_total stat = (Blocks stat * Bsize stat)%Z ∧
  disk_used stat = ((Blocks stat - Bfree stat) * Bsize stat)%Z ∧
  (0 ≤ disk_used stat ≤ disk_total stat)%Z.
Proof.
  intros Hf Hs Hm Hb. unfold disk_used, disk_total, u64_sub, u64_mul, u64.
  rewrite (Z.mod_small (Bsize stat)) by lia.
  assert (Bfree stat * Bsize stat ≤ Blocks stat * Bsize stat)%Z by nia.
  rewrite (Z.mod_small (Blocks stat * Bsize stat)) by nia.
  rewrite (Z.mod_small (Bfree stat * Bsize stat)) by nia.
  rewrite Z.mod_small by nia. split_and!; nia.
Qed.

(** A file system that reports more free than existing blocks gets a usage far
    above 100 per cent. *)
Example disk_wraps : disk_used (mkStatfs 1 2 4096) = (2 ^ 64 - 4096)%Z.
Proof. reflexivity. Qed.

(** ** HTTP *)
Record http_call := mkCall {
  url : string; content_type : string; worker_token : string; body : string;
}.
(** Sending a request, and the JSON of a map and of the error of an answer;
    decoding errors of the latter are ignored. *)
Class HttpClient := {
  marshal_fields : list (string * any) → result string;
  NewRequest : string → option error;                 (* a URL that does not parse *)
  Do : http_call → result (Z * string);               (* status and body *)
  error_field : string → string;
}.

Section http.
Context `{HC : HttpClient} `{P : Printable}.

(** Without a target for the answer. *)
Definition postJSON (c : Agent.t) (path : string) (fields : list (string * any)) : result unit :=
  payload ← marshal_fields fields;
  match NewRequest (serverURL c +:+ path) with
  | Some err => Err err
  | None =>
      resp ← Do (mkCall (serverURL c +:+ path) "application/json" (workerToken c) payload);
      let '(status, body) := resp in
      if (400 <=? status)%Z then Err (Errorf "request failed: %s" [AStr (error_field body)])
      else Ok tt
  end.

Definition complete (c : Agent.t) (jobID : string) (success : bool) (output : string) : result unit :=
  postJSON c
    (sprintf "/api/v1/workers/%s/jobs/%s/complete" [PText (registeredID c); PText jobID])
    [("success", VBool success); ("output", VString output)].

(** The result of [executeJob] is delivered or lost: its error is ignored. *)
Context `{S : Shell} `{F : Files}.
Definition executeJobLocally (c : Agent.t) (it : MapIter) (job : Job.t) : bool * string :=
  Runner.Execute (runner c) it job.
Definition authorizeJob (c : Agent.t) (job : Job.t) : result unit := Runner.Authorize (runner c) job.
Definition executeJob (c : Agent.t) (it : MapIter) (job : Job.t) : result unit :=
  let '(success, output) := executeJobLocally c it job in
  complete c (Job.ID job) success output.

(** A job that is not authorized runs nothing, and the reason is what is
    delivered. *)
Theorem unauthorized_delivered (c : Agent.t) (it : MapIter) (job : Job.t) (err : error) :
  authorizeJob c job = Err err →
  executeJob c it job = complete c (Job.ID job) false ("authorization denied: " +:+ error_text err).
Proof.
  intros Ha. unfold executeJob, executeJobLocally, Runner.Execute, Runner.prepare.
  unfold authorizeJob in Ha. by rewrite Ha.
Qed.
End http.

End AgentHost.
