(* ===== verification/WorkerLoop.v ===== *)
(** * The connection loop of a worker ([internal/infrastructure/worker/client.go])

    [Client.Run]: the service profiles are loaded once, then one stream after
    the other is opened until the server stops the worker. *)
From S2P Require Import Prelude.
From S2P Require Import GoStrings.
From S2P Require Import Fmt.
From S2P Require Import Model.
From S2P Require Import Hub.
From S2P Require Import Catalog.
From S2P Require Import CatalogFacts.
From S2P Require Import Runner.
From S2P Require Import RunnerFacts.

Import Fmt Catalog Runner Agent RunnerFacts.

Module WorkerLoop.

(** How far the opening of a stream gets: the connection, the stream, the
    registration that is sent, the answer, the first heartbeat. *)
Inductive opening :=
  | DialFailed (err : error)
  | StreamFailed (err : error)
  | RegisterFailed (err : error)
  | NoAnswer (err : error)
  | OtherAnswer (typ : string)
  | Registered (id : string) (heartbeat : option error).

(** [runGRPCStream] up to its loop: the error it returns, or nothing. *)
Definition openStream (o : opening) (c : t) : option error * t :=
  match o with
  | DialFailed err => (Some (Errorf "create grpc client: %w" [AErr err]), c)
  | StreamFailed err => (Some (Errorf "open worker stream: %w" [AErr err]), c)
  | RegisterFailed err => (Some (Errorf "send register: %w" [AErr err]), c)
  | NoAnswer err => (Some (Errorf "receive register response: %w" [AErr err]), c)
  | OtherAnswer typ => (Some (Errorf "unexpected register response: %s" [AStr typ]), c)
  | Registered id heartbeat =>
      (match heartbeat with
       | Some err => Some (Errorf "send initial heartbeat: %w" [AErr err])
       | None => None
       end, c <| registeredID := id |>)
  end.

Section run.
Context `{P : Printable} `{S : Shell} `{F : Files}.

(** One call of [runGRPCStream]: what it received and sent in its loop, the
    client it leaves, and how it ended. *)
Inductive stream (c : t) : list inbound → list envelope → t → verdict → Prop :=
  | stream_refused o err c' : openStream o c = (Some err, c') → stream c [] [] c' (Return (Some err))
  | stream_ended id c' ms s v :
      openStream (Registered id None) c = (None, c') → runs (registered c id) ms s →
      ended s = Some v → stream c ms (sent s) (client s) v.

(** [Run] returned, the process exited, or the loop goes on. *)
Inductive outcome := Running | Returned (err : option error) | Exited (status : Z).

Inductive run (c : t) : list (list inbound * list envelope) → t → outcome → Prop :=
  | run_load_failed err : Runner.Load (runner c) = Err err → run c [] c (Returned (Some err))
  | run_loaded r : Runner.Load (runner c) = Ok r → run c [] (c <| runner := r |>) Running
  | run_stream hist c' ms out c'' v :
      run c hist c' Running → stream c' ms out c'' v →
      run c (hist ++ [(ms, out)]) c''
        (match v with
         | Continue | Return (Some _) => Running
         | Return None => Returned None
         | Exit status => Exited status
         end).

(** ** What a stream leaves *)

(** The identity of the worker, and that its profiles are loaded. *)
Record kept (c c' : t) : Prop := {
  kept_name : name c' = name c;
  kept_token : workerToken c' = workerToken c;
  kept_type : workerType c' = workerType c;
  kept_runner : Runner.workerType (runner c') = workerType c;
  kept_loaded : is_Some (Runner.serviceCatalog (runner c'));
}.

(** How a stream is ended by its messages. *)
Definition ends_by (ms : list inbound) (v : option verdict) : Prop :=
  match v with
  | None | Some (Return (Some _)) => True
  | Some Continue => False
  | Some (Return None) => InCommand "stop" ∈ ms
  | Some (Exit status) => InCommand "force_stop" ∈ ms ∧ status = 1%Z
  end.

Lemma load_catalog r r' :
  Runner.Load r = Ok r' → Runner.workerType r' = Runner.workerType r ∧ is_Some (Runner.serviceCatalog r').
Proof. unfold Runner.Load. destruct (LoadServiceCatalog _); intros [= <-]; simpl; eauto. Qed.

Lemma command_kept command c c0 :
  kept c0 c →
  let '(c', _, v) := handleCommand command c in
  kept c0 c' ∧ (v = Continue ∨ ends_by [InCommand command] (Some v)).
Proof.
  intros Hc. unfold handleCommand. case_decide as Hs; [split; [done|]; right; set_solver|].
  case_decide.
  - unfold restartRunner. destruct (Runner.Load _) as [r|err] eqn:Hl; simpl; split; auto.
    apply load_catalog in Hl as [Ht Hl]. destruct Hc as [? ? Htype ? ?]. constructor; simpl; auto.
    rewrite Ht, <-Htype. unfold Runner.SetServicesConfigPath. by case_decide.
  - case_decide; split; auto. right. set_solver.
Qed.

Lemma runs_kept c0 c id ms s :
  kept c0 c → runs (registered c id) ms s → kept c0 (client s) ∧ ends_by ms (ended s).
Proof.
  intros Hc Hr. induction Hr as [|ms s1 m s2 _ [IH Hend] Hs].
  - split; [by destruct Hc|done].
  - destruct Hs as [m Hn|err Hn|info Hn|? ? ? ? ?|es r job es' it Hn ?|es r job es' ? ?]; simpl; try done.
    destruct m as [p|command|e|]; simpl; try (rewrite Hn; done).
    pose proof (command_kept command (client s1) c0 IH) as Hk.
    destruct (handleCommand command (client s1)) as [[c' acks] v]. destruct Hk as [Hk Hv]. simpl.
    split; [done|]. destruct Hv as [->|Hv]; [by rewrite Hn|].
    destruct v as [|[err|]|status]; simpl in *; set_solver.
Qed.

Lemma stream_kept c0 c ms out c' v :
  kept c0 c → stream c ms out c' v →
  kept c0 c' ∧ ends_by ms (Some v) ∧
  result_ids out ⊆+ Job.ID <$> jobs_received ms ∧
  ∃ id, Forall (genuine id (workerType c0) (jobs_received ms)) out.
Proof.
  intros Hc Hs. destruct Hs as [o err c' Ho|id c' ms s v _ Hr Hv].
  - split; [by destruct o as [| | | | |? [?|]]; injection Ho as _ <-; destruct Hc|].
    split; [done|]. split; [by apply submseteq_nil_l|]. exists "". constructor.
  - destruct (runs_kept _ _ _ _ _ Hc Hr) as [Hk He]. rewrite Hv in He. split; [done|]. split; [done|].
    destruct (process_inv_runs c id ms s) as [_ _ _ Ho Hg]; [|done|].
    { by rewrite (kept_runner _ _ Hc), (kept_type _ _ Hc). }
    split; [|exists id; by rewrite <-(kept_type _ _ Hc)].
    etrans; [|exact Ho]. by apply submseteq_inserts_r.
Qed.

(** What a stream may have sent: every delivery on this stream is answered at
    most once, with what an execution produced. *)
Definition answered (c : t) (h : list inbound * list envelope) : Prop :=
  result_ids h.2 ⊆+ Job.ID <$> jobs_received h.1 ∧
  ∃ id, Forall (genuine id (workerType c) (jobs_received h.1)) h.2.

(** C32: a worker starts nothing unless its service profiles could be loaded, and
    reconnects, as the same worker with its profiles, until the server stops it;
    whatever happens to its connections, a stream carries results of jobs that
    were delivered on that same stream, at most one for each delivery. *)
Theorem worker_run (c : t) (hist : list (list inbound * list envelope)) (c' : t) (out : outcome) :
  Runner.workerType (runner c) = workerType c → run c hist c' out →
  Forall (answered c) hist ∧
  match out with
  | Running => kept c c'
  | Returned (Some err) => hist = [] ∧ Runner.Load (runner c) = Err err
  | Returned None => ∃ ms sent, last hist = Some (ms, sent) ∧ InCommand "stop" ∈ ms
  | Exited status => ∃ ms sent, last hist = Some (ms, sent) ∧ InCommand "force_stop" ∈ ms ∧ status = 1%Z
  end.
Proof.
  intros Ht Hr. induction Hr as [err Hl|r Hl|hist c' ms out c'' v _ [IH Hk] Hs].
  - split; [constructor|done].
  - split; [constructor|]. apply load_catalog in Hl as [Hrt Hl]. constructor; simpl; try done. congruence.
  - destruct (stream_kept _ _ _ _ _ _ Hk Hs) as (Hk' & He & Ha). split.
    + apply Forall_app. split; [done|]. by constructor.
    + destruct v as [|[err|]|status]; simpl in He; try done; exists ms, out; by rewrite last_snoc.
Qed.
End run.

(** ** A worker that loses its connection *)
Section demo.
#[local] Existing Instances w_wide w_shell CatalogFacts.w_files.

Definition w_loaded : t :=
  match Runner.Load (runner w_client) with Ok r => w_client <| runner := r |> | Err _ => w_client end.
Definition w_received : state := receive (InJob (Some w_proto)) (registered w_loaded "worker-1").
Definition w_lost : state := w_received <| ended := Some (Return (Some (new_error "EOF"))) |>.
Definition w_stopped : state := receive (InCommand "stop") (registered (client w_lost) "worker-2").
Definition w_hist : list (list inbound * list envelope) :=
  [([InJob (Some w_proto)], sent w_lost); ([InCommand "stop"], sent w_stopped)].

Lemma w_runs : run w_client w_hist (client w_stopped) (Returned None).
Proof.
  assert (Runner.Load (runner w_client) = Ok (runner w_loaded)) as Hl by (vm_compute; reflexivity).
  assert (w_loaded = w_client <| runner := runner w_loaded |>) as Hw by (vm_compute; reflexivity).
  apply (run_stream _ [([InJob (Some w_proto)], sent w_lost)] (client w_lost) _ _ _ (Return None)).
  - apply (run_stream _ [] w_loaded _ _ _ (Return (Some (new_error "EOF")))).
    + rewrite Hw. by apply run_loaded.
    + apply (stream_ended w_loaded "worker-1" (w_loaded <| registeredID := "worker-1" |>) _ w_lost (Return (Some (new_error "EOF")))); [reflexivity| |reflexivity].
      apply (runs_step _ [InJob (Some w_proto)] w_received None); [|by apply step_disconnected].
      apply (runs_step _ [] (registered w_loaded "worker-1") (Some (InJob (Some w_proto)))); [apply runs_refl|].
      by apply step_receive.
  - apply (stream_ended (client w_lost) "worker-2" ((client w_lost) <| registeredID := "worker-2" |>) _ w_stopped (Return None)); [reflexivity| |reflexivity].
    apply (runs_step _ [] (registered (client w_lost) "worker-2") (Some (InCommand "stop"))); [apply runs_refl|].
    by apply step_receive.
Defined.

(** The job of the first stream is never answered: the second stream is another
    one, and the command stops the worker. *)
Lemma worker_run_witness :
  Forall (answered w_client) w_hist ∧ in_work w_lost = [protoJobToModel (Some w_proto)] ∧
  concat ((λ h, result_ids h.2) <$> w_hist) = [].
Proof.
  split; [|split; vm_compute; reflexivity].
  exact (proj1 (worker_run w_client w_hist (client w_stopped) (Returned None) eq_refl w_runs)).
Defined.
End demo.
End WorkerLoop.
