(* ===== verification/RemoteDeploy.v ===== *)
(** * Remote deployment ([internal/infrastructure/deploy/deploy.go])

    What [DeployWorker] does on the remote host: the sessions it opens, with
    their commands and what is written to them, up to the first that fails. The
    SSH connection and the files of the server are parameters. *)
From S2P Require Import Prelude.
From S2P Require Import GoStrings.
From S2P Require Import Fmt.
From S2P Require Import Model.
From S2P Require Import World.
From S2P Require Import Config.
From S2P Require Import Catalog.

Import Deploy Fmt.Fmt.

(** A session runs one command, with the bytes that are piped to it. *)
Record session := mkSession { command : string; stdin : string }.
Inductive auth := PasswordAuth (password : string) | KeyAuth (signer : string).

(** [golang.org/x/crypto/ssh]: the key parser, the connection, and the sessions
    of a connection after the ones before: whether one opens, and its error with
    its output. *)
Class SSH := {
  ParsePrivateKey : string → result string;
  Dial : string → string → list auth → option error;
  NewSession : list session → option error;
  RunSession : list session → session → option (error * string);
}.

Module RemoteDeploy.

Definition remotePath : string := "/tmp/adp-worker".
Definition tokenPath : string := "/tmp/adp-worker.token".
Definition newline : string := String (of_byte 10) "".

Section deploy.
Context `{P : Printable} `{F : Files} `{Ssh : SSH}.

(** [connect]. *)
Definition auth_methods (target : Target) : result (list auth) :=
  let password := if decide (Password target ≠ "") then [PasswordAuth (Password target)] else [] in
  if decide (KeyFile target ≠ "") then
    match os_ReadFile (KeyFile target) with
    | Err err => Err (Errorf "read key file: %w" [AErr err])
    | Ok key =>
        match ParsePrivateKey key with
        | Err err => Err (Errorf "parse key: %w" [AErr err])
        | Ok signer => Ok (password ++ [KeyAuth signer])
        end
    end
  else Ok password.

Definition connect (target : Target) : option error :=
  let port := if decide (Port target = 0%Z) then 22%Z else Port target in
  match auth_methods target with
  | Err err => Some err
  | Ok [] => Some (new_error "no auth method configured (password or key_file required)")
  | Ok methods => Dial (sprintf "%s:%d" [PText (Host target); PInt port]) (User target) methods
  end.

(** What is done in the sessions so far, and the error that ended it. *)
Definition D : Type := list session → option error * list session.
Definition andThen (m k : D) : D := λ h,
  match m h with (None, h) => k h | (Some err, h) => (Some err, h) end.
Definition wrap (what : string) (m : D) : D := λ h,
  let '(err, h) := m h in ((λ err, Errorf (what +:+ ": %w") [AErr err]) <$> err, h).

Definition in_session (s : session) (run_error : error * string → error) : D := λ h,
  match NewSession h with
  | Some err => (Some err, h)
  | None => (run_error <$> RunSession h s, h ++ [s])
  end.

Definition upload_command (remotePath : string) : string :=
  let remoteDir := Path.Dir remotePath in
  sprintf "mkdir -p %s && cat > %s/%s"
    [PText remoteDir; PText remoteDir; PText (Path.Base remotePath)].
Definition uploadBytes (file remotePath : string) : D :=
  in_session (mkSession (upload_command remotePath) file) fst.
Definition uploadFile (localPath remotePath : string) : D :=
  match os_ReadFile localPath with
  | Err err => λ h, (Some err, h)
  | Ok file => uploadBytes file remotePath
  end.
Definition runCmd (cmd : string) : D :=
  in_session (mkSession cmd "") (λ '(err, output), Errorf "%s: %s" [AErr err; AStr output]).

Definition protect_command : string := sprintf "chmod 600 %s" [PText tokenPath].
Definition chmod_command : string := sprintf "chmod +x %s" [PText remotePath].
Definition stop_command : string :=
  "pkill -f 'adp-worker' 2>/dev/null; pkill -f '/tmp/adp-worker worker run' 2>/dev/null; true".
Definition start_command (spec : WorkerSpec) : string :=
  let logToDBFlag := if LogToDB spec then " --log-to-db" else "" in
  sprintf "nohup %s worker run --server-url=%s --worker-token-file=%s --worker-name=%s --worker-type=%s%s > /tmp/adp-worker.log 2>&1 &"
    [PText remotePath; PText (ServerURL spec); PText tokenPath; PText (WorkerName spec);
     PText (WorkerType spec); PText logToDBFlag].

Definition steps (spec : WorkerSpec) (localBinary : string) : D :=
  andThen (wrap "upload binary" (uploadFile localBinary remotePath))
  (andThen (wrap "upload worker token" (uploadBytes (WorkerToken spec +:+ newline) tokenPath))
  (andThen (wrap "protect worker token file" (runCmd protect_command))
  (andThen (wrap "chmod" (runCmd chmod_command))
  (andThen (wrap "stop existing worker" (runCmd stop_command))
  (wrap "start worker" (runCmd (start_command spec))))))).

Definition DeployWorker (target : Target) (spec : WorkerSpec) (localBinary : string)
    : option error * list session :=
  match connect target with
  | Some err => (Some (Errorf "ssh connect: %w" [AErr err]), [])
  | None => steps spec localBinary []
  end.

(** ** The sessions of a deployment *)










End deploy.

(** ** A deployment *)
Section demo.
#[local] Instance d_wide : Printable := λ _, true.
#[local] Instance d_files : Files := {|
  os_stat := λ _, Err (new_error "stat"); os_open := λ path, Ok ("content of " +:+ path, None);
|}.
#[local] Instance d_ssh : SSH := {|
  ParsePrivateKey := Ok; Dial := λ _ _ _, None; NewSession := λ _, None;
  RunSession := λ h _, if decide (length h = 4) then Some (new_error "signal: KILL", "") else None;
|}.
Definition d_target : Target := mkTarget "db-1" 0 "ops" "" "/etc/adp/ssh/key".
Definition d_spec (name : string) : WorkerSpec := mkSpec "http://:8080" "token" name "mysql" false.

(** When the command that stops the old worker ends itself too, the deployment
    fails before the new one is started. *)
Example stop_fails :
  let '(err, h) := DeployWorker d_target (d_spec "w") "/bin/adp" in
  (error_text <$> err, length h) = (Some "stop existing worker: signal: KILL: ", 5).
Proof. vm_compute. done. Qed.

(** The name of the worker is not quoted for the shell. *)
Example name_is_shell :
  start_command (d_spec "w; reboot") =
    "nohup /tmp/adp-worker worker run --server-url=http://:8080 --worker-token-file=/tmp/adp-worker.token --worker-name=w; reboot --worker-type=mysql > /tmp/adp-worker.log 2>&1 &".
Proof. vm_compute. done. Qed.
End demo.
End RemoteDeploy.
