(* ===== verification/Startup.v ===== *)
(** * Starting the programs

    The configuration of the server and its checks ([cmd/server/root.go],
    [internal/config/config.go]), the construction of the server ([NewServer]
    of [internal/interfaces/http/server.go]), and the two ways to start a worker
    ([cmd/server/root.go], [cmd/worker/root.go]). viper, the driver of the
    database and the host are parameters. *)
From S2P Require Import Prelude.
From S2P Require Import GoStrings.
From S2P Require Import Fmt.
From S2P Require Import Model.
From S2P Require Import Policy.
From S2P Require Import Modules.
From S2P Require Import Repository.
From S2P Require Import MemoryRepo.
From S2P Require Import Hub.
From S2P Require Import World.
From S2P Require Import Server.
From S2P Require Import Auth.
From S2P Require Import Config.
From S2P Require Import AgentTools.
From S2P Require Import AgentRuntime.
From S2P Require Import Database.
From S2P Require Import PostgresRepo.
From S2P Require Import Routes.
From S2P Require Import Catalog.
From S2P Require Import Runner.

Import Repository World MemoryRepo Fmt.Fmt.

(** What viper holds once the flags, the environment and a file were read. *)
Record Settings := mkSettings {
  GetString : string → string;
  GetInt : string → Z;
  GetFloat64 : string → float64;
  GetBool : string → bool;
  GetDuration : string → Z;
}.
(** [viper.ReadInConfig], for the named file or after a search ([""]). *)
Inductive config_file :=
  | Loaded (s : Settings)
  | NotFound (s : Settings) (err : error)
  | Unreadable (err : error).
Class Viper := ReadInConfig : string → config_file.

Module ServerConfig.
Record t := mk {
  Addr : string; WorkerGRPCAddr : string; DBDSN : string; AdminUsername : string;
  AdminPassword : string; AuthSecret : string; WorkerSharedToken : string; LLMBaseURL : string;
  LLMAPIKey : string; LLMModel : string; AgentMaxSteps : Z;
  AgentInputTokenCostUSDPer1K : float64; AgentOutputTokenCostUSDPer1K : float64;
  ManagedConfigDir : string; ManagedConfigSyncMode : string;
}.
End ServerConfig.

Module WorkerConfig.
Record t := mk {
  ServerURL : string; GRPCServerAddr : string; WorkerToken : string; Name : string; Type_ : string;
  PollInterval : Z; ExecTimeout : Z; HostCollectInterval : Z; LogToDB : bool;
  ServicesConfigPath : string;
}.
#[global] Instance t_eta : Eta t := λ c,
  mk (ServerURL c) (GRPCServerAddr c) (WorkerToken c) (Name c) (Type_ c) (PollInterval c)
    (ExecTimeout c) (HostCollectInterval c) (LogToDB c) (ServicesConfigPath c).
End WorkerConfig.

Module Startup.

(** ** Reading the configuration *)
Definition read_settings `{Viper} (configPath : string) : result Settings :=
  if decide (configPath ≠ "") then
    match ReadInConfig configPath with
    | Loaded s => Ok s
    | NotFound _ err | Unreadable err =>
        Err (Errorf "read config file %s: %w" [AStr configPath; AErr err])
    end
  else
    match ReadInConfig "" with
    | Loaded s | NotFound s _ => Ok s
    | Unreadable err => Err (Errorf "read config file: %w" [AErr err])
    end.

Definition server_config (v : Settings) : ServerConfig.t :=
  ServerConfig.mk (GetString v "addr") (GetString v "worker.grpc_addr") (GetString v "db.dsn")
    (GetString v "auth.admin_username") (GetString v "auth.admin_password")
    (GetString v "auth.secret") (GetString v "auth.worker_token") (GetString v "agent.base_url")
    (GetString v "agent.api_key") (GetString v "agent.model") (GetInt v "agent.max_steps")
    (GetFloat64 v "agent.input_token_cost_usd_per_1k")
    (GetFloat64 v "agent.output_token_cost_usd_per_1k") (GetString v "managed_config_dir")
    (GetString v "managed_config_sync_mode").

(** ** Checks *)
Definition unsafeSecretValue (value : string) : bool :=
  let value := to_lower (trim_space value) in
  bool_decide (value = "") || contains value "<set-in-secret-manager>" || contains value "change-me".

Definition missing_secrets (cfg : ServerConfig.t) : list string :=
  (if unsafeSecretValue (ServerConfig.AdminPassword cfg) then ["ADP_AUTH_ADMIN_PASSWORD"] else [])
  ++ (if unsafeSecretValue (ServerConfig.AuthSecret cfg) then ["ADP_AUTH_SECRET"] else [])
  ++ (if unsafeSecretValue (ServerConfig.WorkerSharedToken cfg) then ["ADP_AUTH_WORKER_TOKEN"] else []).

Definition is_production (env : string) : bool := equal_fold env "production".

Definition validateRuntimeConfig (env : string) (cfg : ServerConfig.t) : result unit :=
  let missing := missing_secrets cfg in
  if decide (missing ≠ []) then
    Err (Errorf "required runtime secrets are missing: %s" [AStr (join missing ", ")])
  else if is_production env && bool_decide (trim_space (ServerConfig.DBDSN cfg) = "") then
    Err (new_error "ADP_DB_DSN is required when ADP_ENV=production")
  else
    let mode := trim_space (ServerConfig.ManagedConfigSyncMode cfg) in
    if decide (mode ≠ "" ∧ mode ≠ "missing" ∧ mode ≠ "enforce") then
      Err (Errorf "managed config sync mode must be missing or enforce, got %q" [AStr mode])
    else Ok tt.

(** ** The server *)
Definition api_config (cfg : ServerConfig.t) : Routes.Config :=
  Routes.mkConfig (ServerConfig.Addr cfg) (ServerConfig.AdminUsername cfg)
    (ServerConfig.AdminPassword cfg) (ServerConfig.AuthSecret cfg)
    (ServerConfig.WorkerSharedToken cfg) (ServerConfig.LLMBaseURL cfg) (ServerConfig.LLMAPIKey cfg)
    (ServerConfig.LLMModel cfg) (ServerConfig.AgentMaxSteps cfg)
    (ServerConfig.AgentInputTokenCostUSDPer1K cfg) (ServerConfig.AgentOutputTokenCostUSDPer1K cfg)
    (ServerConfig.ManagedConfigDir cfg) (ServerConfig.ManagedConfigSyncMode cfg).

Section new_server.
Context {R : Type} `{RR : Repository R} `{O : Oracle} `{TT : TextTemplate} `{CY : ConfigYAML}
  `{Y : YAML} `{P : Printable} `{J : JSON}.
Variable (it : MapIter).

Definition new_world (cfg : Routes.Config) (r : R) : World.t R :=
  let moduleReg := Registry.NewRegistry in
  World.mk r Hub.NewHub Policy.NewEngine moduleReg
    (foldl (λ eng m, TemplateEngine.RegisterModule m eng) TemplateEngine.NewEngine
       (Registry.List it moduleReg))
    (AgentMetrics.new (Routes.AgentInputTokenCostUSDPer1K cfg)
       (Routes.AgentOutputTokenCostUSDPer1K cfg)) [] 0.

Definition new_runtime (cfg : Routes.Config) : @AgentRuntime.Runtime R :=
  AgentRuntime.New (Routes.HasLLM cfg) AgentTools.agentTools (Routes.AgentMaxSteps cfg) 0.

(** Errors of the managed configurations are logged. *)
Definition bootstrap (cfg : Routes.Config) (walk : list Configs.walk_entry) : M R unit :=
  _ ← spawn ResumeInterrupted;
  _ ← Configs.syncManagedConfigs (Routes.ManagedConfigDir cfg)
        (bool_decide (Routes.ManagedConfigSyncMode cfg = "enforce")) walk;
  _ ← Configs.reloadManagedConfigs;
  mret tt.

(** [None] is a panic. *)
Definition NewServer (cfg : Routes.Config) (r : R) (walk : list Configs.walk_entry)
    : option (World.t R) :=
  match bootstrap cfg walk (new_world cfg r) with
  | (Some _, w) => Some w
  | (None, _) => None
  end.
End new_server.

(** What the start reads of the host: the environment, the database behind a
    DSN, the files of the directory of configurations, the address the workers
    connect to; and the readings it takes. *)
Record Host := mkHost {
  ADP_ENV : string;
  sql_open : string → result Database.t;
  walk_dir : string → list Configs.walk_entry;
  net_listen : string → result unit;
  salt : nat; iter : MapIter; seed_reading : Reading;
}.

(** A server that listens: on the in-memory repository or on the database. The
    service of users reads the table of users of the same database. *)
Inductive server :=
  | OnMemory (cfg : Routes.Config) (s : Auth.Service PostgresRepository) (w : World.t MemoryRepository)
  | OnDatabase (cfg : Routes.Config) (s : Auth.Service PostgresRepository)
      (w : World.t PostgresRepository).

Section serve.
Context `{V : Viper} `{O : Oracle} `{TT : TextTemplate} `{CY : ConfigYAML} `{Y : YAML}
  `{P : Printable} `{J : JSON} `{PG : Postgres} `{B : Bcrypt}.
Variable (host : Host).

(** [NewPostgresRepository] on the database that [sql.Open] connects to. *)
Definition connect (dsn : string) : result PostgresRepository :=
  match sql_open host dsn with
  | Err err => Err (wrapped "open database" err)
  | Ok d => PostgresRepo.NewPostgresRepository d
  end.

Definition open_repository (cfg : ServerConfig.t) : result (option PostgresRepository) :=
  if decide (ServerConfig.DBDSN cfg = "") then Ok None
  else match connect (ServerConfig.DBDSN cfg) with
       | Err err => Err (wrapped "connect to database" err)
       | Ok r => Ok (Some r)
       end.

(** The service of users with the initial administrator; an error of the seed
    is logged. *)
Definition auth_service (cfg : ServerConfig.t) (repo : option PostgresRepository)
    : Auth.Service PostgresRepository :=
  let s := Auth.NewService (salt host) (ServerConfig.AdminUsername cfg)
             (ServerConfig.AdminPassword cfg) (ServerConfig.AuthSecret cfg) in
  match repo with
  | None => s
  | Some r =>
      (Auth.SeedUserStore (US := PostgresRepo.postgres_user_store (seed_reading host))
         (Auth.SetUserStore r s)).2
  end.

Definition build (cfg : ServerConfig.t) (repo : option PostgresRepository) : option server :=
  let s := auth_service cfg repo in
  let api := api_config cfg in
  let walk := walk_dir host (ServerConfig.ManagedConfigDir cfg) in
  match repo with
  | None => OnMemory api s <$> NewServer (iter host) api MemoryRepo.NewMemoryRepository walk
  | Some r => OnDatabase api s <$> NewServer (iter host) api (default r (Auth.userStore s)) walk
  end.

(** [runServe] until the address of the workers is open and the goroutines of
    the two servers are started; [None] is a panic. *)
Definition runServe (configPath : string) : option (result server) :=
  match (v ← read_settings configPath;
         let cfg := server_config v in
         _ ← validateRuntimeConfig (ADP_ENV host) cfg;
         repo ← open_repository cfg;
         Ok (cfg, repo)) with
  | Err err => Some (Err err)
  | Ok (cfg, repo) =>
      svr ← build cfg repo;
      Some (match net_listen host (ServerConfig.WorkerGRPCAddr cfg) with
            | Err err =>
                Err (Errorf "listen worker grpc %s: %w" [AStr (ServerConfig.WorkerGRPCAddr cfg); AErr err])
            | Ok _ => Ok svr
            end)
  end.

(** The goroutine that [runServe] starts then for the HTTP server: it listens at
    the address of the configuration, and ends the process with [log.Fatalf] when
    it cannot. [runServe] itself goes on to wait for a signal. *)
Inductive http_server := Listening (addr : string) | Fatal (message : string).
Definition serve_http (cfg : ServerConfig.t) : http_server :=
  match net_listen host (ServerConfig.Addr cfg) with
  | Err err => Fatal ("server start failed: " +:+ error_text err)
  | Ok _ => Listening (ServerConfig.Addr cfg)
  end.
End serve.

(** ** The worker *)

Definition unsafeWorkerToken (value : string) : bool :=
  let value := to_lower (trim_space value) in
  bool_decide (value = "") || contains value "<set-in-secret-manager>" || contains value "change-me".

(** [worker.NewAgent] and its setters. *)
Definition new_agent (cfg : WorkerConfig.t) : Agent.t :=
  Agent.SetServicesConfigPath (WorkerConfig.ServicesConfigPath cfg)
    (Agent.SetLogToDB (WorkerConfig.LogToDB cfg)
      (Agent.SetHostCollectInterval (WorkerConfig.HostCollectInterval cfg)
        (Agent.SetExecTimeout (WorkerConfig.ExecTimeout cfg)
          (Agent.SetGRPCServerAddr (WorkerConfig.GRPCServerAddr cfg)
            (Agent.NewClient (WorkerConfig.ServerURL cfg) (WorkerConfig.WorkerToken cfg)
               (WorkerConfig.Name cfg) (WorkerConfig.Type_ cfg)))))).

Section worker.
Context `{V : Viper} `{F : Files}.

Definition worker_config (v : Settings) : WorkerConfig.t :=
  WorkerConfig.mk (GetString v "server_url") (GetString v "grpc_server_addr")
    (GetString v "worker_token") (GetString v "worker_name") (GetString v "worker_type")
    (GetDuration v "poll_interval") (GetDuration v "exec_timeout")
    (GetDuration v "host_collect_interval") (GetBool v "log_to_db") (GetString v "services_config").

Definition token_from_file (path : string) : result string :=
  contents ← (match os_ReadFile path with
              | Err err => Err (Errorf "read worker token file: %w" [AErr err])
              | Ok contents => Ok contents
              end);
  Ok (trim_space contents).

(** [adp-worker run]: the agent that then runs. *)
Definition runWorker (configPath : string) : result Agent.t :=
  v ← read_settings configPath;
  let cfg := worker_config v in
  let tokenFile := trim_space (GetString v "worker_token_file") in
  token ← (if decide (tokenFile ≠ "") then token_from_file tokenFile
           else Ok (WorkerConfig.WorkerToken cfg));
  if unsafeWorkerToken token then
    Err (new_error "ADP_WORKER_TOKEN is required; supply it through a protected runtime secret")
  else Ok (new_agent (cfg <| WorkerConfig.WorkerToken := token |>)).

(** [adp-server worker run], from the flags alone. *)
Definition runWorkerAsSubcommand (cfg : WorkerConfig.t) (workerTokenFile : string) : result Agent.t :=
  token ← (if decide (trim_space workerTokenFile ≠ "")
           then token_from_file workerTokenFile
           else Ok (WorkerConfig.WorkerToken cfg));
  if unsafeSecretValue token then
    Err (new_error "worker-token is required; supply it through a protected runtime secret")
  else Ok (new_agent (cfg <| WorkerConfig.WorkerToken := token |>)).
End worker.
End Startup.
