(* ===== verification/StartupFacts.v ===== *)
(** * Properties of the start of the programs

    When the server starts, with what secrets and on which repository; that
    the approval gate holds for the server that was started; and that both ways
    to start a worker lead to the same agent. *)
From S2P Require Import Prelude.
From S2P Require Import GoStrings.
From S2P Require Import Fmt.
From S2P Require Import Model.
From S2P Require Import Policy.
From S2P Require Import Modules.
From S2P Require Import Repository.
From S2P Require Import MemoryRepo.
From S2P Require Import MemoryRepoFacts.
From S2P Require Import Hub.
From S2P Require Import World.
From S2P Require Import Spec.
From S2P Require Import Server.
From S2P Require Import Auth.
From S2P Require Import AuthFacts.
From S2P Require Import Config.
From S2P Require Import ConfigFacts.
From S2P Require Import AgentTools.
From S2P Require Import AgentToolsFacts.
From S2P Require Import AgentRuntime.
From S2P Require Import System.
From S2P Require Import Routes.
From S2P Require Import HttpGate.
From S2P Require Import Database.
From S2P Require Import PostgresRepo.
From S2P Require Import PostgresFacts.
From S2P Require Import PostgresWf.
From S2P Require Import PostgresRestart.
From S2P Require Import Catalog.
From S2P Require Import Runner.
From S2P Require Import Startup.

Import Repository World Spec.Refine MemoryRepo.MemoryRepo Fmt.Fmt.

Module StartupFacts.
Import Startup Database PostgresRepo PostgresFacts PostgresRestart.

(** ** Computations that do not panic *)
Section returns.
Context {R : Type}.

Definition no_panic {A} (m : M R A) : Prop := triple (λ _, False) (λ _, True) m (λ _ _, True).

Lemma no_panic_ret {A} (a : A) : no_panic (mret a).
Proof. by apply triple_ret. Qed.
Lemma no_panic_bind {A B} (m : M R A) (k : A → M R B) :
  no_panic m → (∀ a, no_panic (k a)) → no_panic (m ≫= k).
Proof. intros Hm Hk. by eapply triple_bind. Qed.
Lemma no_panic_modify (f : World.t R → World.t R) : no_panic (modify f).
Proof. by intros w _. Qed.
Lemma no_panic_call `{Oracle} {A} (op : Reading → Op R A) : no_panic (call op).
Proof. intros w _. rewrite World.run_call. by destruct (op _ _). Qed.
Lemma no_panic_query `{Oracle} {A} (f : Reading → R → result A) : no_panic (query f).
Proof. by intros w _. Qed.
End returns.

Ltac no_panic_auto :=
  repeat lazymatch goal with
    | |- no_panic (_ ≫= _) => apply no_panic_bind; [|intros]
    | |- no_panic (mret _) => apply no_panic_ret
    | |- no_panic (modify _) => apply no_panic_modify
    | |- no_panic (call _) => apply no_panic_call
    | |- no_panic (query _) => apply no_panic_query
    | |- no_panic (match ?x with _ => _ end) => destruct x
    | H : _ |- no_panic _ => solve [apply H]
    end.

Section new_server.
Context {R : Type} `{L : JobLaws R} `{O : Oracle} `{TT : TextTemplate} `{CY : ConfigYAML}
  `{Y : YAML} `{P : Printable} `{J : JSON}.
Implicit Types (w : World.t R) (cfg : Routes.Config).

Lemma no_panic_sync enforce walk report : no_panic (R:=R) (Configs.sync_entries enforce walk report).
Proof.
  revert report. induction walk as [|entry walk IH]; intros report; simpl.
  - apply no_panic_ret.
  - apply no_panic_bind; [unfold Configs.sync_entry; no_panic_auto|].
    intros [?|?]; [apply IH|apply no_panic_ret].
Qed.

Lemma no_panic_apply cfgs : no_panic (R:=R) (Configs.apply_active cfgs).
Proof.
  induction cfgs as [|cfg cfgs IH]; simpl; [apply no_panic_ret|].
  destruct (ManagedConfig.Active cfg); [|done]. apply no_panic_bind.
  - intros w _. unfold Configs.applyManagedConfig. rewrite run_atomic. by destruct (Configs.apply_config _ _ _) as [[? ?]|].
  - intros [?|?]; [done|apply no_panic_ret].
Qed.

Lemma no_panic_bootstrap cfg walk : no_panic (R:=R) (bootstrap cfg walk).
Proof.
  unfold bootstrap, spawn, Configs.syncManagedConfigs, Configs.reloadManagedConfigs. no_panic_auto.
  - apply no_panic_sync.
  - apply no_panic_apply.
Qed.

(** Whatever is wrong with the managed configurations, the server is built. *)
Lemma new_server_returns it cfg (r : R) walk : is_Some (NewServer it cfg r walk).
Proof.
  unfold NewServer. pose proof (no_panic_bootstrap cfg walk (new_world it cfg r) I) as Hb.
  by destruct (bootstrap cfg walk (new_world it cfg r)) as [[[]|] w].
Qed.

Lemma neutral_bootstrap cfg walk : neutral (bootstrap (R:=R) cfg walk).
Proof.
  unfold bootstrap. apply neutral_bind; [apply neutral_spawn|intros _].
  apply neutral_bind; [apply ConfigFacts.neutral_syncManagedConfigs|intros _].
  apply neutral_bind; [apply ConfigFacts.neutral_reloadManagedConfigs|intros; apply neutral_ret].
Qed.

Lemma new_server_inv it cfg (r : R) walk w :
  gated (jobs_of r) (keys_of r) → NewServer it cfg r walk = Some w → Spec.inv (abs w).
Proof.
  intros Hg. unfold NewServer.
  assert (Spec.inv (abs (new_world it cfg r))) as Hi by (split; [done|apply Hub.wf_NewHub]).
  pose proof (neutral_keeps _ _ (neutral_bootstrap cfg walk) _ (System.safe_self _ Hi)) as Hk.
  destruct (bootstrap cfg walk (new_world it cfg r)) as [[[]|] w']; intros [= ->].
  by eapply safe_inv.
Qed.
End new_server.

(** ** The server *)
Section server.
Context `{V : Viper} `{O : Oracle} `{TT : TextTemplate} `{CY : ConfigYAML} `{Y : YAML}
  `{P : Printable} `{J : JSON} `{PG : Postgres} `{B : Bcrypt} `{C : LLM} `{D : Routes.RequestJSON}
  `{CJ : ClaimsJSON}.
Variable (host : Host).

(** Reading and checking the configuration and opening the repository. *)
Definition startable (configPath : string) (v : Settings) (repo : option PostgresRepository) : Prop :=
  let cfg := server_config v in
  read_settings configPath = Ok v ∧ validateRuntimeConfig (ADP_ENV host) cfg = Ok tt ∧
  open_repository host cfg = Ok repo ∧ is_ok (net_listen host (ServerConfig.WorkerGRPCAddr cfg)) = true.

Lemma build_returns cfg repo : is_Some (build host cfg repo).
Proof. unfold build. destruct repo; apply fmap_is_Some, new_server_returns. Qed.

Lemma runServe_inv configPath svr :
  runServe host configPath = Some (Ok svr) ↔
  ∃ v repo, startable configPath v repo ∧ build host (server_config v) repo = Some svr.
Proof.
  unfold runServe, startable. split.
  - destruct (read_settings configPath) as [v|]; simpl; [|done].
    destruct (validateRuntimeConfig _ _) as [[]|] eqn:Hv; simpl; [|done].
    destruct (open_repository _ _) as [repo|] eqn:Ho; simpl; [|done].
    destruct (build _ _ _) as [svr'|] eqn:Hb; simpl; [|done].
    destruct (net_listen _ _) eqn:Hl; simpl; [|done]. intros [= <-]. exists v, repo.
    by rewrite Hl.
  - intros (v & repo & (-> & Hv & Ho & Hl) & Hb). simpl. rewrite Hv. simpl. rewrite Ho. simpl.
    rewrite Hb. simpl. by destruct (net_listen _ _).
Qed.

Lemma validate_ok env cfg :
  validateRuntimeConfig env cfg = Ok tt ↔
  missing_secrets cfg = [] ∧
  (is_production env = true → trim_space (ServerConfig.DBDSN cfg) ≠ "") ∧
  trim_space (ServerConfig.ManagedConfigSyncMode cfg) ∈ [""; "missing"; "enforce"].
Proof.
  unfold validateRuntimeConfig. rewrite !elem_of_cons, elem_of_nil.
  destruct (decide (missing_secrets cfg ≠ [])) as [Hm|Hm]; [naive_solver|].
  apply dec_stable in Hm. generalize (trim_space (ServerConfig.ManagedConfigSyncMode cfg)).
  intros mode. destruct (is_production env); simpl; [case_bool_decide as Hd|]; simpl;
    [naive_solver| |]; (destruct (decide _) as [(? & ? & ?)|Hmode]; [naive_solver|]);
    split; [intros _; split_and!; auto|done|intros _; split_and!; auto|done];
    destruct (decide (mode = "")), (decide (mode = "missing")), (decide (mode = "enforce")); tauto.
Qed.

(** The three secrets are set to values of their own. *)
Definition secrets_set (cfg : Routes.Config) : Prop :=
  unsafeSecretValue (Routes.AdminPassword cfg) = false ∧
  unsafeSecretValue (Routes.AuthSecret cfg) = false ∧
  unsafeSecretValue (Routes.WorkerSharedToken cfg) = false.

Lemma missing_secrets_nil cfg : missing_secrets cfg = [] ↔ secrets_set (api_config cfg).
Proof.
  unfold missing_secrets, secrets_set. simpl.
  do 3 destruct (unsafeSecretValue _); simpl; naive_solver.
Qed.

(** *** The repository of a server *)
Lemma seed_same_jobs s r e :
  Auth.userStore s = Some r →
  ∃ r', Auth.userStore (Auth.SeedUserStore (US := postgres_user_store e) s).2 = Some r' ∧ same_jobs r r'.
Proof.
  intros Hs. unfold Auth.SeedUserStore. rewrite Hs.
  destruct (store_GetUser _ _) as [[?|]|]; simpl; [by eauto using same_jobs_refl| |by eauto using same_jobs_refl].
  unfold Auth.on_store, Auth.discard. rewrite Hs. simpl. eexists. split; [done|].
  unfold pg_CreateUser. same_jobs.
Qed.

Lemma connect_gated dsn r :
  (∀ d, sql_open host dsn = Ok d → gated_rows d) → connect host dsn = Ok r →
  gated (pg_jobs r) (pg_keys r).
Proof.
  unfold connect. destruct (sql_open host dsn) as [d|] eqn:Ho; [|done]. intros Hg Hn.
  apply new_repository in Hn as Hdb. destruct r as [d0 n]. simpl in Hdb. subst d0.
  by apply gated_rows_gated, Hg.
Qed.

Definition config_of (svr : server) : Routes.Config :=
  match svr with OnMemory cfg _ _ | OnDatabase cfg _ _ => cfg end.
Definition on_database (svr : server) : bool :=
  match svr with OnMemory _ _ _ => false | OnDatabase _ _ _ => true end.

(** In every state that requests, streams and agents lead to, a job that
    requires approval and is ready or running was approved. *)
Definition stays_gated {R} `{JobLaws R} (cfg : Routes.Config) (s : Auth.Service PostgresRepository)
    (w : World.t R) : Prop :=
  ∀ e h s' w',
    rtc (HttpGate.http_step (US := postgres_user_store e) cfg h (new_runtime cfg)) (s, w) (s', w') →
    ∀ k j, jobs_of (repo w') !! k = Some j → gate j.
Definition server_gated (svr : server) : Prop :=
  match svr with
  | OnMemory cfg s w => stays_gated cfg s w
  | OnDatabase cfg s w => stays_gated cfg s w
  end.

Lemma stays_gated_inv {R} `{JobLaws R} cfg s (w : World.t R) :
  Spec.inv (abs w) → stays_gated cfg s w.
Proof.
  intros Hi e h s' w' Hs k j Hj.
  destruct (HttpGate.http_steps_gate (US := postgres_user_store e) cfg h (new_runtime cfg) s w s' w' Hi Hs)
    as [Hg _].
  by destruct (Hg k j Hj).
Qed.

Lemma build_spec cfg repo svr :
  build host cfg repo = Some svr →
  config_of svr = api_config cfg ∧ on_database svr = bool_decide (is_Some repo) ∧
  ((∀ r, repo = Some r → gated (pg_jobs r) (pg_keys r)) → server_gated svr).
Proof.
  unfold build. destruct repo as [r|]; intros (w & Hw & ->)%fmap_Some; split_and!; try done.
  - intros Hg. apply stays_gated_inv. eapply new_server_inv; [|exact Hw].
    unfold auth_service.
    destruct (seed_same_jobs (Auth.SetUserStore r (Auth.NewService (salt host)
      (ServerConfig.AdminUsername cfg) (ServerConfig.AdminPassword cfg) (ServerConfig.AuthSecret cfg)))
      r (seed_reading host) eq_refl) as (r' & -> & Hj & Hk).
    simpl. rewrite Hj, Hk. by apply Hg.
  - intros _. apply stays_gated_inv. eapply new_server_inv; [|exact Hw]. apply gated_empty.
Qed.

Lemma open_repository_spec cfg repo :
  open_repository host cfg = Ok repo →
  (ServerConfig.DBDSN cfg = "" ↔ repo = None) ∧
  ∀ r, repo = Some r → connect host (ServerConfig.DBDSN cfg) = Ok r.
Proof.
  unfold open_repository. case_decide as Hd; [by intros [= <-]|].
  destruct (connect _ _) as [r|]; [|done]. intros [= <-]. split; [done|]. by intros ? [= ->].
Qed.

(** C3: when the server starts, its three secrets are set to values of their
    own, and in production it keeps its state in a database. If every database
    that can be opened holds only jobs that pass the approval gate, then after
    any sequence of requests and of operations of the agent and the streams,
    each handled as a whole, a job that requires approval and is ready or running
    was approved, provided that every tool call of the agent comes with a call
    identifier that was not used before. *)
Theorem server_starts_safely (configPath : string) (svr : server) :
  (∀ dsn d, sql_open host dsn = Ok d → gated_rows d) →
  runServe host configPath = Some (Ok svr) →
  secrets_set (config_of svr) ∧
  (is_production (ADP_ENV host) = true → on_database svr = true) ∧
  server_gated svr.
Proof.
  intros Hdb (v & repo & (_ & Hv & Ho & _) & Hb)%runServe_inv.
  apply validate_ok in Hv as (Hm & Hprod & _). apply open_repository_spec in Ho as [Hnone Hr].
  destruct (build_spec _ _ _ Hb) as (Hc & Hon & Hg). rewrite Hc, Hon. split_and!.
  - by apply missing_secrets_nil.
  - intros Hp. specialize (Hprod Hp). apply bool_decide_eq_true_2. destruct repo; [by eexists|].
    exfalso. apply Hprod. by rewrite (proj2 Hnone eq_refl).
  - apply Hg. intros r Hrepo. eapply connect_gated; [apply Hdb|by apply Hr].
Qed.

(** C34: the server starts exactly when the configuration can be read, the
    secrets are set, a production server names a database, the mode of the
    synchronization is known, the database can be opened and the address of the
    workers is free: no managed configuration and no user table keeps it from
    starting, and it never panics. *)
Theorem start_outcome (configPath : string) :
  is_Some (runServe host configPath) ∧
  ((∃ svr, runServe host configPath = Some (Ok svr)) ↔
   ∃ v, let cfg := server_config v in
     read_settings configPath = Ok v ∧ secrets_set (api_config cfg) ∧
     (is_production (ADP_ENV host) = true → trim_space (ServerConfig.DBDSN cfg) ≠ "") ∧
     trim_space (ServerConfig.ManagedConfigSyncMode cfg) ∈ [""; "missing"; "enforce"] ∧
     (ServerConfig.DBDSN cfg ≠ "" → is_ok (connect host (ServerConfig.DBDSN cfg)) = true) ∧
     is_ok (net_listen host (ServerConfig.WorkerGRPCAddr cfg)) = true).
Proof.
  split.
  - unfold runServe. destruct (_ ≫= _) as [[cfg repo]|]; [|done].
    destruct (build_returns cfg repo) as [svr Hs]. rewrite Hs. done.
  - split.
    + intros (svr & (v & repo & (Hr & Hv & Ho & Hl) & _)%runServe_inv). exists v.
      apply validate_ok in Hv as (Hm & Hp & Hs). apply missing_secrets_nil in Hm.
      split_and!; try done. intros Hd. unfold open_repository in Ho.
      rewrite decide_False in Ho by done. by destruct (connect _ _).
    + intros (v & Hr & Hm & Hp & Hs & Hd & Hl).
      assert (∃ repo, open_repository host (server_config v) = Ok repo) as [repo Ho].
      { unfold open_repository. case_decide as Hdsn; [eauto|]. specialize (Hd Hdsn).
        destruct (connect _ _); [eauto|done]. }
      destruct (build_returns (server_config v) repo) as [svr Hb]. exists svr.
      apply runServe_inv. exists v, repo. split; [|done]. split_and!; try done.
      apply validate_ok. split_and!; try done. by apply missing_secrets_nil.
Qed.
End server.

(** ** Workers *)
Section worker.
Context `{V : Viper} `{F : Files}.

Definition same_agent (x y : result Agent.t) : Prop :=
  match x, y with Ok a, Ok b => a = b | Err _, Err _ => True | _, _ => False end.

(** Both commands start the same agent, or neither starts one, on the same
    settings, when the path of the token has no white space around it. *)
Lemma workers_agree configPath v :
  let tokenFile := GetString v "worker_token_file" in
  read_settings configPath = Ok v → trim_space tokenFile = tokenFile →
  same_agent (runWorker configPath) (runWorkerAsSubcommand (worker_config v) tokenFile).
Proof.
  intros tokenFile Hr Ht. unfold runWorker, runWorkerAsSubcommand, mbind, result_bind.
  rewrite Hr. fold tokenFile. rewrite Ht.
  change unsafeWorkerToken with unsafeSecretValue.
  destruct (if decide _ then _ else _) as [token|]; [|done]. by destruct (unsafeSecretValue token).
Qed.
End worker.

(** ** Settings *)
Section demo.
Import System.System AuthFacts.AuthFacts.
#[local] Existing Instances demo_oracle demo_template demo_yaml demo_config_yaml demo_printable demo_json
  demo_postgres demo_bcrypt demo_claims HttpGate.demo_llm HttpGate.demo_requests.

Definition demo_strings (mode dsn : string) (key : string) : string :=
  default "" ((list_to_map [("auth.admin_username", "root"); ("auth.admin_password", "rootpw");
    ("auth.secret", "0123456789abcdef"); ("auth.worker_token", "worker-token"); ("db.dsn", dsn); ("addr", ":8080");
    ("managed_config_dir", "configs"); ("managed_config_sync_mode", mode);
    ("worker_token", "change-me"); ("worker_token_file", " /token"); ("worker_type", "shell")]
    : gmap string string) !! key).
Definition demo_settings (mode dsn : string) : Settings :=
  mkSettings (demo_strings mode dsn) (λ _, 20%Z) (λ _, float_zero) (λ _, false) (λ _, 0%Z).
(** The file to read names the mode and the DSN. *)
#[local] Instance demo_viper : Viper := λ path,
  match split path "|" with
  | [mode; dsn] => Loaded (demo_settings mode dsn)
  | _ => NotFound (demo_settings "missing" "") (new_error "not found")
  end.
Definition demo_entry : Configs.walk_entry :=
  Configs.mkEntry "configs/policies/p.yaml" None false (Ok "new").
Definition demo_start : Host :=
  mkHost "Production" (λ _, Ok demo_db) (λ _, [demo_entry]) (λ _, Ok tt) 1 iter_default demo_reading.
Definition demo_local : Host :=
  mkHost "" (λ _, Ok demo_db) (λ _, [demo_entry]) (λ _, Ok tt) 1 iter_default demo_reading.

(** In production a server without a database is refused. *)
Example production_needs_database :
  runServe demo_start "missing|" =
    Some (Err (new_error "ADP_DB_DSN is required when ADP_ENV=production")).
Proof. vm_compute. done. Qed.

Lemma demo_gated dsn d : sql_open demo_start dsn = Ok d → gated_rows d.
Proof. intros [= <-]. apply demo_db_gated. Qed.

(** The seeded database has the administrator. *)
Definition demo_running : option (bool * list string) :=
  match runServe demo_start "missing|postgres://adp" with
  | Some (Ok (OnDatabase _ s w)) =>
      Some (bool_decide (is_Some (users (db (World.repo w)) !! "root")), (map_to_list (jobs (db (World.repo w)))).*1)
  | _ => None
  end.
Example server_seeded : demo_running = Some (true, ["job-000042"]).
Proof. vm_compute. done. Qed.

Lemma server_starts_safely_witness :
  ∃ svr, runServe demo_start "missing|postgres://adp" = Some (Ok svr) ∧ secrets_set (config_of svr) ∧
    on_database svr = true.
Proof.
  destruct (runServe demo_start "missing|postgres://adp") as [[svr|]|] eqn:Hs.
  - exists svr. split; [reflexivity|].
    destruct (server_starts_safely demo_start "missing|postgres://adp" svr demo_gated Hs) as (H1 & H2 & _).
    split; [exact H1|]. apply H2. vm_compute. reflexivity.
  - exfalso. apply (f_equal (λ r, match r with Some (Ok _) => true | _ => false end)) in Hs.
    revert Hs. vm_compute. discriminate.
  - exfalso. apply (f_equal (λ r, match r with Some (Ok _) => true | _ => false end)) in Hs.
    revert Hs. vm_compute. discriminate.
Defined.

(** The address of the HTTP server is opened later than that of the workers: when
    it is in use, the server has started and the process ends all the same. *)
Definition demo_busy : Host :=
  mkHost "" (λ _, Ok demo_db) (λ _, [demo_entry])
    (λ addr, if decide (addr = ":8080") then Err (new_error "address already in use") else Ok tt)
    1 iter_default demo_reading.
Example http_address_in_use :
  (match runServe demo_busy "missing|" with Some (Ok _) => true | _ => false end) = true ∧
  serve_http demo_busy (server_config (demo_settings "missing" "")) =
    Fatal "server start failed: address already in use".
Proof. vm_compute. done. Qed.

(** White space around the mode is accepted by the check, but the server then
    does not enforce the files. *)
Example padded_enforce_ignored :
  validateRuntimeConfig "" (server_config (demo_settings " enforce" "")) = Ok tt ∧
  Routes.ManagedConfigSyncMode (api_config (server_config (demo_settings " enforce" ""))) ≠ "enforce".
Proof. vm_compute. done. Qed.

(** The subcommand does not trim the path of the token. *)
#[local] Instance demo_token : Files := {|
  os_stat := λ _, Err (new_error "stat");
  os_open := λ path, if decide (path = "/token") then Ok ("worker-token", None) else Err (new_error "open");
|}.
Example token_path_trimmed_once :
  is_ok (runWorker "") = true ∧
  is_ok (runWorkerAsSubcommand (worker_config (demo_settings "" "")) " /token") = false.
Proof. vm_compute. done. Qed.
End demo.
End StartupFacts.
