(* ===== verification/Flags.v ===== *)
(** * The flags of the commands ([cmd/server/root.go], [cmd/worker/root.go])

    The flags with their defaults and the keys of viper they are bound to. viper
    is a parameter: a key whose flag, environment variable and entry in the file
    are all absent has the default of the flag ([untouched]), as the comment in
    [init] says. *)
From S2P Require Import Prelude.
From S2P Require Import GoStrings.
From S2P Require Import Fmt.
From S2P Require Import Model.
From S2P Require Import Database.
From S2P Require Import Catalog.
From S2P Require Import Runner.
From S2P Require Import Startup.

Module Flags.
Import Fmt.Fmt Startup.

Inductive flag_value :=
  | FString (s : string)
  | FInt (z : Z)
  | FFloat64 (f : float64)
  | FBool (b : bool)
  | FDuration (d : Z).
Record flag := mkFlag { flag_name : string; default_value : flag_value }.

(** [serveCmd.Flags()] *)
Definition serve_flags : list flag := [
  mkFlag "addr" (FString ":8080");
  mkFlag "worker-grpc-addr" (FString ":9090");
  mkFlag "db-dsn" (FString "");
  mkFlag "admin-username" (FString "admin");
  mkFlag "admin-password" (FString "");
  mkFlag "auth-secret" (FString "");
  mkFlag "worker-token" (FString "");
  mkFlag "agent-base-url" (FString "");
  mkFlag "agent-api-key" (FString "");
  mkFlag "agent-model" (FString "");
  mkFlag "agent-max-steps" (FInt 20);
  mkFlag "agent-input-token-cost-usd-per-1k" (FFloat64 float_zero);
  mkFlag "agent-output-token-cost-usd-per-1k" (FFloat64 float_zero);
  mkFlag "managed-config-dir" (FString "configs/managed");
  mkFlag "managed-config-sync-mode" (FString "missing");
  mkFlag "config" (FString "")].

(** [viper.BindPFlag]: the keys and the flags they are bound to. *)
Definition serve_bindings : list (string * string) := [
  ("addr", "addr");
  ("worker.grpc_addr", "worker-grpc-addr");
  ("db.dsn", "db-dsn");
  ("auth.admin_username", "admin-username");
  ("auth.admin_password", "admin-password");
  ("auth.secret", "auth-secret");
  ("auth.worker_token", "worker-token");
  ("agent.base_url", "agent-base-url");
  ("agent.api_key", "agent-api-key");
  ("agent.model", "agent-model");
  ("agent.max_steps", "agent-max-steps");
  ("agent.input_token_cost_usd_per_1k", "agent-input-token-cost-usd-per-1k");
  ("agent.output_token_cost_usd_per_1k", "agent-output-token-cost-usd-per-1k");
  ("managed_config_dir", "managed-config-dir");
  ("managed_config_sync_mode", "managed-config-sync-mode")].

(** [adp-server worker run], which reads its flags without viper. *)
Definition worker_subcommand_flags : list flag := [
  mkFlag "server-url" (FString "http://127.0.0.1:8080");
  mkFlag "grpc-server-addr" (FString "127.0.0.1:9090");
  mkFlag "worker-token" (FString "");
  mkFlag "worker-token-file" (FString "");
  mkFlag "worker-name" (FString "worker-1");
  mkFlag "worker-type" (FString "shell");
  mkFlag "poll-interval" (FDuration (5 * second));
  mkFlag "exec-timeout" (FDuration (30 * second));
  mkFlag "host-collect-interval" (FDuration (60 * second));
  mkFlag "log-to-db" (FBool false);
  mkFlag "services-config" (FString Catalog.DefaultServicesConfigPath)].

(** [adp-worker run] *)
Definition worker_flags : list flag := [
  mkFlag "server-url" (FString "http://127.0.0.1:8080");
  mkFlag "grpc-server-addr" (FString "127.0.0.1:9090");
  mkFlag "worker-token" (FString "");
  mkFlag "worker-token-file" (FString "");
  mkFlag "worker-name" (FString "worker-1");
  mkFlag "worker-type" (FString "shell");
  mkFlag "poll-interval" (FDuration (5 * second));
  mkFlag "exec-timeout" (FDuration (30 * second));
  mkFlag "host-collect-interval" (FDuration (60 * second));
  mkFlag "log-to-db" (FBool false);
  mkFlag "services-config" (FString Catalog.DefaultServicesConfigPath);
  mkFlag "config" (FString "")].

Definition worker_bindings : list (string * string) := [
  ("server_url", "server-url");
  ("grpc_server_addr", "grpc-server-addr");
  ("worker_token", "worker-token");
  ("worker_token_file", "worker-token-file");
  ("worker_name", "worker-name");
  ("worker_type", "worker-type");
  ("poll_interval", "poll-interval");
  ("exec_timeout", "exec-timeout");
  ("host_collect_interval", "host-collect-interval");
  ("log_to_db", "log-to-db");
  ("services_config", "services-config")].

(** [FlagSet.Lookup] *)
Definition lookup_flag (flags : list flag) (name : string) : option flag_value :=
  default_value <$> List.find (λ f, bool_decide (flag_name f = name)) flags.

(** The default of the flag that a key is bound to. *)
Definition default_of (flags : list flag) (bindings : list (string * string)) (key : string)
    : option flag_value :=
  match List.find (λ b, bool_decide (b.1 = key)) bindings with
  | Some (_, name) => lookup_flag flags name
  | None => None
  end.

(** The value of a key, read with the getter of the flag's type. *)
Definition holds (v : Settings) (key : string) (x : flag_value) : Prop :=
  match x with
  | FString s => GetString v key = s
  | FInt z => GetInt v key = z
  | FFloat64 f => GetFloat64 v key = f
  | FBool b => GetBool v key = b
  | FDuration d => GetDuration v key = d
  end.

(** Nothing sets the keys outside [keys]. *)
Definition untouched (flags : list flag) (bindings : list (string * string)) (keys : list string)
    (v : Settings) : Prop :=
  ∀ key x, key ∉ keys → default_of flags bindings key = Some x → holds v key x.

(** Settings with these defaults, for the keys that nothing sets. *)
Definition default_settings (flags : list flag) (bindings : list (string * string))
    (given : list (string * string)) : Settings :=
  let get key := default_of flags bindings key in {|
  GetString key :=
    match List.find (λ b, bool_decide (b.1 = key)) given with
    | Some (_, s) => s
    | None => match get key with Some (FString s) => s | _ => "" end
    end;
  GetInt key := match get key with Some (FInt z) => z | _ => 0%Z end;
  GetFloat64 key := match get key with Some (FFloat64 f) => f | _ => float_zero end;
  GetBool key := match get key with Some (FBool b) => b | _ => false end;
  GetDuration key := match get key with Some (FDuration d) => d | _ => 0%Z end;
|}.

(** ** Properties *)

(** The defaults are defined for every bound key: no binding names a flag that
    does not exist, and no key is bound twice. *)
Lemma bindings_sound :
  Forall (λ b, is_Some (lookup_flag serve_flags b.2)) serve_bindings ∧
  Forall (λ b, is_Some (lookup_flag worker_flags b.2)) worker_bindings ∧
  NoDup serve_bindings.*1 ∧ NoDup worker_bindings.*1.
Proof.
  split_and!; [by repeat (constructor; [vm_compute; by eexists|])..| |];
    by apply (bool_decide_unpack _); vm_compute.
Qed.

Ltac value_of H flags bindings key :=
  let x := eval vm_compute in (default_of flags bindings key) in
  lazymatch x with
  | Some ?x =>
      let E := fresh in
      assert (holds _ key x) as E
        by (apply H; [apply (bool_decide_unpack _); vm_compute; exact I|vm_compute; reflexivity]);
      cbn [holds] in E; rewrite ?E; clear E
  end.

Definition secret_keys : list string := ["auth.admin_password"; "auth.secret"; "auth.worker_token"].

(** The configuration when only the secrets are given. *)
Lemma default_server_config (v : Settings) :
  untouched serve_flags serve_bindings secret_keys v →
  server_config v =
    ServerConfig.mk ":8080" ":9090" "" "admin" (GetString v "auth.admin_password")
      (GetString v "auth.secret") (GetString v "auth.worker_token") "" "" "" 20 float_zero float_zero
      "configs/managed" "missing".
Proof.
  intros H. unfold server_config. set (f := serve_flags) in *. set (b := serve_bindings) in *.
  value_of H serve_flags serve_bindings "addr".
  value_of H serve_flags serve_bindings "worker.grpc_addr".
  value_of H serve_flags serve_bindings "db.dsn".
  value_of H serve_flags serve_bindings "auth.admin_username".
  value_of H serve_flags serve_bindings "agent.base_url".
  value_of H serve_flags serve_bindings "agent.api_key".
  value_of H serve_flags serve_bindings "agent.model".
  value_of H serve_flags serve_bindings "agent.max_steps".
  value_of H serve_flags serve_bindings "agent.input_token_cost_usd_per_1k".
  value_of H serve_flags serve_bindings "agent.output_token_cost_usd_per_1k".
  value_of H serve_flags serve_bindings "managed_config_dir".
  value_of H serve_flags serve_bindings "managed_config_sync_mode".
  reflexivity.
Qed.

(** Without settings the server is refused, and the error names the three
    secrets. Given the secrets alone it passes the checks outside production,
    and in production it is refused because there is no database. *)
Theorem serve_defaults (env : string) (v : Settings) :
  untouched serve_flags serve_bindings secret_keys v →
  (validateRuntimeConfig env (server_config v) = Ok tt ↔
     missing_secrets (server_config v) = [] ∧ is_production env = false) ∧
  (untouched serve_flags serve_bindings [] v →
   validateRuntimeConfig env (server_config v) =
     Err (Errorf "required runtime secrets are missing: %s"
            [AStr "ADP_AUTH_ADMIN_PASSWORD, ADP_AUTH_SECRET, ADP_AUTH_WORKER_TOKEN"])).
Proof.
  intros H. pose proof (default_server_config v H) as Hcfg. split.
  - unfold validateRuntimeConfig. rewrite Hcfg. cbn [ServerConfig.DBDSN ServerConfig.ManagedConfigSyncMode].
    destruct (decide _) as [Hm|Hm].
    + split; [done|]. by intros [Hn _].
    + apply dec_stable in Hm. rewrite Hm. change (trim_space "") with "".
      rewrite bool_decide_true by done. rewrite andb_true_r.
      change (trim_space "missing") with "missing".
      destruct (is_production env); [by split; [|intros [_ ?]]|].
      rewrite decide_False by (intros (_&?&_); done). done.
  - intros H0. rewrite Hcfg.
    value_of H0 serve_flags serve_bindings "auth.admin_password".
    value_of H0 serve_flags serve_bindings "auth.secret".
    value_of H0 serve_flags serve_bindings "auth.worker_token".
    reflexivity.
Qed.

(** The agent that runs when only the token of the worker is given. *)
Theorem worker_defaults `{Viper, Files} (configPath : string) (v : Settings) :
  read_settings configPath = Ok v →
  untouched worker_flags worker_bindings ["worker_token"] v →
  let token := GetString v "worker_token" in
  runWorker configPath =
    if unsafeWorkerToken token then
      Err (new_error "ADP_WORKER_TOKEN is required; supply it through a protected runtime secret")
    else
      Ok (new_agent (WorkerConfig.mk "http://127.0.0.1:8080" "127.0.0.1:9090" token "worker-1" "shell"
            (5 * second) (30 * second) (60 * second) false Catalog.DefaultServicesConfigPath)).
Proof.
  intros Hread Hv token. unfold runWorker. rewrite Hread. cbn [mbind result_bind].
  value_of Hv worker_flags worker_bindings "worker_token_file".
  rewrite decide_False by (vm_compute; tauto). cbn [mbind result_bind].
  unfold worker_config.
  value_of Hv worker_flags worker_bindings "server_url".
  value_of Hv worker_flags worker_bindings "grpc_server_addr".
  value_of Hv worker_flags worker_bindings "worker_name".
  value_of Hv worker_flags worker_bindings "worker_type".
  value_of Hv worker_flags worker_bindings "poll_interval".
  value_of Hv worker_flags worker_bindings "exec_timeout".
  value_of Hv worker_flags worker_bindings "host_collect_interval".
  value_of Hv worker_flags worker_bindings "log_to_db".
  value_of Hv worker_flags worker_bindings "services_config".
  reflexivity.
Qed.

(** Both ways to start a worker have the same flags, up to the configuration
    file that only [adp-worker] reads. *)
Lemma worker_commands_same_flags name :
  name ≠ "config" → lookup_flag worker_flags name = lookup_flag worker_subcommand_flags name.
Proof.
  intros Hn. unfold lookup_flag, worker_flags, worker_subcommand_flags. cbn [List.find flag_name].
  repeat (destruct (bool_decide (_ = name)) eqn:E; [first [done|by apply bool_decide_eq_true in E]|clear E]); done.
Qed.

Example default_settings_untouched :
  let v := default_settings serve_flags serve_bindings
             [("auth.admin_password", "pw"); ("auth.secret", "s"); ("auth.worker_token", "t")] in
  missing_secrets (server_config v) = [] ∧
  validateRuntimeConfig "" (server_config v) = Ok tt ∧
  validateRuntimeConfig "production" (server_config v) =
    Err (new_error "ADP_DB_DSN is required when ADP_ENV=production").
Proof. vm_compute. done. Qed.

End Flags.
