(* ===== verification/Shutdown.v ===== *)
(** * The shutdown of the server ([src/cmd/server/root.go])

    What [runServe] does after the signal: the worker streams are stopped with
    a bounded grace period, then the HTTP server, then the repository is closed. *)
From S2P Require Import Prelude.

Module Shutdown.

(** Times are nanoseconds since the signal. *)
Abbreviation moment := Z.

(** What happens, and when. *)
Inductive effect :=
  | Pinged
  | GracefulStop                       (* no new streams *)
  | ForceStop                          (* the streams that are left are closed *)
  | StreamsEnded
  | HttpShutdown (finished : bool)     (* [false]: requests were still running *)
  | RepositoryClosed.
Abbreviation log := (list (moment * effect)).

(** The surroundings: how long a ping of the database takes (its error is
    ignored), when the worker streams have ended by themselves and how long they
    need to end once they are closed, and when the last request in progress is
    answered. *)
Record Surroundings := mkSurroundings {
  ping_takes : Z;
  streams_end : option moment;
  force_takes : Z;
  requests_end : moment;
}.

Section shutdown.
Variable env : Surroundings.

(** [stopGRPCServer], called at [start]: what happens and when it returns. *)
Definition stopGRPCServer (start : moment) (timeout : Z) : log * moment :=
  match streams_end env with
  | Some finish =>
      if (finish <=? start + timeout)%Z
      then let stopped := Z.max start finish in ([(start, GracefulStop); (stopped, StreamsEnded)], stopped)
      else
        let stopped := Z.min finish (start + timeout + force_takes env)%Z in
        ([(start, GracefulStop); (start + timeout, ForceStop); (stopped, StreamsEnded)]%Z, stopped)
  | None =>
      let stopped := (start + timeout + force_takes env)%Z in
      ([(start, GracefulStop); (start + timeout, ForceStop); (stopped, StreamsEnded)]%Z, stopped)
  end.

(** [http.Server.Shutdown] with a context that ends at [deadline]: it returns
    when no request is in progress, and with the error of the context when that
    ends before. *)
Definition http_Shutdown (start deadline : moment) : bool * moment :=
  if (requests_end env <=? start)%Z then (true, start)
  else if (requests_end env <=? deadline)%Z then (true, requests_end env)
  else (false, Z.max start deadline).

(** [database] says that the repository is not nil; only a database is pinged
    and closed. *)
Definition shutdown (database : bool) : log * bool * moment :=
  let deadline := (5 * second)%Z in
  let pinged := if database then ping_takes env else 0%Z in
  let '(grpc, stopped) := stopGRPCServer pinged (5 * second) in
  let '(finished, returned) := http_Shutdown stopped deadline in
  ((if database then [(pinged, Pinged)] else []) ++ grpc ++ [(returned, HttpShutdown finished)] ++
   (if database then [(returned, RepositoryClosed)] else []), finished, returned).

(** ** Properties *)
Hypothesis ping_time : (0 ≤ ping_takes env)%Z.
Hypothesis force_time : (0 ≤ force_takes env)%Z.

Lemma stop_bounds start timeout :
  (0 ≤ timeout)%Z →
  let '(grpc, stopped) := stopGRPCServer start timeout in
  (start ≤ stopped ≤ start + timeout + force_takes env)%Z ∧
  last grpc = Some (stopped, StreamsEnded).
Proof.
  intros Ht. unfold stopGRPCServer. destruct (streams_end env) as [finish|]; simpl; [|split; [lia|done]].
  destruct (Z.leb_spec finish (start + timeout)); simpl; (split; [lia|done]).
Qed.

Lemma http_bounds start deadline :
  let '(finished, returned) := http_Shutdown start deadline in
  (start ≤ returned ≤ Z.max start deadline)%Z ∧
  (finished = true ↔ (requests_end env ≤ Z.max start deadline)%Z).
Proof.
  unfold http_Shutdown. destruct (Z.leb_spec (requests_end env) start); simpl;
    [split; [lia|split; [lia|done]]|].
  destruct (Z.leb_spec (requests_end env) deadline); simpl; (split; [lia|]); split; try done; lia.
Qed.

(** The times of the log do not decrease. *)
Definition in_order (l : log) : Prop := StronglySorted (λ x y, x.1 ≤ y.1)%Z l.

Lemma stop_in_order start timeout :
  (0 ≤ timeout)%Z → (∀ finish, streams_end env = Some finish → (start ≤ finish)%Z) →
  let '(grpc, stopped) := stopGRPCServer start timeout in
  in_order grpc ∧ Forall (λ x, start ≤ x.1 ≤ stopped)%Z grpc.
Proof.
  intros Ht Hs. unfold stopGRPCServer, in_order. destruct (streams_end env) as [finish|]; [|clear Hs];
    [specialize (Hs finish eq_refl); destruct (Z.leb_spec finish (start + timeout))|];
    (split; [repeat constructor; simpl; lia|repeat constructor; simpl; lia]).
Qed.

(** The shutdown ends: after the ping and the grace period of the streams it
    takes no longer than they need to be closed. The worker streams have ended
    before the HTTP server is shut down, and the repository is closed last. The
    shutdown fails exactly when a request is in progress five seconds after the
    signal, or when the streams have ended if that is later. *)
Theorem shutdown_bounded (database : bool) :
  let '(log, finished, returned) := shutdown database in
  (0 ≤ returned ≤ ping_takes env + 5 * second + force_takes env)%Z ∧
  ∃ before stopped, last before = Some (stopped, StreamsEnded) ∧ (stopped ≤ returned)%Z ∧
    log = before ++ (returned, HttpShutdown finished) ::
      (if database then [(returned, RepositoryClosed)] else []) ∧
    (finished = true ↔ (requests_end env ≤ Z.max stopped (5 * second))%Z).
Proof.
  unfold shutdown. set (pinged := if database then ping_takes env else 0%Z).
  assert (0 ≤ pinged ≤ ping_takes env)%Z as Hp by (unfold pinged; destruct database; lia).
  pose proof (stop_bounds pinged (5 * second) ltac:(unfold second; lia)) as Hs.
  destruct (stopGRPCServer pinged _) as [grpc stopped]. destruct Hs as [Hs Hl].
  pose proof (http_bounds stopped (5 * second)) as Hh.
  destruct (http_Shutdown stopped _) as [finished returned]. destruct Hh as [Hr Hf].
  split; [lia|]. exists ((if database then [(pinged, Pinged)] else []) ++ grpc), stopped.
  split_and!; [by rewrite last_app, Hl|lia|by rewrite <-app_assoc|exact Hf].
Qed.

(** The context of five seconds starts before the streams are stopped, which may
    take all of them: if a worker stays connected, the HTTP server is shut down
    with a context that has ended, and every request that is still in progress
    is cut off although the database is closed under it. *)
Theorem no_time_for_requests (database : bool) :
  streams_end env = None →
  let '(log, finished, returned) := shutdown database in
  returned = ((if database then ping_takes env else 0) + 5 * second + force_takes env)%Z ∧
  (finished = true ↔ (requests_end env ≤ returned)%Z).
Proof.
  intros Hnone. unfold shutdown, stopGRPCServer. rewrite Hnone.
  set (pinged := if database then ping_takes env else 0%Z).
  assert (0 ≤ pinged)%Z as Hp by (unfold pinged; destruct database; lia).
  pose proof (http_bounds (pinged + 5 * second + force_takes env) (5 * second)) as Hh.
  destruct (http_Shutdown _ _) as [finished returned]. destruct Hh as [Hr Hf].
  rewrite Z.max_l in Hr, Hf by lia. replace returned with (pinged + 5 * second + force_takes env)%Z by lia.
  by split.
Qed.
End shutdown.

(** A worker is connected, and a request needs a second more. *)
Definition demo_env : Surroundings := mkSurroundings 0 None 0 (6 * second).
Example demo_shutdown :
  shutdown demo_env true =
    ([(0, Pinged); (0, GracefulStop); (5 * second, ForceStop); (5 * second, StreamsEnded);
      (5 * second, HttpShutdown false); (5 * second, RepositoryClosed)]%Z, false, (5 * second)%Z).
Proof. reflexivity. Qed.
End Shutdown.
