(* ===== verification/Interleave.v ===== *)
(** * Interleaving of handlers, operation by operation

    The server runs every request in a goroutine of its own. What a handler
    does to the shared state is a sequence of operations of the repository and
    the hub, each of which holds a lock; between two of them other goroutines
    run. Here a configuration is the state of the control plane with its past,
    a pool of threads takes turns, and a rely-guarantee logic proves what every
    interleaving keeps. *)
From S2P Require Import Prelude.
From S2P Require Import GoStrings.
From S2P Require Import Model.
From S2P Require Import Repository.
From S2P Require Import Hub.
From S2P Require Import World.
From S2P Require Import Spec.

Import Repository World Spec.Refine.

(** Assertions that other threads keep. *)
Create HintDb stable discriminated.

(** ** Identifiers

    A repository numbers the jobs it creates by a counter. Created jobs get
    numbers that were not given before, as long as the counter does not wrap
    around. *)
Class JobIds (R : Type) `{JobLaws R} := {
  counter : R → Z;
  id_number : string → option Z;
  CreateJob_fresh e j r j0 r' :
    (Job.IdempotencyKey j = "" ∨ keys_of r !! Job.IdempotencyKey j = None) →
    CreateJob e j r = (Ok j0, r') → (counter r ≤ counter r')%Z →
    ∃ n, id_number (Job.ID j0) = Some n ∧ (counter r < n ≤ counter r')%Z;
}.

Module Interleave.

(** ** Configurations *)
Section config.
Context {R : Type} `{L : JobLaws R} `{I : !JobIds R}.

(** The state, and the abstract states before it, the latest first. *)
Record config := mkConfig { world : World.t R; past : list Spec.state }.
Definition now (c : config) : Spec.state := abs (world c).
Definition history (c : config) : list Spec.state := now c :: past c.
(** The configuration after an operation. *)
Definition next (c : config) (w' : World.t R) : config := mkConfig w' (history c).

(** A number that was given to a job. *)
Definition numbered (r : R) (id : string) : Prop :=
  ∃ n, id_number id = Some n ∧ (n ≤ counter r)%Z.

(** The jobs are behind the gate, the hub is well formed, and the identifiers
    of the jobs were given out. *)
Definition consistent (c : config) : Prop :=
  Spec.inv (now c) ∧ ∀ id, is_Some (jobs_of (repo (world c)) !! id) → numbered (repo (world c)) id.

(** A job that may be started: it was approved if it needs to be, and no
    decision on it is pending. *)
Definition permitted (j : Job.t) : Prop :=
  Job.ApprovalRequired j = true →
  Job.ApprovalStatus j = ApprovalStatusApproved ∧ Job.Status j ≠ JobStatusWaitingApproval.

(** Whatever job is stored under [id] may be started. *)
Definition go (id : string) (c : config) : Prop :=
  numbered (repo (world c)) id ∧ ∀ j, jobs_of (repo (world c)) !! id = Some j → permitted j.

(** A job was created under the key at some time. *)
Definition seen (key : string) (c : config) : Prop :=
  ∃ s, s ∈ history c ∧ is_Some (Spec.keys s !! key).

(** The job that a creation under the key gives back may be started. *)
Definition key_go (key : string) (c : config) : Prop :=
  key ≠ "" → seen key c ∧ ∀ id, keys_of (repo (world c)) !! key = Some id → go id c.

(** The job was stored like this at some time. *)
Definition was_stored (j : Job.t) (c : config) : Prop :=
  ∃ s, s ∈ history c ∧ Spec.jobs s !! Job.ID j = Some j ∧ permitted j.

(** The job was stored as running on the worker at some time. *)
Definition was_assigned (id wid : string) (c : config) : Prop :=
  ∃ s j, s ∈ history c ∧ Spec.jobs s !! id = Some j ∧ Job.Status j = JobStatusRunning ∧
    Job.AssignedWorkerID j = wid.

(** What one operation of a thread may do. Under a new key only a thread that
    claims the key creates a job; under a key that was used before, every
    thread may create a job again that may be started. A job is queued as it
    was read some time ago, for a worker that it was assigned to some time
    ago. *)
Inductive move (claims : string → Prop) (c : config) (w' : World.t R) : Prop :=
  | move_routine : Spec.routine (now c) (abs w') → move claims c w'
  | move_create j j' n :
      creatable j → created_as j j' →
      id_number (Job.ID j') = Some n → (counter (repo (world c)) < n ≤ counter (repo w'))%Z →
      (Job.IdempotencyKey j = "" ∨
       (claims (Job.IdempotencyKey j) ∧ ¬ seen (Job.IdempotencyKey j) c) ∨
       (seen (Job.IdempotencyKey j) c ∧
        keys_of (repo (world c)) !! Job.IdempotencyKey j = None ∧ permitted j')) →
      abs w' = Spec.mk (<[Job.ID j' := j']> (jobs_of (repo (world c))))
                 (if decide (Job.IdempotencyKey j = "") then keys_of (repo (world c))
                  else <[Job.IdempotencyKey j := Job.ID j']> (keys_of (repo (world c))))
                 (hub (world c)) →
      move claims c w'
  | move_start id js' :
      go id c → evolves (started id) (jobs_of (repo (world c))) js' →
      abs w' = (now c) <| Spec.jobs := js' |> → move claims c w'
  | move_push wid j b h' :
      was_stored j c → was_assigned (Job.ID j) wid c →
      Hub.PushJob wid j (hub (world c)) = Some (b, h') →
      abs w' = (now c) <| Spec.hub := h' |> → move claims c w'.

Lemma move_mono (claims claims' : string → Prop) c w' :
  (∀ k, claims k → claims' k) → move claims c w' → move claims' c w'.
Proof.
  intros Hc. destruct 1 as [Hr|j j' n H1 H2 H3 H4 H5 H6|id js' H1 H2 H3|wid j b h' H1 H2 H3 H4].
  - by apply move_routine.
  - eapply move_create; [done..| |done]. destruct H5 as [?|[[? ?]|?]]; eauto 6.
  - by eapply move_start.
  - by eapply move_push.
Qed.

(** ** What every operation keeps *)
Implicit Types (c : config) (w : World.t R).

(** The counter does not wrap around. *)
Definition counts c w' : Prop := (counter (repo (world c)) ≤ counter (repo w'))%Z.

Lemma change_permitted f js js' id :
  Spec.change js f ∨ f = started id → evolves f js js' →
  ∀ k, (∀ j, js !! k = Some j → permitted j) → ∀ j, js' !! k = Some j → permitted j.
Proof.
  intros Hf He k Hgo j' Hj'. destruct (He k) as [Heq|(j & j1 & Hj & Hj1 & _ & _ & Hfk)].
  { apply Hgo. by rewrite <-Heq. }
  simplify_eq. specialize (Hgo j Hj). intros Hreq.
  assert (∀ i, started i k j j' →
    Job.ApprovalStatus j' = ApprovalStatusApproved ∧ Job.Status j' ≠ JobStatusWaitingApproval) as Hstart.
  { intros i (_ & Hr & Ha & Hs). rewrite Ha in Hreq. destruct (Hgo Hreq). split; [congruence|by rewrite Hr]. }
  destruct Hf as [Hc| ->]; [|by eapply Hstart].
  destruct Hc as [i Hi| |i|i|i]; [by eapply Hstart| | | |].
  - destruct Hfk as [_ Hfk]. by eapply Hstart.
  - destruct Hfk as (_ & Hr & Ha & Hs). rewrite Ha in Hreq. destruct (Hgo Hreq). split; [congruence|].
    intros Hw. rewrite Hw in Hr. set_solver.
  - destruct Hfk as (_ & Hw & _ & Ha & _). rewrite Ha in Hreq. by destruct (Hgo Hreq).
  - destruct Hfk as (_ & Hw & _ & Ha & _). rewrite Ha in Hreq. by destruct (Hgo Hreq).
Qed.

Lemma routine_jobs s s' k :
  Spec.routine s s' → (∀ j, Spec.jobs s !! k = Some j → permitted j) →
  ∀ j, Spec.jobs s' !! k = Some j → permitted j.
Proof.
  intros Hr Hgo. destruct Hr as [|f js' Hc He|id ks' _ _|? ? ? ? _|? ? ? _|? ? ? _|?]; simpl; try done.
  - by eapply (change_permitted f (Spec.jobs s) js' ""); [left|..].
  - intros j [_ Hj]%lookup_delete_Some. by apply Hgo.
Qed.

Lemma routine_dom s s' k : Spec.routine s s' → is_Some (Spec.jobs s' !! k) → is_Some (Spec.jobs s !! k).
Proof.
  destruct 1 as [|f js' _ He|id ks' _ _|? ? ? ? _|? ? ? _|? ? ? _|?]; simpl; try done.
  - destruct (He k) as [->|(j & j' & -> & _)]; [done|by eexists].
  - intros [j [_ Hj]%lookup_delete_Some]. by exists j.
Qed.

Lemma routine_keys s s' k v :
  Spec.routine s s' → Spec.keys s' !! k = Some v → Spec.keys s !! k = Some v.
Proof. destruct 1; simpl; auto. Qed.

Lemma numbered_mono c w' id : counts c w' → numbered (repo (world c)) id → numbered (repo w') id.
Proof. intros Hc (n & Hn & Hle). exists n. split; [done|]. unfold counts in Hc. lia. Qed.

Lemma numbered_fresh c id n :
  id_number id = Some n → (counter (repo (world c)) < n)%Z → ¬ numbered (repo (world c)) id.
Proof. intros Hn Hlt (n' & Hn' & Hle). simplify_eq. lia. Qed.

(** *** The jobs under a permitted identifier *)
Lemma go_move claims c w' id : counts c w' → move claims c w' → go id c → go id (next c w').
Proof.
  intros Hc Hm [Hn Hgo]. split; [by eapply numbered_mono|]. intros j. simpl.
  destruct Hm as [Hr|j1 j' n H1 H2 H3 [H4 _] H5 H6|id' js' H1 H2 H3|wid j1 b h' H1 H2 H3 H4].
  - by apply (routine_jobs _ _ _ Hr).
  - apply (f_equal Spec.jobs) in H6. simpl in H6. rewrite H6.
    intros [[<- <-]|[_ Hj]]%lookup_insert_Some; [|by apply Hgo].
    by destruct (numbered_fresh _ _ _ H3 H4).
  - apply (f_equal Spec.jobs) in H3. simpl in H3. rewrite H3.
    by eapply (change_permitted (started id') _ _ id'); [right| |].
  - apply (f_equal Spec.jobs) in H4. simpl in H4. rewrite H4. apply Hgo.
Qed.

(** *** The keys *)
Lemma seen_mono c w' k : seen k c → seen k (next c w').
Proof. intros (s & Hs & Hk). exists s. split; [by right|done]. Qed.

Lemma seen_now c k v : keys_of (repo (world c)) !! k = Some v → seen k c.
Proof. intros Hk. exists (now c). split; [by left|by exists v]. Qed.

Lemma seen_next c w' k : seen k (next c w') → is_Some (keys_of (repo w') !! k) ∨ seen k c.
Proof. intros (s & [->|Hs]%elem_of_cons & Hk); [by left|]. right. by exists s. Qed.

(** Where a key comes from. *)
Lemma move_keys claims c w' k id :
  counts c w' → move claims c w' → keys_of (repo w') !! k = Some id →
  keys_of (repo (world c)) !! k = Some id ∨ (claims k ∧ ¬ seen k c) ∨ (seen k c ∧ go id (next c w')).
Proof.
  intros Hc Hm Hk.
  destruct Hm as [Hr|j1 j' n H1 H2 H3 [H4 H4'] H5 H6|id' js' H1 H2 H3|wid j1 b h' H1 H2 H3 H4].
  - left. by eapply (routine_keys _ _ _ _ Hr).
  - pose proof (f_equal Spec.keys H6) as Hks. pose proof (f_equal Spec.jobs H6) as Hjs. simpl in Hks, Hjs.
    rewrite Hks in Hk. case_decide as Hd; [by left|].
    apply lookup_insert_Some in Hk as [[<- <-]|[_ Hk]]; [|by left]. right.
    destruct H5 as [?|[?|(Hs & _ & Hp)]]; [done|by left|]. right. split; [done|].
    split; [by exists n|]. simpl. rewrite Hjs. intros j. rewrite lookup_insert_eq. by intros [= <-].
  - apply (f_equal Spec.keys) in H3. simpl in H3. rewrite H3 in Hk. by left.
  - apply (f_equal Spec.keys) in H4. simpl in H4. rewrite H4 in Hk. by left.
Qed.

(** ** Consistency is kept *)
Lemma move_numbered claims c w' id :
  consistent c → counts c w' → move claims c w' → is_Some (jobs_of (repo w') !! id) →
  numbered (repo w') id.
Proof.
  intros [_ Hn] Hc Hm Hid.
  destruct Hm as [Hr|j1 j' n H1 H2 H3 [H4 H4'] H5 H6|id' js' H1 H2 H3|wid j1 b h' H1 H2 H3 H4].
  - eapply numbered_mono; [done|]. apply Hn. by apply (routine_dom _ _ _ Hr).
  - apply (f_equal Spec.jobs) in H6. simpl in H6. rewrite H6 in Hid.
    apply lookup_insert_is_Some in Hid as [<-|[_ Hid]]; [by exists n|].
    eapply numbered_mono; [done|]. by apply Hn.
  - apply (f_equal Spec.jobs) in H3. simpl in H3. rewrite H3 in Hid.
    eapply numbered_mono; [done|]. apply Hn.
    destruct (H2 id) as [<-|(j & j' & Hj & _)]; [done|by exists j].
  - apply (f_equal Spec.jobs) in H4. simpl in H4. rewrite H4 in Hid.
    eapply numbered_mono; [done|]. by apply Hn.
Qed.

Lemma go_cleared c id : go id c → cleared (jobs_of (repo (world c))) id.
Proof. intros [_ Hgo] j Hj Hreq. by apply Hgo. Qed.

Lemma unseen_none c k : ¬ seen k c → keys_of (repo (world c)) !! k = None.
Proof. intros Hs. apply eq_None_not_Some. intros [v Hk]. by eapply Hs, seen_now. Qed.

Lemma move_inv claims c w' : Spec.inv (now c) → move claims c w' → Spec.inv (abs w').
Proof.
  intros Hi Hm.
  destruct Hm as [Hr|j1 j' n H1 H2 H3 [H4 H4'] H5 ->|id' js' H1 H2 ->|wid j1 b h' H1 H2 H3 ->].
  - destruct (Spec.routine_step _ _ Hr) as [->|Hs]; [done|by eapply Spec.inv_step].
  - eapply (Spec.inv_step _ _ Hi), Spec.step_create; [done..|].
    destruct H5 as [?|[[_ Hs]|(_ & Hk & _)]]; [by left| |by right]. right. by apply unseen_none.
  - eapply (Spec.inv_step _ _ Hi), Spec.step_change; [|done]. by apply Spec.change_start, go_cleared.
  - apply Spec.inv_hub; [done|]. destruct Hi as [_ Hh].
    destruct (Hub.push_spec wid (Hub.ServerEnvelope_Job (Hub.jobToProto j1)) _ Hh)
      as (b' & h2 & Hp' & ? & _). unfold Hub.PushJob in H3. simpl in *. congruence.
Qed.

Lemma consistent_move claims c w' :
  consistent c → counts c w' → move claims c w' → consistent (next c w').
Proof.
  intros Hc Hn Hm. split.
  - destruct Hc as [Hi _]. by eapply move_inv.
  - intros id Hid. by eapply move_numbered.
Qed.

(** ** What is queued for a worker *)

(** The message [p] of the channel [ch] is a job as it was stored at some
    time, approved if it needs to be, which at some time ran on the worker whose
    channel this was when the job was queued. *)
Definition delivered (ch : nat) (p : Hub.ProtoJob.t) c : Prop :=
  ∃ j wid s, p = Hub.jobToProto j ∧ was_stored j c ∧ was_assigned (Job.ID j) wid c ∧
    s ∈ history c ∧ Hub.workers (Spec.hub s) !! wid = Some ch.

Lemma delivered_next ch p c w' : delivered ch p c → delivered ch p (next c w').
Proof.
  intros (j & wid & s & Hp & (s1 & Hs1 & Hj) & (s2 & j2 & Hs2 & Hj2) & Hs & Hw). exists j, wid, s.
  split_and!; [done|exists s1; split; [by right|done]|exists s2, j2; split; [by right|done]|by right|done].
Qed.

Lemma move_delivery claims c w' ch p :
  move claims c w' → Hub.ServerEnvelope_Job p ∈ Hub.messages_of (hub w') ch →
  Hub.ServerEnvelope_Job p ∈ Hub.messages_of (hub (world c)) ch ∨ delivered ch p c.
Proof.
  intros Hm Hin.
  destruct Hm as [Hr|j1 j' n H1 H2 H3 H4 H5 H6|id' js' H1 H2 H3|wid j b h' H1 H2 H3 H4].
  - change (hub w') with (Spec.hub (abs w')) in Hin. change (hub (world c)) with (Spec.hub (now c)).
    destruct Hr as [|? ? _ _|? ? _ _|wid cm b h' Hp|wid n h' Hp|wid n h' Hp|n]; simpl in *;
      [by left..| | | |].
    + destruct (Hub.messages_push _ _ _ _ _ _ _ Hp Hin) as [?|[? _]]; [by left|done].
    + rewrite (Hub.messages_register _ _ _ _ _ Hp) in Hin. by left.
    + rewrite (Hub.messages_unregister _ _ _ _ _ Hp) in Hin. by left.
    + left. by eapply Hub.messages_receive.
  - apply (f_equal Spec.hub) in H6. simpl in H6. rewrite H6 in Hin. by left.
  - apply (f_equal Spec.hub) in H3. simpl in H3. rewrite H3 in Hin. by left.
  - apply (f_equal Spec.hub) in H4. simpl in H4. rewrite H4 in Hin.
    destruct (Hub.messages_push _ _ _ _ _ _ _ H3 Hin) as [?|[[= ->] Hw]]; [by left|]. right.
    exists j, wid, (now c). split_and!; [done..|by left|done].
Qed.

(** ** Assertions that other threads keep

    The assertion [P] of a thread that relies on the keys [D] not being claimed
    by others. *)
Definition stable (D : string → Prop) (P : config → Prop) : Prop :=
  ∀ c w' claims, (∀ k, D k → claims k → False) → consistent c → counts c w' → move claims c w' →
    P c → P (next c w').

Lemma stable_sub (D D' : string → Prop) P : (∀ k, D k → D' k) → stable D P → stable D' P.
Proof. intros Hsub HP c w' claims Hd. apply HP. eauto. Qed.

Lemma stable_and D P Q : stable D P → stable D Q → stable D (λ c, P c ∧ Q c).
Proof. intros HP HQ c w' claims Hd Hc Hn Hm [? ?]. split; [by eapply HP|by eapply HQ]. Qed.

Lemma stable_pure D (φ : Prop) : stable D (λ _, φ).
Proof. by intros c w' claims. Qed.

Lemma stable_all {A} D (P : A → config → Prop) : (∀ x, stable D (P x)) → stable D (λ c, ∀ x, P x c).
Proof. intros HP c w' claims Hd Hc Hn Hm Hp x. eapply HP; eauto. Qed.

Lemma stable_imp D (φ : Prop) P : stable D P → stable D (λ c, φ → P c).
Proof. intros HP c w' claims Hd Hc Hn Hm Hp Hφ. eapply HP; eauto. Qed.

Lemma stable_result {A E} D (P : A → config → Prop) (Q : E → config → Prop) (r : A + E) :
  (∀ a, stable D (P a)) → (∀ e, stable D (Q e)) →
  stable D (λ c, match r with inl a => P a c | inr e => Q e c end).
Proof. destruct r; auto. Qed.

Lemma stable_go D id : stable D (go id).
Proof. intros c w' claims _ _ Hn Hm. by eapply go_move. Qed.

Lemma stable_seen D k : stable D (seen k).
Proof. intros c w' claims _ _ _ _. apply seen_mono. Qed.

Lemma stable_was_stored D j : stable D (was_stored j).
Proof. intros c w' claims _ _ _ _ (s & Hs & Hj). exists s. split; [by right|done]. Qed.

Lemma stable_was_assigned D id wid : stable D (was_assigned id wid).
Proof. intros c w' claims _ _ _ _ (s & j & Hs & Hj). exists s, j. split; [by right|done]. Qed.

Lemma stable_key_go D k : stable D (key_go k).
Proof.
  intros c w' claims _ _ Hn Hm Hk Hne. destruct (Hk Hne) as [Hs Hgo]. split; [by apply seen_mono|].
  intros id Hid. destruct (move_keys _ _ _ _ _ Hn Hm Hid) as [Hold|[[_ ?]|[_ ?]]]; [|done..].
  eapply go_move; [done..|]. by apply Hgo.
Qed.

(** No job was ever created under the keys. *)
Definition unused (D : string → Prop) (c : config) : Prop := ∀ k, D k → ¬ seen k c.

Lemma stable_unused D : stable D (unused D).
Proof.
  intros c w' claims Hd _ Hn Hm Hu k Hk. intros [[id Hid]|Hs]%seen_next; [|by apply (Hu k Hk)].
  destruct (move_keys _ _ _ _ _ Hn Hm Hid) as [Hold|[[Hcl _]|[Hs _]]].
  - by eapply (Hu k Hk), seen_now.
  - by eapply Hd.
  - by apply (Hu k Hk).
Qed.

(** ** Programs of a thread

    [rg claims m P Q]: from the assertion [P], every operation of [m] is a move,
    and [Q] holds when it ends, whatever other threads do between the
    operations; what is known between two of them is stable. *)
Section rg.
Variable claims : string → Prop.

Fixpoint rg {A} (m : M R A) (P : config → Prop) (Q : A → config → Prop) : Prop :=
  match m with
  | Pure a => ∀ c, consistent c → P c → Q a c
  | @Atomic _ _ X f k =>
      ∃ P' : X → config → Prop,
        (∀ x, stable claims (P' x)) ∧
        (∀ c, consistent c → P c → counts c (f (world c)).2 →
           move claims c (f (world c)).2 ∧
           match (f (world c)).1 with Some x => P' x (next c (f (world c)).2) | None => True end) ∧
        ∀ x, rg (k x) (P' x) Q
  end.

Lemma rg_weaken {A} (m : M R A) (P P' : config → Prop) (Q Q' : A → config → Prop) :
  (∀ c, consistent c → P' c → P c) → (∀ a c, consistent c → Q a c → Q' a c) → rg m P Q → rg m P' Q'.
Proof.
  intros HP HQ. revert P P' HP. induction m as [a|X f k IH]; intros P P' HP; simpl.
  - intros Hr c Hc HPc. apply HQ; auto.
  - intros (S & HS & Hf & Hk). exists S. split; [done|]. split; [auto|].
    intros x. eapply IH; [|apply Hk]. auto.
Qed.

Lemma rg_pre {A} (m : M R A) (P P' : config → Prop) (Q : A → config → Prop) :
  (∀ c, consistent c → P' c → P c) → rg m P Q → rg m P' Q.
Proof. intros HP. by apply rg_weaken. Qed.

Lemma rg_ret {A} (a : A) P (Q : A → config → Prop) :
  (∀ c, consistent c → P c → Q a c) → rg (mret a) P Q.
Proof. done. Qed.

Lemma rg_bind {A B} (m : M R A) (k : A → M R B) P Q S :
  rg m P Q → (∀ a, rg (k a) (Q a) S) → rg (m ≫= k) P S.
Proof.
  intros Hm Hk. revert P Hm. induction m as [a|X f k' IH]; intros P Hm; simpl in *.
  - eapply rg_weaken; [exact Hm|done|apply Hk].
  - destruct Hm as (S' & HS & Hf & Hm). exists S'. split; [done|]. split; [done|].
    intros x. by apply IH.
Qed.

Lemma rg_atomic {X} (f : World.t R → option X * World.t R) P (Q : X → config → Prop) :
  (∀ x, stable claims (Q x)) →
  (∀ c, consistent c → P c → counts c (f (world c)).2 →
     move claims c (f (world c)).2 ∧
     match (f (world c)).1 with Some x => Q x (next c (f (world c)).2) | None => True end) →
  rg (atomic f) P Q.
Proof. intros HQ Hf. exists Q. split; [done|]. split; [done|]. by intros x c. Qed.

Lemma rg_false {A} (m : M R A) Q : rg m (λ _, False) Q.
Proof.
  induction m as [a|X f k IH]; simpl; [done|]. exists (λ _ _, False).
  split; [intros x; apply stable_pure|]. split; [done|]. intros x. apply IH.
Qed.

(** A pure fact of the precondition. *)
Lemma rg_fact {A} φ `{!Decision φ} (m : M R A) P Q : (φ → rg m P Q) → rg m (λ c, φ ∧ P c) Q.
Proof.
  intros Hm. destruct (decide φ) as [Hφ|Hφ].
  - eapply rg_weaken; [|done|by apply Hm]. by intros c _ [_ ?].
  - eapply rg_weaken; [|done|apply rg_false]. by intros c _ [? _].
Qed.

(** What the results of a program are, whatever happens between its operations. *)
Lemma rg_returns {A} (m : M R A) P Q (S : A → Prop) :
  rg m P Q → returns m S → rg m P (λ a c, S a ∧ Q a c).
Proof.
  revert P. induction m as [a|X f k IH]; intros P Hm HS; simpl in *; [auto|].
  destruct Hm as (P' & HP' & Hf & Hk). exists P'. split; [done|]. split; [done|].
  intros x. by apply IH.
Qed.

Lemma rg_neutral {A} (m : M R A) P : neutral m → stable claims P → rg m P (λ _, P).
Proof.
  intros Hm HP. induction m as [a|X f k IH]; simpl in *; [done|]. destruct Hm as [Hf Hm].
  exists (λ _, P). split; [done|]. split; [|auto]. intros c Hc HPc Hn.
  specialize (Hf (world c) (proj1 Hc)). split; [by apply move_routine|].
  destruct (f (world c)) as [[x|] w']; simpl in *; [|done].
  apply (HP c w' (λ _, False)); [done..|by apply move_routine|done].
Qed.

(** A neutral computation, and then what holds of its result as well. *)
Lemma rg_neutral_bind {A B} (m : M R A) (k : A → M R B) P S :
  neutral m → stable claims P → (∀ a, rg (k a) P S) → rg (m ≫= k) P S.
Proof. intros Hm HP Hk. eapply rg_bind; [by apply rg_neutral|done]. Qed.

(** An operation of the repository. *)
Lemma rg_call `{O : Oracle} {A} (op : Reading → Op R A) P (Q : result A → config → Prop) :
  (∀ x, stable claims (Q x)) →
  (∀ c e res r, consistent c → P c → op e (repo (world c)) = (res, r) →
     (counter (repo (world c)) ≤ counter r)%Z →
     ∀ w', abs w' = Spec.mk (jobs_of r) (keys_of r) (hub (world c)) → repo w' = r →
     move claims c w' ∧ Q res (next c w')) →
  rg (call op) P Q.
Proof.
  intros HQ Hop. apply rg_atomic; [done|]. intros c Hc HPc Hn.
  specialize (Hop c (oracle (ticks (world c)))).
  destruct (op _ (repo (world c))) as [res r]. by apply (Hop res r Hc HPc eq_refl Hn).
Qed.

(** A reading of the repository. *)
Lemma rg_query `{O : Oracle} {A} (f : Reading → R → result A) P (Q : result A → config → Prop) :
  (∀ x, stable claims (Q x)) →
  (∀ c e, consistent c → P c → Q (f e (repo (world c))) c) →
  rg (query f) P Q.
Proof.
  intros HQ Hf. apply rg_atomic; [done|]. intros c Hc HPc Hn. simpl in *.
  set (w' := (world c) <| ticks := _ |>) in *.
  assert (move (λ _, False) c w') as Hm by (apply move_routine, Spec.routine_stay).
  split; [apply (move_mono (λ _, False)); done|].
  apply (HQ _ c w' (λ _, False)); [done..|]. by apply Hf.
Qed.
End rg.

(** ** The pool of threads *)
Record thread := mkThread { claims : string → Prop; result_type : Type; program : M R result_type }.

(** The keys of a thread are its own. *)
Definition apart (t t' : thread) : Prop := ∀ k, claims t k → claims t' k → False.

Section pool.
Context {S : Type}.
(** What may start: a request may change the state [S] of the front end. *)
Variable starts : S → config → S → thread → Prop.

Record pool := mkPool { front : S; config_of : config; threads : gmap nat thread }.

(** A thread starts under keys that no job was created with, runs its next
    operation, panics or leaves. The settings may change at any time. *)
Inductive pool_step (p : pool) : pool → Prop :=
  | pool_start i s t :
      threads p !! i = None → starts (front p) (config_of p) s t →
      unused (claims t) (config_of p) → map_Forall (λ _, apart t) (threads p) →
      pool_step p (mkPool s (config_of p) (<[i := t]> (threads p)))
  | pool_run i D A X (f : World.t R → option X * World.t R) (k : X → M R A) x w' :
      threads p !! i = Some (mkThread D A (Atomic f k)) →
      f (world (config_of p)) = (Some x, w') → counts (config_of p) w' →
      pool_step p (mkPool (front p) (next (config_of p) w') (<[i := mkThread D A (k x)]> (threads p)))
  | pool_panic i D A X (f : World.t R → option X * World.t R) (k : X → M R A) w' :
      threads p !! i = Some (mkThread D A (Atomic f k)) →
      f (world (config_of p)) = (None, w') → counts (config_of p) w' →
      pool_step p (mkPool (front p) (next (config_of p) w') (delete i (threads p)))
  | pool_leave i D A (a : A) :
      threads p !! i = Some (mkThread D A (Pure a)) →
      pool_step p (mkPool (front p) (config_of p) (delete i (threads p)))
  | pool_settings pol reg eng :
      pool_step p (mkPool (front p) (next (config_of p) ((world (config_of p))
        <| policyEng := pol |> <| moduleReg := reg |> <| templateEng := eng |>)) (threads p)).

(** Every thread can go on from what it knows. *)
Definition thread_ok (c : config) (t : thread) : Prop :=
  ∃ P, stable (claims t) P ∧ P c ∧ rg (claims t) (program t) P (λ _ _, True).
Definition pool_ok (p : pool) : Prop :=
  consistent (config_of p) ∧ map_Forall (λ _, thread_ok (config_of p)) (threads p) ∧
  ∀ i j t t', threads p !! i = Some t → threads p !! j = Some t' → i ≠ j → apart t t'.

Hypothesis starts_ok : ∀ s c s' t,
  consistent c → starts s c s' t → unused (claims t) c → thread_ok c t.

Lemma thread_ok_move D c w' t :
  (∀ k, claims t k → D k → False) → consistent c → counts c w' → move D c w' →
  thread_ok c t → thread_ok (next c w') t.
Proof. intros Hd Hc Hn Hm (P & HP & HPc & Hr). exists P. split; [done|]. split; [by eapply HP|done]. Qed.

Lemma apart_sym t t' : apart t t' → apart t' t.
Proof. unfold apart. eauto. Qed.

(** The other threads, when the thread [i] makes a move. *)
Lemma others_ok p i t w' :
  pool_ok p → threads p !! i = Some t → counts (config_of p) w' → move (claims t) (config_of p) w' →
  ∀ j t', j ≠ i → threads p !! j = Some t' → thread_ok (next (config_of p) w') t'.
Proof.
  intros (Hc & Hall & Hap) Hi Hn Hm j t' Hne Hj. eapply thread_ok_move; [|done..|].
  - intros k H1 H2. by eapply (Hap j i).
  - by eapply Hall.
Qed.

(** The thread [i] has gone on to [t'], or has ended. *)
Lemma pool_ok_move p i t o w' :
  pool_ok p → threads p !! i = Some t → counts (config_of p) w' → move (claims t) (config_of p) w' →
  match o with Some t' => claims t' = claims t ∧ thread_ok (next (config_of p) w') t' | None => True end →
  pool_ok (mkPool (front p) (next (config_of p) w')
    (match o with Some t' => <[i := t']> (threads p) | None => delete i (threads p) end)).
Proof.
  intros Hp Hi Hn Hm Ho. pose proof Hp as (Hc & Hall & Hap). pose proof (others_ok p i t w' Hp Hi Hn Hm) as Hoth.
  split; [by eapply consistent_move|]. split; cbn [config_of threads].
  - intros j t2 Hj. destruct o as [t'|].
    + apply lookup_insert_Some in Hj as [[<- <-]|[Hne Hj]]; [apply Ho|by eapply Hoth].
    + apply lookup_delete_Some in Hj as [Hne Hj]. by eapply Hoth.
  - intros j1 j2 t1 t2 H1 H2 Hne. destruct o as [t'|].
    + destruct Ho as [Hcl _]. unfold apart.
      apply lookup_insert_Some in H1 as [[<- <-]|[Hne1 H1]], H2 as [[<- <-]|[Hne2 H2]];
        rewrite ?Hcl; [done|by eapply Hap..].
    + apply lookup_delete_Some in H1 as [_ H1], H2 as [_ H2]. by eapply Hap.
Qed.

Lemma pool_step_ok p p' : pool_ok p → pool_step p p' → pool_ok p'.
Proof.
  intros Hp. pose proof Hp as (Hc & Hall & Hap).
  destruct 1 as [i s t Hi Hs Hu Ha|i D A X f k x w' Hi Hf Hn|i D A X f k w' Hi Hf Hn|i D A a Hi|pol reg eng].
  - split; [done|]. split; cbn [config_of threads].
    + apply map_Forall_insert; [done|]. split; [by eapply starts_ok|done].
    + intros j1 j2 t1 t2 H1 H2 Hne.
      apply lookup_insert_Some in H1 as [[<- <-]|[Hne1 H1]], H2 as [[<- <-]|[Hne2 H2]];
        [done|by eapply Ha|by eapply apart_sym, Ha|by eapply Hap].
  - destruct (Hall _ _ Hi) as (P & HP & HPc & (P' & HP' & Hop & Hk)).
    specialize (Hop _ Hc HPc). rewrite Hf in Hop. destruct (Hop Hn) as [Hm Hx]. simpl in Hm, Hx.
    apply (pool_ok_move p i _ (Some _) w' Hp Hi Hn Hm). split; [done|].
    exists (P' x). split; [apply HP'|]. split; [done|apply Hk].
  - destruct (Hall _ _ Hi) as (P & HP & HPc & (P' & _ & Hop & _)).
    specialize (Hop _ Hc HPc). rewrite Hf in Hop. destruct (Hop Hn) as [Hm _]. simpl in Hm.
    by apply (pool_ok_move p i _ None w' Hp Hi Hn Hm).
  - split; [done|]. split; cbn [config_of threads].
    + by apply map_Forall_delete.
    + intros j1 j2 t1 t2 [_ H1]%lookup_delete_Some [_ H2]%lookup_delete_Some. by eapply Hap.
  - assert (∀ D w', abs w' = now (config_of p) → move D (config_of p) w') as Hstay.
    { intros D w' Heq. apply move_routine. rewrite Heq. apply Spec.routine_stay. }
    assert (∀ w', repo w' = repo (world (config_of p)) → counts (config_of p) w') as Hn.
    { intros w' Heq. unfold counts. rewrite Heq. lia. }
    split; [eapply (consistent_move (λ _, False)); [done|by apply Hn|by apply Hstay]|]. split; [|done].
    intros j t Hj. eapply (thread_ok_move (λ _, False)); [done|done|by apply Hn|by apply Hstay|by eapply Hall].
Qed.

Lemma pool_steps_ok p p' : pool_ok p → rtc pool_step p p' → pool_ok p'.
Proof. intros Hp. induction 1; eauto using pool_step_ok. Qed.

(** A step of the pool changes nothing or makes a move. *)
Lemma pool_step_move p p' :
  pool_ok p → pool_step p p' →
  config_of p' = config_of p ∨
  ∃ D w', config_of p' = next (config_of p) w' ∧ move D (config_of p) w'.
Proof.
  intros (Hc & Hall & _).
  destruct 1 as [i s t _ _ _ _|i D A X f k x w' Hi Hf Hn|i D A X f k w' Hi Hf Hn|i D A a _|pol reg eng];
    [by left| | |by left|]; right.
  - destruct (Hall _ _ Hi) as (P & _ & HPc & (P' & _ & Hop & _)). specialize (Hop _ Hc HPc).
    rewrite Hf in Hop. exists D, w'. split; [done|]. by apply Hop.
  - destruct (Hall _ _ Hi) as (P & _ & HPc & (P' & _ & Hop & _)). specialize (Hop _ Hc HPc).
    rewrite Hf in Hop. exists D, w'. split; [done|]. by apply Hop.
  - eexists (λ _, False), _. split; [done|]. apply move_routine, Spec.routine_stay.
Qed.

Definition deliveries_ok c : Prop :=
  ∀ ch p, Hub.ServerEnvelope_Job p ∈ Hub.messages_of (hub (world c)) ch → delivered ch p c.

Lemma pool_steps_delivery p p' :
  pool_ok p → rtc pool_step p p' → deliveries_ok (config_of p) → deliveries_ok (config_of p').
Proof.
  intros Hp Hs. revert Hp. induction Hs as [|p p1 p' Hst _ IH]; [done|]. intros Hp Hd.
  apply IH; [by eapply pool_step_ok|]. intros ch q Hin.
  destruct (pool_step_move _ _ Hp Hst) as [Heq|(D & w' & Heq & Hm)]; rewrite Heq in Hin |- *; [by apply Hd|].
  apply delivered_next. by destruct (move_delivery _ _ _ _ _ Hm Hin) as [?%Hd|].
Qed.

(** *** Turns

    The thread whose turn it is runs its next operation, or leaves when it has
    none. *)
Definition turn (p : pool) (i : nat) : pool :=
  match threads p !! i with
  | Some (mkThread D A (Atomic f k)) =>
      let '(o, w') := f (world (config_of p)) in
      if decide (counter (repo (world (config_of p))) ≤ counter (repo w'))%Z then
        mkPool (front p) (next (config_of p) w')
          (match o with
           | Some x => <[i := mkThread D A (k x)]> (threads p)
           | None => delete i (threads p)
           end)
      else p
  | Some (mkThread _ _ (Pure _)) => mkPool (front p) (config_of p) (delete i (threads p))
  | None => p
  end.

Lemma turn_steps p i : rtc pool_step p (turn p i).
Proof.
  unfold turn. destruct (threads p !! i) as [[D A [a|X f k]]|] eqn:Hi; [|..|apply rtc_refl].
  - apply rtc_once. by eapply pool_leave.
  - destruct (f (world (config_of p))) as [[x|] w'] eqn:Hf; case_decide; try apply rtc_refl; apply rtc_once.
    + by eapply pool_run.
    + by eapply pool_panic.
Qed.

Lemma turns_steps p l : rtc pool_step p (foldl turn p l).
Proof.
  revert p. induction l as [|i l IH]; intros p; [apply rtc_refl|]. simpl.
  etrans; [apply turn_steps|apply IH].
Qed.

(** *** A thread that runs alone *)

(** The counter does not wrap around while the program runs alone. *)
Fixpoint counts_all {A} (m : M R A) (w : World.t R) : Prop :=
  match m with
  | Pure _ => True
  | Atomic f k =>
      (counter (repo w) ≤ counter (repo (f w).2))%Z ∧
      match f w with (Some x, w') => counts_all (k x) w' | (None, _) => True end
  end.

(** The pool can run a thread to its end without a turn of another: what a
    handler does alone is one of its interleavings. *)
Lemma pool_run_alone {A} (m : M R A) p i D :
  threads p !! i = Some (mkThread D A m) → counts_all m (world (config_of p)) →
  ∃ past', rtc pool_step p (mkPool (front p) (mkConfig (m (world (config_of p))).2 past')
             (delete i (threads p))).
Proof.
  revert p. induction m as [a|X f k IH]; intros p Hi Hcnt.
  - exists (past (config_of p)). apply rtc_once. destruct p as [s [w h] ts]. simpl.
    by eapply (pool_leave (mkPool s (mkConfig w h) ts)).
  - cbn [counts_all] in Hcnt. destruct Hcnt as [Hn Hk]. simpl.
    destruct (f (world (config_of p))) as [[x|] w'] eqn:Hf; simpl in Hn.
    + specialize (IH x (mkPool (front p) (next (config_of p) w') (<[i := mkThread D A (k x)]> (threads p)))).
      cbn [front config_of threads world next] in IH. rewrite lookup_insert_eq, delete_insert_eq in IH.
      destruct (IH eq_refl Hk) as (h & Hs). exists h. eapply rtc_l; [|exact Hs]. by eapply pool_run.
    + exists (history (config_of p)). apply rtc_once. by eapply pool_panic.
Qed.
End pool.
End config.
Arguments config : clear implicits.
End Interleave.
