(* ===== verification/InterleaveFacts.v ===== *)
(** * Handlers and tools as threads

    Every handler that creates, dispatches or approves jobs, and every tool of
    the agent in a call of its own, makes only the moves of [Interleave],
    whatever the other threads do between its operations. *)
From S2P Require Import Prelude.
From S2P Require Import GoStrings.
From S2P Require Import Fmt.
From S2P Require Import Model.
From S2P Require Import Policy.
From S2P Require Import Modules.
From S2P Require Import Repository.
From S2P Require Import Hub.
From S2P Require Import World.
From S2P Require Import Spec.
From S2P Require Import Server.
From S2P Require Import ServerFacts.
From S2P Require Import AgentTools.
From S2P Require Import AgentToolsFacts.
From S2P Require Import AgentRuntime.
From S2P Require Import AgentRuns.
From S2P Require Import System.
From S2P Require Import Interleave.

Import Repository World Spec.Refine Server.Server ServerFacts.ServerFacts AgentTools.AgentTools
  AgentToolsFacts.AgentToolsFacts Fmt.Fmt Interleave.Interleave.

Module InterleaveFacts.

#[export] Hint Resolve stable_and stable_pure stable_all stable_imp stable_go stable_seen
  stable_was_stored stable_was_assigned stable_key_go stable_unused : stable.
(** An assertion that says more in the case of success. *)
Ltac stable_auto :=
  intros; repeat first [progress eauto with stable | apply stable_and | case_match | apply stable_pure].

(** ** Creating and dispatching *)
Section dispatch.
Context {R : Type} `{L : JobLaws R} `{I : !JobIds R} `{O : Oracle}.
Implicit Types (c : config R) (P : config R → Prop).

Lemma created_permitted j j' : created_as j j' → permitted j → permitted j'.
Proof.
  intros (Hs & Hr & Ha & _) Hp Hreq. rewrite Hr in Hreq. destruct (Hp Hreq) as [H1 H2].
  rewrite Ha by (by rewrite H1). split; [done|]. rewrite Hs. by case_decide.
Qed.

Lemma abs_parts w js ks h :
  abs w = Spec.mk js ks h → jobs_of (repo w) = js ∧ keys_of (repo w) = ks ∧ hub w = h.
Proof. intros Heq. by injection Heq. Qed.

(** A move that leaves the jobs and the keys alone. *)
Lemma move_same (claims : string → Prop) c w' : abs w' = now c → move claims c w'.
Proof. intros Heq. apply move_routine. rewrite Heq. apply Spec.routine_stay. Qed.

Lemma stable_same D P c w' :
  stable D P → consistent c → counts c w' → abs w' = now c → P c → P (next c w').
Proof. intros HP Hc Hn Heq. eapply (HP c w' (λ _, False)); [done..|by apply move_same]. Qed.

#[global] Instance permitted_dec j : Decision (permitted j).
Proof. unfold permitted. apply _. Defined.

(** The creation of a job under no key, or under a new key that the thread
    claims. Assertions that do not depend on that key still hold. *)
Lemma rg_create (claims D : string → Prop) P j :
  creatable j → stable D P → (∀ k, D k → claims k) →
  (Job.IdempotencyKey j ≠ "" → claims (Job.IdempotencyKey j) ∧ ¬ D (Job.IdempotencyKey j)) →
  rg claims (call (λ e, CreateJob e j))
    (λ c, P c ∧ (Job.IdempotencyKey j ≠ "" → ¬ seen (Job.IdempotencyKey j) c))
    (λ res c, P c ∧ match res with Ok j' => permitted j → go (Job.ID j') c | Err _ => True end).
Proof.
  intros Hcr HP Hsub Hkey. apply rg_call.
  { intros res. apply stable_and; [by eapply stable_sub|]. destruct res; stable_auto. }
  intros c e res r Hc [HPc Hun] Heq Hcnt w' Habs Hw. set (key := Job.IdempotencyKey j) in *.
  assert (key = "" ∨ keys_of (repo (world c)) !! key = None) as Hfresh.
  { destruct (decide (key = "")); [by left|]. right. by apply unseen_none, Hun. }
  assert (counts c w') as Hn by by (unfold counts; rewrite Hw).
  destruct (CreateJob_law e j (repo (world c)) res r Hfresh Heq)
    as [(Hok & Hjs & Hks)|(j0 & j' & -> & Hid & Has & Hjs & Hks)].
  { rewrite Hjs, Hks in Habs. split; [by apply move_same|]. split; [by eapply stable_same|].
    by destruct res. }
  destruct (CreateJob_fresh e j _ _ _ Hfresh Heq Hcnt) as (n & Hnum & Hlt). rewrite <-Hid in Hnum.
  rewrite Hjs, Hks in Habs.
  assert (∀ E : string → Prop, (key ≠ "" → E key) → move E c w') as Hm.
  { intros E HE. apply (move_create _ _ _ j j' n); [done..|by rewrite Hw| |done].
    destruct (decide (key = "")); [by left|]. right. left. split; auto. }
  split; [apply Hm; intros; by apply Hkey|]. split.
  - eapply (HP c w' (λ k, k = key ∧ key ≠ "")); [|done|done| |done].
    + intros k Hk [-> Hne]. by apply Hkey.
    + apply Hm. auto.
  - intros Hp. destruct (abs_parts _ _ _ _ Habs) as (Hjs' & _ & _). split.
    + exists n. rewrite <-Hid. split; [done|]. simpl. rewrite Hw. lia.
    + intros x. simpl. rewrite Hjs', <-Hid, lookup_insert_eq. intros [= <-].
      by eapply created_permitted.
Qed.

(** The creation of a permitted job under a key whose job may be started: it
    gives back that job, or creates the job again. *)
Lemma rg_clone (claims : string → Prop) P j :
  permitted j → Job.IdempotencyKey j ≠ "" → stable claims P →
  rg claims (call (λ e, CreateJob e j))
    (λ c, P c ∧ key_go (Job.IdempotencyKey j) c)
    (λ res c, (P c ∧ key_go (Job.IdempotencyKey j) c) ∧
       match res with Ok j' => go (Job.ID j') c | Err _ => True end).
Proof.
  intros Hp Hne HP. apply rg_call.
  { intros res. apply stable_and; [stable_auto|]. destruct res; stable_auto. }
  intros c e res r Hc [HPc Hgo] Heq Hcnt w' Habs Hw. set (key := Job.IdempotencyKey j) in *.
  assert (counts c w') as Hn by by (unfold counts; rewrite Hw).
  destruct (Hgo Hne) as [Hseen Hkeys].
  assert (∀ E, move E c w' → key_go key (next c w')) as Hnext.
  { intros E Hm. eapply (stable_key_go (λ _, False)); [..|exact Hm|done]; done. }
  destruct (keys_of (repo (world c)) !! key) as [id|] eqn:Hk.
  - destruct (CreateJob_replay e j (repo (world c)) id Hne Hk) as (res' & Heq' & Hres).
    rewrite Heq in Heq'. injection Heq' as <- ->. pose proof (move_same claims c w' Habs) as Hm.
    split; [done|]. split; [split; [by eapply stable_same|by apply (Hnext claims)]|].
    destruct res as [x|]; [|done]. destruct Hres as [Hx|Hx]; [|done]. symmetry in Hx.
    apply GetJob_law in Hx. destruct Hc as [[Hg _] _]. destruct (Hg _ _ Hx) as (-> & _).
    eapply go_move; [done|exact Hm|]. by apply Hkeys.
  - destruct (CreateJob_law e j (repo (world c)) res r (or_intror Hk) Heq)
      as [(Hok & Hjs & Hks)|(j0 & j' & -> & Hid & Has & Hjs & Hks)].
    { rewrite Hjs, Hks in Habs. pose proof (move_same claims c w' Habs) as Hm.
      split; [done|]. split; [split; [by eapply stable_same|by apply (Hnext claims)]|]. by destruct res. }
    destruct (CreateJob_fresh e j _ _ _ (or_intror Hk) Heq Hcnt) as (n & Hnum & Hlt).
    rewrite <-Hid in Hnum. rewrite Hjs, Hks in Habs.
    pose proof (created_permitted j j' Has Hp) as Hp'.
    assert (∀ E : string → Prop, move E c w') as Hm.
    { intros E. apply (move_create _ _ _ j j' n); [|done|done|by rewrite Hw| |done].
      - left. intros Hreq. by destruct (Hp Hreq).
      - right. by right. }
    split; [done|]. split; [split; [by eapply (HP c w' (λ _, False))|by apply (Hnext claims)]|].
    destruct (abs_parts _ _ _ _ Habs) as (Hjs' & _ & _). split.
    + exists n. rewrite <-Hid. split; [done|]. simpl. rewrite Hw. lia.
    + intros x. simpl. rewrite Hjs', <-Hid, lookup_insert_eq. by intros [= <-].
Qed.

(** A creation under no key of a job that may be started. *)
Lemma rg_create_ready claims P j :
  Job.IdempotencyKey j = "" → permitted j → stable claims P →
  rg claims (call (λ e, CreateJob e j)) P
    (λ res c, P c ∧ match res with Ok j' => go (Job.ID j') c | Err _ => True end).
Proof.
  intros Hk Hp HP. eapply rg_weaken; [| |apply (rg_create claims claims P j)]; [| |..|done]; [| | |done|].
  - intros c _ HPc. by split.
  - intros [j'|err] c _ [? ?]; simpl; auto.
  - left. intros Hreq. by destruct (Hp Hreq).
  - done.
Qed.

(** What is known of a job that was dispatched to a worker. *)
Definition dispatched (id wid : string) (j : Job.t) c : Prop :=
  Job.ID j = id ∧ was_stored j c ∧ was_assigned id wid c.

Lemma stable_dispatched D id wid j : stable D (dispatched id wid j).
Proof. unfold dispatched. stable_auto. Qed.
Hint Resolve stable_dispatched : stable.

Lemma rg_assign claims P id wid :
  stable claims P →
  rg claims (call (λ e, AssignJobToWorkers e id [wid])) (λ c, P c ∧ go id c)
    (λ res c, (P c ∧ go id c) ∧ match res with Ok _ => was_assigned id wid c | Err _ => True end).
Proof.
  intros HP. apply rg_call.
  { intros res. apply stable_and; [stable_auto|]. destruct res; stable_auto. }
  intros c e res r Hc [HPc Hgo] Heq Hcnt w' Habs Hw.
  destruct (AssignJobToWorkers_law e id [wid] (repo (world c))) as [He Hks]. rewrite Heq in He, Hks.
  simpl in He, Hks. assert (counts c w') as Hn by by (unfold counts; rewrite Hw).
  assert (∀ E, move E c w') as Hm.
  { intros E. eapply (move_start E c w' id); [done|done|]. by rewrite Habs, Hks. }
  split; [done|]. split; [split|].
  - by eapply (HP c w' (λ _, False)).
  - by eapply (go_move (λ _, False)).
  - destruct res as [u|err]; [|done].
    destruct (AssignJobToWorkers_result e id wid _ u r Heq) as (j & Hj & Hr & Ha).
    exists (abs w'), j. split; [by left|]. by rewrite Habs.
Qed.

Lemma rg_get_dispatched claims P id wid :
  stable claims P →
  rg claims (query (λ _, GetJob id)) (λ c, (P c ∧ go id c) ∧ was_assigned id wid c)
    (λ res c, (P c ∧ go id c) ∧ match res with Ok j => dispatched id wid j c | Err _ => True end).
Proof.
  intros HP. apply rg_query.
  { intros res. apply stable_and; [stable_auto|]. destruct res; stable_auto. }
  intros c e [[Hg _] _] [[HPc Hgo] Ha]. split; [done|].
  destruct (GetJob id (repo (world c))) as [j|] eqn:Hj; [|done]. apply GetJob_law in Hj.
  destruct (Hg _ _ Hj) as (Hid & _). split; [done|]. split; [|done].
  exists (now c). split; [by left|]. rewrite Hid. split; [done|]. by apply Hgo.
Qed.

Lemma rg_dispatch claims P id wid :
  stable claims P →
  rg claims (dispatchJobToWorker id wid) (λ c, P c ∧ go id c)
    (λ res c, (P c ∧ go id c) ∧ match res with Ok j => dispatched id wid j c | Err _ => True end).
Proof.
  intros HP. unfold dispatchJobToWorker. eapply rg_bind; [by apply rg_assign|].
  intros [u|err]; [by apply rg_get_dispatched|by apply rg_ret].
Qed.

Lemma rg_push claims P wid j :
  stable claims P →
  rg claims (PushJob wid j) (λ c, P c ∧ dispatched (Job.ID j) wid j c) (λ _, P).
Proof.
  intros HP. apply rg_atomic; [done|]. intros c Hc [HPc (_ & Hs & Ha)] Hn.
  pose proof Hc as [[_ Hh] _].
  destruct (Hub.push_spec wid (Hub.ServerEnvelope_Job (Hub.jobToProto j)) _ Hh)
    as (b & h' & Heq & _). unfold Hub.PushJob in *. simpl in *. rewrite Heq in *. simpl in *.
  assert (∀ E, move E c ((world c) <| World.hub := h' |>)) as Hm.
  { intros E. by apply (move_push E c _ wid j b h'). }
  split; [done|]. by apply (HP c ((world c) <| World.hub := h' |>) (λ _, False)).
Qed.

Lemma rg_dispatch_push {A} claims P (Q : A → config R → Prop) id wid k1 k2 :
  stable claims P → (∀ e, rg claims (k1 e) P Q) →
  (∀ j, rg claims (k2 j) (λ c, P c ∧ go (Job.ID j) c) Q) →
  rg claims (dispatch_push id wid k1 k2) (λ c, P c ∧ go id c) Q.
Proof.
  intros HP H1 H2. eapply rg_bind; [by apply rg_dispatch|]. intros [j|err].
  - eapply (rg_bind _ _ _ _ (λ _ c, P c ∧ go (Job.ID j) c)); [|intros; apply H2].
    eapply rg_weaken; [| |apply (rg_push claims (λ c, P c ∧ go (Job.ID j) c) wid j)]; [|done|stable_auto].
    intros c _ [[HPc Hgo] (Hid & Hs & Ha)]. rewrite Hid. by split.
  - eapply rg_weaken; [|done|apply H1]. by intros c _ [[? _] _].
Qed.

(** The loops of the handlers. *)
Lemma rg_loop {A B} claims P (f : A → M R (Response + B)) l :
  (∀ x, rg claims (f x) P (λ _, P)) → ∀ acc, rg claims (loop f l acc) P (λ _, P).
Proof.
  intros Hf. induction l as [|x l IH]; intros acc; simpl; [by apply rg_ret|].
  eapply rg_bind; [apply Hf|]. intros [?|?]; [by apply rg_ret|apply IH].
Qed.

Lemma rg_create_push {A} claims P (Q : A → config R → Prop) j wid k0 k1 k2 :
  Job.IdempotencyKey j = "" → permitted j → stable claims P →
  (∀ e, rg claims (k0 e) P Q) → (∀ e, rg claims (k1 e) P Q) → (∀ j, rg claims (k2 j) P Q) →
  rg claims (created ← call (λ e, CreateJob e j);
    match created with
    | Err err => k0 err
    | Ok created => dispatch_push (Job.ID created) wid k1 k2
    end) P Q.
Proof.
  intros Hk Hp HP H0 H1 H2. eapply rg_bind; [by apply rg_create_ready|]. intros [j'|err].
  - apply rg_dispatch_push; [done..|]. intros x. eapply rg_weaken; [|done|apply H2]. by intros c _ [? _].
  - eapply rg_weaken; [|done|apply H0]. by intros c _ [? _].
Qed.
End dispatch.

(** ** The handlers *)
Section handlers.
Context {R : Type} `{L : JobLaws R} `{I : !JobIds R} `{O : Oracle} `{TT : TextTemplate} `{Y : YAML}.
Context (claims : string → Prop).
Implicit Types (c : config R) (P : config R → Prop).

(** A program that needs nothing and may run at any time. *)
Definition free {A} (m : M R A) : Prop := ∀ P, stable claims P → rg claims m P (λ _, P).

Lemma free_neutral {A} (m : M R A) : neutral m → free m.
Proof. intros Hm P HP. by apply rg_neutral. Qed.

Lemma free_ret {A} (a : A) : free (mret a).
Proof. intros P _. by apply rg_ret. Qed.

Lemma free_bind {A B} (m : M R A) (k : A → M R B) : free m → (∀ a, free (k a)) → free (m ≫= k).
Proof. intros Hm Hk P HP. eapply rg_bind; [by apply Hm|]. intros a. by apply Hk. Qed.

Lemma free_loop {A B} (f : A → M R (Response + B)) l acc : (∀ x, free (f x)) → free (loop f l acc).
Proof. intros Hf P HP. apply rg_loop. intros x. by apply Hf. Qed.

Lemma free_create_push {A} j wid (k0 k1 : error → M R A) k2 :
  Job.IdempotencyKey j = "" → permitted j →
  (∀ e, free (k0 e)) → (∀ e, free (k1 e)) → (∀ j, free (k2 j)) →
  free (created ← call (λ e, CreateJob e j);
    match created with
    | Err err => k0 err
    | Ok created => dispatch_push (Job.ID created) wid k1 k2
    end).
Proof. intros Hk Hp H0 H1 H2 P HP. apply rg_create_push; try done; intros; [apply H0|apply H1|apply H2]; done. Qed.

Lemma free_create j : Job.IdempotencyKey j = "" → permitted j → free (call (λ e, CreateJob e j)).
Proof.
  intros Hk Hp P HP. eapply rg_weaken; [done| |by apply rg_create_ready]. by intros res c _ [? _].
Qed.

Lemma free_assign_copy req job wid :
  Job.IdempotencyKey job = "" → Job.ApprovalRequired job = false → free (assign_copy req job wid).
Proof.
  intros Hk Hr. unfold assign_copy. apply free_bind; [apply free_neutral, neutral_query|].
  intros [wk|err]; [|apply free_ret]. destruct (negb _); [apply free_ret|].
  apply free_create_push; intros; try apply free_ret; [done|]. unfold permitted. simpl. congruence.
Qed.

Lemma free_handleCreateJob user req : free (handleCreateJob user req).
Proof.
  unfold handleCreateJob. destruct req as [req|]; [|apply free_ret].
  case_decide; [apply free_ret|]. destruct (cj_WorkerIDs req).
  - apply free_bind; [by apply free_create|]. intros [j|err]; apply free_neutral; neutral_auto.
  - apply free_bind; [|intros [r|r]; apply free_neutral; neutral_auto].
    apply free_loop. intros x. by apply free_assign_copy.
Qed.

Lemma free_create_copy spec task tmpl cmd wid : free (create_copy spec task tmpl cmd wid).
Proof.
  unfold create_copy. case_decide as Hw.
  - apply free_bind; [by apply free_create|]. intros [j|err]; apply free_ret.
  - by apply free_create_push; intros; try apply free_ret.
Qed.

Lemma free_handleCreateJobFromYAML user req : free (handleCreateJobFromYAML user req).
Proof.
  unfold handleCreateJobFromYAML. destruct req as [text|]; [|apply free_ret].
  case_decide; [apply free_ret|]. destruct (unmarshal_jobs text) as [spec|]; [|apply free_ret].
  apply free_bind; [apply free_neutral, neutral_read|]. intros e.
  apply free_bind; [apply free_neutral, neutral_gets|]. intros reg.
  apply free_bind; [apply free_neutral, neutral_gets|]. intros pol.
  destruct (validateAndFixYAML _ _ _ _) as [spec'|]; [|apply free_ret].
  apply free_bind; [apply free_neutral, neutral_resolve_workers|]. intros ids.
  apply free_bind; [|intros [r|r]; apply free_neutral; neutral_auto].
  apply free_loop. intros task. unfold create_task.
  apply free_bind; [apply free_neutral, neutral_gets|]. intros eng.
  apply free_bind; [apply free_neutral, neutral_gets|]. intros pol'.
  destruct (TemplateEngine.Render _ _ _) as [[tmpl cmd]|]; [|apply free_ret].
  destruct (Policy.ValidateTemplate _ _); [|apply free_ret].
  destruct (Policy.ValidateCommand _ _); [|apply free_ret].
  apply free_loop. intros. apply free_create_copy.
Qed.

(** *** Dispatching a stored job *)
Definition armed base c : Prop := go (Job.ID base) c ∧ key_go (Job.IdempotencyKey base) c.
Lemma stable_armed D base : stable (R:=R) D (armed base).
Proof. unfold armed. stable_auto. Qed.

Lemma rg_create_clone base wid P :
  permitted base → stable claims P →
  rg claims (call (λ e, CreateJob e (dispatch_clone base wid))) (λ c, P c ∧ armed base c)
    (λ res c, (P c ∧ armed base c) ∧ match res with Ok j => go (Job.ID j) c | Err _ => True end).
Proof.
  intros Hp HP. set (j := dispatch_clone base wid).
  assert (permitted j) as Hj by (intros Hreq; by destruct (Hp Hreq)).
  destruct (decide (Job.IdempotencyKey base = "")) as [Hk|Hk].
  - apply rg_create_ready; [done..|]. apply stable_and; [done|apply stable_armed].
  - eapply rg_weaken; [| |apply (rg_clone claims (λ c, P c ∧ go (Job.ID base) c) j)]; try done.
    + by intros c _ [? [? ?]].
    + by intros res c _ [[[? ?] ?] ?].
    + stable_auto.
Qed.

Lemma rg_dispatch_one base target P :
  permitted base → stable claims P →
  rg claims (dispatch_one base target) (λ c, P c ∧ armed base c) (λ _ c, P c ∧ armed base c).
Proof.
  intros Hp HP. destruct target as [i wid]. unfold dispatch_one.
  assert (stable claims (λ c, P c ∧ armed base c)) as HPa by (apply stable_and; [done|apply stable_armed]).
  apply rg_neutral_bind; [apply neutral_query|done|].
  intros [worker|err]; [|by apply rg_ret]. destruct (negb _); [by apply rg_ret|].
  eapply (rg_bind _ _ _ _ (λ res c, (P c ∧ armed base c) ∧
    match res with inr id => go id c | inl _ => True end)).
  { case_decide.
    - apply rg_ret. intros c _ [? [? ?]]. done.
    - eapply rg_bind; [by apply rg_create_clone|]. intros [j|err]; by apply rg_ret. }
  intros [resp|id]; [apply rg_ret; by intros c _ [? _]|].
  apply rg_dispatch_push; [done|intros; by apply rg_ret|]. intros j. apply rg_ret. by intros c _ [? _].
Qed.

(** A pending or queued job may be started, and so may the job that its key
    gives back. *)
Lemma armed_ready id base c :
  consistent c → GetJob id (repo (world c)) = Ok base →
  Job.Status base = JobStatusPending ∨ Job.Status base = JobStatusQueued →
  permitted base ∧ armed base c.
Proof.
  intros [[Hg _] Hn] Hj%GetJob_law Hst. destruct (Hg _ _ Hj) as (Hid & Hgate & Hk).
  assert (permitted base) as Hp.
  { intros Hreq. split; [|by destruct Hst as [->| ->]]. apply Hgate; [done|].
    destruct Hst as [->| ->]; set_solver. }
  assert (go id c) as Hgo.
  { split; [apply Hn; by exists base|]. intros j Hj'. by simplify_eq. }
  split; [done|]. unfold armed. rewrite Hid. split; [done|]. intros Hne. specialize (Hk Hne). simpl in Hk.
  split; [by eapply seen_now|]. intros id' Hid'. by simplify_eq.
Qed.

Lemma free_handleDispatchJob user path req : free (handleDispatchJob user path req).
Proof.
  unfold handleDispatchJob. case_decide; [apply free_ret|].
  destruct req as [ids|]; [|apply free_ret]. case_decide; [apply free_ret|].
  intros P HP.
  eapply (rg_bind _ _ _ _ (λ res c, P c ∧ match res with
    | Ok base => Job.Status base = JobStatusPending ∨ Job.Status base = JobStatusQueued →
                 permitted base ∧ armed base c
    | Err _ => True end)).
  { apply rg_query.
    - intros [base|err]; (apply stable_and; [done|]); [|apply stable_pure].
      apply stable_imp, stable_and; [apply stable_pure|apply stable_armed].
    - intros c e Hc HPc. split; [done|]. destruct (GetJob _ _) as [base|] eqn:Hj; [|done].
      by eapply armed_ready. }
  intros [base|err]; [|apply rg_ret; by intros c _ [? _]].
  destruct (decide _) as [|Hst]; [apply rg_ret; by intros c _ [? _]|].
  assert (Job.Status base = JobStatusPending ∨ Job.Status base = JobStatusQueued) as Hst'.
  { destruct (decide (Job.Status base = JobStatusPending)); [by left|].
    destruct (decide (Job.Status base = JobStatusQueued)); [by right|]. by destruct Hst. }
  eapply (rg_weaken _ _ (λ c, permitted base ∧ P c ∧ armed base c) _ (λ _, P)); [|done|].
  { intros c _ [HPc Ha]. by destruct (Ha Hst'). }
  apply rg_fact; [apply _|]. intros Hp.
  eapply rg_bind.
  { apply (rg_loop claims (λ c, P c ∧ armed base c)). intros x. by apply rg_dispatch_one. }
  intros r. eapply (rg_weaken _ _ P _ (λ _, P)); [by intros c _ [? _]|done|].
  apply rg_neutral; [|done]. destruct r; neutral_auto.
Qed.

Lemma free_handleJobActions user method path req : free (handleJobActions user method path req).
Proof.
  unfold handleJobActions. repeat case_decide; try apply free_ret.
  - apply free_neutral, neutral_handleGetJob.
  - destruct (has_suffix _ _); [apply free_handleDispatchJob|apply free_ret].
  - apply free_neutral, neutral_handleDeleteJob.
Qed.

(** *** Approvals *)
Lemma rg_auto_dispatch P job :
  stable claims P →
  rg claims (auto_dispatch true job) (λ c, P c ∧ go (Job.ID job) c)
    (λ job' c, P c ∧ go (Job.ID job') c).
Proof.
  intros HP. unfold auto_dispatch. case_bool_decide; simpl; [|by apply rg_ret].
  eapply rg_weaken; [| |apply (rg_dispatch_push claims (λ c, P c ∧ go (Job.ID job) c)
    (λ job' c, P c ∧ go (Job.ID job') c) (Job.ID job) (Job.AssignedWorkerID job) (λ _, mret job) mret)];
    [by intros c _ [? ?]|done|stable_auto|intros; by apply rg_ret|].
  intros j. apply rg_ret. by intros c _ [[? _] ?].
Qed.

Lemma rg_approve P id user comment :
  stable claims P →
  rg claims (call (λ e, ApproveJob e id user comment)) P
    (λ res c, P c ∧ match res with Ok j => go (Job.ID j) c | Err _ => True end).
Proof.
  intros HP. apply rg_call.
  { intros res. apply stable_and; [done|]. destruct res; stable_auto. }
  intros c e res r Hc HPc Heq Hcnt w' Habs Hw.
  destruct (ApproveJob_law e id user comment (repo (world c))) as [He Hks]. rewrite Heq in He, Hks.
  simpl in He, Hks. assert (counts c w') as Hn by by (unfold counts; rewrite Hw).
  assert (∀ E, move E c w') as Hm.
  { intros E. apply move_routine. rewrite Habs, Hks.
    by apply (Spec.routine_change (now c) (approved id)); [apply Spec.change_approve|]. }
  split; [done|]. split; [by eapply (HP c w' (λ _, False))|]. destruct res as [j|]; [|done].
  destruct (ApproveJob_result e id user comment _ j r Heq) as (Hj & Hst & Ha).
  destruct (consistent_move claims c w' Hc Hn (Hm _)) as [[Hg _] Hnum].
  destruct (abs_parts _ _ _ _ Habs) as (Hjs & _ & _). rewrite <-Hjs in Hj.
  destruct (Hg _ _ Hj) as (-> & _). split; [apply Hnum; by exists j|].
  intros x Hx. simpl in Hx. simplify_eq. intros _. by rewrite Hst.
Qed.

Lemma free_handleApproveJob user path req : free (handleApproveJob user path req).
Proof.
  unfold handleApproveJob. case_decide; [apply free_ret|]. destruct req as [req|]; [|apply free_ret].
  destruct (Approved req) as [[]|]; [| |apply free_ret].
  - intros P HP. eapply rg_bind; [by apply rg_approve|].
    intros [j|err]; [|apply rg_ret; by intros c _ [? _]].
    apply rg_neutral_bind; [destruct (Job.ApprovedAt j); [|apply neutral_ret]|stable_auto|intros _].
    { apply neutral_bind; [apply neutral_read|]. intros e. by apply neutral_modify. }
    eapply rg_bind; [by apply rg_auto_dispatch|]. intros job1.
    apply rg_neutral_bind; [case_match; neutral_auto|stable_auto|intros _].
    apply rg_neutral_bind; [case_match; neutral_auto|stable_auto|intros _].
    eapply rg_bind; [by apply rg_auto_dispatch|]. intros job2.
    eapply (rg_weaken _ _ P _ (λ _, P)); [by intros c _ [? _]|done|].
    apply rg_neutral; [|done]. neutral_auto.
  - apply free_neutral, neutral_bind; [apply neutral_RejectJob|].
    intros [j|err]; [|apply neutral_ret].
    apply neutral_bind; [|intros _; unfold auto_dispatch; simpl; neutral_auto].
    destruct (Job.ApprovedAt j); [|apply neutral_ret].
    apply neutral_bind; [apply neutral_read|]. intros e. by apply neutral_modify.
Qed.
End handlers.

(** ** The tools *)
Section tools.
Context {R : Type} `{L : JobLaws R} `{I : !JobIds R} `{O : Oracle} `{P : Printable} `{J : JSON}.
Implicit Types (c : config R) (ctx : Context).

Lemma neutral_lift_panic {A} (o : option A) : neutral (R:=R) (lift_panic o).
Proof. destruct o; simpl; [apply neutral_ret|apply neutral_panic]. Qed.

Lemma neutral_collect {A B} (f : A → M R B) l : (∀ x, neutral (f x)) → neutral (collect f l).
Proof.
  intros Hf. induction l as [|x l IH]; simpl; [apply neutral_ret|].
  apply neutral_bind; [done|]. intros y. apply neutral_bind; [done|]. intros ys. apply neutral_ret.
Qed.

#[local] Hint Resolve neutral_lift_panic : neutral.
#[local] Hint Extern 1 (neutral (collect _ _)) => apply neutral_collect; intros : neutral.

Lemma neutral_worker_facts wid : neutral (R:=R) (worker_facts wid).
Proof. unfold worker_facts. neutral_auto. Qed.
Lemma neutral_job_result id : neutral (R:=R) (job_result id).
Proof. unfold job_result. neutral_auto. Qed.
Lemma neutral_check_worker op wid : neutral (R:=R) (check_worker op wid).
Proof. unfold check_worker. neutral_auto. Qed.
Lemma neutral_validate_operation raw : neutral (R:=R) (validate_operation raw).
Proof. unfold validate_operation. neutral_auto. Qed.
#[local] Hint Resolve neutral_worker_facts neutral_job_result neutral_check_worker
  neutral_validate_operation : neutral.

(** The keys of a call of a tool, one for each worker. *)
Definition keys_for ctx (wids : string → Prop) (k : string) : Prop :=
  k ≠ "" ∧ ∃ wid, wids wid ∧ k = agentJobIdempotencyKey ctx wid.
Definition call_keys ctx : string → Prop := keys_for ctx (λ _, True).

Lemma keys_for_call ctx wids k : keys_for ctx wids k → call_keys ctx k.
Proof. intros (? & wid & _ & ?). split; eauto. Qed.

Lemma rg_create_operation_job ctx op wid (wids : list string) :
  wid ∉ wids →
  rg (call_keys ctx) (create_operation_job ctx op wid)
    (λ c, unused (keys_for ctx (.∈ wids)) c ∧
       (agentJobIdempotencyKey ctx wid ≠ "" → ¬ seen (agentJobIdempotencyKey ctx wid) c))
    (λ _, unused (keys_for ctx (.∈ wids))).
Proof.
  intros Hnin. unfold create_operation_job. set (D := keys_for ctx (.∈ wids)).
  assert (∀ k, D k → call_keys ctx k) as Hsub by (intros k; apply keys_for_call).
  assert (stable (call_keys ctx) (unused D)) as Hst by (eapply stable_sub; [done|apply stable_unused]).
  eapply rg_bind.
  { apply (rg_create (call_keys ctx) D (unused D) (operation_job ctx op wid));
      [|apply stable_unused|done|].
    - unfold creatable, ready. simpl. destruct (op_approval op); [by right|by left].
    - intros Hne. split; [split; [done|by exists wid]|]. intros (_ & wid' & Hin & Heq).
      destruct (agent_key_inj _ _ _ Heq) as [?| ->]; [by destruct Hne|done]. }
  intros [j|err]; [|apply rg_ret; by intros c _ [? _]].
  destruct (op_approval op) eqn:Ha; [apply rg_ret; by intros c _ [? _]|].
  eapply rg_weaken; [| |apply (rg_dispatch_push (call_keys ctx) (unused D) (λ _, unused D)
    (Job.ID j) wid (λ derr, mret (job_error wid derr))
    (λ dispatched, mret (job_entry op wid (Job.ID j) (Job.Status dispatched))))].
  - intros c _ [Hu Hgo]. split; [done|]. apply Hgo. unfold permitted. simpl. congruence.
  - done.
  - done.
  - intros e. by apply rg_ret.
  - intros j'. apply rg_ret. by intros c _ [? _].
Qed.

Lemma rg_collect ctx op (wids : list string) :
  NoDup wids →
  rg (call_keys ctx) (collect (create_operation_job ctx op) wids)
    (unused (keys_for ctx (.∈ wids))) (λ _ _, True).
Proof.
  induction 1 as [|wid wids Hnin _ IH]; simpl; [by apply rg_ret|].
  eapply (rg_bind _ _ _ _ (λ _, unused (keys_for ctx (.∈ wids)))).
  { eapply rg_pre; [|by apply rg_create_operation_job]. intros c _ Hu. split.
    - intros k (Hk & wid' & Hin & ->). apply Hu. split; [done|]. exists wid'. split; [by right|done].
    - intros Hne. apply Hu. split; [done|]. exists wid. split; [by left|done]. }
  intros entry. eapply rg_bind; [apply IH|]. intros l. by apply rg_ret.
Qed.

Lemma unused_sub (D D' : string → Prop) c : (∀ k, D' k → D k) → unused D c → unused D' c.
Proof. intros Hsub Hu k Hk. by apply Hu, Hsub. Qed.

Lemma rg_createModuleOperation ctx raw :
  rg (call_keys ctx) (createModuleOperation ctx raw) (unused (call_keys ctx)) (λ _ _, True).
Proof.
  assert (stable (R:=R) (call_keys ctx) (unused (call_keys ctx))) as HP by apply stable_unused.
  unfold createModuleOperation. eapply rg_bind.
  { eapply rg_returns; [by apply rg_neutral; [apply neutral_validate_operation|]|].
    apply validate_operation_NoDup. }
  intros [[op ids]|err]; [|by apply rg_ret].
  apply (rg_fact _ (NoDup ids)). intros Hnd. eapply rg_bind.
  { eapply rg_returns; [apply rg_neutral; [|exact HP]|by apply (rights_sub op ids Hnd)].
    apply neutral_collect. intros. apply neutral_check_worker. }
  intros checked. simpl. case_decide; [by apply rg_ret|].
  eapply (rg_weaken _ _ (λ c, NoDup (rights checked) ∧ unused (call_keys ctx) c) _ (λ _ _, True));
    [by intros c _ [[? _] ?]|done|].
  apply rg_fact; [apply _|]. intros Hn. eapply rg_bind; [|intros l; by apply rg_ret].
  eapply rg_pre; [|by apply rg_collect]. intros c _. apply unused_sub, keys_for_call.
Qed.

(** Any tool, in a call under keys of its own. *)
Lemma rg_tool ctx name (tool : @Tool R) raw :
  agentTools !! name = Some tool →
  rg (call_keys ctx) (tool ctx raw) (unused (call_keys ctx)) (λ _ _, True).
Proof.
  intros Ht. apply elem_of_list_to_map_2 in Ht.
  assert (∀ m : M R (result any), neutral m →
    rg (call_keys ctx) m (unused (call_keys ctx)) (λ _ _, True)) as Hfree.
  { intros m Hm. eapply rg_weaken; [done| |by apply rg_neutral; [|apply stable_unused]]. done. }
  rewrite !elem_of_cons, elem_of_nil in Ht.
  destruct Ht as [Ht|[Ht|[Ht|[Ht|[Ht|[Ht|[]]]]]]]; injection Ht as _ ->;
    [..|apply rg_createModuleOperation|]; apply Hfree.
  - unfold searchIncidentCases. neutral_auto.
  - unfold getWorkerFacts. neutral_auto.
  - unfold listWorkers. neutral_auto.
  - unfold listCapabilities. neutral_auto.
  - unfold getJobResult. neutral_auto.
Qed.
End tools.
End InterleaveFacts.
