(* ===== verification/InterleaveGate.v ===== *)
(** * The approval gate when requests interleave

    The identifiers of both repositories, the threads of the server, and what
    holds in every state that any interleaving of requests, streams and tool
    calls reaches. *)
From S2P Require Import Prelude.
From S2P Require Import GoStrings.
From S2P Require Import Fmt.
From S2P Require Import Model.
From S2P Require Import Policy.
From S2P Require Import Modules.
From S2P Require Import Scheduler.
From S2P Require Import SchedulerFacts.
From S2P Require Import Repository.
From S2P Require Import MemoryRepo.
From S2P Require Import MemoryRepoFacts.
From S2P Require Import Hub.
From S2P Require Import World.
From S2P Require Import Spec.
From S2P Require Import StreamService.
From S2P Require Import Server.
From S2P Require Import ServerFacts.
From S2P Require Import Auth.
From S2P Require Import AuthFacts.
From S2P Require Import Config.
From S2P Require Import AgentTools.
From S2P Require Import AgentToolsFacts.
From S2P Require Import AgentRuntime.
From S2P Require Import AgentRuns.
From S2P Require Import System.
From S2P Require Import Mux.
From S2P Require Import Routes.
From S2P Require Import HttpGate.
From S2P Require Import Database.
From S2P Require Import PostgresRepo.
From S2P Require Import PostgresFacts.
From S2P Require Import PostgresRestart.
From S2P Require Import Interleave.
From S2P Require Import InterleaveFacts.

Import Repository World Spec.Refine Server.Server ServerFacts.ServerFacts AgentTools.AgentTools
  AgentToolsFacts.AgentToolsFacts Fmt.Fmt System.System Interleave.Interleave
  InterleaveFacts.InterleaveFacts.

Module InterleaveGate.
Import Mux Routes HttpGate.HttpGate.

(** ** The numbers of jobs *)

Section memory.
Import Scheduler.Scheduler SchedulerFacts.SchedulerFacts MemoryRepo.MemoryRepo MemoryRepoFacts.MemoryRepoFacts.

#[global] Program Instance memory_job_ids : JobIds MemoryRepository := {|
  counter r := nextID (store r);
  id_number := PostgresRepo.PostgresRepo.numeric_suffix;
|}.
Next Obligation.
  intros e j r j0 r' Hkey. simpl. unfold mem_CreateJob.
  assert (idempotent_job (Job.IdempotencyKey j) r = None) as ->.
  { destruct (decide (Job.IdempotencyKey j = "")) as [Hk|Hk].
    - unfold idempotent_job. by rewrite decide_True.
    - destruct Hkey as [?|Hkey]; [done|]. by rewrite idempotent_job_keys. }
  unfold create_job, on_store.
  destruct (CreateJobWithOptions _ _ _ _ _ (store r)) as [j' s] eqn:Hc.
  assert (nextID s = u64_add (nextID (store r)) 1) as Hn.
  { unfold CreateJobWithOptions, new_job, newID in Hc. by injection Hc as _ <-. }
  apply CreateJobWithOptions_spec in Hc as (_ & Hid & _).
  assert (∀ k id r1, nextID (store (record_key k id r1)) = nextID (store r1)) as Hrec.
  { intros k id r1. unfold record_key. by case_decide. }
  intros [= <- <-]. rewrite Hrec. simpl. rewrite Hid, Hn. apply (PostgresRestart.PostgresRestart.make_id_number "job").
Qed.
End memory.

Section postgres.
Import Database PostgresRepo.PostgresRepo PostgresFacts.PostgresFacts.

#[global] Program Instance postgres_job_ids `{PG : Postgres} : JobIds PostgresRepository := {|
  counter := nextID;
  id_number := numeric_suffix;
|}.
Next Obligation.
  intros PG e j r j0 r' Hkey. simpl in *. unfold pg_CreateJob.
  assert (∀ r1, create_new_job (Repository.now e) j r = (Ok j0, r1) → (nextID r ≤ nextID r1)%Z →
    ∃ n, numeric_suffix (Job.ID j0) = Some n ∧ (nextID r < n ≤ nextID r1)%Z) as Hnew.
  { intros r1. unfold create_new_job, genID, insert_job. set (r0 := r <| nextID := _ |>).
    destruct (exec _ _ _ r0) as [ires r2] eqn:He.
    destruct (exec_inv _ _ _ _ _ _ He) as [[Hok ->]|(n & d & _ & -> & ->)].
    - destruct ires as [|err]; [done|]. case_decide; [done|]. destruct Hkey as [?|Hk]; [done|].
      pose proof (find_key_fresh (Job.IdempotencyKey (fill_job (Repository.now e)
        (make_id "job" (u64_add (nextID r) 1)) j)) r0 Hk) as Hf.
      destruct (find_key _ r0) as [[x|]|]; [by destruct (Hf x)|done..].
    - intros [= <- <-]. simpl. apply PostgresRestart.PostgresRestart.make_id_number. }
  case_decide as Hk; [by apply Hnew|]. destruct Hkey as [?|Hf]; [done|].
  pose proof (find_key_fresh _ r Hf) as Hnf.
  destruct (find_key _ r) as [[x|]|]; [by destruct (Hnf x)|by apply Hnew|done].
Qed.
End postgres.

(** ** The threads of the server *)
Section gate.
Context {R : Type} `{L : JobLaws R} `{I : !JobIds R} `{O : Oracle} `{TT : TextTemplate} `{Y : YAML}
  `{P : Printable} `{J : JSON} `{C : LLM} `{CY : ConfigYAML} `{D : RequestJSON}.
Context {U : Type} `{US : UserStore U} `{B : Bcrypt} `{CJ : ClaimsJSON}.
Variables (cfg : Config) (host : Host) (rt : @AgentRuntime.Runtime R).

(** A request is routed and authenticated when it arrives. The operations of an
    agent run are threads of their own: its bookkeeping, and each call of a
    tool, which claims the keys of the call. *)
Inductive arrives (s : Auth.Service U) (c : config R) : Auth.Service U → thread → Prop :=
  | arrives_request at_ req :
      (∀ r, findHandler server_mux (Method req) (EscapedPath req) = Found r → (Mux.handler r).2 ≠ AgentRun) →
      arrives s c (serve cfg host rt at_ req s).1 (mkThread (λ _, False) reply (serve cfg host rt at_ req s).2)
  | arrives_handler A (m : M R A) :
      System.System.handler A m → arrives s c s (mkThread (λ _, False) A m)
  | arrives_tool ctx name (tool : @Tool R) raw :
      agentTools !! name = Some tool → arrives s c s (mkThread (call_keys ctx) (result any) (tool ctx raw)).

Abbreviation server_pool := (@pool R (Auth.Service U)).
Definition server_step : server_pool → server_pool → Prop := pool_step arrives.

(** The server when it starts, on a repository. *)
Definition start (r : R) (s : Auth.Service U) : server_pool := mkPool s (Interleave.Interleave.mkConfig (init r) []) ∅.

Lemma free_starts_jobs claims A (m : M R A) : starts_jobs A m → free claims m.
Proof.
  destruct 1; [apply free_handleCreateJob|apply free_handleJobActions|apply free_handleCreateJobFromYAML
    |apply free_handleApproveJob].
Qed.

Lemma free_ok claims A (m : M R A) c : free claims m → thread_ok c (mkThread claims A m).
Proof.
  intros Hm. exists (λ _, True). split; [apply stable_pure|]. split; [done|].
  apply (Hm (λ _, True)), stable_pure.
Qed.

Lemma arrives_ok s c s' t : arrives s c s' t → unused (claims t) c → thread_ok c t.
Proof.
  destruct 1 as [at_ req Hr|A m Hm|ctx name tool raw Ht]; intros Hu.
  - apply free_ok. destruct (serve_neutral cfg host rt at_ req s Hr) as [Hm|(m & Hm & ->)];
      [by apply free_neutral|]. apply free_bind; [by apply free_starts_jobs|intros; apply free_ret].
  - apply free_ok. destruct (handler_neutral A m Hm) as [Hn|Hs]; [by apply free_neutral|by apply free_starts_jobs].
  - exists (unused (call_keys ctx)). split; [apply stable_unused|]. split; [exact Hu|].
    exact (rg_tool ctx name tool raw Ht).
Qed.

Lemma start_ok r s : jobs_of r = ∅ → keys_of r = ∅ → pool_ok (start r s).
Proof.
  intros Hj Hk. split; [|split; [apply map_Forall_empty|by intros i j t t']].
  split; [by apply init_inv|]. intros id. simpl. rewrite Hj, lookup_empty. by intros [? ?].
Qed.

Lemma server_steps_ok p p' : pool_ok p → rtc server_step p p' → pool_ok p'.
Proof. apply pool_steps_ok. intros s c s' t _. apply arrives_ok. Qed.

(** C1: however the operations of requests, streams, agent runs and tool calls
    interleave, in every state that the server reaches from an empty repository
    a job that requires approval and is ready or running was approved, and the
    hub is well formed, provided that every tool call comes with a call
    identifier that was not used before in its run and that the job counter does
    not wrap around. Without the former the gate fails:
    [System.reused_call_id_skips_approval]. *)
Theorem interleaved_gate (r : R) (s : Auth.Service U) (p : server_pool) :
  jobs_of r = ∅ → keys_of r = ∅ → rtc server_step (start r s) p →
  let w := world (config_of p) in
  (∀ k j, jobs_of (repo w) !! k = Some j → Job.ID j = k ∧ gate j) ∧ Hub.wf (hub w).
Proof.
  intros Hj Hk Hs w. destruct (server_steps_ok _ _ (start_ok r s Hj Hk) Hs) as [[[Hg Hh] _] _].
  split; [|done]. intros k j Hkj. by destruct (Hg k j Hkj) as (? & ? & _).
Qed.

(** C2: however operations interleave from an empty repository, a job that is
    queued for the stream of a worker was stored exactly like that at some time,
    approved if it requires approval, and was at some time assigned to the worker
    of the stream, under the conditions of the steps of the server: every tool
    call comes with a call identifier that was not used before in its run, and
    the job counter does not wrap around. *)
Theorem interleaved_delivery (r : R) (s : Auth.Service U) (p : server_pool) (ch : nat)
    (m : Hub.ProtoJob.t) :
  jobs_of r = ∅ → keys_of r = ∅ → rtc server_step (start r s) p →
  Hub.ServerEnvelope_Job m ∈ Hub.messages_of (hub (world (config_of p))) ch →
  delivered ch m (config_of p).
Proof.
  intros Hj Hk Hs. apply (pool_steps_delivery arrives (λ s c s' t _, arrives_ok s c s' t) (start r s) p);
    [by apply start_ok|done|].
  intros ch' m'. unfold Hub.messages_of. simpl. by intros ?%elem_of_nil.
Qed.
End gate.

(** ** Two requests that race

    An in-memory server with two shell workers and a pending job, and a request
    of two users each to dispatch the job to one of the workers. *)
Section race.
Import MemoryRepo.MemoryRepo MemoryRepoFacts.MemoryRepoFacts Auth.Auth AuthFacts.AuthFacts StreamService.StreamService.
#[local] Existing Instances demo_oracle demo_template demo_yaml demo_config_yaml demo_printable demo_json.
#[local] Existing Instances demo_bcrypt demo_claims demo_store demo_llm demo_requests.

Abbreviation demo_pool := (@pool MemoryRepository (Auth.Service unit)).
Abbreviation demo_step := (server_step demo_cfg demo_host demo_rt).

(** A handler becomes the thread [i]. *)
Definition arrive {A} (i : nat) (m : M MemoryRepository A) (p : demo_pool) : demo_pool :=
  mkPool (front p) (config_of p) (<[i := mkThread (λ _, False) A m]> (threads p)).
(** The thread [i] runs until it ends. *)
Definition alone (i : nat) (p : demo_pool) : demo_pool := foldl turn p (replicate 40 i).

Lemma arrive_step {A} i (m : M MemoryRepository A) p :
  System.System.handler A m → threads p !! i = None → demo_step p (arrive i m p).
Proof.
  intros Hm Hi. apply pool_start; [done|by apply arrives_handler|by intros k|].
  by intros j t _ k.
Qed.

Definition race_stream (name : string) := open_stream (R:=MemoryRepository) "" None (Ok (WorkerEnvelope_Register name "shell")) (Ok tt).
Definition race_job : createJobRequest := mkCreateJob "disk" "shell" "df -h" [].
Definition race_dispatch (wid : string) : M MemoryRepository Response :=
  handleJobActions demo_user "POST" "/api/v1/jobs/job-000005/dispatch" (Ok [wid]).

Definition race_start : demo_pool := start NewMemoryRepository demo_service.
Definition race_ready : demo_pool :=
  alone 2 (arrive 2 (handleCreateJob demo_user (Ok race_job))
    (alone 1 (arrive 1 (race_stream "node2") (alone 0 (arrive 0 (race_stream "node1") race_start))))).
(** Both requests read the job before one of them assigns it. *)
Definition race_end : demo_pool :=
  alone 4 (alone 3 (foldl turn
    (arrive 4 (race_dispatch "worker-000003") (arrive 3 (race_dispatch "worker-000001") race_ready)) [3; 4])).
(** One after the other. *)
Definition race_orderly : demo_pool :=
  alone 4 (arrive 4 (race_dispatch "worker-000003") (alone 3 (arrive 3 (race_dispatch "worker-000001") race_ready))).

Lemma race_reached l p : rtc demo_step race_start p → rtc demo_step race_start (foldl turn p l).
Proof. intros Hp. etrans; [exact Hp|apply turns_steps]. Qed.

Lemma race_arrives {A} i (m : M MemoryRepository A) p :
  System.System.handler A m → threads p !! i = None → rtc demo_step race_start p →
  rtc demo_step race_start (arrive i m p).
Proof. intros Hm Hi Hp. eapply rtc_r; [exact Hp|by apply arrive_step]. Qed.

Lemma race_end_reached : rtc demo_step race_start race_end.
Proof.
  do 3 apply race_reached.
  apply race_arrives; [apply h_job_actions|vm_compute; reflexivity|].
  apply race_arrives; [apply h_job_actions|vm_compute; reflexivity|]. apply race_reached.
  apply race_arrives; [apply h_create_job|vm_compute; reflexivity|]. apply race_reached.
  apply race_arrives; [apply h_open_stream|vm_compute; reflexivity|]. apply race_reached.
  apply race_arrives; [apply h_open_stream|vm_compute; reflexivity|]. apply rtc_refl.
Qed.

Definition race_message : Hub.ProtoJob.t :=
  Hub.ProtoJob.mk "job-000005" "disk" "shell" "df -h" "" None "manual_job".
Definition queued (p : demo_pool) (ch : nat) : list Hub.ServerEnvelope :=
  Hub.messages_of (hub (world (config_of p))) ch.

(** A pending job is dispatched once: of two requests after each other the
    second is refused. When both read the job before one of them assigns it,
    both workers get the job and run its command. *)
Example racing_dispatches :
  (queued race_orderly 0, queued race_orderly 1) = ([Hub.ServerEnvelope_Job race_message], []) ∧
  rtc demo_step race_start race_end ∧
  (queued race_end 0, queued race_end 1) =
    ([Hub.ServerEnvelope_Job race_message], [Hub.ServerEnvelope_Job race_message]).
Proof.
  split; [vm_compute; reflexivity|]. split; [apply race_end_reached|]. vm_compute. reflexivity.
Qed.

Lemma interleaved_gate_witness :
  size (jobs_of (repo (world (config_of race_end)))) = 1 ∧
  (∀ k j, jobs_of (repo (world (config_of race_end))) !! k = Some j → Job.ID j = k ∧ gate j) ∧
  Hub.wf (hub (world (config_of race_end))).
Proof.
  split; [vm_compute; reflexivity|].
  apply (interleaved_gate demo_cfg demo_host demo_rt NewMemoryRepository demo_service race_end);
    [reflexivity..|apply race_end_reached].
Defined.

Lemma race_queued :
  Hub.ServerEnvelope_Job race_message ∈ Hub.messages_of (hub (world (config_of race_end))) 1.
Proof.
  assert (Hub.messages_of (hub (world (config_of race_end))) 1 = [Hub.ServerEnvelope_Job race_message])
    as -> by (vm_compute; reflexivity). by left.
Qed.

Lemma interleaved_delivery_witness : delivered 1 race_message (config_of race_end).
Proof.
  apply (interleaved_delivery demo_cfg demo_host demo_rt NewMemoryRepository demo_service race_end 1
    race_message); [reflexivity..|apply race_end_reached|apply race_queued].
Defined.
End race.

End InterleaveGate.
