(* ===== verification/PostgresJobs.v ===== *)
(** * The operations on jobs, statement by statement

    [CreateJob], [AssignNextJob], [AssignJobToWorkers], [CompleteJob],
    [ApproveJob], [RejectJob] and [DeleteJob] of the PostgreSQL repository as
    sequences of statements. Any number of calls interleave between their
    statements, and every other operation may run at any time. *)
From S2P Require Import Prelude.
From S2P Require Import GoStrings.
From S2P Require Import Model.
From S2P Require Import Repository.
From S2P Require Import Hub.
From S2P Require Import Spec.
From S2P Require Import Database.
From S2P Require Import PostgresRepo.
From S2P Require Import PostgresFacts.
From S2P Require Import PostgresCreate.
From S2P Require Import PostgresRestart.
From S2P Require Import Interleave.

Import Repository.

Module PostgresJobs.
Import Database PostgresRepo PostgresFacts.
Abbreviation Lookup := PostgresCreate.PostgresCreate.Lookup.
Abbreviation Draw := PostgresCreate.PostgresCreate.Draw.
Abbreviation Insert := PostgresCreate.PostgresCreate.Insert.
Abbreviation permitted := Interleave.Interleave.permitted.

(** What a guarded update does to a job. *)
Inductive update :=
  | Complete (workerID output : string) (success : bool)
  | Approve (approvedBy comment : string)
  | Reject (rejectedBy reason : string).

Section calls.
Context `{PG : Postgres}.
Implicit Types r : PostgresRepository.

Definition update_of (now : time) (u : update) (jobID : string) : JobUpdate :=
  match u with
  | Complete workerID output success => complete_update now workerID jobID output success
  | Approve by_ comment => approve_update now jobID by_ comment
  | Reject by_ reason => reject_update now jobID by_ reason
  end.

(** Where a call is, named after its next statement; [Updated] has made its
    update and reads the job back, and a call that has ended knows whether it
    changed the job. *)
Inductive call :=
  | Creating (c : PostgresCreate.PostgresCreate.call)
  | NextWorker (workerID : string)
  | NextSelect (workerID workerType : string)
  | NextStart (workerID jobID : string)
  | NextRead (jobID : string)
  | AssignRead (jobID : string) (workerIDs : list string)
  | AssignWorker (job : Job.t) (jobID : string) (workerIDs : list string)
  | AssignStart (job : Job.t) (jobID wid : string) (workerIDs : list string)
  | Updating (u : update) (jobID : string)
  | Updated (u : update) (jobID : string)
  | UpdateEnded (changed : bool) (u : update) (jobID : string) (res : result Job.t)
  | DeleteRead (id : string)
  | DeleteRow (id : string)
  | NextEnded (res : result Job.t)
  | UnitEnded (res : result unit).

(** The next statement of a call, with what it reads of the clock. *)
Definition call_step (e : Reading) (c : call) r : call * PostgresRepository :=
  match c with
  | Creating c => let '(c, r) := PostgresCreate.PostgresCreate.call_step (now e) c r in (Creating c, r)
  | NextWorker workerID =>
      match get_worker (now e) workerID r with
      | Err err => (NextEnded (Err err), r)
      | Ok worker => (NextSelect workerID (Worker.WorkerType worker), r)
      end
  | NextSelect workerID workerType =>
      let typed := bool_decide (NormalizeWorkerType workerType ≠ "shell") in
      match query_row
              ("SELECT id FROM jobs WHERE status IN" +:+ (if typed then " AND worker_type" else ""))
              ([VText JobStatusQueued; VText JobStatusPending] ++ (if typed then [VText workerType] else []))
              (next_job (order e) workerType) r with
      | Err err => (NextEnded (Err (wrapped "assign next job" err)), r)
      | Ok None => (NextEnded (Err (no_queued_jobs workerType)), r)
      | Ok (Some jobID) => (NextStart workerID jobID, r)
      end
  | NextStart workerID jobID =>
      let '(res, r) := start_job (later e) workerID jobID r in
      (match res with
       | Err err => NextEnded (Err (wrapped "assign next job update" err))
       | Ok _ => NextRead jobID
       end, r)
  | NextRead jobID => (NextEnded (pg_GetJob jobID r), r)
  | AssignRead jobID workerIDs =>
      (match pg_GetJob jobID r with
       | Err err => UnitEnded (Err err)
       | Ok job => AssignWorker job jobID workerIDs
       end, r)
  | AssignWorker job jobID [] => (UnitEnded (Ok tt), r)
  | AssignWorker job jobID (wid :: workerIDs) =>
      (match get_worker (later e) wid r with
       | Err err => UnitEnded (Err err)
       | Ok worker =>
           if negb (WorkerCanRunType (Worker.WorkerType worker) (Job.WorkerType job)) then
             UnitEnded (Err (cannot_run wid (Worker.WorkerType worker) (Job.WorkerType job)))
           else AssignStart job jobID wid workerIDs
       end, r)
  | AssignStart job jobID wid workerIDs =>
      let '(res, r) := start_job (now e) wid jobID r in
      (match res with
       | Err err =>
           UnitEnded (Err (Errorf "assign job %s to worker %s: %w" [AStr jobID; AStr wid; AErr err]))
       | Ok _ => AssignWorker job jobID workerIDs
       end, r)
  | Updating u jobID =>
      let up := update_of (now e) u jobID in
      let '(res, r) := run_update up jobID r in
      (match affected res (wrapped (update_wrap up)) (update_missing up) tt with
       | Err err => UpdateEnded false u jobID (Err err)
       | Ok _ => Updated u jobID
       end, r)
  | Updated u jobID => (UpdateEnded true u jobID (pg_GetJob jobID r), r)
  | DeleteRead id =>
      (match pg_GetJob id r with
       | Err err => UnitEnded (Err err)
       | Ok job =>
           if decide (Job.Status job ∈ [JobStatusPending; JobStatusQueued; JobStatusWaitingApproval])
           then DeleteRow id else UnitEnded (Err (cannot_delete (Job.Status job)))
       end, r)
  | DeleteRow id => let '(res, r) := remove_job id r in (UnitEnded res, r)
  | UpdateEnded _ _ _ _ | NextEnded _ | UnitEnded _ => (c, r)
  end.

Fixpoint call_steps (n : nat) (e : Reading) (c : call) r : call * PostgresRepository :=
  match n with
  | O => (c, r)
  | S n => let '(c, r) := call_step e c r in call_steps n e c r
  end.

Lemma call_steps_add n m e c r :
  call_steps (n + m) e c r = (let '(c', r') := call_steps n e c r in call_steps m e c' r').
Proof.
  revert c r. induction n as [|n IH]; intros c r; simpl; [done|]. destruct (call_step e c r). apply IH.
Qed.

(** *** Alone, a call does what the operation does *)
Lemma next_alone e workerID r :
  call_steps 4 e (NextWorker workerID) r =
    (NextEnded (pg_AssignNextJob e workerID r).1, (pg_AssignNextJob e workerID r).2).
Proof.
  unfold pg_AssignNextJob. cbn [call_steps call_step].
  destruct (get_worker _ _ r) as [wk|]; [|done]. cbn [call_steps call_step].
  destruct (query_row _ _ _ r) as [[id|]|]; [|done..]. cbn [call_steps call_step].
  by destruct (start_job _ _ _ r) as [[n|] r'].
Qed.

Lemma update_alone e u jobID r :
  ∃ changed, call_steps 2 e (Updating u jobID) r =
    (UpdateEnded changed u jobID (update_job (update_of (now e) u jobID) jobID r).1,
     (update_job (update_of (now e) u jobID) jobID r).2).
Proof.
  unfold update_job. cbn [call_steps call_step]. destruct (run_update _ _ r) as [res r'].
  destruct (affected _ _ _ _); eauto.
Qed.

Lemma delete_alone e id r :
  call_steps 2 e (DeleteRead id) r = (UnitEnded (pg_DeleteJob e id r).1, (pg_DeleteJob e id r).2).
Proof.
  unfold pg_DeleteJob. cbn [call_steps call_step]. destruct (pg_GetJob id r) as [job|]; [|done].
  case_decide; [|done]. cbn [call_steps call_step]. by destruct (remove_job id r).
Qed.

Lemma assign_loop_alone e job id ws r :
  ∃ n, call_steps n e (AssignWorker job id ws) r =
    (UnitEnded (assign_to e job id ws r).1, (assign_to e job id ws r).2).
Proof.
  revert r. induction ws as [|w ws IH]; intros r; [by exists 1|].
  cbn [assign_to]. destruct (get_worker (later e) w r) as [wk|err] eqn:Hw;
    [|exists 1; cbn [call_steps call_step]; by rewrite Hw].
  destruct (negb _) eqn:Hn; [exists 1; cbn [call_steps call_step]; by rewrite Hw, Hn|].
  destruct (start_job (now e) w id r) as [[k|err] r'] eqn:Hs.
  - destruct (IH r') as [n Hi]. exists (2 + n). rewrite call_steps_add. cbn [call_steps call_step].
    rewrite Hw, Hn. cbn [call_steps call_step]. rewrite Hs. exact Hi.
  - exists 2. cbn [call_steps call_step]. rewrite Hw, Hn. cbn [call_steps call_step]. by rewrite Hs.
Qed.

Lemma assign_alone e id ws r :
  ∃ n, call_steps n e (AssignRead id ws) r =
    (UnitEnded (pg_AssignJobToWorkers e id ws r).1, (pg_AssignJobToWorkers e id ws r).2).
Proof.
  unfold pg_AssignJobToWorkers. destruct (pg_GetJob id r) as [job|err] eqn:Hg.
  - destruct (assign_loop_alone e job id ws r) as [n Hn]. exists (1 + n). rewrite call_steps_add.
    cbn [call_steps call_step]. by rewrite Hg.
  - exists 1. cbn [call_steps call_step]. by rewrite Hg.
Qed.

(** ** Interleavings *)
Definition state : Type := list call * PostgresRepository.

(** What may be called: any creation that the approval gate allows, and the
    assignment of a stored job that may be started, which is what the handlers
    check before; the other operations without condition. *)
Inductive starts r : call → Prop :=
  | starts_create job : creatable job → starts r (Creating (Lookup job))
  | starts_next workerID : starts r (NextWorker workerID)
  | starts_assign id ws j : pg_jobs r !! id = Some j → permitted j → starts r (AssignRead id ws)
  | starts_update u id : starts r (Updating u id)
  | starts_delete id : starts r (DeleteRead id).

(** A call starts or runs its next statement, or any other operation changes
    its own tables; the counter of the identifiers does not wrap around. *)
Inductive step : state → state → Prop :=
  | step_start c cs r : starts r c → step (cs, r) (cs ++ [c], r)
  | step_call i e c c' cs r r' :
      cs !! i = Some c → call_step e c r = (c', r') → (nextID r ≤ nextID r')%Z →
      step (cs, r) (<[i := c']> cs, r')
  | step_other cs r r' : same_jobs r r' → (nextID r ≤ nextID r')%Z → step (cs, r) (cs, r').

(** *** What one statement does to the jobs *)
Inductive effect r r' : option string → Prop :=
  | effect_none : pg_jobs r' = pg_jobs r → effect r r' None
  | effect_change f :
      Spec.change (pg_jobs r) f → evolves f (pg_jobs r) (pg_jobs r') → effect r r' None
  | effect_insert id j :
      pg_jobs r !! id = None → Job.ID j = id → gate j → pg_jobs r' = <[id := j]> (pg_jobs r) →
      effect r r' (Some id)
  | effect_delete id : pg_jobs r' = delete id (pg_jobs r) → effect r r' None.

(** The number was given out. *)
Definition issued r id : Prop := ∃ n, numeric_suffix id = Some n ∧ (n ≤ nextID r)%Z.

(** Whatever job is stored under the identifier may be started. *)
Definition may_start r id : Prop := issued r id ∧ ∀ j, pg_jobs r !! id = Some j → permitted j.

(** What a decision leaves in the job. *)
Definition outcome (u : update) : option string :=
  match u with
  | Complete _ _ _ => None
  | Approve _ _ => Some ApprovalStatusApproved
  | Reject _ _ => Some ApprovalStatusRejected
  end.
Definition settled r id (status : string) : Prop :=
  issued r id ∧ ∀ j, pg_jobs r !! id = Some j →
    Job.Status j ≠ JobStatusWaitingApproval ∧ Job.ApprovalStatus j = status.

(** The identifier that a call is about to insert. *)
Definition pending (c : call) : option string :=
  match c with Creating (Insert job) => Some (Job.ID job) | _ => None end.
(** The job that a call has decided on. *)
Definition decided (c : call) : option (string * string) :=
  match c with
  | Updated u id | UpdateEnded true u id _ => (λ status, (id, status)) <$> outcome u
  | _ => None
  end.
(** The job that a call starts. *)
Definition target (c : call) : option string :=
  match c with
  | NextStart _ id | AssignRead id _ | AssignWorker _ id _ | AssignStart _ id _ _ => Some id
  | _ => None
  end.

(** What a call knows. *)
Definition knows r (c : call) : Prop :=
  match c with
  | Creating (Lookup job) | Creating (Draw job) => creatable job
  | Creating (Insert job) =>
      issued r (Job.ID job) ∧ pg_jobs r !! Job.ID job = None ∧
      ∀ params, gate (scan_job (job_row params job))
  | UpdateEnded false _ _ res => is_ok res = false
  | _ => True
  end ∧
  (∀ id, target c = Some id → may_start r id) ∧
  (∀ id status, decided c = Some (id, status) → settled r id status).

(** The calls do not get in each other's way: no other call uses an identifier
    that is about to be inserted, and nobody decides on a job twice. *)
Definition apart (c d : call) : Prop :=
  (∀ id, pending c = Some id → pending d ≠ Some id ∧ target d ≠ Some id ∧
     ∀ status, decided d ≠ Some (id, status)) ∧
  ∀ id s s', decided c = Some (id, s) → decided d = Some (id, s') → False.

Definition inv (s : state) : Prop :=
  gated (pg_jobs s.2) ∅ ∧ (∀ id, is_Some (pg_jobs s.2 !! id) → issued s.2 id) ∧
  Forall (knows s.2) s.1 ∧
  ∀ i k c d, s.1 !! i = Some c → s.1 !! k = Some d → i ≠ k → apart c d.

(** *** What others keep *)
Lemma issued_later r r' id : (nextID r ≤ nextID r')%Z → issued r id → issued r' id.
Proof. intros Hn (n & ? & ?). exists n. split; [done|lia]. Qed.

Lemma effect_may_start r r' o id :
  (nextID r ≤ nextID r')%Z → effect r r' o → o ≠ Some id → may_start r id → may_start r' id.
Proof.
  intros Hn He Ho [Hi Hp]. split; [by eapply issued_later|]. intros j.
  destruct He as [->|f Hc He|id' j' _ _ _ ->|id' ->]; [apply Hp| | |].
  - eapply (Interleave.Interleave.change_permitted f _ _ ""); [by left|exact He|exact Hp].
  - rewrite lookup_insert_ne by congruence. apply Hp.
  - intros [_ Hj]%lookup_delete_Some. by apply Hp.
Qed.

Lemma change_settled js js' f id status :
  Spec.change js f → evolves f js js' →
  (∀ j, js !! id = Some j → Job.Status j ≠ JobStatusWaitingApproval ∧ Job.ApprovalStatus j = status) →
  ∀ j, js' !! id = Some j → Job.Status j ≠ JobStatusWaitingApproval ∧ Job.ApprovalStatus j = status.
Proof.
  intros Hc He Hs j' Hj'. destruct (He id) as [Heq|(j & j1 & Hj & Hj1 & _ & _ & Hf)].
  { apply Hs. by rewrite <-Heq. }
  simplify_eq. destruct (Hs j Hj) as [Hw Ha].
  destruct Hc as [i _| |i|i|i].
  - destruct Hf as (_ & Hr & _ & Hsa). rewrite Hr, Hsa. split; [done|exact Ha].
  - destruct Hf as (_ & _ & Hr & _ & Hsa). rewrite Hr, Hsa. split; [done|exact Ha].
  - destruct Hf as (_ & Hin & _ & Hsa). rewrite Hsa. split; [|exact Ha]. intros Heq.
    rewrite Heq in Hin. set_solver.
  - by destruct Hf as (_ & ? & _).
  - by destruct Hf as (_ & ? & _).
Qed.

Lemma effect_settled r r' o id status :
  (nextID r ≤ nextID r')%Z → effect r r' o → o ≠ Some id → settled r id status → settled r' id status.
Proof.
  intros Hn He Ho [Hi Hp]. split; [by eapply issued_later|].
  destruct He as [->|f Hc He|id' j' _ _ _ ->|id' ->]; [exact Hp| | |].
  - by eapply change_settled.
  - intros j. rewrite lookup_insert_ne by congruence. apply Hp.
  - intros j [_ Hj]%lookup_delete_Some. by apply Hp.
Qed.

Lemma evolves_none f js js' id : evolves f js js' → js !! id = None → js' !! id = None.
Proof. intros He Hn. destruct (He id) as [->|(j & j' & Hj & _)]; [done|congruence]. Qed.

Lemma effect_absent r r' o id :
  effect r r' o → o ≠ Some id → pg_jobs r !! id = None → pg_jobs r' !! id = None.
Proof.
  intros He Ho Hn. destruct He as [->|f _ He|id' j' _ _ _ ->|id' ->]; [done| | |].
  - by eapply evolves_none.
  - rewrite lookup_insert_ne by congruence. done.
  - by rewrite lookup_delete_None; right.
Qed.

Lemma effect_gated r r' o : effect r r' o → gated (pg_jobs r) ∅ → gated (pg_jobs r') ∅.
Proof.
  destruct 1 as [->|f Hc He|id j Hid Hj Hg Heq|id ->]; [done|by eapply Spec.inv_change| |].
  - intros Hgs k x Hx. pose proof Hx as Hx0. rewrite Heq in Hx. apply lookup_insert_Some in Hx as [[<- <-]|[_ Hx]].
    + split; [done|]. split; [done|]. unfold pg_jobs in Hx0. rewrite lookup_fmap in Hx0.
      destruct (jobs (db r') !! id); [|done]. by injection Hx0 as <-.
    + by apply Hgs.
  - intros Hgs. by eapply gated_delete.
Qed.

Lemma knows_other r r' o d :
  (nextID r ≤ nextID r')%Z → effect r r' o →
  (∀ id, o = Some id → pending d ≠ Some id ∧ target d ≠ Some id ∧ ∀ status, decided d ≠ Some (id, status)) →
  knows r d → knows r' d.
Proof.
  intros Hn He Ho (Hd & Ht & Hs). split_and!.
  - destruct d as [[| |job| | |]| | | | | | | | | | | | | |]; try done. destruct Hd as (Hi & Hab & Hg).
    split; [by eapply issued_later|]. split; [|done]. eapply effect_absent; [done| |done].
    intros ->. by destruct (Ho _ eq_refl) as [? _].
  - intros id Hid. eapply effect_may_start; [done..| |by apply Ht]. intros ->.
    by destruct (Ho _ eq_refl) as (_ & ? & _).
  - intros id status Hid. eapply effect_settled; [done..| |by apply Hs]. intros ->.
    destruct (Ho _ eq_refl) as (_ & _ & Hx). by apply (Hx status).
Qed.

(** *** What a statement does for its own call *)
Record moved r (c : call) r' (c' : call) : Prop := mkMoved {
  moved_effect : ∃ o, effect r r' o ∧ ∀ id, o = Some id → pending c = Some id;
  moved_knows : knows r' c';
  moved_pending id : pending c' = Some id → ¬ issued r id;
  moved_target id : target c' = Some id → target c = Some id ∨ is_Some (pg_jobs r !! id);
  moved_decided id s : decided c' = Some (id, s) →
    decided c = Some (id, s) ∨
    ∃ j, pg_jobs r !! id = Some j ∧ Job.Status j = JobStatusWaitingApproval;
}.

(** A call that needs to know nothing more. *)
Definition plain (c : call) : Prop :=
  target c = None ∧ decided c = None ∧ pending c = None ∧ ∀ r, knows r c.

Lemma plain_end res : plain (NextEnded res).
Proof. by repeat split. Qed.
Lemma plain_unit res : plain (UnitEnded res).
Proof. by repeat split. Qed.

Lemma moved_plain r c r' c' : effect r r' None → plain c' → moved r c r' c'.
Proof. intros He (Ht & Hd & Hp & Hk). split; [by exists None|apply Hk|congruence..]. Qed.

Lemma moved_stay r c c' :
  knows r c' → pending c' = None →
  (∀ id, target c' = Some id → target c = Some id ∨ is_Some (pg_jobs r !! id)) →
  (∀ id s, decided c' = Some (id, s) → decided c = Some (id, s)) → moved r c r c'.
Proof. intros Hk Hp Ht Hd. split; [exists None; split; [by constructor|done]|done|congruence|done|auto]. Qed.

(** The identifiers of the stored jobs were given out. *)
Definition numbered r : Prop := ∀ id, is_Some (pg_jobs r !! id) → issued r id.

(** The creation of a job. *)
Lemma moved_create now c r c' r' :
  numbered r → knows r (Creating c) → PostgresCreate.PostgresCreate.call_step now c r = (c', r') →
  (nextID r ≤ nextID r')%Z → moved r (Creating c) r' (Creating c').
Proof.
  intros Hnum (Hk & _) Hstep Hn.
  assert (∀ x, (∀ job, x ≠ Draw job) → (∀ job, x ≠ Insert job) → (∀ job, x ≠ Lookup job) →
    plain (Creating x)) as Hplain.
  { intros x H1 H2 H3. destruct x as [j|j|j| | |]; [by destruct (H3 j)|by destruct (H1 j)|by destruct (H2 j)|..];
      by repeat split. }
  destruct c as [job|job|job|job err|key id|key res]; simpl in Hstep.
  - assert (r' = r ∧ (c' = Draw job ∨ plain (Creating c'))) as [-> [->|Hp]];
      [|by apply moved_stay|by apply moved_plain; [constructor|]].
    case_decide; [injection Hstep as <- <-; by split; [|left]|].
    destruct (PostgresRepo.find_key _ r) as [[id|]|]; injection Hstep as <- <-; (split; [done|]);
      [right; by apply Hplain|by left|right; by apply Hplain].
  - injection Hstep as <- <-. simpl in Hn.
    destruct (PostgresRestart.PostgresRestart.make_id_number "job" (nextID r) Hn) as (m & Hm & Hlt).
    assert (¬ issued r (make_id "job" (u64_add (nextID r) 1))) as Hfresh.
    { intros (m' & Hm' & Hle). rewrite Hm in Hm'. injection Hm' as <-. lia. }
    split; [exists None; split; [by constructor|done]| | |done|done].
    + split; [|by split]. split; [exists m; split; [exact Hm|simpl; lia]|].
      split; [|intros params; eapply gate_created; [apply created_as_row|exact Hk]].
      apply eq_None_not_Some. intros Hs. by apply Hfresh, Hnum.
    + by intros id [= <-].
  - destruct Hk as (Hi & Hab & Hg). unfold insert_job in Hstep.
    destruct (exec _ _ _ r) as [res r1] eqn:He.
    assert (plain (Creating c') ∧ r' = r1) as [Hp ->].
    { destruct res; [|case_decide]; injection Hstep as <- <-; (split; [by apply Hplain|done]). }
    destruct (exec_inv _ _ _ _ _ _ He) as [[_ ->]|(n & d & Hrun & _ & ->)];
      [apply moved_plain; [by constructor|done]|].
    apply insert_job_row_spec in Hrun as (params & _ & _ & Hjs & _). destruct Hp as (? & ? & ? & Hk').
    split; [|apply Hk'|congruence..]. exists (Some (Job.ID job)). split; [|done].
    apply (effect_insert _ _ (Job.ID job) (scan_job (job_row params job))); [exact Hab|done|apply (Hg params)|].
    unfold pg_jobs. simpl. by rewrite Hjs, fmap_insert.
  - destruct (PostgresRepo.find_key _ r) as [[id|]|]; injection Hstep as <- <-;
      (apply moved_plain; [by constructor|by apply Hplain]).
  - injection Hstep as <- <-. apply moved_plain; [by constructor|by apply Hplain].
  - injection Hstep as <- <-. apply moved_plain; [by constructor|by apply Hplain].
Qed.

(** A job is started. *)
Lemma effect_start now w id r :
  may_start r id → effect r (start_job now w id r).2 None.
Proof.
  intros [_ Hp]. eapply (effect_change _ _ (started id)); [|apply start_job_evolves].
  apply Spec.change_start. intros j Hj Hreq. by apply (Hp j Hj).
Qed.

Lemma start_may_start now w id r :
  (nextID r ≤ nextID (start_job now w id r).2)%Z → may_start r id →
  may_start (start_job now w id r).2 id.
Proof. intros Hn Hm. eapply effect_may_start; [done|by apply effect_start| |done]. done. Qed.

(** The job that is selected may be started. *)
Lemma selected_may_start it wt r id :
  gated (pg_jobs r) ∅ → numbered r → next_job it wt (db r) = Some id →
  may_start r id ∧ is_Some (pg_jobs r !! id).
Proof.
  intros Hg Hnum Hn. destruct (next_job_waits _ _ _ _ Hn) as (j & Hj & Hst).
  assert (pg_jobs r !! id = Some (scan_job j)) as Hs by (unfold pg_jobs; by rewrite lookup_fmap, Hj).
  assert (is_Some (pg_jobs r !! id)) as Hsome by by eexists. split; [|done]. split; [by apply Hnum|].
  intros j' Hj'. rewrite Hs in Hj'. injection Hj' as <-. intros Hreq.
  destruct (Hg id _ Hs) as (_ & Hgate & _). split.
  - apply Hgate; [done|]. rewrite !elem_of_cons. simpl. tauto.
  - simpl. intros Hw. rewrite Hw in Hst. by destruct Hst.
Qed.

(** A guarded update. *)
Lemma effect_update now u id r :
  effect r (run_update (update_of now u id) id r).2 None.
Proof.
  destruct u as [w out ok|by_ comment|by_ reason].
  - eapply (effect_change _ _ (finished id)); [constructor|]. apply run_update_law; [done|].
    intros j _. repeat split. simpl. destruct ok; set_solver.
  - eapply (effect_change _ _ (approved id)); [constructor|]. apply run_update_law; [done|].
    intros j Hj%bool_decide_eq_true. by repeat split.
  - eapply (effect_change _ _ (rejected id)); [constructor|]. apply run_update_law; [done|].
    intros j Hj%bool_decide_eq_true. by repeat split.
Qed.

Lemma update_settles now u id r n r' status :
  numbered r → (nextID r ≤ nextID r')%Z →
  run_update (update_of now u id) id r = (Ok n, r') → n ≠ 0%Z → outcome u = Some status →
  settled r' id status ∧ ∃ j, pg_jobs r !! id = Some j ∧ Job.Status j = JobStatusWaitingApproval.
Proof.
  intros Hnum Hn Hu Hne Hout. destruct (run_update_result _ _ _ _ _ Hu Hne) as (j & Hj & Hguard & Hjs).
  assert (pg_jobs r !! id = Some (scan_job j)) as Hs by (unfold pg_jobs; by rewrite lookup_fmap, Hj).
  assert (Job.Status j = JobStatusWaitingApproval) as Hw
    by (destruct u; [done|..]; by apply bool_decide_eq_true in Hguard).
  split; [|by eexists]. split; [eapply issued_later; [done|]; apply Hnum; by eexists|].
  intros x. unfold pg_jobs. rewrite Hjs, lookup_fmap, lookup_insert_eq. intros [= <-].
  by destruct u; simplify_eq/=.
Qed.

Lemma moved_step e c r c' r' :
  gated (pg_jobs r) ∅ → numbered r → knows r c → call_step e c r = (c', r') →
  (nextID r ≤ nextID r')%Z → moved r c r' c'.
Proof.
  intros Hg Hnum Hk Hstep Hn.
  destruct c as [c|w|w wt|w id|id|id ws|job id ws|job id w ws|u id|u id|ch u id res|id|id|res|res];
    cbn [call_step] in Hstep.
  - destruct (PostgresCreate.PostgresCreate.call_step _ c r) as [c1 r1] eqn:Hc. injection Hstep as <- <-.
    by eapply moved_create.
  - destruct (get_worker _ _ r); injection Hstep as <- <-; apply moved_stay; done.
  - unfold query_row in Hstep. destruct (refuses _ _ _); [injection Hstep as <- <-; by apply moved_stay|].
    destruct (next_job _ _ (db r)) as [id|] eqn:Hnext; injection Hstep as <- <-; [|by apply moved_stay].
    destruct (selected_may_start _ _ _ _ Hg Hnum Hnext) as [Hm Hs].
    apply moved_stay; [|done|intros ? [= <-]; by right|done].
    split; [done|]. split; [|done]. by intros ? [= <-].
  - pose proof (proj1 (proj2 Hk) id eq_refl) as Hm. pose proof (effect_start (later e) w id r Hm) as He.
    destruct (start_job _ _ _ r) as [[n|err] r1]; injection Hstep as <- <-; by apply moved_plain.
  - injection Hstep as <- <-. by apply moved_stay.
  - pose proof (proj1 (proj2 Hk) id eq_refl) as Hm.
    destruct (pg_GetJob id r); injection Hstep as <- <-; [|by apply moved_stay].
    apply moved_stay; [|done|by left|done]. split; [done|]. split; [|done]. by intros ? [= <-].
  - pose proof (proj1 (proj2 Hk) id eq_refl) as Hm. destruct ws as [|w ws]; [injection Hstep as <- <-; by apply moved_stay|].
    destruct (get_worker _ _ r); [|injection Hstep as <- <-; by apply moved_stay].
    destruct (negb _); injection Hstep as <- <-; [by apply moved_stay|].
    apply moved_stay; [|done|by left|done]. split; [done|]. split; [|done]. by intros ? [= <-].
  - pose proof (proj1 (proj2 Hk) id eq_refl) as Hm. pose proof (effect_start (now e) w id r Hm) as He.
    pose proof (start_may_start (now e) w id r) as Hm'.
    destruct (start_job _ _ _ r) as [[n|err] r1]; injection Hstep as <- <-; [|by apply moved_plain].
    split; [by exists None|split; [done|split; [|done]]|done|by left|done]. intros ? [= <-]. by apply Hm'.
  - pose proof (effect_update (now e) u id r) as He.
    destruct (run_update _ _ r) as [[n|err] r1] eqn:Hu; injection Hstep as <- <-; [|by apply moved_plain].
    unfold affected. destruct (Z.eqb_spec n 0) as [|Hne]; [by apply moved_plain|].
    split; [by exists None|split; [done|split; [done|]]|done|done|]; simpl; intros id' status;
      destruct (outcome u) as [s|] eqn:Hout; try done; intros [= <- <-];
      edestruct (update_settles (now e) u id r n r1 s) as [Hs Hw]; eauto.
  - injection Hstep as <- <-. apply moved_stay; [|done..]. by destruct Hk as (_ & _ & Hd).
  - injection Hstep as <- <-. apply moved_stay; [done| |by left|done]. done.
  - destruct (pg_GetJob id r); [case_decide|]; injection Hstep as <- <-; by apply moved_stay.
  - pose proof (remove_job_law id r) as Hr. destruct (remove_job id r) as [res r1]. simpl in Hr.
    injection Hstep as <- <-. apply moved_plain; [|apply plain_unit].
    destruct Hr as [[Hj _]|(Hj & _)]; [by apply effect_none|by eapply effect_delete].
  - injection Hstep as <- <-. by apply moved_stay.
  - injection Hstep as <- <-. by apply moved_stay.
Qed.

(** *** The invariant *)
Lemma apart_moved r c r' c' d :
  knows r d → apart c d → apart d c → moved r c r' c' → apart c' d ∧ apart d c'.
Proof.
  intros (Hd1 & Hd2 & Hd3) [Hcd Hcd'] [Hdc Hdc'] Hm.
  assert (∀ id, pending d = Some id → issued r id ∧ pg_jobs r !! id = None) as Hpd.
  { intros id Hp. destruct d as [[| |job| | |]| | | | | | | | | | | | | |]; try done. injection Hp as <-.
    by destruct Hd1 as (? & ? & _). }
  assert (∀ id s s', decided c' = Some (id, s) → decided d = Some (id, s') → False) as Honce.
  { intros id s s' Hc Hd. destruct (moved_decided _ _ _ _ Hm id s Hc) as [Hold|(j & Hj & Hw)]; [by eapply Hcd'|].
    destruct (Hd3 id s' Hd) as [_ Hset]. by destruct (Hset j Hj). }
  split; split; [| |intros id Hp; split_and!|].
  - intros id Hp. pose proof (moved_pending _ _ _ _ Hm id Hp) as Hfresh. split_and!.
    + intros Hpd'. by apply Hfresh, Hpd.
    + intros Ht. by apply Hfresh, Hd2.
    + intros s Hs. by apply Hfresh, (Hd3 id s).
  - exact Honce.
  - intros Hpc. by apply (moved_pending _ _ _ _ Hm id Hpc), Hpd.
  - intros Ht. destruct (moved_target _ _ _ _ Hm id Ht) as [Hold|[j Hj]].
    + by destruct (Hdc id Hp) as (_ & ? & _).
    + destruct (Hpd id Hp) as [_ Hn]. congruence.
  - intros s Hs. destruct (moved_decided _ _ _ _ Hm id s Hs) as [Hold|(j & Hj & _)].
    + destruct (Hdc id Hp) as (_ & _ & Hx). by apply (Hx s).
    + destruct (Hpd id Hp) as [_ Hn]. congruence.
  - intros id s s' Hs Hs'. by eapply Honce.
Qed.

Lemma effect_numbered r r' c c' :
  (nextID r ≤ nextID r')%Z → moved r c r' c' → knows r c → numbered r → numbered r'.
Proof.
  intros Hn Hm (Hk & _) Hnum. destruct (moved_effect _ _ _ _ Hm) as (o & He & Ho). intros id [j Hj].
  eapply issued_later; [done|].
  destruct (decide (o = Some id)) as [->|Hne].
  - specialize (Ho id eq_refl). destruct c as [[| |job| | |]| | | | | | | | | | | | | |]; try done.
    injection Ho as <-. by destruct Hk.
  - apply Hnum. destruct (pg_jobs r !! id) as [x|] eqn:Hx; [by eexists|].
    rewrite (effect_absent _ _ _ _ He Hne Hx) in Hj. done.
Qed.

Lemma starts_knows r c :
  numbered r → starts r c →
  knows r c ∧ pending c = None ∧ decided c = None ∧ ∀ id, target c = Some id → is_Some (pg_jobs r !! id).
Proof.
  intros Hnum. destruct 1 as [job Hc|w|id ws j Hj Hp|u id|id]; split_and!; try done; try (by repeat split).
  - split; [done|]. split; [|done]. intros id' [= <-]. split; [by apply Hnum; eexists|]. intros j' Hj'; by simplify_eq.
  - intros id' [= <-]. by eexists.
Qed.

Lemma inv_start c cs r : inv (cs, r) → starts r c → inv (cs ++ [c], r).
Proof.
  intros (Hg & Hnum & Hk & Hap) Hs. simpl in *.
  destruct (starts_knows r c Hnum Hs) as (Hkc & Hp & Hd & Ht).
  split; [done|]. split; [done|]. split; [by apply Forall_app; split; [|constructor]|]. simpl.
  assert (∀ i d, cs !! i = Some d → apart c d ∧ apart d c) as Hnew.
  { intros i d Hi. pose proof (Forall_lookup_1 _ _ _ _ Hk Hi) as (Hd1 & _ & _). split; split; try congruence.
    intros id Hpd. split_and!; [congruence| |congruence]. intros Htc.
    destruct d as [[| |job| | |]| | | | | | | | | | | | | |]; try done. injection Hpd as <-.
    destruct Hd1 as (_ & Hn & _). destruct (Ht _ Htc) as [x Hx]. congruence. }
  intros i k a b Hi Hk' Hne.
  apply lookup_snoc_Some in Hi as [[_ Hi]|[-> <-]], Hk' as [[_ Hk']|[-> <-]]; [by eapply Hap| | |done];
    by eapply Hnew.
Qed.

Lemma inv_call i e c c' cs r r' :
  inv (cs, r) → cs !! i = Some c → call_step e c r = (c', r') → (nextID r ≤ nextID r')%Z →
  inv (<[i := c']> cs, r').
Proof.
  intros (Hg & Hnum & Hk & Hap) Hi Hstep Hn. simpl in *.
  pose proof (Forall_lookup_1 _ _ _ _ Hk Hi) as Hkc.
  pose proof (moved_step _ _ _ _ _ Hg Hnum Hkc Hstep Hn) as Hm.
  destruct (moved_effect _ _ _ _ Hm) as (o & He & Ho).
  split; [by eapply effect_gated|]. split; [by eapply effect_numbered|]. split; simpl.
  - apply Forall_lookup. intros k d Hd.
    destruct (decide (k = i)) as [->|Hne].
    { rewrite list_lookup_insert_eq in Hd by (by eapply lookup_lt_Some). injection Hd as <-. apply Hm. }
    rewrite list_lookup_insert_ne in Hd by done. eapply knows_other; [done..| |exact (Forall_lookup_1 _ _ _ _ Hk Hd)].
    intros id ->. apply (Hap i k c d Hi Hd); auto.
  - intros k1 k2 a b H1 H2 Hne.
    destruct (decide (k1 = i)) as [->|Hn1], (decide (k2 = i)) as [->|Hn2]; try done.
    + rewrite list_lookup_insert_eq in H1 by (by eapply lookup_lt_Some). injection H1 as <-.
      rewrite list_lookup_insert_ne in H2 by done.
      apply (apart_moved r c r' c' b (Forall_lookup_1 _ _ _ _ Hk H2)); [by eapply Hap..|exact Hm].
    + rewrite list_lookup_insert_eq in H2 by (by eapply lookup_lt_Some). injection H2 as <-.
      rewrite list_lookup_insert_ne in H1 by done.
      apply (apart_moved r c r' c' a (Forall_lookup_1 _ _ _ _ Hk H1)); [by eapply Hap..|exact Hm].
    + rewrite list_lookup_insert_ne in H1, H2 by done. by eapply Hap.
Qed.

Lemma inv_other cs r r' : inv (cs, r) → same_jobs r r' → (nextID r ≤ nextID r')%Z → inv (cs, r').
Proof.
  intros (Hg & Hnum & Hk & Hap) [Hj _] Hn. simpl in *. assert (effect r r' None) as He by by apply effect_none.
  split; [simpl; by rewrite Hj|]. simpl. split; [intros id Hid; eapply issued_later; [done|]; apply Hnum; by rewrite <-Hj|]. split; [|done]. eapply Forall_impl; [exact Hk|]. intros d. by eapply knows_other.
Qed.

Lemma calls_inv s s' : inv s → rtc step s s' → inv s'.
Proof.
  intros Hi Hs. revert Hi. induction Hs as [|s s1 s' Hst _ IH]; [done|]. intros Hi. apply IH.
  destruct Hst; [by apply inv_start|by eapply inv_call|by eapply inv_other].
Qed.

Lemma inv_initial r : gated (pg_jobs r) ∅ → numbered r → inv ([], r).
Proof. intros Hg Hn. split; [done|]. split; [done|]. split; [by constructor|]. intros i k c d Hi. by destruct i. Qed.

(** ** Properties *)

(** C36: from a database whose jobs pass the approval gate and carry numbers that
    were given out, however the statements of the operations on jobs interleave,
    with each other and with every other operation, and whatever the database
    refuses, in every state a job that requires approval and is ready or running
    was approved; provided that only jobs that pass the gate are created, that
    [AssignJobToWorkers], which does not check it, is called only for a stored
    job that may be started, as the handlers do, and that the counter of the
    identifiers does not wrap around. *)
Theorem statements_gated (r : PostgresRepository) (cs : list call) (r' : PostgresRepository) :
  gated (pg_jobs r) ∅ → numbered r → rtc step ([], r) (cs, r') →
  ∀ id j, pg_jobs r' !! id = Some j → Job.ID j = id ∧ gate j.
Proof.
  intros Hg Hnum Hs id j Hj. destruct (calls_inv _ _ (inv_initial r Hg Hnum) Hs) as [Hg' _].
  by destruct (Hg' id j Hj) as (? & ? & _).
Qed.

(** C37: of all calls of [ApproveJob] and [RejectJob] for one job, however their
    statements interleave with each other and everything else, at most one
    succeeds, and the stored job has its decision. *)
Theorem decision_once (r : PostgresRepository) (cs : list call) (r' : PostgresRepository)
    (i k : nat) (b b' : bool) (u u' : update) (id : string) (j j' : Job.t) (status status' : string) :
  gated (pg_jobs r) ∅ → numbered r → rtc step ([], r) (cs, r') →
  cs !! i = Some (UpdateEnded b u id (Ok j)) → outcome u = Some status →
  cs !! k = Some (UpdateEnded b' u' id (Ok j')) → outcome u' = Some status' →
  i = k ∧ ∀ x, pg_jobs r' !! id = Some x →
    Job.Status x ≠ JobStatusWaitingApproval ∧ Job.ApprovalStatus x = status.
Proof.
  intros Hg Hnum Hs Hi Hu Hk Hu'.
  destruct (calls_inv _ _ (inv_initial r Hg Hnum) Hs) as (_ & _ & Hkn & Hap). simpl in *.
  pose proof (Forall_lookup_1 _ _ _ _ Hkn Hi) as (H1 & _ & Hd).
  pose proof (Forall_lookup_1 _ _ _ _ Hkn Hk) as (H2 & _ & _).
  destruct b; [|done]. destruct b'; [|done]. simpl in Hd. rewrite Hu in Hd. split.
  - destruct (decide (i = k)) as [|Hne]; [done|]. destruct (Hap _ _ _ _ Hi Hk Hne) as [_ Honce].
    exfalso. apply (Honce id status status'); simpl; [by rewrite Hu|by rewrite Hu'].
  - by destruct (Hd id status eq_refl).
Qed.

(** *** Schedules: a call starts, or runs its next statement. *)
Inductive event := Start (c : call) | Turn (i : nat).
Definition run_event (e : Reading) (s : state) (ev : event) : state :=
  match ev with
  | Start c => (s.1 ++ [c], s.2)
  | Turn i =>
      match s.1 !! i with
      | Some c => let '(c', r') := call_step e c s.2 in
                  if decide (nextID s.2 ≤ nextID r')%Z then (<[i := c']> s.1, r') else s
      | None => s
      end
  end.

(** The calls of a schedule may start when they do. *)
Fixpoint may_run (e : Reading) (s : state) (l : list event) : Prop :=
  match l with
  | [] => True
  | ev :: l =>
      match ev with Start c => starts s.2 c | Turn _ => True end ∧ may_run e (run_event e s ev) l
  end.

Lemma run_steps e l s : may_run e s l → rtc step s (foldl (run_event e) s l).
Proof.
  revert s. induction l as [|ev l IH]; intros [cs r] Hm; [apply rtc_refl|]. destruct Hm as [Hev Hm].
  etrans; [|by apply IH]. destruct ev as [c|i]; simpl; [by apply rtc_once, step_start|].
  destruct (cs !! i) as [c|] eqn:Hi; [|apply rtc_refl].
  destruct (call_step e c r) as [c' r'] eqn:Hc. case_decide; [|apply rtc_refl].
  apply rtc_once. by eapply step_call.
Defined.
End calls.

(** ** Schedules of a database with one job *)
Section demo.
#[local] Existing Instance demo_postgres.

Definition new_job (approval : bool) : Job.t :=
  Job.zero <| Job.WorkerType := "shell" |> <| Job.Command := "df" |> <| Job.ApprovalRequired := approval |>
    <| Job.Status := if approval then JobStatusWaitingApproval else JobStatusPending |>.
Definition empty_db : PostgresRepository := mkPostgres Database.empty 0.
(** The call 0 creates the job. *)
Definition creation (approval : bool) : list event :=
  [Start (Creating (Lookup (new_job approval))); Turn 0; Turn 0; Turn 0].
Definition run (l : list event) : state := foldl (run_event demo_reading) ([], empty_db) l.

(** An approval and a rejection at once. *)
Definition decisions : list event :=
  creation true ++ [Start (Updating (Approve "ann" "") "job-000001");
    Start (Updating (Reject "bob" "no") "job-000001"); Turn 2; Turn 1; Turn 2].

Lemma decisions_may_run : may_run demo_reading ([], empty_db) decisions.
Proof. repeat (split; [first [exact I|apply starts_create; by right|constructor]|]). exact I. Qed.

Lemma empty_start : gated (pg_jobs empty_db) ∅ ∧ numbered empty_db.
Proof. split; [apply gated_empty|]. intros id [j Hj]. discriminate Hj. Qed.

Lemma statements_gated_witness :
  let s := run decisions in
  Job.Status <$> pg_jobs s.2 !! "job-000001" = Some JobStatusCancelled ∧
  ∀ id j, pg_jobs s.2 !! id = Some j → Job.ID j = id ∧ gate j.
Proof.
  intros s. split; [vm_compute; reflexivity|].
  apply (statements_gated empty_db s.1 s.2); [apply empty_start..|]. rewrite <-surjective_pairing.
  apply run_steps, decisions_may_run.
Defined.

Lemma decision_once_witness :
  let s := run decisions in
  (∃ j err, s.1 !! 2 = Some (UpdateEnded true (Reject "bob" "no") "job-000001" (Ok j)) ∧
     s.1 !! 1 = Some (UpdateEnded false (Approve "ann" "") "job-000001" (Err err))) ∧
  ∀ x, pg_jobs s.2 !! "job-000001" = Some x →
    Job.Status x ≠ JobStatusWaitingApproval ∧ Job.ApprovalStatus x = ApprovalStatusRejected.
Proof.
  intros s.
  assert (∃ j err, s.1 !! 2 = Some (UpdateEnded true (Reject "bob" "no") "job-000001" (Ok j)) ∧
    s.1 !! 1 = Some (UpdateEnded false (Approve "ann" "") "job-000001" (Err err))) as (j & err & H2 & H1)
    by (eexists _, _; split; vm_compute; reflexivity).
  split; [exists j, err; split; [exact H2|exact H1]|].
  apply (decision_once empty_db s.1 s.2 2 2 true true (Reject "bob" "no") (Reject "bob" "no")
    "job-000001" j j ApprovalStatusRejected ApprovalStatusRejected);
    [apply empty_start..| |exact H2|reflexivity|exact H2|reflexivity].
  rewrite <-surjective_pairing. apply run_steps, decisions_may_run.
Defined.

(** A database with a worker and a job that is ready. *)
Definition ready_db : PostgresRepository :=
  (pg_CreateJob demo_reading (new_job false)
    (pg_RegisterWorker demo_reading "node" "shell" empty_db).2).2.
Definition races (l : list event) : list call * option JobStatus :=
  let s := foldl (run_event demo_reading) ([], ready_db) l in
  (s.1, Job.Status <$> pg_jobs s.2 !! "job-000002").

(** The deletion checks the status by one statement and deletes the row by
    another one: a job that is started in between is deleted while it runs. *)
Example deleted_while_running :
  races [Start (DeleteRead "job-000002"); Start (NextWorker "worker-000001"); Turn 0; Turn 1; Turn 1; Turn 1;
         Turn 0; Turn 1] =
    ([UnitEnded (Ok tt); NextEnded (Err (job_not_found "job-000002"))], None).
Proof. vm_compute. reflexivity. Qed.

(** Two workers select the same job; the second one starts it when the first one
    has already completed it, and it runs again. *)
Example finished_job_restarted :
  (races [Start (NextWorker "worker-000001"); Start (NextWorker "worker-000001"); Turn 0; Turn 0; Turn 1; Turn 1;
          Turn 0; Turn 0; Start (Updating (Complete "worker-000001" "" true) "job-000002"); Turn 2; Turn 2]).2 =
    Some JobStatusSuccess ∧
  (races [Start (NextWorker "worker-000001"); Start (NextWorker "worker-000001"); Turn 0; Turn 0; Turn 1; Turn 1;
          Turn 0; Turn 0; Start (Updating (Complete "worker-000001" "" true) "job-000002"); Turn 2; Turn 2;
          Turn 1]).2 = Some JobStatusRunning.
Proof. vm_compute. split; reflexivity. Qed.

End demo.
End PostgresJobs.
